(** * Unified-diff parser and word-diff engine of the diff canvas

    A shallow embedding of the git diff parser of the diff canvas, the module
    the canvas imports as [utils/parse-diff] (its text stands in
    [scenarios/diff/view.ts] of the sources, its types in
    [canvases/diff/types.ts]): [parseGitDiff], [parseFile], [parseHunk],
    [computeWordDiffs], [computeHunkWordDiffs], [computeLineDiff],
    [tokenize], [computeLCS] and [getDiffStats]; of what the canvas itself
    ([DiffCanvas], in the same file) computes from the parsed files: the
    list of virtual lines it scrolls over, the collapsing of files and
    hunks, the jumps to the next hunk and file and the key handler; and of
    the [DiffLine] component ([canvases/diff/components/diff-line.tsx]).
    The properties the specification states about the parser come first,
    further properties of the code after them.

    Conventions of the embedding.
    - A JavaScript string is a [string], a sequence of 8-bit units in place
      of UTF-16 code units.  The source looks at one unit at a time, and only
      for the literal markers and the classes [\d], [\w] and [.] of its
      regular expressions; every unit outside ASCII is outside [\d] and
      [\w], here as there.  Of the line terminators that [.] excludes, the
      embedding has line feed and carriage return.
    - Array indices and lengths are [nat].  Line numbers, which the source
      reads with [parseInt] and increments with [++], are doubles, written
      as the [N] they stand for: every integer up to 2^53 is one, beyond
      it [parseInt] and [++] round to the nearest double ([to_double]), and
      past the largest one they give [Infinity].
    - [undefined] is [None].  Reading a property of [undefined] throws a
      [TypeError] in the source; the embedding makes that an error result, so
      that "does not throw" is a statement about the functions.
    - [while] loops are run by the combinator [while], one [step] per
      iteration, under a fuel bound fixed by each function; exhausting it is
      the error [OutOfFuel].  The theorems show that neither error occurs.
    - The cursor line and the scroll offset of the canvas are [Z]: the
      source computes them with [-], [Math.min] and [Math.max], and they
      can turn negative.  The [useState] values are a record, and the key
      handler is a function from the state of the last render to the next
      state; a React element is the list of the [<Text>] elements it holds
      or, for [renderLine], the component and its props. *)

From Stdlib Require Import String Ascii List NArith ZArith Arith Bool Lia.
From Stdlib Require Import DecimalString.
Import ListNotations.
Open Scope string_scope.
Open Scope list_scope.

(** ** Results and loops *)

Inductive error := TypeError | OutOfFuel.

Inductive result (A : Type) :=
| Ok (a : A)
| Err (e : error).
Arguments Ok {A} a.
Arguments Err {A} e.

Definition bind {A B} (m : result A) (k : A -> result B) : result B :=
  match m with
  | Ok a => k a
  | Err e => Err e
  end.

Notation "x <- m ;; k" := (bind m (fun x => k))
  (at level 61, m at next level, right associativity).
Notation "' p <- m ;; k" := (bind m (fun x => let 'p := x in k))
  (at level 61, p pattern, m at next level, right associativity).

(** One iteration of a loop either goes round again with a new state
    ([Next]) or leaves the loop with its outcome ([Done]): the loop
    condition turning false, or a [break]. *)
Inductive iter (St R : Type) :=
| Next (s : St)
| Done (r : R).
Arguments Next {St R} s.
Arguments Done {St R} r.

Section Loop.
Context {St R : Type}.
Variable step : St -> result (iter St R).

Fixpoint while (fuel : nat) (s : St) : result R :=
  match fuel with
  | O => Err OutOfFuel
  | S fuel' =>
      match step s with
      | Ok (Next s') => while fuel' s'
      | Ok (Done r) => Ok r
      | Err e => Err e
      end
  end.

End Loop.
Arguments while {St R} step fuel s : simpl never.

(** A read of [arr[i]] that the source relies on to be in range.  Out of
    range the element is [undefined]: reading a property of it or calling a
    method on it throws a [TypeError], and storing it would put [undefined]
    where the types promise a value.  The embedding stops with [TypeError]
    in either case, and the theorems show that it never does. *)
Definition get {A} (arr : list A) (i : nat) : result A :=
  match nth_error arr i with
  | Some x => Ok x
  | None => Err TypeError
  end.

(** ** Strings as the source uses them *)

Definition LF : ascii := "010"%char.
Definition CR : ascii := "013"%char.

(** [s.split("\n")] *)
Fixpoint split_lines (s : string) : list string :=
  match s with
  | EmptyString => [EmptyString]
  | String c s' =>
      if (c =? LF)%char then EmptyString :: split_lines s'
      else match split_lines s' with
           | l :: ls => String c l :: ls
           | [] => [String c EmptyString]
           end
  end.

(** [s.startsWith(p)] *)
Definition startsWith (s p : string) : bool := String.prefix p s.

(** [s[0]] *)
Definition charAt0 (s : string) : option ascii :=
  match s with
  | EmptyString => None
  | String c _ => Some c
  end.

(** [s.slice(1)] *)
Definition slice1 (s : string) : string :=
  match s with
  | EmptyString => EmptyString
  | String _ s' => s'
  end.

(** The rest of [s] after the literal [p], when [s] starts with it. *)
Fixpoint strip_prefix (p s : string) : option string :=
  match p, s with
  | EmptyString, _ => Some s
  | String a p', String b s' => if (a =? b)%char then strip_prefix p' s' else None
  | String _ _, EmptyString => None
  end.

(** [.] of a regular expression without the [s] flag: any unit but a line
    terminator. *)
Definition is_dot (c : ascii) : bool := negb (c =? LF)%char && negb (c =? CR)%char.

Fixpoint all_dot (s : string) : bool :=
  match s with
  | EmptyString => true
  | String c s' => is_dot c && all_dot s'
  end.

(** [\d] *)
Definition is_digit (c : ascii) : bool :=
  let n := nat_of_ascii c in ((48 <=? n) && (n <=? 57))%nat.

(** [\w]: letters, digits and underscore. *)
Definition isWordChar (c : ascii) : bool :=
  let n := nat_of_ascii c in
  (((65 <=? n) && (n <=? 90)) || ((97 <=? n) && (n <=? 122))
   || ((48 <=? n) && (n <=? 57)) || (n =? 95))%nat.

(** The longest run of digits at the head of [s], and what follows it. *)
Fixpoint span_digits (s : string) : string * string :=
  match s with
  | EmptyString => (EmptyString, EmptyString)
  | String c s' =>
      if is_digit c then let (d, r) := span_digits s' in (String c d, r)
      else (EmptyString, s)
  end.

(** [(\d+)]: greedy; what follows in both patterns is never a digit, so the
    longest run is the only way to match. *)
Definition digits1 (s : string) : option (string * string) :=
  match span_digits s with
  | (EmptyString, _) => None
  | (d, r) => Some (d, r)
  end.

(** [(?:,(\d+))?] *)
Definition opt_comma_digits (s : string) : option string * string :=
  match s with
  | String ","%char s' =>
      match digits1 s' with
      | Some (d, r) => (Some d, r)
      | None => (None, s)
      end
  | _ => (None, s)
  end.

(** ** Numbers

    A JavaScript number is a double.  Those of the parser are non-negative
    integers or [+Infinity], and an [N] stands for them: a finite double by
    its value, [+Infinity] by [Infinity], the first power of two past the
    largest finite double. *)
Definition Infinity : N := (2 ^ 1024)%N.

(** The number for a non-negative integer: the nearest double, the one
    with the even significand when two are as near.  Below 2^53 every
    integer is a double.  Above, [q] holds the 53 leading bits and [r] the
    [e] bits dropped; rounding up may carry into the next power of two, and
    what reaches 2^1024 is [+Infinity]. *)
Definition to_double (n : N) : N :=
  let e := (N.size n - 53)%N in
  let q := N.shiftr n e in
  let r := (n - N.shiftl q e)%N in
  let half := N.shiftl 1 (e - 1) in
  let q' := if (e =? 0)%N then q
            else if (half <? r)%N || ((r =? half)%N && N.odd q) then (q + 1)%N
            else q in
  let v := N.shiftl q' e in
  if (Infinity <=? v)%N then Infinity else v.
Arguments to_double n : simpl never.

(** [x++]: the new value of [x]. *)
Definition increment (x : N) : N := to_double (x + 1).

(** [parseInt(d, 10)] on a string of digits: the number for the integer
    the digits spell.  (Past twenty significant digits the language lets an
    engine read the further digits as zeros; the engines do not, and the
    embedding follows them.) *)
Definition digit_value (c : ascii) : N := N.of_nat (nat_of_ascii c - 48).

Fixpoint parseInt_from (acc : N) (d : string) : N :=
  match d with
  | EmptyString => acc
  | String c d' => parseInt_from (10 * acc + digit_value c)%N d'
  end.

Definition parseInt (d : string) : N := to_double (parseInt_from 0%N d).

(** [(.+?) b\/(.+)$] on the text after [diff --git a/]: the lazy group
    takes one more unit at a time until the rest is [ b/] followed by a
    non-empty run of [.] up to the end of the line. *)
Fixpoint match_paths (r : string) : option (string * string) :=
  match r with
  | EmptyString => None
  | String c r' =>
      if is_dot c then
        let longer :=
          match match_paths r' with
          | Some (x, y) => Some (String c x, y)
          | None => None
          end in
        match strip_prefix " b/" r' with
        | Some (String d y) =>
            if all_dot (String d y) then Some (String c EmptyString, String d y)
            else longer
        | _ => longer
        end
      else None
  end.

(** [gitLine.match(/^diff --git a\/(.+?) b\/(.+)$/)] *)
Definition match_git_line (gitLine : string) : option (string * string) :=
  match strip_prefix "diff --git a/" gitLine with
  | Some r => match_paths r
  | None => None
  end.

(** The five groups of the hunk-header pattern: [@@ -], digits, an optional
    comma and digits, [ +], digits, an optional comma and digits, [ @@], and
    the rest of the line, which must hold no line terminator. *)
Record HeaderMatch := {
  m1 : string;
  m2 : option string;
  m3 : string;
  m4 : option string;
  m5 : string
}.

Definition match_hunk_header (headerLine : string) : option HeaderMatch :=
  match strip_prefix "@@ -" headerLine with
  | None => None
  | Some r0 =>
      match digits1 r0 with
      | None => None
      | Some (d1, r1) =>
          let (g2, r2) := opt_comma_digits r1 in
          match strip_prefix " +" r2 with
          | None => None
          | Some r3 =>
              match digits1 r3 with
              | None => None
              | Some (d3, r4) =>
                  let (g4, r5) := opt_comma_digits r4 in
                  match strip_prefix " @@" r5 with
                  | None => None
                  | Some r6 =>
                      if all_dot r6
                      then Some {| m1 := d1; m2 := g2; m3 := d3; m4 := g4; m5 := r6 |}
                      else None
                  end
              end
          end
      end
  end.

(** ** Data model (types.ts) *)

Inductive ChangeType := add | delete | normal.

Inductive FileStatus := added | deleted | modified | renamed | copied.

Record WordChange := {
  wtype : ChangeType;
  value : string
}.

(** [type] is declared non-optional, but [parseHunk] can leave it
    unassigned, so it is an option here (see [parseHunk_step]). *)
Record DiffChange := {
  type : option ChangeType;
  content : string;
  oldLineNumber : option N;
  newLineNumber : option N;
  wordDiff : option (list WordChange)
}.

Record DiffHunk := {
  header : string;
  oldStart : N;
  oldLines : N;
  newStart : N;
  newLines : N;
  changes : list DiffChange;
  hunkExpanded : bool
}.

Record DiffFile := {
  oldPath : string;
  newPath : string;
  hunks : list DiffHunk;
  status : FileStatus;
  isExpanded : bool
}.

Definition ChangeType_eqb (a b : ChangeType) : bool :=
  match a, b with
  | add, add | delete, delete | normal, normal => true
  | _, _ => false
  end.

(** [change.type === t] *)
Definition type_is (t : ChangeType) (c : DiffChange) : bool :=
  match type c with
  | Some t' => ChangeType_eqb t' t
  | None => false
  end.

(** ** parseHunk *)

Definition mkChange (t : option ChangeType) (c : string)
    (o n : option N) : DiffChange :=
  {| type := t; content := c; oldLineNumber := o; newLineNumber := n;
     wordDiff := None |}.

(** The variables of the loop over the lines of a hunk. *)
Record HunkState := {
  h_i : nat;
  currentOldLine : N;
  currentNewLine : N;
  h_changes : list DiffChange
}.

(** The [switch] on the first character of a line, the [changes.push] and
    the [i++] that follow it.

    The [break] of the [default:] branch stands inside the [switch], so it
    leaves the switch and not the loop: on a non-empty line with an unknown
    first character control falls to [changes.push] with [type],
    [oldLineNumber] and [newLineNumber] all unassigned, and the loop goes
    on. *)
Definition parseHunk_line (line : string) (s : HunkState) : HunkState :=
  let prefix := charAt0 line in
  let content := slice1 line in
  let co := currentOldLine s in
  let cn := currentNewLine s in
  let push t o n co' cn' :=
    {| h_i := h_i s + 1; currentOldLine := co'; currentNewLine := cn';
       h_changes := h_changes s ++ [mkChange t content o n] |} in
  let default :=
    if line =? ""
    then push (Some normal) (Some co) (Some cn) (increment co) (increment cn)
    else push None None None co cn in
  match prefix with
  | Some c =>
      if (c =? "+")%char then push (Some add) None (Some cn) co (increment cn)
      else if (c =? "-")%char then push (Some delete) (Some co) None (increment co) cn
      else if (c =? " ")%char then
        push (Some normal) (Some co) (Some cn) (increment co) (increment cn)
      else if (c =? "\")%char then
        {| h_i := h_i s + 1; currentOldLine := co; currentNewLine := cn;
           h_changes := h_changes s |}
      else default
  | None => default
  end.

(** One iteration of [while (i < lines.length)] in [parseHunk]: the two
    [break] tests, then the line is consumed. *)
Definition parseHunk_step (lines : list string) (s : HunkState)
    : result (iter HunkState HunkState) :=
  let i := h_i s in
  if negb (i <? length lines)%nat then Ok (Done s) else
  line <- get lines i ;;
  if startsWith line "@@" || startsWith line "diff --git" then Ok (Done s) else
  if (line =? "") && (i =? length lines - 1)%nat then Ok (Done s) else
  Ok (Next (parseHunk_line line s)).

Definition parseHunk (lines : list string) (startIndex : nat)
    (expandedByDefault : bool) : result (option (DiffHunk * nat)) :=
  headerLine <- get lines startIndex ;;
  match match_hunk_header headerLine with
  | None => Ok None
  | Some m =>
      let oldStart := parseInt (m1 m) in
      let oldLines := match m2 m with Some d => parseInt d | None => 1%N end in
      let newStart := parseInt (m3 m) in
      let newLines := match m4 m with Some d => parseInt d | None => 1%N end in
      s <- while (parseHunk_step lines) (S (length lines))
             {| h_i := startIndex + 1; currentOldLine := oldStart;
                currentNewLine := newStart; h_changes := [] |} ;;
      Ok (Some ({| header := headerLine; oldStart := oldStart;
                   oldLines := oldLines; newStart := newStart;
                   newLines := newLines; changes := h_changes s;
                   hunkExpanded := expandedByDefault |}, h_i s))
  end.

(** ** parseFile *)

(** One iteration of the loop over the metadata lines: every recognised
    status line assigns [status]. *)
Definition metadata_step (lines : list string) (s : nat * FileStatus)
    : result (iter (nat * FileStatus) (nat * FileStatus)) :=
  let (i, status) := s in
  if negb (i <? length lines)%nat then Ok (Done s) else
  line <- get lines i ;;
  if startsWith line "diff --git" then Ok (Done s) else
  if startsWith line "new file mode" then Ok (Next (i + 1, added))
  else if startsWith line "deleted file mode" then Ok (Next (i + 1, deleted))
  else if startsWith line "rename from" then Ok (Next (i + 1, renamed))
  else if startsWith line "copy from" then Ok (Next (i + 1, copied))
  else if startsWith line "index " then Ok (Next (i + 1, status))
  else if startsWith line "--- " then Ok (Next (i + 1, status))
  else if startsWith line "+++ " then Ok (Next (i + 1, status))
  else if startsWith line "@@" then Ok (Done (i, status))
  else if startsWith line "Binary files" then Ok (Done (i + 1, status))
  else if startsWith line "similarity index" || startsWith line "rename to"
          || startsWith line "copy to" then Ok (Next (i + 1, status))
  else Ok (Next (i + 1, status)).

(** One iteration of the loop over the hunks of a file. *)
Definition hunks_step (lines : list string) (expandedByDefault : bool)
    (s : nat * list DiffHunk)
    : result (iter (nat * list DiffHunk) (nat * list DiffHunk)) :=
  let (i, hunks) := s in
  if negb (i <? length lines)%nat then Ok (Done s) else
  line <- get lines i ;;
  if startsWith line "diff --git" then Ok (Done s) else
  if startsWith line "@@" then
    hunk <- parseHunk lines i expandedByDefault ;;
    match hunk with
    | Some (h, nextIndex) => Ok (Next (nextIndex, hunks ++ [h]))
    | None => Ok (Next (i + 1, hunks))
    end
  else Ok (Next (i + 1, hunks)).

Definition parseFile (lines : list string) (startIndex : nat)
    (expandedByDefault : bool) : result (option (DiffFile * nat)) :=
  gitLine <- get lines startIndex ;;
  match match_git_line gitLine with
  | None => Ok None
  | Some (oldPath, newPath) =>
      '(i, status) <- while (metadata_step lines) (S (length lines))
                        (startIndex + 1, modified) ;;
      '(i, hunks) <- while (hunks_step lines expandedByDefault)
                       (S (length lines)) (i, []) ;;
      Ok (Some ({| oldPath := oldPath; newPath := newPath; hunks := hunks;
                   status := status; isExpanded := expandedByDefault |}, i))
  end.

(** ** parseGitDiff *)

Definition parseGitDiff_step (lines : list string) (expandedByDefault : bool)
    (s : nat * list DiffFile) : result (iter (nat * list DiffFile) (list DiffFile)) :=
  let (i, files) := s in
  if negb (i <? length lines)%nat then Ok (Done files) else
  line <- get lines i ;;
  if startsWith line "diff --git" then
    file <- parseFile lines i expandedByDefault ;;
    match file with
    | Some (f, nextIndex) => Ok (Next (nextIndex, files ++ [f]))
    | None => Ok (Next (i + 1, files))
    end
  else Ok (Next (i + 1, files)).

Definition parseGitDiff (diffOutput : string) (expandedByDefault : bool)
    : result (list DiffFile) :=
  let lines := split_lines diffOutput in
  while (parseGitDiff_step lines expandedByDefault) (S (length lines)) (0, []).

(** ** tokenize *)

Definition nonempty (s : string) : bool :=
  match s with
  | EmptyString => false
  | String _ _ => true
  end.

(** The body of [for (const char of line)], with the loop variables
    [tokens], [current] and [inWord] passed along. *)
Fixpoint tokenize_loop (line : string) (tokens : list string)
    (current : string) (inWord : bool) : list string * string :=
  match line with
  | EmptyString => (tokens, current)
  | String char rest =>
      let isWord := isWordChar char in
      let '(tokens1, current1) :=
        if negb (Bool.eqb isWord inWord) && nonempty current
        then (tokens ++ [current], EmptyString)
        else (tokens, current) in
      tokenize_loop rest tokens1 (current1 ++ String char EmptyString) isWord
  end.

Definition tokenize (line : string) : list string :=
  let '(tokens, current) := tokenize_loop line [] EmptyString false in
  if nonempty current then tokens ++ [current] else tokens.

(** ** computeLCS *)

(** [x === y] on array elements that may be [undefined]. *)
Definition elem_eqb (x y : option string) : bool :=
  match x, y with
  | Some a, Some b => (a =? b)%string
  | None, None => true
  | _, _ => false
  end.

Definition dp_get (dp : list (list nat)) (i j : nat) : nat :=
  nth j (nth i dp []) 0.

Fixpoint set_nth {A} (l : list A) (k : nat) (v : A) : list A :=
  match l, k with
  | [], _ => []
  | _ :: t, O => v :: t
  | h :: t, S k' => h :: set_nth t k' v
  end.

Definition dp_set (dp : list (list nat)) (i j v : nat) : list (list nat) :=
  set_nth dp i (set_nth (nth i dp []) j v).

(** The two nested [for] loops that fill the table. *)
Definition dp_cell (a b : list string) (i : nat) (dp : list (list nat))
    (j : nat) : list (list nat) :=
  if elem_eqb (nth_error a (i - 1)) (nth_error b (j - 1))
  then dp_set dp i j (dp_get dp (i - 1) (j - 1) + 1)
  else dp_set dp i j (Nat.max (dp_get dp (i - 1) j) (dp_get dp i (j - 1))).

Definition dp_fill (a b : list string) : list (list nat) :=
  let m := length a in
  let n := length b in
  fold_left (fun dp i => fold_left (dp_cell a b i) (seq 1 n) dp)
    (seq 1 m) (repeat (repeat 0 (n + 1)) (m + 1)).

(** One iteration of the backtracking loop [while (i > 0 && j > 0)]. *)
Definition backtrack_step (a b : list string) (dp : list (list nat))
    (s : nat * nat * list string)
    : result (iter (nat * nat * list string) (list string)) :=
  let '(i, j, lcs) := s in
  if negb ((0 <? i)%nat && (0 <? j)%nat) then Ok (Done lcs) else
  if elem_eqb (nth_error a (i - 1)) (nth_error b (j - 1)) then
    x <- get a (i - 1) ;;
    Ok (Next (i - 1, j - 1, x :: lcs))
  else if (dp_get dp i (j - 1) <? dp_get dp (i - 1) j)%nat then
    Ok (Next (i - 1, j, lcs))
  else Ok (Next (i, j - 1, lcs)).

Definition computeLCS (a b : list string) : result (list string) :=
  let m := length a in
  let n := length b in
  let dp := dp_fill a b in
  while (backtrack_step a b dp) (S (m + n)) (m, n, []).

(** ** computeLineDiff *)

(** The inner loops of [computeLineDiff]: walk [words] from [idx] while in
    range and not at [stop], recording each word as a [kind] token when
    [emit] holds. *)
Definition drain_step (words : list string) (stop : option string -> bool)
    (emit : bool) (kind : ChangeType) (s : nat * list WordChange)
    : result (iter (nat * list WordChange) (nat * list WordChange)) :=
  let (idx, res) := s in
  if negb (idx <? length words)%nat then Ok (Done s) else
  if stop (nth_error words idx) then Ok (Done s) else
  w <- get words idx ;;
  Ok (Next (idx + 1,
            if emit then res ++ [{| wtype := kind; value := w |}]
            else res)).

Definition drain (words : list string) (stop : option string -> bool)
    (emit : bool) (kind : ChangeType) (idx : nat) (res : list WordChange)
    : result (nat * list WordChange) :=
  while (drain_step words stop emit kind) (S (length words)) (idx, res).

Record LineDiffState := {
  oldIdx : nat;
  newIdx : nat;
  lcsIdx : nat;
  ld_result : list WordChange
}.

(** One iteration of
    [while (oldIdx < oldWords.length || newIdx < newWords.length)]. *)
Definition lineDiff_step (oldWords newWords lcs : list string)
    (forType : ChangeType) (s : LineDiffState)
    : result (iter LineDiffState (list WordChange)) :=
  if negb ((oldIdx s <? length oldWords)%nat || (newIdx s <? length newWords)%nat)
  then Ok (Done (ld_result s)) else
  if (lcsIdx s <? length lcs)%nat then
    let at_lcs w := elem_eqb w (nth_error lcs (lcsIdx s)) in
    '(oldIdx1, r1) <- drain oldWords at_lcs (ChangeType_eqb forType delete)
                        delete (oldIdx s) (ld_result s) ;;
    '(newIdx1, r2) <- drain newWords at_lcs (ChangeType_eqb forType add)
                        add (newIdx s) r1 ;;
    if (lcsIdx s <? length lcs)%nat then
      l <- get lcs (lcsIdx s) ;;
      Ok (Next {| oldIdx := oldIdx1 + 1; newIdx := newIdx1 + 1;
                  lcsIdx := lcsIdx s + 1;
                  ld_result := r2 ++ [{| wtype := normal; value := l |}] |})
    else
      Ok (Next {| oldIdx := oldIdx1; newIdx := newIdx1; lcsIdx := lcsIdx s;
                  ld_result := r2 |})
  else
    '(oldIdx1, r1) <- drain oldWords (fun _ => false)
                        (ChangeType_eqb forType delete) delete
                        (oldIdx s) (ld_result s) ;;
    '(newIdx1, r2) <- drain newWords (fun _ => false)
                        (ChangeType_eqb forType add) add (newIdx s) r1 ;;
    Ok (Next {| oldIdx := oldIdx1; newIdx := newIdx1; lcsIdx := lcsIdx s;
                ld_result := r2 |}).

Definition computeLineDiff (oldLine newLine : string) (forType : ChangeType)
    : result (list WordChange) :=
  let oldWords := tokenize oldLine in
  let newWords := tokenize newLine in
  lcs <- computeLCS oldWords newWords ;;
  while (lineDiff_step oldWords newWords lcs forType)
    (S (length oldWords + length newWords + length lcs))
    {| oldIdx := 0; newIdx := 0; lcsIdx := 0; ld_result := [] |}.

(** ** computeHunkWordDiffs and computeWordDiffs *)

(** [{...c, wordDiff: w}] *)
Definition with_wordDiff (c : DiffChange) (w : list WordChange) : DiffChange :=
  {| type := type c; content := content c;
     oldLineNumber := oldLineNumber c; newLineNumber := newLineNumber c;
     wordDiff := Some w |}.

(** [while (i < changes.length && changes[i].type === t)
       { acc.push(changes[i]); i++; }] *)
Definition collect_step (changes : list DiffChange) (t : ChangeType)
    (s : nat * list DiffChange)
    : result (iter (nat * list DiffChange) (nat * list DiffChange)) :=
  let (i, acc) := s in
  if negb (i <? length changes)%nat then Ok (Done s) else
  c <- get changes i ;;
  if type_is t c then Ok (Next (i + 1, acc ++ [c])) else Ok (Done s).

Definition collect (changes : list DiffChange) (t : ChangeType) (i : nat)
    : result (nat * list DiffChange) :=
  while (collect_step changes t) (S (length changes)) (i, []).

(** [for (let j = 0; j < n; j++) body], with the array being built as
    state. *)
Fixpoint for_each {A} (js : list nat) (body : nat -> A -> result A) (acc : A)
    : result A :=
  match js with
  | [] => Ok acc
  | j :: js' => acc' <- body j acc ;; for_each js' body acc'
  end.

(** The two [for] loops over an eligible block; [side] is the run being
    pushed and [forType] its kind. *)
Definition push_run (deletes adds side : list DiffChange)
    (forType : ChangeType) (maxPairs : nat) (res : list DiffChange)
    : result (list DiffChange) :=
  for_each (seq 0 (length side))
    (fun j res =>
       c <- get side j ;;
       if (j <? maxPairs)%nat then
         d <- get deletes j ;;
         a <- get adds j ;;
         w <- computeLineDiff (content d) (content a) forType ;;
         Ok (res ++ [with_wordDiff c w])
       else Ok (res ++ [c]))
    res.

(** One iteration of [while (i < changes.length)] in
    [computeHunkWordDiffs]. *)
Definition wordDiffs_step (changes : list DiffChange)
    (s : nat * list DiffChange)
    : result (iter (nat * list DiffChange) (list DiffChange)) :=
  let (i, res) := s in
  if negb (i <? length changes)%nat then Ok (Done res) else
  change <- get changes i ;;
  if type_is delete change then
    '(i1, deletes) <- collect changes delete i ;;
    '(i2, adds) <- collect changes add i1 ;;
    if (0 <? length deletes)%nat && (0 <? length adds)%nat
       && (length deletes <=? 5)%nat && (length adds <=? 5)%nat then
      let maxPairs := Nat.min (length deletes) (length adds) in
      r1 <- push_run deletes adds deletes delete maxPairs res ;;
      r2 <- push_run deletes adds adds add maxPairs r1 ;;
      Ok (Next (i2, r2))
    else Ok (Next (i2, res ++ deletes ++ adds))
  else Ok (Next (i + 1, res ++ [change])).

Definition computeHunkWordDiffs (changes : list DiffChange)
    : result (list DiffChange) :=
  while (wordDiffs_step changes) (S (length changes)) (0, []).

(** [arr.map(f)] for an [f] that runs loops. *)
Fixpoint mapM {A B} (f : A -> result B) (l : list A) : result (list B) :=
  match l with
  | [] => Ok []
  | x :: l' => y <- f x ;; ys <- mapM f l' ;; Ok (y :: ys)
  end.

Definition computeWordDiffs (files : list DiffFile) : result (list DiffFile) :=
  mapM (fun file =>
          hs <- mapM (fun hunk =>
                        cs <- computeHunkWordDiffs (changes hunk) ;;
                        Ok {| header := header hunk; oldStart := oldStart hunk;
                              oldLines := oldLines hunk;
                              newStart := newStart hunk;
                              newLines := newLines hunk; changes := cs;
                              hunkExpanded := hunkExpanded hunk |})
                     (hunks file) ;;
          Ok {| oldPath := oldPath file; newPath := newPath file; hunks := hs;
                status := status file; isExpanded := isExpanded file |})
       files.

(** ** getDiffStats *)

Record DiffStats := {
  additions : nat;
  deletions : nat;
  files : nat
}.

(** The body of the innermost loop, on the counters [additions] and
    [deletions]. *)
Definition stats_change (acc : nat * nat) (change : DiffChange) : nat * nat :=
  let (additions, deletions) := acc in
  let additions := if type_is add change then additions + 1 else additions in
  let deletions := if type_is delete change then deletions + 1 else deletions in
  (additions, deletions).

Definition getDiffStats (files : list DiffFile) : DiffStats :=
  let '(additions, deletions) :=
    fold_left (fun acc file =>
                 fold_left (fun acc hunk =>
                              fold_left stats_change (changes hunk) acc)
                   (hunks file) acc)
      files (0, 0) in
  {| additions := additions; deletions := deletions; files := length files |}.

(** ** The files of the canvas (DiffCanvas, view.ts) *)

(** [const files = useMemo(...)]: the parsed diff, with word diffs when
    [wordDiffEnabled]. *)
Definition canvas_files (diffInput : string)
    (wordDiffEnabled expandedByDefault : bool) : result (list DiffFile) :=
  parsed <- parseGitDiff diffInput expandedByDefault ;;
  if wordDiffEnabled then computeWordDiffs parsed else Ok parsed.

(** ** The virtual lines of the canvas (DiffCanvas, view.ts) *)

(** A line of the list the canvas scrolls over. *)
Inductive VirtualLine :=
| FileHeaderLine (fileIndex : nat)
| HunkHeaderLine (fileIndex hunkIndex : nat)
| ChangeLine (fileIndex hunkIndex changeIndex : nat).

(** [Set<number>], in insertion order. *)
Definition NumSet := list nat.

Definition set_has (s : NumSet) (x : nat) : bool := existsb (Nat.eqb x) s.

Definition set_add (s : NumSet) (x : nat) : NumSet :=
  if set_has s x then s else s ++ [x].

Definition set_delete (s : NumSet) (x : nat) : NumSet :=
  filter (fun y => negb (y =? x)%nat) s.

(** [Map<number, Set<number>>], in insertion order. *)
Definition NumMap := list (nat * NumSet).

Fixpoint map_get (m : NumMap) (k : nat) : option NumSet :=
  match m with
  | [] => None
  | (k', v) :: m' => if (k' =? k)%nat then Some v else map_get m' k
  end.

Fixpoint map_set (m : NumMap) (k : nat) (v : NumSet) : NumMap :=
  match m with
  | [] => [(k, v)]
  | (k', v') :: m' =>
      if (k' =? k)%nat then (k, v) :: m' else (k', v') :: map_set m' k v
  end.

(** [arr.forEach((x, index) => body)], with the array being built as
    state; a [return] in the body ends that call of the body. *)
Definition forEach {A S} (arr : list A) (body : S -> A -> nat -> S) (s : S) : S :=
  fold_left (fun s p => body s (snd p) (fst p))
    (combine (seq 0 (length arr)) arr) s.

(** [fileCollapses?.has(hunkIndex)] for
    [fileCollapses = collapsedHunks.get(fileIndex)]. *)
Definition hunk_collapsed (collapsedHunks : NumMap) (fileIndex hunkIndex : nat)
    : bool :=
  match map_get collapsedHunks fileIndex with
  | Some fileCollapses => set_has fileCollapses hunkIndex
  | None => false
  end.

Definition virtualLines (files : list DiffFile) (collapsedFiles : NumSet)
    (collapsedHunks : NumMap) : list VirtualLine :=
  forEach files
    (fun lines file fileIndex =>
       let lines := lines ++ [FileHeaderLine fileIndex] in
       if set_has collapsedFiles fileIndex then lines else
       forEach (hunks file)
         (fun lines hunk hunkIndex =>
            let lines := lines ++ [HunkHeaderLine fileIndex hunkIndex] in
            if hunk_collapsed collapsedHunks fileIndex hunkIndex then lines else
            forEach (changes hunk)
              (fun lines _ changeIndex =>
                 lines ++ [ChangeLine fileIndex hunkIndex changeIndex])
              lines)
         lines)
    [].

(** ** The state of the canvas and its keys (DiffCanvas, view.ts) *)

(** The [useState] values the keys work on.  Line indices are [Z]: the
    source computes them with [-] and [Math.min], which can leave the
    naturals. *)
Record CanvasState := {
  scrollOffset : Z;
  cursorLine : Z;
  collapsedFiles : NumSet;
  collapsedHunks : NumMap
}.

(** The state of the first render. *)
Definition initial_state : CanvasState :=
  {| scrollOffset := 0; cursorLine := 0; collapsedFiles := [];
     collapsedHunks := [] |}.

Definition headerHeight : Z := 3.
Definition footerHeight : Z := 2.

Definition viewportHeight (termHeight : Z) : Z :=
  (termHeight - headerHeight - footerHeight)%Z.

Definition maxScroll (virtualLines : list VirtualLine) (viewportHeight : Z) : Z :=
  Z.max 0 (Z.of_nat (length virtualLines) - viewportHeight).

(** The update [ensureCursorVisible] passes to [setScrollOffset]. *)
Definition ensureCursorVisible (viewportHeight line offset : Z) : Z :=
  if (line <? offset)%Z then line
  else if (line >=? offset + viewportHeight)%Z then (line - viewportHeight + 1)%Z
  else offset.

Definition toggleFile (prev : NumSet) (fileIndex : nat) : NumSet :=
  if set_has prev fileIndex then set_delete prev fileIndex
  else set_add prev fileIndex.

Definition toggleHunk (prev : NumMap) (fileIndex hunkIndex : nat) : NumMap :=
  let fileSet := match map_get prev fileIndex with
                 | Some s => s
                 | None => []
                 end in
  let fileSet := if set_has fileSet hunkIndex then set_delete fileSet hunkIndex
                 else set_add fileSet hunkIndex in
  map_set prev fileIndex fileSet.

(** [direction: 1 | -1] *)
Inductive Direction := Forward | Backward.

Definition delta (direction : Direction) : Z :=
  match direction with
  | Forward => 1%Z
  | Backward => (-1)%Z
  end.

(** [arr[i]] for a number [i] that may be negative. *)
Definition at_index {A} (arr : list A) (i : Z) : option A :=
  if (i <? 0)%Z then None else nth_error arr (Z.to_nat i).

Definition is_hunk_header_line (vLine : VirtualLine) : bool :=
  match vLine with
  | HunkHeaderLine _ _ => true
  | _ => false
  end.

Definition is_file_header_line (vLine : VirtualLine) : bool :=
  match vLine with
  | FileHeaderLine _ => true
  | _ => false
  end.

(** One iteration of [while (line >= 0 && line < virtualLines.length)] in
    [findNextHunk] and [findNextFile], which differ in the kind of line
    they stop at. *)
Definition find_step (virtualLines : list VirtualLine)
    (wanted : VirtualLine -> bool) (direction : Direction) (line : Z)
    : result (iter Z (option Z)) :=
  if negb ((0 <=? line)%Z && (line <? Z.of_nat (length virtualLines))%Z)
  then Ok (Done None) else
  match at_index virtualLines line with
  | Some vLine =>
      if wanted vLine then Ok (Done (Some line))
      else Ok (Next (line + delta direction)%Z)
  | None => Ok (Next (line + delta direction)%Z)
  end.

Definition find_line (virtualLines : list VirtualLine)
    (wanted : VirtualLine -> bool) (fromLine : Z) (direction : Direction)
    : result Z :=
  found <- while (find_step virtualLines wanted direction)
             (S (length virtualLines)) (fromLine + delta direction)%Z ;;
  match found with
  | Some line => Ok line
  | None => Ok fromLine
  end.

Definition findNextHunk (virtualLines : list VirtualLine) (fromLine : Z)
    (direction : Direction) : result Z :=
  find_line virtualLines is_hunk_header_line fromLine direction.

Definition findNextFile (virtualLines : list VirtualLine) (fromLine : Z)
    (direction : Direction) : result Z :=
  find_line virtualLines is_file_header_line fromLine direction.

(** The [key] argument of the [useInput] handler, with the flags the
    handler reads. *)
Record Key := {
  escape : bool;
  upArrow : bool;
  downArrow : bool;
  pageUp : bool;
  pageDown : bool;
  key_return : bool
}.

(** What the handler does besides setting state. *)
Inductive Effect :=
| SendSelected (dismissed : bool)
| Exit.

(** [setCursorLine(newLine)] and a [setScrollOffset]. *)
Definition move_to (s : CanvasState) (newLine newOffset : Z) : CanvasState :=
  {| scrollOffset := newOffset; cursorLine := newLine;
     collapsedFiles := collapsedFiles s; collapsedHunks := collapsedHunks s |}.

(** The [useInput] handler, from the state of the last render. *)
Definition useInput (files : list DiffFile) (termHeight : Z)
    (input : string) (key : Key) (s : CanvasState)
    : result (CanvasState * list Effect) :=
  let virtualLines := virtualLines files (collapsedFiles s) (collapsedHunks s) in
  let viewportHeight := viewportHeight termHeight in
  let count := Z.of_nat (length virtualLines) in
  let jump newLine :=
    Ok (move_to s newLine
          (ensureCursorVisible viewportHeight newLine (scrollOffset s)), []) in
  if escape key || (input =? "q") then Ok (s, [SendSelected true; Exit])
  else if upArrow key || (input =? "k") then
    jump (Z.max 0 (cursorLine s - 1))
  else if downArrow key || (input =? "j") then
    jump (Z.min (count - 1) (cursorLine s + 1))
  else if pageUp key then
    Ok (move_to s (Z.max 0 (cursorLine s - viewportHeight))
          (Z.max 0 (scrollOffset s - viewportHeight)), [])
  else if pageDown key then
    Ok (move_to s (Z.min (count - 1) (cursorLine s + viewportHeight))
          (Z.min (maxScroll virtualLines viewportHeight)
             (scrollOffset s + viewportHeight)), [])
  else if input =? "n" then
    newLine <- findNextHunk virtualLines (cursorLine s) Forward ;; jump newLine
  else if input =? "p" then
    newLine <- findNextHunk virtualLines (cursorLine s) Backward ;; jump newLine
  else if input =? "]" then
    newLine <- findNextFile virtualLines (cursorLine s) Forward ;; jump newLine
  else if input =? "[" then
    newLine <- findNextFile virtualLines (cursorLine s) Backward ;; jump newLine
  else if key_return key then
    match at_index virtualLines (cursorLine s) with
    | Some (FileHeaderLine fileIndex) =>
        Ok ({| scrollOffset := scrollOffset s; cursorLine := cursorLine s;
               collapsedFiles := toggleFile (collapsedFiles s) fileIndex;
               collapsedHunks := collapsedHunks s |}, [])
    | Some (HunkHeaderLine fileIndex hunkIndex) =>
        Ok ({| scrollOffset := scrollOffset s; cursorLine := cursorLine s;
               collapsedFiles := collapsedFiles s;
               collapsedHunks :=
                 toggleHunk (collapsedHunks s) fileIndex hunkIndex |}, [])
    | _ => Ok (s, [])
    end
  else Ok (s, []).

(** What [renderLine] makes of a virtual line: the component and its
    props, or nothing ([null]) when the line refers to no file, hunk or
    Change. *)
Inductive Element :=
| FileHeader (oldPath newPath : string) (status : FileStatus)
    (isExpanded isSelected : bool) (hunkCount : nat)
| HunkHeader (header : string) (isExpanded isSelected : bool)
    (changeCount : nat)
| ChangeRow (isSelected : bool) (change : DiffChange)
    (showLineNumbers : bool) (lineNumberWidth : nat).

Definition renderLine (files : list DiffFile) (collapsedFiles : NumSet)
    (collapsedHunks : NumMap) (showLineNumbers : bool) (lineNumberWidth : nat)
    (vLine : VirtualLine) (isSelected : bool) : option Element :=
  match vLine with
  | FileHeaderLine fileIndex =>
      match nth_error files fileIndex with
      | None => None
      | Some file =>
          Some (FileHeader (oldPath file) (newPath file) (status file)
                  (negb (set_has collapsedFiles fileIndex)) isSelected
                  (length (hunks file)))
      end
  | HunkHeaderLine fileIndex hunkIndex =>
      match nth_error files fileIndex with
      | None => None
      | Some file =>
          match nth_error (hunks file) hunkIndex with
          | None => None
          | Some hunk =>
              Some (HunkHeader (header hunk)
                      (negb (hunk_collapsed collapsedHunks fileIndex hunkIndex))
                      isSelected (length (changes hunk)))
          end
      end
  | ChangeLine fileIndex hunkIndex changeIndex =>
      match nth_error files fileIndex with
      | None => None
      | Some file =>
          match nth_error (hunks file) hunkIndex with
          | None => None
          | Some hunk =>
              match nth_error (changes hunk) changeIndex with
              | None => None
              | Some change =>
                  Some (ChangeRow isSelected change showLineNumbers
                          lineNumberWidth)
              end
          end
      end
  end.

(** ** DiffLine (components/diff-line.tsx) *)

(** The colours of [DIFF_COLORS] (types.ts) the component uses. *)
Module DIFF_COLORS.
Definition addBg : string := "green".
Definition deleteBg : string := "red".
Definition wordAddBg : string := "greenBright".
Definition wordDeleteBg : string := "redBright".
Definition lineNumber : string := "gray".
Definition border : string := "gray".
End DIFF_COLORS.

(** A [<Text>] element: its text and the props the component sets. *)
Record Text := {
  children : string;
  color : option string;
  backgroundColor : option string;
  bold : bool;
  dimColor : bool;
  inverse : bool
}.

(** The decimal digits of an integer. *)
Definition decimal (n : N) : string := NilEmpty.string_of_uint (N.to_uint n).

(** [n.toString()] for a line number.  The digits are those of the integer
    with the fewest significant digits among those [n] is the number for,
    of the nearest to [n] if several have as few: the multiple of [p]
    below or above [n], for the largest power of ten [p] that has one. *)
Definition shortest_at (x p : N) : option N :=
  let lo := (x / p * p)%N in
  let hi := (lo + p)%N in
  match (to_double lo =? x)%N, (to_double hi =? x)%N with
  | true, true =>
      Some (if (x - lo <? hi - x)%N then lo
            else if (hi - x <? x - lo)%N then hi
            else if N.even (x / p) then lo else hi)
  | true, false => Some lo
  | false, true => Some hi
  | false, false => None
  end.

Fixpoint shortest (x : N) (k : nat) : N :=
  match k with
  | O => x
  | S k' => match shortest_at x (10 ^ N.of_nat k) with
            | Some v => v
            | None => shortest x k'
            end
  end.

Fixpoint strip_zeros (s : string) : string :=
  match s with
  | EmptyString => EmptyString
  | String c s' =>
      match strip_zeros s' with
      | EmptyString => if (c =? "0")%char then EmptyString else String c EmptyString
      | r => String c r
      end
  end.

(** Up to 21 digits the number is written out, zeros included; a longer
    one takes the exponent form, and [+Infinity] its name. *)
Definition toString (x : N) : string :=
  if (x =? Infinity)%N then "Infinity" else
  let v := shortest x (String.length (decimal x) - 1) in
  let digits := decimal v in
  let n := String.length digits in
  if (n <=? 21)%nat then digits
  else match strip_zeros digits with
       | String c EmptyString => String c ("e+" ++ decimal (N.of_nat (n - 1)))
       | String c s => String c ("." ++ s ++ "e+" ++ decimal (N.of_nat (n - 1)))
       | EmptyString => digits
       end.

(** [" ".repeat(n)] *)
Fixpoint spaces (n : nat) : string :=
  match n with
  | O => EmptyString
  | S n' => String " " (spaces n')
  end.

(** [s.padStart(targetLength, " ")] *)
Definition padStart (s : string) (targetLength : nat) : string :=
  spaces (targetLength - String.length s) ++ s.

(** [n?.toString().padStart(width, " ") || " ".repeat(width)] *)
Definition format_number (n : option N) (width : nat) : string :=
  match n with
  | Some n =>
      let s := padStart (toString n) width in
      if nonempty s then s else spaces width
  | None => spaces width
  end.

Definition WordDiffContent (wordDiff : list WordChange)
    (baseBgColor : option string) : list Text :=
  map (fun word =>
         let '(bgColor, bold) :=
           if ChangeType_eqb (wtype word) add
           then (Some DIFF_COLORS.wordAddBg, true)
           else if ChangeType_eqb (wtype word) delete
           then (Some DIFF_COLORS.wordDeleteBg, true)
           else (baseBgColor, false) in
         {| children := value word; color := None;
            backgroundColor := bgColor; bold := bold; dimColor := false;
            inverse := false |})
    wordDiff.

(** The [<Text>] elements of a line, in order. *)
Definition DiffLine (change : DiffChange) (showLineNumbers : bool)
    (lineNumberWidth : nat) : list Text :=
  let prefix := if type_is add change then "+"
                else if type_is delete change then "-" else " " in
  let bgColor := if type_is add change then Some DIFF_COLORS.addBg
                 else if type_is delete change then Some DIFF_COLORS.deleteBg
                 else None in
  let oldNum := format_number (oldLineNumber change) lineNumberWidth in
  let newNum := format_number (newLineNumber change) lineNumberWidth in
  let dim (text : string) (c : string) :=
    {| children := text; color := Some c; backgroundColor := None;
       bold := false; dimColor := true; inverse := false |} in
  let plain (text : string) :=
    {| children := text; color := None; backgroundColor := bgColor;
       bold := false; dimColor := false; inverse := false |} in
  (if showLineNumbers
   then [dim oldNum DIFF_COLORS.lineNumber; dim " " DIFF_COLORS.border;
         dim newNum DIFF_COLORS.lineNumber; dim " | " DIFF_COLORS.border]
   else [])
  ++ [plain prefix]
  ++ match wordDiff change with
     | Some (word :: words) => WordDiffContent (word :: words) bgColor
     | _ => [plain (content change)]
     end.

(** ** The rows of the canvas (DiffCanvas, view.ts) *)

(** [arr.slice(start, end)] for numbers that may be negative. *)
Definition js_slice {A} (arr : list A) (start final : Z) : list A :=
  let len := Z.of_nat (length arr) in
  let from := if (start <? 0)%Z then Z.max (len + start) 0 else Z.min start len in
  let to := if (final <? 0)%Z then Z.max (len + final) 0 else Z.min final len in
  firstn (Z.to_nat (to - from)) (skipn (Z.to_nat from) arr).

Definition visibleLines (virtualLines : list VirtualLine)
    (scrollOffset viewportHeight : Z) : list VirtualLine :=
  js_slice virtualLines scrollOffset (scrollOffset + viewportHeight)%Z.

(** The rows of the diff content, one for each visible line, or nothing
    when there is no file and the canvas says so instead. *)
Definition content_rows (files : list DiffFile) (termHeight : Z)
    (showLineNumbers : bool) (lineNumberWidth : nat) (s : CanvasState)
    : option (list (option Element)) :=
  let virtualLines := virtualLines files (collapsedFiles s) (collapsedHunks s) in
  let visibleLines :=
    visibleLines virtualLines (scrollOffset s) (viewportHeight termHeight) in
  if (length files =? 0)%nat then None
  else Some (map (fun p =>
                    let absoluteIndex := (scrollOffset s + Z.of_nat (fst p))%Z in
                    let isSelected := (absoluteIndex =? cursorLine s)%Z in
                    renderLine files (collapsedFiles s) (collapsedHunks s)
                      showLineNumbers lineNumberWidth (snd p) isSelected)
               (combine (seq 0 (length visibleLines)) visibleLines)).

(** * Vocabulary of the properties *)

(** *** Arrays and texts *)

(** [arr.slice(from, to)]: the elements [arr[from]], ..., [arr[to - 1]]. *)
Definition slice {A} (arr : list A) (from to : nat) : list A :=
  firstn (to - from) (skipn from arr).

(** [hay.includes(needle)] *)
Fixpoint includes (needle hay : string) : bool :=
  String.prefix needle hay
  || match hay with
     | EmptyString => false
     | String _ hay' => includes needle hay'
     end.

(** A small diff used to exercise the theorems. *)
Definition sample_diff : string :=
  "diff --git a/src/a.ts b/src/a.ts
index 1111111..2222222 100644
--- a/src/a.ts
+++ b/src/a.ts
@@ -3,4 +3,6 @@ foo
 keep
-const x = 1;
+const x = 2;
\ No newline at end of file
+added
 tail
".

(** *** Hunks *)

(** The two [break] tests of the hunk loop on the line at index [i]. *)
Definition hunk_stops (lines : list string) (i : nat) (line : string) : bool :=
  startsWith line "@@" || startsWith line "diff --git"
  || ((line =? "") && (i =? length lines - 1)%nat).

(** The hunk loop has nothing left to consume at index [i]. *)
Definition hunk_stopped (lines : list string) (i : nat) : Prop :=
  match nth_error lines i with
  | None => True
  | Some line => hunk_stops lines i line = true
  end.

(** [h] is a hunk that [parseHunk] returns somewhere in [lines]. *)
Definition hunk_of (lines : list string) (e : bool) (h : DiffHunk) : Prop :=
  exists j next, parseHunk lines j e = Ok (Some (h, next)).

(** Changes that bear an old, respectively a new, line number. *)
Definition bears_old (c : DiffChange) : bool := type_is delete c || type_is normal c.
Definition bears_new (c : DiffChange) : bool := type_is add c || type_is normal c.

(** The field-presence invariant of a Change. *)
Definition presence_ok (c : DiffChange) : Prop :=
  (oldLineNumber c <> None <-> bears_old c = true)
  /\ (newLineNumber c <> None <-> bears_new c = true).

(** *** Line counters *)

(** The old and new line numbers of the Changes that bear one, in order. *)
Definition old_numbers (cs : list DiffChange) : list (option N) :=
  map oldLineNumber (filter bears_old cs).
Definition new_numbers (cs : list DiffChange) : list (option N) :=
  map newLineNumber (filter bears_new cs).

(** [start], [start + 1], [start + 2], ...: [len] numbers, all present. *)
Definition run_from (start : N) (len : nat) : list (option N) :=
  map (fun k => Some (start + N.of_nat k)%N) (seq 0 len).

(** The [len] numbers a counter gives out from [start], one [++] after
    each. *)
Definition counted_from (start : N) (len : nat) : list (option N) :=
  map (fun k => Some (Nat.iter k increment start)) (seq 0 len).

(** The integers up to 2^53 are numbers, each of them, and [++] is exact
    up to there. *)
Definition max_exact : N := 9007199254740992%N.

(** The numbers [start], [start + 1], ..., [len] of them, stay within the
    exact range. *)
Definition exact_run (start : N) (len : nat) : Prop :=
  forall k, k < len -> (start + N.of_nat k <= max_exact)%N.

(** A line that starts with a backslash, as [\ No newline at end of file]. *)
Definition is_backslash_line (line : string) : bool := startsWith line "\".

(** The numbers of a hunk are those its header line declares, as
    [parseInt] reads them. *)
Definition header_numbers (h : DiffHunk) : Prop :=
  exists m, match_hunk_header (header h) = Some m
            /\ oldStart h = parseInt (m1 m) /\ newStart h = parseInt (m3 m).

(** What the counters of a hunk parsed at line [j], ending at [next],
    satisfy, whatever the numbers: they start at the numbers the header
    declares, the old numbers of the delete and normal Changes and the new
    numbers of the add and normal Changes are those a counter gives out from
    there, and the lines read gave one Change each, the backslash lines
    excepted. *)
Definition counters_ok (lines : list string) (j : nat) (h : DiffHunk)
    (next : nat) : Prop :=
  header_numbers h
  /\ old_numbers (changes h) =
     counted_from (oldStart h) (length (old_numbers (changes h)))
  /\ new_numbers (changes h) =
     counted_from (newStart h) (length (new_numbers (changes h)))
  /\ length (changes h) =
     length (filter (fun l => negb (is_backslash_line l))
               (slice lines (j + 1) next)).

(** The old numbers, respectively the new numbers, of a hunk are
    consecutive from the start the hunk records. *)
Definition old_consecutive (h : DiffHunk) : Prop :=
  old_numbers (changes h) =
  run_from (oldStart h) (length (old_numbers (changes h))).
Definition new_consecutive (h : DiffHunk) : Prop :=
  new_numbers (changes h) =
  run_from (newStart h) (length (new_numbers (changes h))).

(** A hunk whose old numbers start at 2^53 + 1 as the header has it. *)
Definition huge_hunk : list string :=
  ["@@ -9007199254740993,2 +1,2 @@"; " one"; " two"].

(** A line leaves the counters and the Changes as they are. *)
Definition line_is_noop (line : string) : Prop :=
  forall s, parseHunk_line line s =
            {| h_i := h_i s + 1; currentOldLine := currentOldLine s;
               currentNewLine := currentNewLine s; h_changes := h_changes s |}.

(** The state of the hunk loop that started at line [j] with the counters
    [o0] and [n0]: the numbers given out so far are those of a counter
    started there, the counters stand where that counter stands after them,
    and the lines read so far gave one Change each, the backslash lines
    excepted. *)
Definition counters_inv (lines : list string) (j : nat) (o0 n0 : N)
    (s : HunkState) : Prop :=
  old_numbers (h_changes s) =
  counted_from o0 (length (old_numbers (h_changes s)))
  /\ currentOldLine s = Nat.iter (length (old_numbers (h_changes s))) increment o0
  /\ new_numbers (h_changes s) =
     counted_from n0 (length (new_numbers (h_changes s)))
  /\ currentNewLine s = Nat.iter (length (new_numbers (h_changes s))) increment n0
  /\ j + 1 <= h_i s
  /\ length (h_changes s) =
     length (filter (fun l => negb (is_backslash_line l))
               (slice lines (j + 1) (h_i s))).

(** *** Well-formed hunk bodies *)

(** A body line of a well-formed hunk starts with one of the four
    markers. *)
Definition is_marked (line : string) : bool :=
  match charAt0 line with
  | Some c => (c =? "+")%char || (c =? "-")%char || (c =? " ")%char
              || (c =? "\")%char
  | None => false
  end.

(** A body line of the old file is a [-] or a space followed by a line of
    that file; [old_text] is that line, the marker stripped. *)
Definition old_text (line : string) : option string :=
  match line with
  | String "-"%char text => Some text
  | String " "%char text => Some text
  | _ => None
  end.

(** The slice of the old file a hunk body covers: the texts of its [-] and
    space lines, in order. *)
Fixpoint old_slice (body : list string) : list string :=
  match body with
  | [] => []
  | line :: body' =>
      match old_text line with
      | Some text => text :: old_slice body'
      | None => old_slice body'
      end
  end.

(** The contents of the delete and normal Changes, in order. *)
Definition old_contents (cs : list DiffChange) : list string :=
  map content (filter bears_old cs).

(** *** File sections *)

(** The status a metadata line sets, if it is a status-setting marker. *)
Definition status_marker (line : string) : option FileStatus :=
  if startsWith line "new file mode" then Some added
  else if startsWith line "deleted file mode" then Some deleted
  else if startsWith line "rename from" then Some renamed
  else if startsWith line "copy from" then Some copied
  else None.

(** The lines at which the metadata loop ends. *)
Definition metadata_ends (line : string) : bool :=
  startsWith line "diff --git" || startsWith line "@@"
  || startsWith line "Binary files".

(** The loop over the hunks of a file has nothing left at index [i]. *)
Definition file_stopped (lines : list string) (i : nat) : Prop :=
  match nth_error lines i with
  | None => True
  | Some line => startsWith line "diff --git" = true
  end.

(** The status the metadata loop leaves after the lines [meta], started
    with [st]: each status-setting marker overwrites it. *)
Definition status_after (meta : list string) (st : FileStatus) : FileStatus :=
  fold_left (fun st line => match status_marker line with
                            | Some s => s
                            | None => st
                            end) meta st.

(** The status-setting markers among [meta], in order. *)
Fixpoint status_markers (meta : list string) : list FileStatus :=
  match meta with
  | [] => []
  | line :: meta' =>
      match status_marker line with
      | Some s => s :: status_markers meta'
      | None => status_markers meta'
      end
  end.

(** The last status-setting marker decides; [modified] without one. *)
Definition last_marker_status (meta : list string) : FileStatus :=
  last (status_markers meta) modified.

(** The rule as the specification words it: the first status-setting marker
    decides; [modified] without one. *)
Definition first_marker_status (meta : list string) : FileStatus :=
  hd modified (status_markers meta).

(** The metadata loop has nothing left at index [i]: the input ends there
    or the line ends the metadata. *)
Definition metadata_stopped (lines : list string) (i : nat) : Prop :=
  match nth_error lines i with
  | None => True
  | Some line => metadata_ends line = true
  end.

(** *** Tokens *)

(** The tokens of a sequence written one after the other. *)
Definition concat_all (ts : list string) : string :=
  fold_right String.append EmptyString ts.

(** Every character of [s] is a word character ([w = true]) or none is
    ([w = false]). *)
Fixpoint all_class (w : bool) (s : string) : bool :=
  match s with
  | EmptyString => true
  | String c s' => Bool.eqb (isWordChar c) w && all_class w s'
  end.

(** The class of a token, read off its first character. *)
Definition token_class (t : string) : option bool :=
  match t with
  | EmptyString => None
  | String c _ => Some (isWordChar c)
  end.

(** A token is a non-empty run of one class. *)
Definition uniform (t : string) : Prop :=
  exists w, token_class t = Some w /\ all_class w t = true.

(** Neighbouring tokens are of different classes. *)
Fixpoint alternating (ts : list string) : Prop :=
  match ts with
  | t1 :: ((t2 :: _) as rest) =>
      token_class t1 <> token_class t2 /\ alternating rest
  | _ => True
  end.

(** What a state of the tokenizer loop returns if the line ends there. *)
Definition pending (tokens : list string) (current : string) : list string :=
  if nonempty current then tokens ++ [current] else tokens.

(** The state of the tokenizer loop: nothing read yet, or a current run of
    the class [inWord] after tokens that alternate up to it. *)
Definition tokenizer_inv (tokens : list string) (current : string)
    (inWord : bool) : Prop :=
  (current = EmptyString /\ tokens = [])
  \/ (token_class current = Some inWord /\ all_class inWord current = true
      /\ Forall uniform tokens /\ alternating (tokens ++ [current])).

(** *** Word diffs of a line pair *)

(** [s] is a subsequence of [l]. *)
Inductive subseq : list string -> list string -> Prop :=
| sub_nil l : subseq [] l
| sub_take x s l : subseq s l -> subseq (x :: s) (x :: l)
| sub_skip x s l : subseq s l -> subseq s (x :: l).

(** A word token of kind [kind] for each word. *)
Definition word_tokens (kind : ChangeType) (ws : list string) : list WordChange :=
  map (fun w => {| wtype := kind; value := w |}) ws.

(** The state of the loop of [computeLineDiff] over [oldWords], [newWords]
    and a common subsequence [lcs] of both: what is left of [lcs] is a
    subsequence of what is left of either side, and the tokens pushed so far
    spell the words passed on the side being annotated. *)
Definition lineDiff_inv (oldWords newWords lcs : list string)
    (forType : ChangeType) (s : LineDiffState) : Prop :=
  oldIdx s <= length oldWords /\ newIdx s <= length newWords
  /\ lcsIdx s <= length lcs
  /\ subseq (skipn (lcsIdx s) lcs) (skipn (oldIdx s) oldWords)
  /\ subseq (skipn (lcsIdx s) lcs) (skipn (newIdx s) newWords)
  /\ (forType = delete ->
      map value (ld_result s) = firstn (oldIdx s) oldWords
      /\ Forall (fun w => wtype w <> add) (ld_result s))
  /\ (forType = add ->
      map value (ld_result s) = firstn (newIdx s) newWords
      /\ Forall (fun w => wtype w <> delete) (ld_result s)).

(** What [computeLineDiff] must return for a line pair: on the delete side
    tokens that spell the old words and are never of kind add, on the add
    side tokens that spell the new words and are never of kind delete. *)
Definition lineDiff_ok (oldWords newWords : list string)
    (forType : ChangeType) (r : list WordChange) : Prop :=
  (forType = delete ->
   map value r = oldWords /\ Forall (fun w => wtype w <> add) r)
  /\ (forType = add ->
      map value r = newWords /\ Forall (fun w => wtype w <> delete) r).

(** *** Replacement blocks *)

(** The Change at index [k] exists and is of kind [t]. *)
Definition kind_at (cs : list DiffChange) (k : nat) (t : ChangeType) : bool :=
  match nth_error cs k with
  | Some c => type_is t c
  | None => false
  end.

(** A replacement block of [cs]: a maximal run of [d] deletes that starts at
    index [s], with the maximal run of [a] adds right after it. *)
Definition block (cs : list DiffChange) (s d a : nat) : Prop :=
  1 <= d
  /\ (forall k, s <= k -> k < s + d -> kind_at cs k delete = true)
  /\ (forall k, s + d <= k -> k < s + d + a -> kind_at cs k add = true)
  /\ (s = 0 \/ kind_at cs (s - 1) delete = false)
  /\ kind_at cs (s + d) delete = false
  /\ kind_at cs (s + d + a) add = false.

(** Both runs are non-empty and hold at most 5 Changes. *)
Definition eligible (d a : nat) : Prop := 1 <= d /\ 1 <= a /\ d <= 5 /\ a <= 5.

(** The [j]-th delete and the [j]-th add of the block at [s] come out with
    the word diffs of that pair of lines, and are otherwise as they were. *)
Definition annotated_pair (cs out : list DiffChange) (s d j : nat) : Prop :=
  exists cd ca wd wa,
    nth_error cs (s + j) = Some cd
    /\ nth_error cs (s + d + j) = Some ca
    /\ computeLineDiff (content cd) (content ca) delete = Ok wd
    /\ computeLineDiff (content cd) (content ca) add = Ok wa
    /\ nth_error out (s + j) = Some (with_wordDiff cd wd)
    /\ nth_error out (s + d + j) = Some (with_wordDiff ca wa).

(** The Change at index [k] comes out as it went in. *)
Definition unchanged_at (cs out : list DiffChange) (k : nat) : Prop :=
  nth_error out k = nth_error cs k.

(** What the output holds for a block: in an eligible block the first
    [min d a] deletes and the first [min d a] adds are annotated and the rest
    is unchanged; a block that is not eligible is unchanged. *)
Definition block_done (cs out : list DiffChange) (s d a : nat) : Prop :=
  (eligible d a ->
   (forall j, j < Nat.min d a -> annotated_pair cs out s d j)
   /\ (forall k, s + Nat.min d a <= k -> k < s + d -> unchanged_at cs out k)
   /\ (forall k, s + d + Nat.min d a <= k -> k < s + d + a ->
                 unchanged_at cs out k))
  /\ (~ eligible d a ->
      forall k, s <= k -> k < s + d + a -> unchanged_at cs out k).

(** Index [k] lies in no replacement block. *)
Definition outside_blocks (cs : list DiffChange) (k : nat) : Prop :=
  forall s d a, block cs s d a -> ~ (s <= k /\ k < s + d + a).

(** Index [k] lies in a replacement block. *)
Definition inside_block (cs : list DiffChange) (k : nat) : Prop :=
  exists s d a, block cs s d a /\ s <= k /\ k < s + d + a.

(** [c'] is [c] with nothing but [wordDiff] touched. *)
Definition same_line (c c' : DiffChange) : Prop :=
  type c' = type c /\ content c' = content c
  /\ oldLineNumber c' = oldLineNumber c /\ newLineNumber c' = newLineNumber c.

(** The pair again, field by field: the [j]-th delete and the [j]-th add
    of the block at [s] come out bearing, as their [wordDiff], the word diff
    of their two lines on the side of their kind, with the kind, the content
    and the numbers they had. *)
Definition pair_marked (cs out : list DiffChange) (s d j : nat) : Prop :=
  exists cd ca cd' ca' wd wa,
    nth_error cs (s + j) = Some cd
    /\ nth_error cs (s + d + j) = Some ca
    /\ nth_error out (s + j) = Some cd'
    /\ nth_error out (s + d + j) = Some ca'
    /\ computeLineDiff (content cd) (content ca) delete = Ok wd
    /\ computeLineDiff (content cd) (content ca) add = Ok wa
    /\ wordDiff cd' = Some wd /\ wordDiff ca' = Some wa
    /\ same_line cd cd' /\ same_line ca ca'.

(** [c'] is [c], or [c] with the word diff of its line against some other
    line attached, on the side of its kind. *)
Definition annotation_of (c c' : DiffChange) : Prop :=
  c' = c
  \/ (exists other w,
        type c = Some delete
        /\ computeLineDiff (content c) other delete = Ok w
        /\ c' = with_wordDiff c w)
  \/ (exists other w,
        type c = Some add
        /\ computeLineDiff other (content c) add = Ok w
        /\ c' = with_wordDiff c w).

(** The Change the [for] loops of an eligible block push for the [j]-th
    entry [c] of a run. *)
Definition annot_at (deletes adds : list DiffChange) (forType : ChangeType)
    (maxPairs j : nat) (c : DiffChange) : DiffChange :=
  if (j <? maxPairs)%nat then
    match nth_error deletes j, nth_error adds j with
    | Some d, Some a =>
        match computeLineDiff (content d) (content a) forType with
        | Ok w => with_wordDiff c w
        | Err _ => c
        end
    | _, _ => c
    end
  else c.

Definition annot_run (deletes adds : list DiffChange) (forType : ChangeType)
    (maxPairs start : nat) (side : list DiffChange) : list DiffChange :=
  map (fun jc => annot_at deletes adds forType maxPairs (fst jc) (snd jc))
    (combine (seq start (length side)) side).

(** What [computeHunkWordDiffs] must return for [cs]: as many Changes, every
    block annotated as its eligibility says, every Change outside the blocks
    unchanged, and nothing but [wordDiff] touched anywhere. *)
Definition wordDiffs_ok (cs out : list DiffChange) : Prop :=
  length out = length cs
  /\ (forall s d a, block cs s d a -> block_done cs out s d a)
  /\ (forall k, outside_blocks cs k -> unchanged_at cs out k)
  /\ (forall k, k < length cs -> outside_blocks cs k \/ inside_block cs k)
  /\ (forall k c c', nth_error cs k = Some c -> nth_error out k = Some c' ->
                     annotation_of c c').

(** The state of the loop of [computeHunkWordDiffs]: the Changes before [i]
    are done, and [i] does not stand inside a block. *)
Definition wordDiffs_inv (cs : list DiffChange) (st : nat * list DiffChange)
    : Prop :=
  let (i, out) := st in
  length out = i /\ i <= length cs
  /\ (i = 0 \/ kind_at cs (i - 1) delete = false \/ kind_at cs i delete = false)
  /\ (forall s d a, block cs s d a ->
        i <= s \/ (s + d + a <= i /\ block_done cs out s d a))
  /\ (forall k, k < i -> outside_blocks cs k -> unchanged_at cs out k)
  /\ (forall k, k < i -> outside_blocks cs k \/ inside_block cs k)
  /\ (forall k c c', nth_error cs k = Some c -> nth_error out k = Some c' ->
                     annotation_of c c').

(** [h'] is [h] with its changes run through [computeHunkWordDiffs]. *)
Definition hunk_annotated (h h' : DiffHunk) : Prop :=
  header h' = header h /\ oldStart h' = oldStart h /\ oldLines h' = oldLines h
  /\ newStart h' = newStart h /\ newLines h' = newLines h
  /\ hunkExpanded h' = hunkExpanded h
  /\ computeHunkWordDiffs (changes h) = Ok (changes h').

(** [f'] is [f] with every hunk annotated. *)
Definition file_annotated (f f' : DiffFile) : Prop :=
  oldPath f' = oldPath f /\ newPath f' = newPath f /\ status f' = status f
  /\ isExpanded f' = isExpanded f
  /\ Forall2 hunk_annotated (hunks f) (hunks f').

(** A block of 6 deletes and 1 add. *)
Definition six_deletes_one_add : list DiffChange :=
  [mkChange (Some delete) "a1" (Some 1%N) None;
   mkChange (Some delete) "a2" (Some 2%N) None;
   mkChange (Some delete) "a3" (Some 3%N) None;
   mkChange (Some delete) "a4" (Some 4%N) None;
   mkChange (Some delete) "a5" (Some 5%N) None;
   mkChange (Some delete) "a6" (Some 6%N) None;
   mkChange (Some add) "b1" None (Some 1%N)].

(** A block of 2 deletes and 1 add between two context lines. *)
Definition two_deletes_one_add : list DiffChange :=
  [mkChange (Some normal) "head" (Some 1%N) (Some 1%N);
   mkChange (Some delete) "const x = 1;" (Some 2%N) None;
   mkChange (Some delete) "gone" (Some 3%N) None;
   mkChange (Some add) "const x = 2;" None (Some 2%N);
   mkChange (Some normal) "tail" (Some 4%N) (Some 3%N)].

(** *** Lines and Changes of a hunk *)

(** The kind [parseHunk] gives the Change of a line: by its first character,
    [normal] for an empty line, and none for any other line. *)
Definition kind_of_line (line : string) : option ChangeType :=
  match charAt0 line with
  | Some c =>
      if (c =? "+")%char then Some add
      else if (c =? "-")%char then Some delete
      else if (c =? " ")%char then Some normal
      else None
  | None => Some normal
  end.

(** [c] is the Change of [line]: its text after the first character, its
    kind by the first character, and no word diff. *)
Definition change_of_line (line : string) (c : DiffChange) : Prop :=
  content c = slice1 line /\ type c = kind_of_line line /\ wordDiff c = None.

(** A line at which a hunk ends: the start of a hunk or of a file. *)
Definition is_hunk_boundary (line : string) : bool :=
  startsWith line "@@" || startsWith line "diff --git".

(** The lines of [ls] that give a Change. *)
Definition change_lines (ls : list string) : list string :=
  filter (fun l => negb (is_backslash_line l)) ls.

(** The state of the hunk loop started after line [j]: it has not run past
    the end, read no boundary line, and holds the Changes of the lines it
    read. *)
Definition hunk_lines_inv (lines : list string) (j : nat) (s : HunkState)
    : Prop :=
  j + 1 <= h_i s /\ h_i s <= length lines
  /\ Forall (fun l => is_hunk_boundary l = false) (slice lines (j + 1) (h_i s))
  /\ Forall2 change_of_line (change_lines (slice lines (j + 1) (h_i s)))
       (h_changes s).

(** *** Counting lines and Changes *)

(** The character that marks the lines of a kind. *)
Definition marker_of (t : ChangeType) : ascii :=
  match t with
  | add => "+"
  | delete => "-"
  | normal => " "
  end.

Definition starts_with_char (c : ascii) (line : string) : bool :=
  match charAt0 line with
  | Some c' => (c' =? c)%char
  | None => false
  end.

(** The number of lines of [ls] that start with the marker of [t]. *)
Definition kind_lines (t : ChangeType) (ls : list string) : nat :=
  length (filter (starts_with_char (marker_of t)) ls).

(** The number of Changes of kind [t] in a hunk, a file, a diff. *)
Definition kind_changes (t : ChangeType) (cs : list DiffChange) : nat :=
  length (filter (type_is t) cs).

Definition kind_hunks (t : ChangeType) (hs : list DiffHunk) : nat :=
  list_sum (map (fun h => kind_changes t (changes h)) hs).

Definition kind_files (t : ChangeType) (fs : list DiffFile) : nat :=
  list_sum (map (fun f => kind_hunks t (hunks f)) fs).

(** *** The lines of a file section and of a diff *)

(** The line matches the pattern of a hunk header. *)
Definition is_hunk_header (line : string) : bool :=
  match match_hunk_header line with
  | Some _ => true
  | None => false
  end.

Definition starts_file (line : string) : bool := startsWith line "diff --git".

Definition paths_of (f : DiffFile) : string * string := (oldPath f, newPath f).

(** The pairs of paths of the lines that match the pattern of a
    [diff --git] line, in order. *)
Definition git_paths (lines : list string) : list (string * string) :=
  flat_map (fun l => match match_git_line l with
                     | Some p => [p]
                     | None => []
                     end) lines.

(** The state of the loop over the hunks of the file whose [diff --git] line
    is line [i]. *)
Definition file_lines_inv (lines : list string) (i : nat) (e : bool)
    (s : nat * list DiffHunk) : Prop :=
  fst s <= length lines
  /\ Forall (fun l => starts_file l = false) (slice lines (i + 1) (fst s))
  /\ map header (snd s) = filter is_hunk_header (slice lines (i + 1) (fst s))
  /\ Forall (fun h => hunkExpanded h = e) (snd s)
  /\ (forall t, t <> normal ->
        kind_hunks t (snd s) <= kind_lines t (slice lines (i + 1) (fst s))).

(** The state of the loop over the files of a diff. *)
Definition diff_lines_inv (lines : list string) (e : bool)
    (s : nat * list DiffFile) : Prop :=
  fst s <= length lines
  /\ map paths_of (snd s) = git_paths (firstn (fst s) lines)
  /\ Forall (fun f => isExpanded f = e
                      /\ Forall (fun h => hunkExpanded h = e) (hunks f)) (snd s)
  /\ (forall t, t <> normal ->
        kind_files t (snd s) <= kind_lines t (firstn (fst s) lines)).

(** *** The longest common subsequence *)

(** The length of the longest common subsequences of two sequences, by the
    recurrence [computeLCS] fills its table with. *)
Fixpoint lcs_length (xs ys : list string) : nat :=
  match xs with
  | [] => 0
  | x :: xs' =>
      (fix inner (ys : list string) : nat :=
         match ys with
         | [] => 0
         | y :: ys' =>
             if (x =? y)%string then lcs_length xs' ys' + 1
             else Nat.max (lcs_length xs' (y :: ys')) (inner ys')
         end) ys
  end.

(** What the cell [dp[i][j]] must hold: the length for the first [i]
    elements of [a] and the first [j] of [b]. *)
Definition lcs_cell (a b : list string) (i j : nat) : nat :=
  lcs_length (rev (firstn i a)) (rev (firstn j b)).

(** The table has [m + 1] rows of [n + 1] cells. *)
Definition dp_shape (dp : list (list nat)) (m n : nat) : Prop :=
  length dp = m + 1 /\ forall i, i <= m -> length (nth i dp []) = n + 1.

(** The table while it is filled, before the cell [(i, j)] is written: the
    cells of row and column 0, of the rows before [i] and of row [i] before
    column [j] hold their lengths. *)
Definition dp_inv (a b : list string) (i j : nat) (dp : list (list nat))
    : Prop :=
  dp_shape dp (length a) (length b)
  /\ forall i' j', i' <= length a -> j' <= length b ->
       i' = 0 \/ j' = 0 \/ i' < i \/ (i' = i /\ j' < j) ->
       dp_get dp i' j' = lcs_cell a b i' j'.

(** *** The unchanged tokens of a line pair *)

(** The values of the tokens of kind normal. *)
Definition normal_values (r : list WordChange) : list string :=
  map value (filter (fun w => ChangeType_eqb (wtype w) normal) r).

(** The state of the loop of [computeLineDiff], with the tokens of kind
    normal: they are the words of [lcs] passed so far. *)
Definition lineDiff_normals_inv (oldWords newWords lcs : list string)
    (forType : ChangeType) (s : LineDiffState) : Prop :=
  lineDiff_inv oldWords newWords lcs forType s
  /\ normal_values (ld_result s) = firstn (lcsIdx s) lcs.

(** *** The virtual lines, block by block *)

(** The elements of [l] with their indices, counted from [k]. *)
Definition indexed_from {A} (k : nat) (l : list A) : list (nat * A) :=
  combine (seq k (length l)) l.

(** The lines of a hunk: its header and, unless it is collapsed, a line for
    each Change. *)
Definition hunk_block (collapsedHunks : NumMap) (fileIndex : nat)
    (p : nat * DiffHunk) : list VirtualLine :=
  HunkHeaderLine fileIndex (fst p)
  :: (if hunk_collapsed collapsedHunks fileIndex (fst p) then []
      else flat_map (fun q => [ChangeLine fileIndex (fst p) (fst q)])
             (indexed_from 0 (changes (snd p)))).

(** The lines of a file: its header and, unless it is collapsed, the lines
    of its hunks. *)
Definition file_block (collapsedFiles : NumSet) (collapsedHunks : NumMap)
    (p : nat * DiffFile) : list VirtualLine :=
  FileHeaderLine (fst p)
  :: (if set_has collapsedFiles (fst p) then []
      else flat_map (hunk_block collapsedHunks (fst p))
             (indexed_from 0 (hunks (snd p)))).

Definition line_file (vLine : VirtualLine) : nat :=
  match vLine with
  | FileHeaderLine f | HunkHeaderLine f _ | ChangeLine f _ _ => f
  end.

(** The hunk of a line of a file, counting the header of the file as
    before all hunks. *)
Definition line_hunk (vLine : VirtualLine) : option nat :=
  match vLine with
  | FileHeaderLine _ => None
  | HunkHeaderLine _ h | ChangeLine _ h _ => Some h
  end.

(** The virtual lines of the canvas in state [s]. *)
Definition lines_of (files : list DiffFile) (s : CanvasState)
    : list VirtualLine :=
  virtualLines files (collapsedFiles s) (collapsedHunks s).

(** The cursor stands on a line of [lines], inside the viewport. *)
Definition canvas_ok (lines : list VirtualLine) (viewportHeight : Z)
    (s : CanvasState) : Prop :=
  (0 <= scrollOffset s)%Z
  /\ (0 <= cursorLine s < Z.of_nat (length lines))%Z
  /\ (scrollOffset s <= cursorLine s < scrollOffset s + viewportHeight)%Z.

(** The cursor stands on a line of [lines] and within the window
    [scrollOffset], ..., [scrollOffset + viewportHeight - 1], wherever the
    window lies. *)
Definition cursor_visible (lines : list VirtualLine) (viewportHeight : Z)
    (s : CanvasState) : Prop :=
  (0 <= cursorLine s < Z.of_nat (length lines))%Z
  /\ (scrollOffset s <= cursorLine s < scrollOffset s + viewportHeight)%Z.

(** [k] lies beyond [a] in the direction. *)
Definition ahead (direction : Direction) (a k : Z) : Prop :=
  match direction with
  | Forward => (a < k)%Z
  | Backward => (k < a)%Z
  end.

(** No line of [lines] strictly between [a] and [b] is wanted. *)
Definition none_between (lines : list VirtualLine)
    (wanted : VirtualLine -> bool) (direction : Direction) (a b : Z) : Prop :=
  forall k vLine, ahead direction a k -> ahead direction k b ->
                  at_index lines k = Some vLine -> wanted vLine = false.

(** No line of [lines] beyond [a] is wanted. *)
Definition none_ahead (lines : list VirtualLine)
    (wanted : VirtualLine -> bool) (direction : Direction) (a : Z) : Prop :=
  forall k vLine, ahead direction a k ->
                  at_index lines k = Some vLine -> wanted vLine = false.

(** What [findNextHunk] and [findNextFile] must return from [fromLine]: the
    nearest wanted line in the direction, or [fromLine] when there is
    none. *)
Definition nearest_wanted (lines : list VirtualLine)
    (wanted : VirtualLine -> bool) (direction : Direction) (fromLine r : Z)
    : Prop :=
  (r = fromLine /\ none_ahead lines wanted direction fromLine)
  \/ (ahead direction fromLine r
      /\ (exists vLine, at_index lines r = Some vLine /\ wanted vLine = true)
      /\ none_between lines wanted direction fromLine r).

(** The key [Enter] alone. *)
Definition enter_key : Key :=
  {| escape := false; upArrow := false; downArrow := false; pageUp := false;
     pageDown := false; key_return := true |}.

(** A diff of two files, the first with two hunks. *)
Definition sample_files : list DiffFile :=
  [{| oldPath := "a"; newPath := "a";
      hunks := [{| header := "@@ -1 +1 @@"; oldStart := 1; oldLines := 1;
                   newStart := 1; newLines := 1;
                   changes := [mkChange (Some delete) "x" (Some 1%N) None;
                               mkChange (Some add) "y" None (Some 1%N)];
                   hunkExpanded := true |};
                {| header := "@@ -9 +9 @@"; oldStart := 9; oldLines := 1;
                   newStart := 9; newLines := 1;
                   changes := [mkChange (Some normal) "z" (Some 9%N) (Some 9%N)];
                   hunkExpanded := true |}];
      status := modified; isExpanded := true |};
   {| oldPath := "b"; newPath := "b"; hunks := []; status := added;
      isExpanded := true |}].

(** *** Headers and the lines under them *)

(** The lines a header governs: under the header of a file, the lines of
    its hunks; under the header of a hunk, the lines of its Changes. *)
Definition governed (head vLine : VirtualLine) : bool :=
  match head with
  | FileHeaderLine fileIndex =>
      (line_file vLine =? fileIndex)%nat && negb (is_file_header_line vLine)
  | HunkHeaderLine fileIndex hunkIndex =>
      match vLine with
      | ChangeLine f h _ => ((f =? fileIndex) && (h =? hunkIndex))%nat
      | _ => false
      end
  | ChangeLine _ _ _ => false
  end.

(** [lines] without the lines [head] governs. *)
Definition without_governed (head : VirtualLine) (lines : list VirtualLine)
    : list VirtualLine :=
  filter (fun vLine => negb (governed head vLine)) lines.

(** The file or hunk of the header [head] is collapsed in state [s]. *)
Definition is_collapsed (s : CanvasState) (head : VirtualLine) : bool :=
  match head with
  | FileHeaderLine fileIndex => set_has (collapsedFiles s) fileIndex
  | HunkHeaderLine fileIndex hunkIndex =>
      hunk_collapsed (collapsedHunks s) fileIndex hunkIndex
  | ChangeLine _ _ _ => false
  end.

(** *** The text of a displayed line *)

(** The characters of a sequence of [<Text>] elements, in order. *)
Definition shown (elements : list Text) : string :=
  concat_all (map children elements).

(** The Change [c'] is displayed with the characters of [c]. *)
Definition same_text (showLineNumbers : bool) (lineNumberWidth : nat)
    (c c' : DiffChange) : Prop :=
  shown (DiffLine c' showLineNumbers lineNumberWidth)
  = shown (DiffLine c showLineNumbers lineNumberWidth).

(** The files [fs'] are displayed with the characters of [fs], Change by
    Change. *)
Definition files_same_text (showLineNumbers : bool) (lineNumberWidth : nat)
    (fs fs' : list DiffFile) : Prop :=
  Forall2 (fun f f' =>
             Forall2 (fun h h' =>
                        Forall2 (same_text showLineNumbers lineNumberWidth)
                          (changes h) (changes h'))
               (hunks f) (hunks f'))
    fs fs'.

(** How a line of a hunk is displayed without line numbers: as it stands
    when it starts with [+], [-] or a space; with a space in place of any
    other first character; as one space when it is empty. *)
Definition displayed_form (line : string) : string :=
  match line with
  | EmptyString => " "
  | String c rest =>
      if (c =? "+")%char || (c =? "-")%char || (c =? " ")%char then line
      else String " " rest
  end.

(** The Changes of every hunk of every file carry no word diff. *)
Definition no_word_diffs (fs : list DiffFile) : Prop :=
  Forall (fun f => Forall (fun h => Forall (fun c => wordDiff c = None)
                                     (changes h)) (hunks f)) fs.

(** *** Sequences of keys and jumps *)

(** The handler called for each key of a sequence, each call from the
    state the call before left. *)
Fixpoint press_keys (files : list DiffFile) (termHeight : Z)
    (keys : list (string * Key)) (s : CanvasState) : result CanvasState :=
  match keys with
  | [] => Ok s
  | (input, key) :: keys' =>
      '(s', _) <- useInput files termHeight input key s ;;
      press_keys files termHeight keys' s'
  end.

Definition opposite (direction : Direction) : Direction :=
  match direction with
  | Forward => Backward
  | Backward => Forward
  end.

(** The key of a letter, with no flag set. *)
Definition letter_key : Key :=
  {| escape := false; upArrow := false; downArrow := false; pageUp := false;
     pageDown := false; key_return := false |}.

(** *** Two texts that agree on a window of lines *)

(** The lines of [ls1] before index [hi] stand in [ls2], [d] lines further
    down, and are last in neither text or in both; [ls2] has a
    [diff --git] line or its end after them, and [ls1] its end or an empty
    last line. *)
Definition same_window (ls1 ls2 : list string) (d hi : nat) : Prop :=
  length ls1 <= length ls2
  /\ hi <= length ls1
  /\ (forall i, i < hi -> nth_error ls2 (i + d) = nth_error ls1 i)
  /\ (forall i, i < hi ->
                (i =? length ls1 - 1)%nat = (i + d =? length ls2 - 1)%nat)
  /\ file_stopped ls2 (hi + d)
  /\ (nth_error ls1 hi = None
      \/ (nth_error ls1 hi = Some "" /\ length ls1 = hi + 1)).

(** An index [i1] of [ls1] and the index [i2] of [ls2] that stands for it:
    the same line of the window, or the two ends. *)
Definition index_rel (ls1 : list string) (d hi : nat) (i1 i2 : nat) : Prop :=
  (i1 <= hi /\ i2 = i1 + d)
  \/ (i1 = hi + 1 /\ length ls1 = hi + 1 /\ i2 = hi + d).

(** The states of the hunk loop in the two texts. *)
Definition hunk_rel (d hi : nat) (s1 s2 : HunkState) : Prop :=
  h_i s1 <= hi /\ h_i s2 = h_i s1 + d
  /\ currentOldLine s2 = currentOldLine s1
  /\ currentNewLine s2 = currentNewLine s1
  /\ h_changes s2 = h_changes s1.

(** What [parseHunk] and [parseFile] return in the two texts. *)
Definition hunk_result_rel (d hi : nat)
    (r1 r2 : option (DiffHunk * nat)) : Prop :=
  match r1, r2 with
  | None, None => True
  | Some (h1, n1), Some (h2, n2) => h2 = h1 /\ n1 <= hi /\ n2 = n1 + d
  | _, _ => False
  end.

Definition file_result_rel (ls1 : list string) (d hi : nat)
    (r1 r2 : option (DiffFile * nat)) : Prop :=
  match r1, r2 with
  | None, None => True
  | Some (f1, n1), Some (f2, n2) => f2 = f1 /\ index_rel ls1 d hi n1 n2
  | _, _ => False
  end.

(** * Properties *)

(** ** Loops *)

Section LoopRules.
Context {St R : Type}.
Variable step : St -> result (iter St R).

Lemma while_S fuel s :
  while step (S fuel) s =
  match step s with
  | Ok (Next s') => while step fuel s'
  | Ok (Done r) => Ok r
  | Err e => Err e
  end.
Proof. reflexivity. Qed.

(** The loop rule: an invariant kept by every iteration, with a measure
    that every iteration lowers, makes the loop finish within any fuel
    above the measure, in a final state the exits establish. *)
Lemma while_rule (Inv : St -> Prop) (Post : R -> Prop) (measure : St -> nat) :
  (forall s, Inv s ->
     match step s with
     | Ok (Next s') => Inv s' /\ measure s' < measure s
     | Ok (Done r) => Post r
     | Err _ => False
     end) ->
  forall fuel s, Inv s -> measure s < fuel ->
  exists r, while step fuel s = Ok r /\ Post r.
Proof.
  intros Hstep fuel.
  induction fuel as [|fuel IH]; intros s Hinv Hm; [lia|].
  rewrite while_S. specialize (Hstep s Hinv).
  destruct (step s) as [[s'|r]|e].
  - destruct Hstep as [Hinv' Hlt]. apply IH; [assumption|lia].
  - exists r. split; [reflexivity|assumption].
  - contradiction.
Qed.

End LoopRules.

Lemma get_lt {A} (arr : list A) i :
  i < length arr -> exists x, get arr i = Ok x /\ nth_error arr i = Some x.
Proof.
  intros Hlt. unfold get.
  destruct (nth_error arr i) as [x|] eqn:E.
  - exists x. split; reflexivity.
  - apply nth_error_None in E. lia.
Qed.

(** ** Lists and slices *)

Lemma firstn_S_nth {A} (l : list A) k x :
  nth_error l k = Some x -> firstn (S k) l = firstn k l ++ [x].
Proof.
  revert k. induction l as [|y l IH]; intros [|k] H; simpl in *; try discriminate.
  - injection H as ->. reflexivity.
  - rewrite (IH _ H). reflexivity.
Qed.

Lemma nth_error_skipn_add {A} (l : list A) a k :
  nth_error (skipn a l) k = nth_error l (a + k).
Proof.
  revert l. induction a as [|a IH]; intros [|y l]; simpl; auto.
  destruct k; reflexivity.
Qed.

Lemma skipn_nth_cons {A} (l : list A) k x :
  nth_error l k = Some x -> skipn k l = x :: skipn (S k) l.
Proof.
  revert l. induction k as [|k IH]; intros [|y l] H; try discriminate.
  - injection H as ->. reflexivity.
  - cbn [skipn]. apply IH. exact H.
Qed.

Lemma slice_S {A} (lines : list A) from to line :
  from <= to -> nth_error lines to = Some line ->
  slice lines from (to + 1) = slice lines from to ++ [line].
Proof.
  intros Hle Hnth. unfold slice.
  replace (to + 1 - from) with (S (to - from)) by lia.
  apply firstn_S_nth. rewrite nth_error_skipn_add.
  replace (from + (to - from)) with to by lia. exact Hnth.
Qed.

Lemma slice_same {A} (l : list A) a : slice l a a = [].
Proof. unfold slice. rewrite Nat.sub_diag. reflexivity. Qed.

Lemma slice_length {A} (l : list A) a b :
  b <= length l -> length (slice l a b) = b - a.
Proof.
  intros Hb. unfold slice. rewrite length_firstn, length_skipn. lia.
Qed.

Lemma nth_error_slice {A} (lines : list A) a b k :
  k < b - a -> nth_error (slice lines a b) k = nth_error lines (a + k).
Proof.
  intros Hk. unfold slice.
  rewrite nth_error_firstn.
  destruct (k <? b - a)%nat eqn:E; [|apply Nat.ltb_ge in E; lia].
  apply nth_error_skipn_add.
Qed.

Lemma firstn_slice {A} (l : list A) a b :
  a <= b -> firstn b l = firstn a l ++ slice l a b.
Proof.
  unfold slice. revert l b.
  induction a as [|a IH]; intros l b Hle.
  - rewrite Nat.sub_0_r. reflexivity.
  - destruct b as [|b]; [lia|]. destruct l as [|x l]; cbn [firstn skipn app].
    + rewrite firstn_nil. reflexivity.
    + rewrite (IH l b) by lia. reflexivity.
Qed.

Lemma slice_app {A} (l : list A) a b c :
  a <= b -> b <= c -> slice l a b ++ slice l b c = slice l a c.
Proof.
  intros Hab Hbc. apply (app_inv_head (firstn a l)).
  rewrite app_assoc, <- !firstn_slice by lia. reflexivity.
Qed.

Lemma slice_middle {A} (pre mid post : list A) :
  slice (pre ++ mid ++ post) (length pre) (length pre + length mid) = mid.
Proof.
  unfold slice.
  rewrite skipn_app, Nat.sub_diag, skipn_all. cbn [skipn app].
  replace (length pre + length mid - length pre) with (length mid) by lia.
  rewrite firstn_app, Nat.sub_diag, firstn_all. cbn [firstn].
  apply app_nil_r.
Qed.

Lemma slice_In {A} (lines : list A) a (seg : list A) k line :
  slice lines a (a + length seg) = seg ->
  a <= k -> k < a + length seg -> nth_error lines k = Some line -> In line seg.
Proof.
  intros Hseg H1 H2 Hk.
  apply nth_error_In with (n := k - a).
  rewrite <- Hseg at 1. rewrite nth_error_slice by lia.
  replace (a + (k - a)) with k by lia. exact Hk.
Qed.

Lemma slice_lt {A} (lines : list A) a (seg : list A) k :
  slice lines a (a + length seg) = seg ->
  a <= k -> k < a + length seg -> k < length lines.
Proof.
  intros Hseg H1 H2.
  assert (Hb : nth_error (slice lines a (a + length seg)) (k - a) <> None).
  { rewrite Hseg. apply nth_error_Some. lia. }
  rewrite nth_error_slice in Hb by lia.
  replace (a + (k - a)) with k in Hb by lia.
  apply nth_error_Some. exact Hb.
Qed.

Lemma nth_error_parts {A} (xs ys zs : list A) :
  (forall k, k < length xs -> nth_error ((xs ++ ys) ++ zs) k = nth_error xs k)
  /\ (forall j, j < length ys ->
                nth_error ((xs ++ ys) ++ zs) (length xs + j) = nth_error ys j)
  /\ (forall j, nth_error ((xs ++ ys) ++ zs) (length xs + length ys + j)
                = nth_error zs j).
Proof.
  repeat split.
  - intros k Hk. rewrite nth_error_app1 by (rewrite length_app; lia).
    apply nth_error_app1. exact Hk.
  - intros j Hj. rewrite nth_error_app1 by (rewrite length_app; lia).
    rewrite nth_error_app2 by lia. f_equal. lia.
  - intros j. rewrite nth_error_app2 by (rewrite length_app; lia).
    f_equal. rewrite length_app. lia.
Qed.

(** ** Strings and lines *)

Lemma string_app_assoc (a b c : string) : ((a ++ b) ++ c = a ++ (b ++ c))%string.
Proof. induction a as [|x a IH]; simpl; [reflexivity|now rewrite IH]. Qed.

Lemma string_app_empty_r (a : string) : (a ++ "")%string = a.
Proof. induction a as [|x a IH]; simpl; [reflexivity|now rewrite IH]. Qed.

Lemma prefix_app_iff p s :
  String.prefix p s = true <-> exists r, s = (p ++ r)%string.
Proof.
  revert s. induction p as [|a p IH]; intros s.
  - split; [intros _; exists s; reflexivity|intros _; destruct s; reflexivity].
  - destruct s as [|b s]; simpl.
    + split; [discriminate|intros [r Hr]; discriminate].
    + destruct (Ascii.ascii_dec a b) as [->|Hne].
      * rewrite IH. split; intros [r Hr]; exists r; congruence.
      * split; [discriminate|intros [r Hr]; congruence].
Qed.

Lemma split_lines_nonempty s : split_lines s <> [].
Proof.
  destruct s as [|c s]; simpl; [discriminate|].
  destruct (c =? LF)%char; [discriminate|].
  destruct (split_lines s); discriminate.
Qed.

(** The first line of a text is a prefix of the text. *)
Lemma split_lines_head s l ls :
  split_lines s = l :: ls -> String.prefix l s = true.
Proof.
  revert l ls. induction s as [|c s IH]; intros l ls; simpl.
  - intros H. injection H as <- _. reflexivity.
  - destruct (c =? LF)%char.
    + intros H. injection H as <- _. reflexivity.
    + destruct (split_lines s) as [|l' ls'] eqn:E.
      * exfalso. exact (split_lines_nonempty s E).
      * intros H. injection H as <- _. simpl.
        destruct (Ascii.ascii_dec c c); [|congruence].
        eapply IH; reflexivity.
Qed.

(** A text that does not include [p] has no line that starts with [p]. *)
Lemma includes_false_lines p s :
  includes p s = false ->
  Forall (fun line => startsWith line p = false) (split_lines s).
Proof.
  unfold startsWith.
  induction s as [|c s IH]; intros H.
  - constructor; [|constructor].
    destruct p; [discriminate|reflexivity].
  - change (String.prefix p (String c s) || includes p s = false) in H.
    apply orb_false_elim in H. destruct H as [Hp Hs].
    specialize (IH Hs). cbn [split_lines].
    assert (Hempty : String.prefix p "" = false).
    { destruct p; [discriminate|reflexivity]. }
    destruct (c =? LF)%char.
    + constructor; assumption.
    + destruct (split_lines s) as [|l ls] eqn:E.
      * exfalso. exact (split_lines_nonempty s E).
      * inversion IH as [|? ? Hl Hls]; subst.
        constructor; [|assumption].
        destruct (String.prefix p (String c l)) eqn:Hpl; [|reflexivity].
        apply prefix_app_iff in Hpl. destruct Hpl as [r Hr].
        pose proof (split_lines_head s l ls E) as Hh.
        apply prefix_app_iff in Hh. destruct Hh as [r' Hr'].
        assert (Hgoal : String.prefix p (String c s) = true).
        { apply prefix_app_iff. exists (r ++ r')%string.
          rewrite <- string_app_assoc, <- Hr, Hr'. reflexivity. }
        congruence.
Qed.

(** ** The hunk loop *)

Lemma parseHunk_line_index line s : h_i (parseHunk_line line s) = h_i s + 1.
Proof.
  unfold parseHunk_line.
  destruct (charAt0 line) as [c|];
    repeat match goal with |- context [if ?b then _ else _] => destruct b end;
    reflexivity.
Qed.

(** A property kept by every consumed line holds when the hunk loop ends,
    and the loop does end, where nothing is left to consume. *)
Lemma parseHunk_loop_rule lines (P : HunkState -> Prop) s0 :
  P s0 ->
  (forall s line, P s -> nth_error lines (h_i s) = Some line ->
     hunk_stops lines (h_i s) line = false -> P (parseHunk_line line s)) ->
  forall fuel, length lines - h_i s0 < fuel ->
  exists s', while (parseHunk_step lines) fuel s0 = Ok s'
             /\ P s' /\ hunk_stopped lines (h_i s') /\ h_i s0 <= h_i s'.
Proof.
  intros H0 Hkeep fuel Hfuel.
  destruct (while_rule (parseHunk_step lines)
              (fun s => P s /\ h_i s0 <= h_i s)
              (fun s => P s /\ hunk_stopped lines (h_i s) /\ h_i s0 <= h_i s)
              (fun s => length lines - h_i s)) with (fuel := fuel) (s := s0)
    as [s' [Hw Hp]]; auto.
  - intros s [Hs Hle]. unfold parseHunk_step.
    destruct (h_i s <? length lines)%nat eqn:Hlt; simpl.
    + apply Nat.ltb_lt in Hlt.
      destruct (get_lt lines _ Hlt) as [line [Hget Hnth]].
      rewrite Hget. simpl.
      destruct (startsWith line "@@" || startsWith line "diff --git") eqn:Hb.
      * repeat split; auto. unfold hunk_stopped, hunk_stops.
        rewrite Hnth, Hb. reflexivity.
      * destruct ((line =? "") && (h_i s =? length lines - 1)%nat) eqn:He.
        -- repeat split; auto. unfold hunk_stopped, hunk_stops.
           rewrite Hnth, Hb, He. reflexivity.
        -- rewrite parseHunk_line_index. repeat split; try lia.
           apply Hkeep; auto. unfold hunk_stops. rewrite Hb, He. reflexivity.
    + apply Nat.ltb_ge in Hlt. repeat split; auto.
      unfold hunk_stopped.
      destruct (nth_error lines (h_i s)) eqn:E; auto.
      assert (h_i s < length lines) by (apply nth_error_Some; congruence). lia.
  - exists s'. tauto.
Qed.

(** [parseHunk] either rejects the header or returns a hunk, with the
    property [P] of the loop state if every consumed line keeps it. *)
Lemma parseHunk_rule lines i e (P : HunkState -> Prop) headerLine :
  nth_error lines i = Some headerLine ->
  (forall m, match_hunk_header headerLine = Some m ->
     P {| h_i := i + 1; currentOldLine := parseInt (m1 m);
          currentNewLine := parseInt (m3 m); h_changes := [] |}) ->
  (forall s line, P s -> nth_error lines (h_i s) = Some line ->
     hunk_stops lines (h_i s) line = false -> P (parseHunk_line line s)) ->
  (parseHunk lines i e = Ok None /\ match_hunk_header headerLine = None)
  \/ (exists m s,
        match_hunk_header headerLine = Some m
        /\ parseHunk lines i e =
           Ok (Some ({| header := headerLine; oldStart := parseInt (m1 m);
                        oldLines := match m2 m with Some d => parseInt d | None => 1%N end;
                        newStart := parseInt (m3 m);
                        newLines := match m4 m with Some d => parseInt d | None => 1%N end;
                        changes := h_changes s;
                        hunkExpanded := e |}, h_i s))
        /\ P s /\ hunk_stopped lines (h_i s) /\ i + 1 <= h_i s).
Proof.
  intros Hnth H0 Hkeep. unfold parseHunk, get. rewrite Hnth. simpl.
  destruct (match_hunk_header headerLine) as [m|] eqn:Hm; [right|left; auto].
  destruct (parseHunk_loop_rule lines P
              {| h_i := i + 1; currentOldLine := parseInt (m1 m);
                 currentNewLine := parseInt (m3 m); h_changes := [] |})
    with (fuel := S (length lines)) as [s [Hw [Hp [Hs Hle]]]]; auto.
  - simpl. lia.
  - exists m, s. rewrite Hw. simpl in *. repeat split; auto.
Qed.

(** ** The loops of [parseFile] *)

(** What one iteration of the metadata loop does with the line it reads. *)
Lemma metadata_step_line lines i st line :
  nth_error lines i = Some line ->
  metadata_step lines (i, st) =
    if startsWith line "diff --git" then Ok (Done (i, st))
    else if startsWith line "@@" then Ok (Done (i, st))
    else if startsWith line "Binary files" then Ok (Done (i + 1, st))
    else Ok (Next (i + 1, match status_marker line with
                          | Some s => s
                          | None => st
                          end)).
Proof.
  intros Hnth.
  assert (Hlt : i < length lines) by (apply nth_error_Some; congruence).
  unfold metadata_step, get. rewrite Hnth.
  apply Nat.ltb_lt in Hlt. rewrite Hlt. cbn [negb bind].
  unfold status_marker, startsWith.
  destruct line as [|c line]; [reflexivity|].
  cbn [String.prefix].
  repeat match goal with
         | |- context [Ascii.ascii_dec ?a c] =>
             destruct (Ascii.ascii_dec a c); [subst c; cbn|]
         end;
  repeat match goal with
         | |- context [if ?b then _ else _] => destruct b
         end; reflexivity.
Qed.

Lemma metadata_step_end lines i st :
  nth_error lines i = None -> metadata_step lines (i, st) = Ok (Done (i, st)).
Proof.
  intros Hnth. apply nth_error_None in Hnth.
  unfold metadata_step. apply Nat.ltb_ge in Hnth. rewrite Hnth. reflexivity.
Qed.

(** The metadata loop ends, at or after the index it started from. *)
Lemma metadata_loop_total lines i0 st0 fuel :
  length lines - i0 < fuel ->
  exists i st, while (metadata_step lines) fuel (i0, st0) = Ok (i, st) /\ i0 <= i.
Proof.
  intros Hfuel.
  destruct (while_rule (metadata_step lines)
              (fun s => i0 <= fst s) (fun s => i0 <= fst s)
              (fun s => length lines - fst s)) with (fuel := fuel) (s := (i0, st0))
    as [[i st] [Hw Hp]]; simpl; auto.
  - intros [i st] Hle. simpl in Hle.
    destruct (nth_error lines i) as [line|] eqn:Hnth.
    + rewrite (metadata_step_line _ _ st _ Hnth).
      assert (i < length lines) by (apply nth_error_Some; congruence).
      repeat match goal with
             | |- context [if ?b then _ else _] => destruct b
             end; simpl; lia.
    + rewrite (metadata_step_end _ _ st Hnth). simpl. lia.
  - exists i, st. auto.
Qed.

(** The rule of the loop over the hunks of a file: [P] is kept when a line
    is skipped and when a parsed hunk is appended. *)
Lemma hunks_loop_rule lines e (P : nat * list DiffHunk -> Prop) s0 :
  P s0 ->
  (forall i hs line, P (i, hs) -> nth_error lines i = Some line ->
     startsWith line "diff --git" = false ->
     (startsWith line "@@" = false -> P (i + 1, hs))
     /\ (startsWith line "@@" = true ->
         parseHunk lines i e = Ok None -> P (i + 1, hs))
     /\ (startsWith line "@@" = true -> forall h next,
         parseHunk lines i e = Ok (Some (h, next)) -> i < next ->
         P (next, hs ++ [h]))) ->
  forall fuel, length lines - fst s0 < fuel ->
  exists r, while (hunks_step lines e) fuel s0 = Ok r
            /\ P r /\ file_stopped lines (fst r) /\ fst s0 <= fst r.
Proof.
  intros H0 Hkeep fuel Hfuel.
  destruct (while_rule (hunks_step lines e)
              (fun s => P s /\ fst s0 <= fst s)
              (fun s => P s /\ file_stopped lines (fst s) /\ fst s0 <= fst s)
              (fun s => length lines - fst s)) with (fuel := fuel) (s := s0)
    as [r [Hw Hp]]; auto.
  - intros [i hs] [Hs Hle]. simpl in Hle. unfold hunks_step.
    destruct (i <? length lines)%nat eqn:Hlt; cbn [negb].
    + apply Nat.ltb_lt in Hlt.
      destruct (get_lt lines _ Hlt) as [line [Hget Hnth]].
      rewrite Hget. cbn [bind].
      destruct (startsWith line "diff --git") eqn:Hd.
      * repeat split; auto. unfold file_stopped. simpl. rewrite Hnth. exact Hd.
      * destruct (Hkeep i hs line Hs Hnth Hd) as [K1 [K2 K3]].
        destruct (startsWith line "@@") eqn:Ha.
        -- destruct (parseHunk_rule lines i e (fun _ => True) _ Hnth)
             as [[Hr _]|[m [s [_ [Hr [_ [_ Hn]]]]]]]; auto.
           ++ rewrite Hr. cbn [bind]. simpl. repeat split; auto; lia.
           ++ rewrite Hr. cbn [bind]. simpl. repeat split; try lia.
              apply (K3 eq_refl _ _ Hr). lia.
        -- simpl. repeat split; auto; lia.
    + apply Nat.ltb_ge in Hlt. repeat split; auto.
      unfold file_stopped. simpl.
      destruct (nth_error lines i) eqn:E; auto.
      assert (i < length lines) by (apply nth_error_Some; congruence). lia.
  - exists r. tauto.
Qed.

(** [parseFile] either rejects its first line or returns a file made of the
    outcomes of its two loops. *)
Lemma parseFile_rule lines i e gitLine (P : nat * list DiffHunk -> Prop) :
  nth_error lines i = Some gitLine ->
  (forall i1, i + 1 <= i1 -> P (i1, [])) ->
  (forall j hs line, P (j, hs) -> nth_error lines j = Some line ->
     startsWith line "diff --git" = false ->
     (startsWith line "@@" = false -> P (j + 1, hs))
     /\ (startsWith line "@@" = true ->
         parseHunk lines j e = Ok None -> P (j + 1, hs))
     /\ (startsWith line "@@" = true -> forall h next,
         parseHunk lines j e = Ok (Some (h, next)) -> j < next ->
         P (next, hs ++ [h]))) ->
  (parseFile lines i e = Ok None /\ match_git_line gitLine = None)
  \/ (exists o n i1 st i2 hs,
        match_git_line gitLine = Some (o, n)
        /\ while (metadata_step lines) (S (length lines)) (i + 1, modified)
           = Ok (i1, st)
        /\ while (hunks_step lines e) (S (length lines)) (i1, []) = Ok (i2, hs)
        /\ parseFile lines i e =
           Ok (Some ({| oldPath := o; newPath := n; hunks := hs; status := st;
                        isExpanded := e |}, i2))
        /\ i + 1 <= i1 /\ i1 <= i2 /\ P (i2, hs) /\ file_stopped lines i2).
Proof.
  intros Hnth H0 Hkeep. unfold parseFile, get. rewrite Hnth. cbn [bind].
  destruct (match_git_line gitLine) as [[o n]|] eqn:Hm; [right|left; auto].
  destruct (metadata_loop_total lines (i + 1) modified (S (length lines)))
    as [i1 [st [Hw1 Hle1]]]; [lia|].
  destruct (hunks_loop_rule lines e P (i1, [])) with (fuel := S (length lines))
    as [[i2 hs] [Hw2 [Hp [Hs Hle2]]]]; auto.
  - simpl. lia.
  - exists o, n, i1, st, i2, hs. rewrite Hw1. cbn [bind]. rewrite Hw2.
    simpl in *. repeat split; auto.
Qed.

(** The rule of the loop over the files of a diff. *)
Lemma parseGitDiff_loop_rule lines e (P : list DiffFile -> Prop) files0 i0 :
  P files0 ->
  (forall i files f next line, P files ->
     nth_error lines i = Some line -> startsWith line "diff --git" = true ->
     parseFile lines i e = Ok (Some (f, next)) -> P (files ++ [f])) ->
  forall fuel, length lines - i0 < fuel ->
  exists files, while (parseGitDiff_step lines e) fuel (i0, files0) = Ok files
                /\ P files.
Proof.
  intros H0 Hkeep fuel Hfuel.
  apply (while_rule (parseGitDiff_step lines e)
           (fun s => P (snd s)) P (fun s => length lines - fst s)); auto.
  intros [i files] Hs. simpl in Hs. unfold parseGitDiff_step.
  destruct (i <? length lines)%nat eqn:Hlt; cbn [negb]; auto.
  apply Nat.ltb_lt in Hlt.
  destruct (get_lt lines _ Hlt) as [line [Hget Hnth]].
  rewrite Hget. cbn [bind].
  destruct (startsWith line "diff --git") eqn:Hd.
  - destruct (parseFile_rule lines i e _ (fun _ => True) Hnth)
      as [[Hr _]|[o [n [i1 [st [i2 [hs [_ [_ [_ [Hr [Hle1 [Hle2 _]]]]]]]]]]]]];
      auto.
    + rewrite Hr. cbn [bind]. simpl. split; [assumption|lia].
    + rewrite Hr. cbn [bind]. simpl. split; [|lia].
      eapply Hkeep; eauto.
  - simpl. split; [assumption|lia].
Qed.

(** ** Results of the parser *)

(** C2. [parseGitDiff] returns a sequence of files on every input: no
    [TypeError] is raised and every loop ends.  On a text that includes no
    [diff --git] marker the sequence is empty. *)
Theorem parseGitDiff_total :
  (forall diffOutput e, exists files, parseGitDiff diffOutput e = Ok files)
  /\ (forall diffOutput e,
        includes "diff --git" diffOutput = false ->
        parseGitDiff diffOutput e = Ok []).
Proof.
  split; intros diffOutput e.
  - unfold parseGitDiff.
    destruct (parseGitDiff_loop_rule (split_lines diffOutput) e
                (fun _ => True) [] 0) with (fuel := S (length (split_lines diffOutput)))
      as [files [Hw _]]; auto; [lia|].
    exists files. exact Hw.
  - intros Hno. unfold parseGitDiff.
    pose proof (includes_false_lines _ _ Hno) as Hlines.
    destruct (parseGitDiff_loop_rule (split_lines diffOutput) e
                (fun files => files = []) [] 0)
      with (fuel := S (length (split_lines diffOutput)))
      as [files [Hw Hnil]]; auto; [|lia|congruence].
    intros i files f next line _ Hnth Hstart _.
    rewrite Forall_forall in Hlines.
    apply nth_error_In in Hnth. specialize (Hlines _ Hnth). congruence.
Qed.

Lemma parseGitDiff_total_witness :
  parseGitDiff "index 1111111..2222222
@@ -1 +1 @@
-old
+new" true = Ok [].
Proof. apply (proj2 parseGitDiff_total). reflexivity. Defined.

(** Every hunk of every file of the output was returned by [parseHunk]. *)
Lemma parseFile_hunks lines i e f next :
  parseFile lines i e = Ok (Some (f, next)) -> Forall (hunk_of lines e) (hunks f).
Proof.
  intros Hf.
  destruct (nth_error lines i) as [gitLine|] eqn:Hnth;
    [|unfold parseFile, get in Hf; rewrite Hnth in Hf; discriminate].
  destruct (parseFile_rule lines i e gitLine
              (fun s => Forall (hunk_of lines e) (snd s)) Hnth)
    as [[Hr _]|[o [n [i1 [st [i2 [hs [_ [_ [_ [Hr [_ [_ [Hp _]]]]]]]]]]]]]].
  - intros; constructor.
  - intros j hs line Hs _ _. simpl in *. repeat split; auto.
    intros _ h nx Hh _. apply Forall_app. split; [assumption|].
    constructor; [|constructor]. exists j, nx. exact Hh.
  - congruence.
  - rewrite Hr in Hf. injection Hf as <- _. exact Hp.
Qed.

Lemma parseGitDiff_hunks diffOutput e files :
  parseGitDiff diffOutput e = Ok files ->
  Forall (fun f => Forall (hunk_of (split_lines diffOutput) e) (hunks f)) files.
Proof.
  unfold parseGitDiff. intros Hr.
  destruct (parseGitDiff_loop_rule (split_lines diffOutput) e
              (Forall (fun f => Forall (hunk_of (split_lines diffOutput) e) (hunks f)))
              [] 0) with (fuel := S (length (split_lines diffOutput)))
    as [files' [Hw Hp]]; [constructor| |lia|congruence].
  intros i fs f next line Hfs _ _ Hf.
  apply Forall_app. split; [assumption|].
  constructor; [|constructor]. eapply parseFile_hunks; eauto.
Qed.

Lemma parseHunk_header_line lines j e h next :
  parseHunk lines j e = Ok (Some (h, next)) ->
  nth_error lines j = Some (header h).
Proof.
  intros Hh.
  destruct (nth_error lines j) as [headerLine|] eqn:Hnth;
    [|unfold parseHunk, get in Hh; rewrite Hnth in Hh; discriminate].
  destruct (parseHunk_rule lines j e (fun _ => True) headerLine Hnth)
    as [[Hr _]|[m [s [_ [Hr _]]]]]; auto; rewrite Hr in Hh.
  - discriminate.
  - injection Hh as <- _. reflexivity.
Qed.

(** The Change a line pushes, if any, is the last one. *)
Lemma parseHunk_line_changes line s :
  h_changes (parseHunk_line line s) = h_changes s
  \/ exists c, h_changes (parseHunk_line line s) = h_changes s ++ [c]
               /\ presence_ok c.
Proof.
  assert (Hok : forall t o n,
             (o <> None <-> bears_old (mkChange t (slice1 line) o n) = true) ->
             (n <> None <-> bears_new (mkChange t (slice1 line) o n) = true) ->
             presence_ok (mkChange t (slice1 line) o n)).
  { intros t o n H1 H2. split; assumption. }
  unfold parseHunk_line.
  destruct (charAt0 line) as [c|];
    repeat match goal with |- context [if ?b then _ else _] => destruct b end;
    cbn [h_changes]; auto; right; eexists; (split; [reflexivity|]);
    apply Hok; cbn; split; intros; congruence.
Qed.

Lemma parseHunk_presence lines j e h next :
  parseHunk lines j e = Ok (Some (h, next)) -> Forall presence_ok (changes h).
Proof.
  intros Hp.
  pose proof (parseHunk_header_line _ _ _ _ _ Hp) as Hnth.
  destruct (parseHunk_rule lines j e
              (fun s => Forall presence_ok (h_changes s)) (header h) Hnth)
    as [[Hr _]|[m [s [_ [Hr [Hs _]]]]]].
  - intros; constructor.
  - intros s line Hs _ _.
    destruct (parseHunk_line_changes line s) as [->|[c [-> Hc]]]; auto.
    apply Forall_app. split; [assumption|]. constructor; [assumption|constructor].
  - congruence.
  - rewrite Hr in Hp. injection Hp as <- _. exact Hs.
Qed.

(** C8. In every Change of the output of [parseGitDiff], [oldLineNumber] is
    present exactly when the kind is delete or normal, and [newLineNumber]
    exactly when the kind is add or normal. *)
Theorem changes_field_presence diffOutput e files f h c :
  parseGitDiff diffOutput e = Ok files ->
  In f files -> In h (hunks f) -> In c (changes h) ->
  presence_ok c.
Proof.
  intros Hr Hf Hh Hc.
  pose proof (parseGitDiff_hunks _ _ _ Hr) as Hall.
  rewrite Forall_forall in Hall. specialize (Hall _ Hf).
  rewrite Forall_forall in Hall. destruct (Hall _ Hh) as [j [next Hp]].
  pose proof (parseHunk_presence _ _ _ _ _ Hp) as Hpres.
  rewrite Forall_forall in Hpres. auto.
Qed.

Lemma changes_field_presence_witness :
  presence_ok (mkChange (Some delete) "const x = 1;" (Some 4%N) None).
Proof.
  eapply (changes_field_presence sample_diff true).
  - vm_compute. reflexivity.
  - left. reflexivity.
  - left. reflexivity.
  - right. left. reflexivity.
Defined.

(** ** Line counters *)

(** ** Numbers *)

Lemma size_below n : (n < 2 ^ 53)%N -> (N.size n <= 53)%N.
Proof.
  intros Hn. destruct (N.le_gt_cases (N.size n) 53) as [H|H]; [exact H|].
  exfalso.
  assert (H54 : (2 ^ 54 <= 2 ^ N.size n)%N).
  { apply N.pow_le_mono_r; [discriminate|]. apply N.le_succ_l in H. exact H. }
  pose proof (N.size_le n) as Hle.
  rewrite N.succ_double_spec in Hle.
  change (2 ^ 54)%N with (2 * 2 ^ 53)%N in H54. lia.
Qed.

(** Every integer up to 2^53 is a number. *)
Lemma to_double_exact n : (n <= max_exact)%N -> to_double n = n.
Proof.
  intros Hn. apply N.lt_eq_cases in Hn. destruct Hn as [Hn| ->];
    [|vm_compute; reflexivity].
  unfold to_double.
  assert (He : (N.size n - 53 = 0)%N).
  { pose proof (size_below n Hn). lia. }
  rewrite He. cbn [N.eqb]. rewrite N.shiftr_0_r, N.shiftl_0_r.
  assert (Hinf : (Infinity <=? n)%N = false).
  { apply N.leb_gt. apply N.lt_trans with (1 := Hn). vm_compute. reflexivity. }
  rewrite Hinf. reflexivity.
Qed.

Lemma increment_exact n : (n < max_exact)%N -> increment n = (n + 1)%N.
Proof. intros Hn. apply to_double_exact. lia. Qed.

(** Past 2^53 the doubles are the even integers, then the multiples of 4,
    and so on: 2^53 + 1 is read as 2^53, [++] leaves 2^53 where it is and
    takes 2^53 + 2 to 2^53 + 4, and a number of 400 digits is [Infinity],
    which [++] leaves too. *)
Lemma to_double_rounds :
  parseInt "9007199254740993" = 9007199254740992%N
  /\ parseInt "9007199254740995" = 9007199254740996%N
  /\ increment 9007199254740991 = 9007199254740992%N
  /\ increment 9007199254740992 = 9007199254740992%N
  /\ increment 9007199254740994 = 9007199254740996%N
  /\ to_double (2 ^ 1024 - 2 ^ 970 - 1) = (2 ^ 1024 - 2 ^ 971)%N
  /\ to_double (2 ^ 1024 - 2 ^ 970) = Infinity
  /\ to_double (10 ^ 400) = Infinity
  /\ increment Infinity = Infinity.
Proof. vm_compute. repeat split; reflexivity. Qed.

(** Numbers as [toString] writes them: the digits of an integer up to
    2^53, the shortest digits that read back as the number beyond, the
    exponent form from 10^21 on. *)
Lemma toString_writes :
  toString 0 = "0"
  /\ toString 42 = "42"
  /\ toString 9007199254740992 = "9007199254740992"
  /\ toString (2 ^ 60) = "1152921504606847000"
  /\ toString (2 ^ 64) = "18446744073709552000"
  /\ toString (10 ^ 21) = "1e+21"
  /\ toString (2 ^ 70) = "1.1805916207174113e+21"
  /\ toString (parseInt "100000000000000000000000") = "1e+23"
  /\ toString (2 ^ 1024 - 2 ^ 971) = "1.7976931348623157e+308"
  /\ toString Infinity = "Infinity".
Proof. vm_compute. repeat split; reflexivity. Qed.

Lemma iter_increment_exact start k :
  (start + N.of_nat k <= max_exact)%N ->
  Nat.iter k increment start = (start + N.of_nat k)%N.
Proof.
  induction k as [|k IH]; intros Hk.
  - cbn. rewrite N.add_0_r. reflexivity.
  - rewrite Nat.iter_succ, IH by lia. rewrite increment_exact by lia. lia.
Qed.

(** Within the exact range a counter gives out consecutive numbers. *)
Lemma counted_from_exact start len :
  exact_run start len -> counted_from start len = run_from start len.
Proof.
  intros Hrun. unfold counted_from, run_from.
  apply map_ext_in. intros k Hk. apply in_seq in Hk.
  rewrite iter_increment_exact; [reflexivity|]. apply Hrun. lia.
Qed.

(** ** Line counters *)

Lemma counted_from_S start len :
  counted_from start (S len) =
  counted_from start len ++ [Some (Nat.iter len increment start)].
Proof. unfold counted_from. rewrite seq_S, map_app. reflexivity. Qed.

Lemma is_backslash_line_charAt0 line :
  is_backslash_line line = true <-> charAt0 line = Some "\"%char.
Proof.
  unfold is_backslash_line, startsWith.
  destruct line as [|c l]; cbn [String.prefix charAt0];
    [split; intros H; discriminate H|].
  destruct (Ascii.ascii_dec "\" c) as [<-|Hne].
  - destruct l; split; reflexivity.
  - split; intros H; [discriminate H|]. injection H as ->. congruence.
Qed.

Lemma counted_snoc (l : list (option N)) start cur :
  l = counted_from start (length l) ->
  cur = Nat.iter (length l) increment start ->
  l ++ [Some cur] = counted_from start (length (l ++ [Some cur]))
  /\ increment cur = Nat.iter (length (l ++ [Some cur])) increment start.
Proof.
  intros Hl Hcur. rewrite length_app. cbn [length].
  rewrite Nat.add_1_r, counted_from_S, <- Hl, <- Hcur.
  split; [reflexivity|]. rewrite Nat.iter_succ, <- Hcur. reflexivity.
Qed.

Lemma old_numbers_snoc cs c :
  old_numbers (cs ++ [c]) =
  if bears_old c then old_numbers cs ++ [oldLineNumber c] else old_numbers cs.
Proof.
  unfold old_numbers. rewrite filter_app. cbn [filter].
  destruct (bears_old c); [rewrite map_app|rewrite app_nil_r]; reflexivity.
Qed.

Lemma new_numbers_snoc cs c :
  new_numbers (cs ++ [c]) =
  if bears_new c then new_numbers cs ++ [newLineNumber c] else new_numbers cs.
Proof.
  unfold new_numbers. rewrite filter_app. cbn [filter].
  destruct (bears_new c); [rewrite map_app|rewrite app_nil_r]; reflexivity.
Qed.

Lemma counters_inv_push lines j o0 n0 s line t o n co cn :
  counters_inv lines j o0 n0 s ->
  nth_error lines (h_i s) = Some line ->
  is_backslash_line line = false ->
  (if bears_old (mkChange t (slice1 line) o n)
   then o = Some (currentOldLine s) /\ co = increment (currentOldLine s)
   else co = currentOldLine s) ->
  (if bears_new (mkChange t (slice1 line) o n)
   then n = Some (currentNewLine s) /\ cn = increment (currentNewLine s)
   else cn = currentNewLine s) ->
  counters_inv lines j o0 n0
    {| h_i := h_i s + 1; currentOldLine := co; currentNewLine := cn;
       h_changes := h_changes s ++ [mkChange t (slice1 line) o n] |}.
Proof.
  intros (Ho & Hco & Hn & Hcn & Hj & Hlen) Hnth Hnb Hold Hnew.
  unfold counters_inv.
  cbn [h_i h_changes currentOldLine currentNewLine].
  rewrite (slice_S lines _ _ _ Hj Hnth), filter_app, !length_app.
  cbn [filter]. rewrite Hnb. cbn [negb length].
  rewrite old_numbers_snoc, new_numbers_snoc.
  assert (Hold' :
    (if bears_old (mkChange t (slice1 line) o n)
     then old_numbers (h_changes s) ++ [oldLineNumber (mkChange t (slice1 line) o n)]
     else old_numbers (h_changes s)) =
    counted_from o0 (length (if bears_old (mkChange t (slice1 line) o n)
                         then old_numbers (h_changes s) ++ [oldLineNumber (mkChange t (slice1 line) o n)]
                         else old_numbers (h_changes s)))
    /\ co = Nat.iter (length (if bears_old (mkChange t (slice1 line) o n)
                         then old_numbers (h_changes s) ++ [oldLineNumber (mkChange t (slice1 line) o n)]
                         else old_numbers (h_changes s))) increment o0).
  { destruct (bears_old (mkChange t (slice1 line) o n)).
    - destruct Hold as [-> ->]. cbn [oldLineNumber mkChange].
      apply counted_snoc; assumption.
    - subst co. split; assumption. }
  assert (Hnew' :
    (if bears_new (mkChange t (slice1 line) o n)
     then new_numbers (h_changes s) ++ [newLineNumber (mkChange t (slice1 line) o n)]
     else new_numbers (h_changes s)) =
    counted_from n0 (length (if bears_new (mkChange t (slice1 line) o n)
                         then new_numbers (h_changes s) ++ [newLineNumber (mkChange t (slice1 line) o n)]
                         else new_numbers (h_changes s)))
    /\ cn = Nat.iter (length (if bears_new (mkChange t (slice1 line) o n)
                         then new_numbers (h_changes s) ++ [newLineNumber (mkChange t (slice1 line) o n)]
                         else new_numbers (h_changes s))) increment n0).
  { destruct (bears_new (mkChange t (slice1 line) o n)).
    - destruct Hnew as [-> ->]. cbn [newLineNumber mkChange].
      apply counted_snoc; assumption.
    - subst cn. split; assumption. }
  destruct Hold' as [H1 H2]. destruct Hnew' as [H3 H4].
  repeat split; try assumption; lia.
Qed.

Lemma not_backslash_line line :
  charAt0 line <> Some "\"%char -> is_backslash_line line = false.
Proof.
  intros H. destruct (is_backslash_line line) eqn:E; [|reflexivity].
  apply is_backslash_line_charAt0 in E. contradiction.
Qed.

Lemma counters_inv_line lines j o0 n0 s line :
  counters_inv lines j o0 n0 s ->
  nth_error lines (h_i s) = Some line ->
  counters_inv lines j o0 n0 (parseHunk_line line s).
Proof.
  intros Hinv Hnth.
  pose proof (not_backslash_line line) as Hnb.
  pose proof (proj2 (is_backslash_line_charAt0 line)) as Hbs.
  unfold parseHunk_line.
  destruct (charAt0 line) as [c|].
  - destruct (c =? "+")%char eqn:E1; [apply Ascii.eqb_eq in E1; subst c|].
    { apply counters_inv_push; cbn; auto. apply Hnb. discriminate. }
    destruct (c =? "-")%char eqn:E2; [apply Ascii.eqb_eq in E2; subst c|].
    { apply counters_inv_push; cbn; auto. apply Hnb. discriminate. }
    destruct (c =? " ")%char eqn:E3; [apply Ascii.eqb_eq in E3; subst c|].
    { apply counters_inv_push; cbn; auto. apply Hnb. discriminate. }
    destruct (c =? "\")%char eqn:E4; [apply Ascii.eqb_eq in E4; subst c|].
    { destruct Hinv as (Ho & Hco & Hn & Hcn & Hj & Hlen).
      unfold counters_inv.
      cbn [h_changes currentOldLine currentNewLine h_i].
      rewrite (slice_S lines _ _ _ Hj Hnth), filter_app, length_app.
      cbn [filter]. rewrite (Hbs eq_refl). cbn [negb length].
      repeat split; auto; lia. }
    assert (Hnb' : is_backslash_line line = false).
    { apply Hnb. intros H. injection H as ->.
      rewrite Ascii.eqb_refl in E4. discriminate. }
    destruct (line =? "")%string; apply counters_inv_push; cbn; auto.
  - assert (Hnb' : is_backslash_line line = false).
    { apply Hnb. discriminate. }
    destruct (line =? "")%string; apply counters_inv_push; cbn; auto.
Qed.

(** The numbers of a returned hunk are those of its header line. *)
Lemma parseHunk_starts lines j e h next :
  parseHunk lines j e = Ok (Some (h, next)) -> header_numbers h.
Proof.
  intros Hp.
  pose proof (parseHunk_header_line _ _ _ _ _ Hp) as Hnth.
  destruct (parseHunk_rule lines j e (fun _ => True) (header h) Hnth)
    as [[Hr _]|[m [s [Hm [Hr _]]]]]; auto; [congruence|].
  exists m. rewrite Hr in Hp. injection Hp as <- _. cbn. auto.
Qed.

Lemma parseHunk_counters lines j e h next :
  parseHunk lines j e = Ok (Some (h, next)) -> counters_ok lines j h next.
Proof.
  intros Hp.
  pose proof (parseHunk_header_line _ _ _ _ _ Hp) as Hnth.
  destruct (parseHunk_starts _ _ _ _ _ Hp) as (m & Hm & Ho & Hn).
  destruct (parseHunk_rule lines j e
              (counters_inv lines j (oldStart h) (newStart h))
              (header h) Hnth) as [[Hr _]|[m' [s [_ [Hr [Hs _]]]]]].
  - intros m0 Hm0. assert (m0 = m) by congruence. subst m0.
    unfold counters_inv, old_numbers, new_numbers, counted_from.
    rewrite Ho, Hn.
    cbn [h_i h_changes currentOldLine currentNewLine filter map length seq
         Nat.iter].
    rewrite slice_same. cbn [filter length].
    repeat split; auto; lia.
  - intros s line Hs Hl _. apply counters_inv_line; assumption.
  - congruence.
  - rewrite Hr in Hp. injection Hp as Eh En.
    assert (Hch : changes h = h_changes s) by (rewrite <- Eh; reflexivity).
    destruct Hs as (Hso & _ & Hsn & _ & _ & Hlen).
    unfold counters_ok. rewrite Hch, <- En.
    split; [exists m; auto|]. repeat split; assumption.
Qed.

(** Where the numbers of a hunk stay within the exact range they are
    consecutive. *)
Lemma parseHunk_consecutive lines j e h next :
  parseHunk lines j e = Ok (Some (h, next)) ->
  (exact_run (oldStart h) (length (old_numbers (changes h))) ->
   old_consecutive h)
  /\ (exact_run (newStart h) (length (new_numbers (changes h))) ->
      new_consecutive h).
Proof.
  intros Hp.
  destruct (parseHunk_counters _ _ _ _ _ Hp) as (_ & Ho & Hn & _).
  unfold old_consecutive, new_consecutive.
  split; intros Hrun; rewrite <- (counted_from_exact _ _ Hrun); assumption.
Qed.

(** C4, within the range where numbers are exact.  In a parsed hunk the
    counters start at the [oldStart] and [newStart] of the header and move
    once, by [++], for each Change of the kinds they number; where the
    numbers [oldStart], [oldStart + 1], ... to give out stay at most 2^53,
    the old numbers of the delete and normal Changes are these numbers, in
    order, and likewise the new numbers of the add and normal Changes from
    [newStart].  This holds of every hunk [parseHunk] returns, hence of
    every hunk in the output of [parseGitDiff].  A backslash line gives no
    Change and leaves both counters as they are. *)
Theorem hunk_line_counters :
  (forall lines j e h next,
      parseHunk lines j e = Ok (Some (h, next)) ->
      counters_ok lines j h next
      /\ (exact_run (oldStart h) (length (old_numbers (changes h))) ->
          old_consecutive h)
      /\ (exact_run (newStart h) (length (new_numbers (changes h))) ->
          new_consecutive h))
  /\ (forall diffOutput e files f h,
        parseGitDiff diffOutput e = Ok files ->
        In f files -> In h (hunks f) ->
        (exists j next, counters_ok (split_lines diffOutput) j h next)
        /\ (exact_run (oldStart h) (length (old_numbers (changes h))) ->
            old_consecutive h)
        /\ (exact_run (newStart h) (length (new_numbers (changes h))) ->
            new_consecutive h))
  /\ (forall line, is_backslash_line line = true -> line_is_noop line).
Proof.
  split; [|split].
  - intros lines j e h next Hp. split.
    + eapply parseHunk_counters; eauto.
    + eapply parseHunk_consecutive; eauto.
  - intros diffOutput e files f h Hr Hf Hh.
    pose proof (parseGitDiff_hunks _ _ _ Hr) as Hall.
    rewrite Forall_forall in Hall. specialize (Hall _ Hf).
    rewrite Forall_forall in Hall. destruct (Hall _ Hh) as [j [next Hp]].
    split.
    + exists j, next. eapply parseHunk_counters; eauto.
    + eapply parseHunk_consecutive; eauto.
  - intros line Hb s. apply is_backslash_line_charAt0 in Hb.
    unfold parseHunk_line. rewrite Hb. reflexivity.
Qed.

Lemma hunk_line_counters_witness :
  (counters_ok ["@@ -7,2 +9 @@"; " same"; "-gone"; "\ No newline"; "+new"] 0
     {| header := "@@ -7,2 +9 @@"; oldStart := 7; oldLines := 2; newStart := 9;
        newLines := 1;
        changes := [mkChange (Some normal) "same" (Some 7%N) (Some 9%N);
                    mkChange (Some delete) "gone" (Some 8%N) None;
                    mkChange (Some add) "new" None (Some 10%N)];
        hunkExpanded := true |} 5
   /\ [Some 7%N; Some 8%N] = run_from 7 2
   /\ [Some 9%N; Some 10%N] = run_from 9 2)
  /\ ((exists j next,
         counters_ok (split_lines sample_diff) j
           {| header := "@@ -3,4 +3,6 @@ foo"; oldStart := 3; oldLines := 4;
              newStart := 3; newLines := 6;
              changes := [mkChange (Some normal) "keep" (Some 3%N) (Some 3%N);
                          mkChange (Some delete) "const x = 1;" (Some 4%N) None;
                          mkChange (Some add) "const x = 2;" None (Some 4%N);
                          mkChange (Some add) "added" None (Some 5%N);
                          mkChange (Some normal) "tail" (Some 5%N) (Some 6%N)];
              hunkExpanded := true |} next)
      /\ [Some 3%N; Some 4%N; Some 5%N] = run_from 3 3
      /\ [Some 3%N; Some 4%N; Some 5%N; Some 6%N] = run_from 3 4)
  /\ line_is_noop "\ No newline at end of file".
Proof.
  split; [|split].
  - destruct (proj1 hunk_line_counters
                ["@@ -7,2 +9 @@"; " same"; "-gone"; "\ No newline"; "+new"]
                0 true
                {| header := "@@ -7,2 +9 @@"; oldStart := 7; oldLines := 2;
                   newStart := 9; newLines := 1;
                   changes := [mkChange (Some normal) "same" (Some 7%N) (Some 9%N);
                               mkChange (Some delete) "gone" (Some 8%N) None;
                               mkChange (Some add) "new" None (Some 10%N)];
                   hunkExpanded := true |} 5 eq_refl) as (H1 & H2 & H3).
    split; [exact H1|]. split.
    + apply H2. intros k Hk. cbn in Hk. unfold max_exact. cbn [oldStart]. lia.
    + apply H3. intros k Hk. cbn in Hk. unfold max_exact. cbn [newStart]. lia.
  - pose (h := {| header := "@@ -3,4 +3,6 @@ foo"; oldStart := 3; oldLines := 4;
                  newStart := 3; newLines := 6;
                  changes := [mkChange (Some normal) "keep" (Some 3%N) (Some 3%N);
                              mkChange (Some delete) "const x = 1;" (Some 4%N) None;
                              mkChange (Some add) "const x = 2;" None (Some 4%N);
                              mkChange (Some add) "added" None (Some 5%N);
                              mkChange (Some normal) "tail" (Some 5%N) (Some 6%N)];
                  hunkExpanded := true |}).
    pose (f := {| oldPath := "src/a.ts"; newPath := "src/a.ts"; hunks := [h];
                  status := modified; isExpanded := true |}).
    assert (Hp : parseGitDiff sample_diff true = Ok [f])
      by (vm_compute; reflexivity).
    destruct (proj1 (proj2 hunk_line_counters) sample_diff true [f] f h
                Hp (or_introl eq_refl) (or_introl eq_refl))
      as (H1 & H2 & H3).
    split; [exact H1|]. split.
    + apply H2. intros k Hk. cbn in Hk. unfold max_exact. cbn [oldStart h]. lia.
    + apply H3. intros k Hk. cbn in Hk. unfold max_exact. cbn [newStart h]. lia.
  - apply (proj2 (proj2 hunk_line_counters)). reflexivity.
Defined.

(** C4, as the specification words it, fails past 2^53.  The header
    [@@ -9007199254740993,2 +1,2 @@] declares an old start that is no
    number: [parseInt] reads 9007199254740992, and [++] leaves that number
    as it is, so both Changes bear it and the old numbers are not
    consecutive; the new numbers, started at 1, are. *)
Lemma hunk_line_counters_counterexample :
  exists h next,
    parseHunk huge_hunk 0 true = Ok (Some (h, next))
    /\ oldStart h = 9007199254740992%N
    /\ old_numbers (changes h) =
       [Some 9007199254740992%N; Some 9007199254740992%N]
    /\ ~ old_consecutive h
    /\ new_numbers (changes h) = [Some 1%N; Some 2%N].
Proof.
  eexists. eexists. split; [vm_compute; reflexivity|].
  split; [reflexivity|]. split; [reflexivity|].
  split; [|reflexivity].
  unfold old_consecutive. vm_compute. discriminate.
Qed.

(** C7. The header [@@ -3,4 +3,6 @@ foo] gives a hunk with [oldStart]
    3, [oldLines] 4, [newStart] 3 and [newLines] 6 whose [header] is the
    line as it stands, context included; the header [@@ -1 +1 @@] gives
    [oldLines] 1 and [newLines] 1. *)
Theorem hunk_header_examples lines j e :
  (nth_error lines j = Some "@@ -3,4 +3,6 @@ foo" ->
   exists h next,
     parseHunk lines j e = Ok (Some (h, next))
     /\ oldStart h = 3%N /\ oldLines h = 4%N
     /\ newStart h = 3%N /\ newLines h = 6%N
     /\ header h = ("@@ -3,4 +3,6 @@" ++ " foo")%string)
  /\ (nth_error lines j = Some "@@ -1 +1 @@" ->
      exists h next,
        parseHunk lines j e = Ok (Some (h, next))
        /\ oldStart h = 1%N /\ oldLines h = 1%N
        /\ newStart h = 1%N /\ newLines h = 1%N).
Proof.
  split; intros Hnth;
    (destruct (parseHunk_rule lines j e (fun _ => True) _ Hnth)
      as [[_ Hm]|[m [s [Hm [Hr _]]]]]; auto; [discriminate Hm|]);
    vm_compute in Hm; injection Hm as <-;
    eexists; eexists; (split; [exact Hr|]); repeat split.
Qed.

Lemma hunk_header_examples_witness :
  exists h next,
    parseHunk ["diff --git a/f b/f"; "@@ -3,4 +3,6 @@ foo"; "+x"] 1 false
    = Ok (Some (h, next))
    /\ oldStart h = 3%N /\ oldLines h = 4%N
    /\ newStart h = 3%N /\ newLines h = 6%N
    /\ header h = ("@@ -3,4 +3,6 @@" ++ " foo")%string.
Proof.
  apply (proj1 (hunk_header_examples
                  ["diff --git a/f b/f"; "@@ -3,4 +3,6 @@ foo"; "+x"] 1 false)).
  reflexivity.
Defined.

(** ** Well-formed hunks *)

Lemma marked_line_consumed lines i line :
  is_marked line = true -> hunk_stops lines i line = false.
Proof.
  unfold is_marked, hunk_stops, startsWith.
  destruct line as [|c l]; cbn [charAt0 String.prefix]; [discriminate|].
  intros Hm.
  destruct (Ascii.ascii_dec "@" c) as [<-|_]; [discriminate Hm|].
  destruct (Ascii.ascii_dec "d" c) as [<-|_]; [discriminate Hm|].
  reflexivity.
Qed.

Lemma old_slice_app body1 body2 :
  old_slice (body1 ++ body2) = old_slice body1 ++ old_slice body2.
Proof.
  induction body1 as [|line body1 IH]; cbn [app old_slice]; [reflexivity|].
  destruct (old_text line); rewrite IH; reflexivity.
Qed.

Lemma marked_line_old_contents line s :
  is_marked line = true ->
  old_contents (h_changes (parseHunk_line line s)) =
  old_contents (h_changes s) ++ old_slice [line].
Proof.
  unfold is_marked, parseHunk_line, old_contents.
  destruct line as [|c text]; cbn [charAt0 slice1 old_slice old_text];
    [discriminate|].
  destruct (Ascii.eqb_spec c "+") as [->|N1].
  { intros _. cbn [h_changes]. rewrite filter_app, map_app. reflexivity. }
  destruct (Ascii.eqb_spec c "-") as [->|N2].
  { intros _. cbn [h_changes orb]. rewrite filter_app, map_app. reflexivity. }
  destruct (Ascii.eqb_spec c " ") as [->|N3].
  { intros _. cbn [h_changes orb]. rewrite filter_app, map_app. reflexivity. }
  destruct (Ascii.eqb_spec c "\") as [->|N4]; [|discriminate].
  intros _. cbn [h_changes orb map]. rewrite app_nil_r. reflexivity.
Qed.

(** A hunk whose body lines all carry a marker is read to the end of the
    body, and its delete and normal Changes spell the old slice. *)
Lemma parseHunk_marked_body lines j e hunkHeader m body :
  nth_error lines j = Some hunkHeader ->
  match_hunk_header hunkHeader = Some m ->
  slice lines (j + 1) (j + 1 + length body) = body ->
  Forall (fun l => is_marked l = true) body ->
  hunk_stopped lines (j + 1 + length body) ->
  exists h, parseHunk lines j e = Ok (Some (h, j + 1 + length body))
            /\ header h = hunkHeader
            /\ old_contents (changes h) = old_slice body.
Proof.
  intros Hnth Hm Hbody Hmarked Hstop.
  assert (Hline : forall k line, j + 1 <= k -> k < j + 1 + length body ->
            nth_error lines k = Some line -> is_marked line = true).
  { intros k line H1 H2 Hk.
    rewrite Forall_forall in Hmarked. apply Hmarked.
    apply nth_error_In with (n := k - (j + 1)).
    rewrite <- Hbody at 1. rewrite nth_error_slice by lia.
    replace (j + 1 + (k - (j + 1))) with k by lia. exact Hk. }
  destruct (parseHunk_rule lines j e
              (fun s => j + 1 <= h_i s /\ h_i s <= j + 1 + length body
                        /\ old_contents (h_changes s) =
                           old_slice (slice lines (j + 1) (h_i s)))
              hunkHeader Hnth) as [[_ Hr]|[m' [s [Hm' [Hr [Hs [Hst _]]]]]]].
  - intros m0 _. cbn [h_i h_changes]. unfold slice.
    rewrite Nat.sub_diag. repeat split; auto; lia.
  - intros s line (H1 & H2 & H3) Hl Hns.
    assert (Hlt : h_i s < j + 1 + length body).
    { destruct (Nat.eq_dec (h_i s) (j + 1 + length body)) as [E|E]; [|lia].
      unfold hunk_stopped in Hstop. rewrite <- E, Hl in Hstop. congruence. }
    rewrite parseHunk_line_index.
    rewrite (slice_S lines _ _ _ H1 Hl).
    rewrite (marked_line_old_contents line s (Hline _ _ H1 Hlt Hl)).
    rewrite old_slice_app, H3.
    repeat split; lia.
  - congruence.
  - destruct Hs as (H1 & H2 & H3).
    assert (Hend : h_i s = j + 1 + length body).
    { destruct (Nat.eq_dec (h_i s) (j + 1 + length body)) as [E|E]; [exact E|].
      exfalso. assert (Hlt : h_i s < j + 1 + length body) by lia.
      assert (Hin : h_i s < length lines).
      { assert (Hb : nth_error (slice lines (j + 1) (j + 1 + length body))
                       (h_i s - (j + 1)) <> None).
        { rewrite Hbody. apply nth_error_Some. lia. }
        rewrite nth_error_slice in Hb by lia.
        replace (j + 1 + (h_i s - (j + 1))) with (h_i s) in Hb by lia.
        apply nth_error_Some. exact Hb. }
      destruct (get_lt lines _ Hin) as [line [_ Hl]].
      unfold hunk_stopped in Hst. rewrite Hl in Hst.
      rewrite (marked_line_consumed lines (h_i s) line (Hline _ _ H1 Hlt Hl)) in Hst.
      discriminate. }
    rewrite Hend in *. rewrite Hbody in H3.
    eexists. split; [exact Hr|]. split; [reflexivity|exact H3].
Qed.

Lemma strip_prefix_Some p s r :
  strip_prefix p s = Some r -> s = (p ++ r)%string.
Proof.
  revert s. induction p as [|a p IH]; intros [|b s]; simpl; intros H;
    try congruence.
  destruct (a =? b)%char eqn:E; [|discriminate].
  apply Ascii.eqb_eq in E. subst b. rewrite (IH _ H). reflexivity.
Qed.

Lemma git_line_starts gitLine :
  match_git_line gitLine <> None -> startsWith gitLine "diff --git" = true.
Proof.
  unfold match_git_line, startsWith. intros H.
  destruct (strip_prefix "diff --git a/" gitLine) as [r|] eqn:E; [|congruence].
  apply strip_prefix_Some in E. apply prefix_app_iff.
  exists (" a/" ++ r)%string. rewrite E. reflexivity.
Qed.

Lemma hunk_header_starts headerLine :
  match_hunk_header headerLine <> None -> startsWith headerLine "@@" = true.
Proof.
  unfold match_hunk_header, startsWith. intros H.
  destruct (strip_prefix "@@ -" headerLine) as [r|] eqn:E; [|congruence].
  apply strip_prefix_Some in E. apply prefix_app_iff.
  exists (" -" ++ r)%string. rewrite E. reflexivity.
Qed.

(** The metadata loop does not run past a line that starts a hunk or a
    file. *)
Lemma metadata_loop_upto lines i0 st0 k l fuel :
  i0 <= k -> nth_error lines k = Some l ->
  startsWith l "@@" = true \/ startsWith l "diff --git" = true ->
  length lines - i0 < fuel ->
  exists i st, while (metadata_step lines) fuel (i0, st0) = Ok (i, st)
               /\ i0 <= i /\ i <= k.
Proof.
  intros Hle Hk Hl Hfuel.
  assert (Hklt : k < length lines) by (apply nth_error_Some; congruence).
  destruct (while_rule (metadata_step lines)
              (fun s => i0 <= fst s /\ fst s <= k)
              (fun s => i0 <= fst s /\ fst s <= k)
              (fun s => length lines - fst s)) with (fuel := fuel) (s := (i0, st0))
    as [[i st] [Hw Hp]]; simpl; auto.
  - intros [i st] [H1 H2]. simpl in H1, H2.
    assert (Hilt : i < length lines) by lia.
    destruct (get_lt lines _ Hilt) as [line [_ Hnth]].
    rewrite (metadata_step_line _ _ st _ Hnth).
    destruct (Nat.eq_dec i k) as [->|Hne].
    + assert (line = l) by congruence. subst line.
      destruct (startsWith l "diff --git"); [simpl; lia|].
      destruct Hl as [Hl|Hl]; [rewrite Hl; simpl; lia|discriminate].
    + repeat match goal with
             | |- context [if ?b then _ else _] => destruct b
             end; simpl; lia.
  - exists i, st. auto.
Qed.

Lemma starts_hunk_not_file l :
  startsWith l "@@" = true -> startsWith l "diff --git" = false.
Proof.
  unfold startsWith. destruct l as [|c l]; cbn [String.prefix]; [reflexivity|].
  destruct (Ascii.ascii_dec "@" c) as [<-|_]; [reflexivity|discriminate].
Qed.

(** C1. In a well-formed diff of one file with one hunk (a [diff --git]
    line, metadata, a hunk header, body lines that each start with [+], [-],
    a space or a backslash, and at most the empty line a final newline
    leaves), the parser returns one file with one hunk, and the contents of
    its delete and normal Changes, in order, are the old slice of the body:
    its [-] and space lines with the marker removed. *)
Theorem old_slice_reconstructed diffOutput e gitLine meta hunkHeader body tail :
  split_lines diffOutput = gitLine :: meta ++ hunkHeader :: body ++ tail ->
  match_git_line gitLine <> None ->
  Forall (fun l => startsWith l "@@" = false
                   /\ startsWith l "diff --git" = false) meta ->
  match_hunk_header hunkHeader <> None ->
  Forall (fun l => is_marked l = true) body ->
  tail = [] \/ tail = [""] ->
  exists f h,
    parseGitDiff diffOutput e = Ok [f]
    /\ hunks f = [h]
    /\ header h = hunkHeader
    /\ old_contents (changes h) = old_slice body.
Proof.
  intros Hlines Hgit Hmeta Hhdr Hbody Htail.
  unfold parseGitDiff. rewrite Hlines.
  set (lines := gitLine :: meta ++ hunkHeader :: body ++ tail).
  set (idx := S (length meta)).
  assert (Hsplit : lines = (gitLine :: meta ++ [hunkHeader]) ++ body ++ tail).
  { subst lines. cbn [app]. rewrite <- app_assoc. reflexivity. }
  assert (Hpre : length (gitLine :: meta ++ [hunkHeader]) = idx + 1).
  { cbn [length]. rewrite length_app. cbn [length]. subst idx. lia. }
  assert (Hlen : length lines = idx + 1 + length body + length tail).
  { rewrite Hsplit, length_app, Hpre, length_app. lia. }
  assert (F0 : nth_error lines 0 = Some gitLine) by reflexivity.
  assert (F1 : forall k l, 1 <= k -> k < idx -> nth_error lines k = Some l ->
                           In l meta).
  { intros k l H1 H2 Hk. subst lines. destruct k; [lia|].
    cbn [nth_error] in Hk. rewrite nth_error_app1 in Hk by (subst idx; lia).
    eapply nth_error_In; eauto. }
  assert (F2 : nth_error lines idx = Some hunkHeader).
  { subst lines idx. cbn [nth_error]. rewrite nth_error_app2 by lia.
    rewrite Nat.sub_diag. reflexivity. }
  assert (F3 : slice lines (idx + 1) (idx + 1 + length body) = body).
  { rewrite Hsplit, <- Hpre. apply slice_middle. }
  assert (F5 : forall k l, idx + 1 + length body <= k ->
                           nth_error lines k = Some l ->
                           l = ""%string /\ k = length lines - 1).
  { intros k l Hk Hn.
    assert (Hklt : k < length lines) by (apply nth_error_Some; congruence).
    destruct Htail as [->| ->]; cbn [length] in Hlen; [lia|].
    split; [|lia].
    rewrite Hsplit in Hn.
    rewrite nth_error_app2 in Hn by lia.
    rewrite nth_error_app2 in Hn by lia.
    replace (k - length (gitLine :: meta ++ [hunkHeader]) - length body)
      with 0 in Hn by lia.
    cbn in Hn. congruence. }
  assert (F4 : hunk_stopped lines (idx + 1 + length body)).
  { unfold hunk_stopped.
    destruct (nth_error lines (idx + 1 + length body)) as [l|] eqn:E; auto.
    destruct (F5 _ _ (le_n _) E) as [-> Hk]. unfold hunk_stops.
    apply orb_true_iff. right. apply andb_true_iff.
    split; [reflexivity|]. apply Nat.eqb_eq. exact Hk. }
  destruct (match_hunk_header hunkHeader) as [m|] eqn:Hm; [|congruence].
  destruct (parseHunk_marked_body lines idx e hunkHeader m body F2 Hm F3 Hbody F4)
    as [h0 [Hh0 [Hhead Hold]]].
  assert (Hstart : startsWith hunkHeader "@@" = true).
  { apply hunk_header_starts. congruence. }
  destruct (parseFile_rule lines 0 e gitLine (fun _ => True) F0)
    as [[_ Hnone]|[o [n [i1 [st [i2 [hs [Hmg [Hw1 [Hw2 [Hr [Hle1 [Hle2 [_ Hfs]]]]]]]]]]]]]];
    auto; [congruence|].
  destruct (metadata_loop_upto lines (0 + 1) modified idx hunkHeader
              (S (length lines))) as [i1' [st' [Hw1' [Hb1 Hb2]]]];
    auto; [subst idx; lia|lia|].
  rewrite Hw1 in Hw1'. injection Hw1' as <- <-.
  destruct (hunks_loop_rule lines e
              (fun s => (1 <= fst s /\ fst s <= idx /\ snd s = [])
                        \/ (idx + 1 + length body <= fst s /\ snd s = [h0]))
              (i1, [])) with (fuel := S (length lines))
    as [r [Hw2' [Hp [Hfs' _]]]].
  - left. simpl. repeat split; auto.
  - intros j hs' line [[Hj0 [Hj1 Hnil]]|[Hj Hone]] Hnth Hnd; cbn [fst snd] in *.
    + subst hs'. destruct (Nat.eq_dec j idx) as [->|Hne].
      * assert (line = hunkHeader) by congruence. subst line.
        split; [intros H; congruence|].
        split; [intros _ H; congruence|].
        intros _ h next Hph _. rewrite Hh0 in Hph. injection Hph as <- <-.
        right. simpl. split; [lia|reflexivity].
      * assert (Hin : In line meta) by (apply (F1 j); auto; lia).
        rewrite Forall_forall in Hmeta. destruct (Hmeta _ Hin) as [Hna _].
        split; [intros _; left; simpl; repeat split; auto; lia|].
        split; [intros H; congruence|intros H; congruence].
    + destruct (F5 _ _ Hj Hnth) as [-> _].
      split; [intros _; right; simpl; split; [lia|assumption]|].
      split; intros H; discriminate H.
  - cbn [fst]. lia.
  - rewrite Hw2 in Hw2'. injection Hw2' as <-. cbn [fst snd] in Hp, Hfs'.
    destruct Hp as [[Hj0 [Hj1 _]]|[Hj Hone]].
    + exfalso. unfold file_stopped in Hfs.
      destruct (Nat.eq_dec i2 idx) as [->|Hne].
      * rewrite F2 in Hfs. rewrite (starts_hunk_not_file _ Hstart) in Hfs.
        discriminate.
      * assert (Hlt : i2 < length lines) by lia.
        destruct (get_lt lines _ Hlt) as [line [_ Hnth]].
        rewrite Hnth in Hfs.
        assert (Hin : In line meta) by (apply (F1 i2); auto; lia).
        rewrite Forall_forall in Hmeta. destruct (Hmeta _ Hin) as [_ Hnd].
        congruence.
    + subst hs.
      assert (Hend : length lines <= i2).
      { unfold file_stopped in Hfs.
        destruct (nth_error lines i2) as [line|] eqn:Hnth.
        - destruct (F5 _ _ Hj Hnth) as [-> _]. discriminate Hfs.
        - apply nth_error_None. exact Hnth. }
      exists {| oldPath := o; newPath := n; hunks := [h0]; status := st;
                isExpanded := e |}, h0.
      repeat split; auto.
      rewrite while_S. unfold parseGitDiff_step at 1.
      replace (0 <? length lines)%nat with true
        by (symmetry; apply Nat.ltb_lt; lia).
      cbn [negb]. unfold get at 1. rewrite F0. cbn [bind].
      rewrite (git_line_starts _ Hgit), Hr. cbn [bind app].
      destruct (length lines) as [|len] eqn:El; [lia|].
      rewrite while_S. unfold parseGitDiff_step.
      replace (i2 <? length lines)%nat with false
        by (symmetry; apply Nat.ltb_ge; lia).
      reflexivity.
Qed.

Lemma old_slice_reconstructed_witness :
  exists f h,
    parseGitDiff sample_diff true = Ok [f]
    /\ hunks f = [h]
    /\ header h = "@@ -3,4 +3,6 @@ foo"%string
    /\ old_contents (changes h) = ["keep"; "const x = 1;"; "tail"].
Proof.
  apply (old_slice_reconstructed sample_diff true
           "diff --git a/src/a.ts b/src/a.ts"
           ["index 1111111..2222222 100644"; "--- a/src/a.ts"; "+++ b/src/a.ts"]
           "@@ -3,4 +3,6 @@ foo"
           [" keep"; "-const x = 1;"; "+const x = 2;";
            "\ No newline at end of file"; "+added"; " tail"]
           [""]).
  - reflexivity.
  - discriminate.
  - repeat constructor.
  - discriminate.
  - repeat constructor.
  - right. reflexivity.
Defined.

(** ** File status and binary files *)

Lemma status_after_last meta st :
  status_after meta st = last (status_markers meta) st.
Proof.
  unfold status_after. revert st.
  induction meta as [|line meta IH]; intros st; [reflexivity|].
  cbn [fold_left status_markers]. rewrite IH.
  destruct (status_marker line) as [s|]; [|reflexivity].
  cbn [last]. destruct (status_markers meta) as [|s' ms]; [reflexivity|].
  clear. revert s'. induction ms as [|x ms IH]; intros s'; [reflexivity|].
  cbn [last] in *. apply IH.
Qed.

Lemma status_after_snoc meta line st :
  status_after (meta ++ [line]) st =
  match status_marker line with
  | Some s => s
  | None => status_after meta st
  end.
Proof. unfold status_after. rewrite fold_left_app. reflexivity. Qed.

(** The metadata loop, started after the [diff --git] line, reads the lines
    [meta] that do not end the metadata and stops at the line after them:
    on it when the input ends or the line starts a hunk or a file, one past
    it when it is a [Binary files] line. *)
Lemma metadata_loop_exact lines i0 st0 meta fuel :
  slice lines i0 (i0 + length meta) = meta ->
  Forall (fun l => metadata_ends l = false) meta ->
  metadata_stopped lines (i0 + length meta) ->
  length lines - i0 < fuel ->
  exists i, while (metadata_step lines) fuel (i0, st0)
            = Ok (i, status_after meta st0)
            /\ match nth_error lines (i0 + length meta) with
               | Some l => if startsWith l "Binary files"
                           then i = i0 + length meta + 1
                           else i = i0 + length meta
               | None => i = i0 + length meta
               end.
Proof.
  intros Hmeta Hnone Hstop Hfuel.
  assert (Hline : forall k line, i0 <= k -> k < i0 + length meta ->
            nth_error lines k = Some line -> metadata_ends line = false).
  { intros k line H1 H2 Hk.
    rewrite Forall_forall in Hnone. apply Hnone.
    apply nth_error_In with (n := k - i0).
    rewrite <- Hmeta at 1. rewrite nth_error_slice by lia.
    replace (i0 + (k - i0)) with k by lia. exact Hk. }
  destruct (while_rule (metadata_step lines)
              (fun s => i0 <= fst s /\ fst s <= i0 + length meta
                        /\ snd s = status_after (slice lines i0 (fst s)) st0)
              (fun s => snd s = status_after meta st0
                        /\ match nth_error lines (i0 + length meta) with
                           | Some l => if startsWith l "Binary files"
                                       then fst s = i0 + length meta + 1
                                       else fst s = i0 + length meta
                           | None => fst s = i0 + length meta
                           end)
              (fun s => length lines - fst s)) with (fuel := fuel) (s := (i0, st0))
    as [[i st] [Hw [Hst Hi]]]; cbn [fst snd] in *; auto.
  - intros [k st] (H1 & H2 & H3). cbn [fst snd] in *.
    destruct (Nat.eq_dec k (i0 + length meta)) as [->|Hne].
    + rewrite Hmeta in H3. unfold metadata_stopped in Hstop.
      destruct (nth_error lines (i0 + length meta)) as [l|] eqn:Hnth.
      * rewrite (metadata_step_line _ _ st _ Hnth).
        unfold metadata_ends in Hstop.
        destruct (startsWith l "diff --git") eqn:Hd.
        { cbn [fst snd]. split; [assumption|].
          destruct (startsWith l "Binary files") eqn:Hb; [|reflexivity].
          exfalso. revert Hd Hb. unfold startsWith. clear.
          destruct l as [|c l]; cbn [String.prefix]; [discriminate|].
          destruct (Ascii.ascii_dec "d" c) as [<-|_]; discriminate. }
        destruct (startsWith l "@@") eqn:Ha.
        { cbn [fst snd]. split; [assumption|].
          destruct (startsWith l "Binary files") eqn:Hb; [|reflexivity].
          exfalso. revert Ha Hb. unfold startsWith. clear.
          destruct l as [|c l]; cbn [String.prefix]; [discriminate|].
          destruct (Ascii.ascii_dec "@" c) as [<-|_]; discriminate. }
        destruct (startsWith l "Binary files") eqn:Hb; [|discriminate Hstop].
        cbn [fst snd]. split; [assumption|reflexivity].
      * rewrite (metadata_step_end _ _ st Hnth). cbn [fst snd]. auto.
    + assert (Hlt : k < length lines).
      { assert (Hb : nth_error (slice lines i0 (i0 + length meta)) (k - i0)
                       <> None).
        { rewrite Hmeta. apply nth_error_Some. lia. }
        rewrite nth_error_slice in Hb by lia.
        replace (i0 + (k - i0)) with k in Hb by lia.
        apply nth_error_Some. exact Hb. }
      destruct (get_lt lines _ Hlt) as [line [_ Hnth]].
      rewrite (metadata_step_line _ _ st _ Hnth).
      assert (Hends : metadata_ends line = false) by (apply (Hline k); auto; lia).
      unfold metadata_ends in Hends.
      apply orb_false_elim in Hends. destruct Hends as [Hends Hb].
      apply orb_false_elim in Hends. destruct Hends as [Hd Ha].
      rewrite Hd, Ha, Hb. cbn [fst snd].
      rewrite (slice_S lines _ _ _ H1 Hnth), status_after_snoc, <- H3.
      repeat split; lia.
  - repeat split; try lia. unfold slice. rewrite Nat.sub_diag.
    reflexivity.
  - exists i. subst st. split; assumption.
Qed.

(** C3, as the code has it. The status of a file is the one set by the
    last status-setting marker among its metadata lines, those between the
    [diff --git] line and the first line that starts with [@@],
    [Binary files] or [diff --git]; it is [modified] when there is none. *)
Theorem status_last_marker lines i e gitLine meta :
  nth_error lines i = Some gitLine ->
  match_git_line gitLine <> None ->
  slice lines (i + 1) (i + 1 + length meta) = meta ->
  Forall (fun l => metadata_ends l = false) meta ->
  metadata_stopped lines (i + 1 + length meta) ->
  exists f next,
    parseFile lines i e = Ok (Some (f, next))
    /\ status f = last_marker_status meta
    /\ (status_markers meta = [] -> status f = modified).
Proof.
  intros Hnth Hgit Hmeta Hnone Hstop.
  destruct (parseFile_rule lines i e gitLine (fun _ => True) Hnth)
    as [[_ Hn]|[o [n [i1 [st [i2 [hs [_ [Hw1 [_ [Hr _]]]]]]]]]]];
    auto; [congruence|].
  destruct (metadata_loop_exact lines (i + 1) modified meta (S (length lines))
              Hmeta Hnone Hstop) as [i1' [Hw1' _]]; [lia|].
  rewrite Hw1 in Hw1'. injection Hw1' as _ ->.
  eexists. eexists. split; [exact Hr|]. cbn [status].
  unfold last_marker_status. rewrite status_after_last.
  split; [reflexivity|]. intros ->. reflexivity.
Qed.

Lemma status_last_marker_witness :
  (exists f next,
     parseFile ["diff --git a/x b/y"; "new file mode 100644"; "rename from x";
                "rename to y"; "index 0000000..2222222"; "@@ -0,0 +1 @@"; "+b"]
       0 true = Ok (Some (f, next))
     /\ status_markers ["new file mode 100644"; "rename from x"; "rename to y";
                        "index 0000000..2222222"] = [added; renamed]
     /\ status f = renamed)
  /\ (exists f next,
        parseFile ["diff --git a/x b/y"; "copy from x"; "copy to y";
                   "deleted file mode 100644"; "new file mode 100644";
                   "diff --git a/u b/u"] 0 true = Ok (Some (f, next))
        /\ status_markers ["copy from x"; "copy to y";
                           "deleted file mode 100644"; "new file mode 100644"]
           = [copied; deleted; added]
        /\ status f = added).
Proof.
  split.
  - destruct (status_last_marker
                ["diff --git a/x b/y"; "new file mode 100644"; "rename from x";
                 "rename to y"; "index 0000000..2222222"; "@@ -0,0 +1 @@"; "+b"]
                0 true "diff --git a/x b/y"
                ["new file mode 100644"; "rename from x"; "rename to y";
                 "index 0000000..2222222"])
      as (f & next & Hp & Hs & _).
    + reflexivity.
    + discriminate.
    + reflexivity.
    + repeat constructor.
    + reflexivity.
    + exists f, next. split; [exact Hp|]. split; [reflexivity|].
      rewrite Hs. reflexivity.
  - destruct (status_last_marker
                ["diff --git a/x b/y"; "copy from x"; "copy to y";
                 "deleted file mode 100644"; "new file mode 100644";
                 "diff --git a/u b/u"]
                0 true "diff --git a/x b/y"
                ["copy from x"; "copy to y"; "deleted file mode 100644";
                 "new file mode 100644"])
      as (f & next & Hp & Hs & _).
    + reflexivity.
    + discriminate.
    + reflexivity.
    + repeat constructor.
    + reflexivity.
    + exists f, next. split; [exact Hp|]. split; [reflexivity|].
      rewrite Hs. reflexivity.
Defined.

(** C3, as the specification words it, fails: with [new file mode] followed
    by [rename from] in one section the first marker says [added] and the
    file comes out [renamed]. *)
Lemma status_first_marker_counterexample :
  exists f,
    parseGitDiff "diff --git a/x b/y
new file mode 100644
rename from x
rename to y" true = Ok [f]
    /\ first_marker_status
         ["new file mode 100644"; "rename from x"; "rename to y"] = added
    /\ status f <> added.
Proof.
  eexists. split; [vm_compute; reflexivity|].
  split; [reflexivity|]. cbn. discriminate.
Qed.

(** C9, as the code has it. A line that starts with [Binary files] ends the
    metadata of its file there: the metadata loop leaves at the line after
    it with the status the markers before it set, whatever follows.  The
    file is produced in every case, with that status.  Its hunk list is
    empty when no line that starts with [@@] follows before the next file;
    the hunk loop runs from the line after the [Binary files] line as for
    any file. *)
Theorem binary_file_section lines i e gitLine meta binLine :
  nth_error lines i = Some gitLine ->
  match_git_line gitLine <> None ->
  slice lines (i + 1) (i + 1 + length meta) = meta ->
  Forall (fun l => metadata_ends l = false) meta ->
  nth_error lines (i + 1 + length meta) = Some binLine ->
  startsWith binLine "Binary files" = true ->
  while (metadata_step lines) (S (length lines)) (i + 1, modified)
  = Ok (i + 1 + length meta + 1, last_marker_status meta)
  /\ exists f next,
       parseFile lines i e = Ok (Some (f, next))
       /\ status f = last_marker_status meta
       /\ i + 1 + length meta + 1 <= next
       /\ (forall rest,
             slice lines (i + 1 + length meta + 1)
               (i + 1 + length meta + 1 + length rest) = rest ->
             Forall (fun l => startsWith l "@@" = false
                              /\ startsWith l "diff --git" = false) rest ->
             file_stopped lines (i + 1 + length meta + 1 + length rest) ->
             hunks f = []
             /\ next = i + 1 + length meta + 1 + length rest).
Proof.
  intros Hnth Hgit Hmeta Hnone Hbin Hstarts.
  destruct (parseFile_rule lines i e gitLine (fun _ => True) Hnth)
    as [[_ Hn]|[o [n [i1 [st [i2 [hs [_ [Hw1 [Hw2 [Hr [_ [Hle [_ Hfs]]]]]]]]]]]]]];
    auto; [congruence|].
  destruct (metadata_loop_exact lines (i + 1) modified meta (S (length lines))
              Hmeta Hnone) as [i1' [Hw1' Hi1]]; [|lia|].
  { unfold metadata_stopped, metadata_ends. rewrite Hbin, Hstarts.
    apply orb_true_r. }
  rewrite Hbin, Hstarts in Hi1.
  rewrite Hw1 in Hw1'. injection Hw1' as -> ->. subst i1'.
  unfold last_marker_status. rewrite status_after_last in Hw1, Hr.
  split; [exact Hw1|].
  eexists. eexists. split; [exact Hr|]. cbn [status hunks].
  split; [reflexivity|]. split; [exact Hle|].
  intros rest Hrest Hplain Hend.
  destruct (hunks_loop_rule lines e
              (fun s => i + 1 + length meta + 1 <= fst s
                        /\ fst s <= i + 1 + length meta + 1 + length rest
                        /\ snd s = [])
              (i + 1 + length meta + 1, []))
    with (fuel := S (length lines)) as [r [Hw2' [[Hlo [Hle' Hnil]] [_ Hge]]]].
  - cbn [fst snd]. repeat split; lia.
  - intros k hs' line Hinv Hl Hnd. cbn [fst snd] in *.
    destruct Hinv as (Hlow & Hk & ->).
    destruct (Nat.eq_dec k (i + 1 + length meta + 1 + length rest)) as [->|Hne].
    { unfold file_stopped in Hend. rewrite Hl in Hend. congruence. }
    assert (Hin : In line rest).
    { apply (slice_In lines (i + 1 + length meta + 1) rest k);
        auto; lia. }
    rewrite Forall_forall in Hplain. destruct (Hplain _ Hin) as [Ha _].
    split; [intros _; repeat split; lia|].
    split; intros H; congruence.
  - cbn [fst]. lia.
  - rewrite Hw2 in Hw2'. injection Hw2' as <-. cbn [fst snd] in *.
    subst hs. split; [reflexivity|].
    destruct (Nat.eq_dec i2 (i + 1 + length meta + 1 + length rest))
      as [E|E]; [exact E|exfalso].
    assert (Hlt : i2 < length lines).
    { apply (slice_lt lines (i + 1 + length meta + 1) rest); auto; lia. }
    destruct (get_lt lines _ Hlt) as [line [_ Hl]].
    assert (Hin : In line rest).
    { apply (slice_In lines (i + 1 + length meta + 1) rest i2);
        auto; lia. }
    rewrite Forall_forall in Hplain. destruct (Hplain _ Hin) as [_ Hd].
    unfold file_stopped in Hfs. rewrite Hl in Hfs. congruence.
Qed.

Lemma binary_file_section_witness :
  (exists f,
     parseFile ["diff --git a/logo.png b/logo.png"; "new file mode 100644";
                "index 0000000..1111111";
                "Binary files /dev/null and b/logo.png differ";
                "deleted file mode 100644"; "";
                "diff --git a/x b/x"] 0 true
     = Ok (Some (f, 6))
     /\ status f = added
     /\ hunks f = [])
  /\ (exists f next,
        parseFile ["diff --git a/logo.png b/logo.png";
                   "Binary files a/logo.png and b/logo.png differ";
                   "@@ -1 +1 @@"; "+y"] 0 true
        = Ok (Some (f, next))
        /\ status f = modified
        /\ 2 <= next).
Proof.
  split.
  - destruct (binary_file_section
                ["diff --git a/logo.png b/logo.png"; "new file mode 100644";
                 "index 0000000..1111111";
                 "Binary files /dev/null and b/logo.png differ";
                 "deleted file mode 100644"; "";
                 "diff --git a/x b/x"]
                0 true "diff --git a/logo.png b/logo.png"
                ["new file mode 100644"; "index 0000000..1111111"]
                "Binary files /dev/null and b/logo.png differ")
      as (_ & f & next & Hp & Hs & _ & Hrest).
    + reflexivity.
    + discriminate.
    + reflexivity.
    + repeat constructor.
    + reflexivity.
    + reflexivity.
    + destruct (Hrest ["deleted file mode 100644"; ""]) as [Hh Hnext].
      * reflexivity.
      * repeat constructor.
      * reflexivity.
      * exists f. rewrite Hnext in Hp.
        split; [exact Hp|]. split; [rewrite Hs; reflexivity|exact Hh].
  - destruct (binary_file_section
                ["diff --git a/logo.png b/logo.png";
                 "Binary files a/logo.png and b/logo.png differ";
                 "@@ -1 +1 @@"; "+y"]
                0 true "diff --git a/logo.png b/logo.png" []
                "Binary files a/logo.png and b/logo.png differ")
      as (_ & f & next & Hp & Hs & Hle & _).
    + reflexivity.
    + discriminate.
    + reflexivity.
    + constructor.
    + reflexivity.
    + reflexivity.
    + exists f, next. split; [exact Hp|].
      split; [rewrite Hs; reflexivity|exact Hle].
Defined.

(** C9, as the specification words it, fails: hunk headers after the
    [Binary files] line of a section are parsed, so the hunk list need not
    be empty. *)
Lemma binary_file_hunks_counterexample :
  exists f,
    parseGitDiff "diff --git a/logo.png b/logo.png
Binary files a/logo.png and b/logo.png differ
@@ -1 +1 @@
+y" true = Ok [f]
    /\ hunks f <> [].
Proof.
  eexists. split; [vm_compute; reflexivity|]. cbn. discriminate.
Qed.

(** ** The tokenizer *)

Lemma concat_all_app ts us :
  concat_all (ts ++ us) = (concat_all ts ++ concat_all us)%string.
Proof.
  induction ts as [|t ts IH]; cbn [concat_all app fold_right]; [reflexivity|].
  fold (concat_all (ts ++ us)). fold (concat_all ts).
  rewrite IH, string_app_assoc. reflexivity.
Qed.

Lemma concat_all_pending tokens current :
  concat_all (pending tokens current) = (concat_all tokens ++ current)%string.
Proof.
  unfold pending. destruct current as [|c s]; cbn [nonempty].
  - rewrite string_app_empty_r. reflexivity.
  - rewrite concat_all_app. cbn [concat_all fold_right].
    rewrite string_app_empty_r. reflexivity.
Qed.

Lemma tokenize_loop_concat line tokens current inWord :
  let '(tokens', current') := tokenize_loop line tokens current inWord in
  concat_all (pending tokens' current')
  = (concat_all tokens ++ current ++ line)%string.
Proof.
  revert tokens current inWord.
  induction line as [|char rest IH]; intros tokens current inWord;
    cbn [tokenize_loop].
  - rewrite concat_all_pending, string_app_empty_r. reflexivity.
  - destruct (negb (Bool.eqb (isWordChar char) inWord) && nonempty current);
      cbn beta iota;
      match goal with
      | |- context [tokenize_loop ?r ?t ?c ?w] =>
          specialize (IH t c w);
          destruct (tokenize_loop r t c w) as [tokens' current']
      end; rewrite IH.
    + rewrite concat_all_app. cbn [concat_all fold_right String.append].
      rewrite string_app_empty_r, string_app_assoc. reflexivity.
    + rewrite string_app_assoc. reflexivity.
Qed.

Lemma all_class_snoc w s c :
  all_class w (s ++ String c "") = all_class w s && Bool.eqb (isWordChar c) w.
Proof.
  induction s as [|x s IH]; cbn [all_class String.append].
  - rewrite andb_true_r. reflexivity.
  - rewrite IH, andb_assoc. reflexivity.
Qed.

Lemma token_class_snoc s c :
  s <> EmptyString -> token_class (s ++ String c "") = token_class s.
Proof. destruct s; [congruence|reflexivity]. Qed.

Lemma alternating_class ts t t' :
  token_class t = token_class t' ->
  alternating (ts ++ [t]) -> alternating (ts ++ [t']).
Proof.
  intros Hc. induction ts as [|x ts IH]; [auto|].
  destruct ts as [|y ts]; cbn [app alternating] in *.
  - intros [H _]. split; [congruence|exact I].
  - intros [H1 H2]. split; [exact H1|]. apply IH. exact H2.
Qed.

Lemma alternating_snoc ts t t' :
  token_class t <> token_class t' ->
  alternating (ts ++ [t]) -> alternating ((ts ++ [t]) ++ [t']).
Proof.
  intros Hc. induction ts as [|x ts IH].
  - intros _. cbn. auto.
  - destruct ts as [|y ts]; cbn [app alternating] in *.
    + intros [H _]. auto.
    + intros [H1 H2]. split; [exact H1|]. apply IH. exact H2.
Qed.

Lemma alternating_front ts t :
  alternating (ts ++ [t]) -> alternating ts.
Proof.
  induction ts as [|x ts IH]; [auto|].
  destruct ts as [|y ts]; cbn [app alternating] in *; [auto|].
  intros [H1 H2]. split; [exact H1|]. apply IH. exact H2.
Qed.

Lemma tokenizer_inv_pending tokens current inWord :
  tokenizer_inv tokens current inWord ->
  Forall uniform (pending tokens current) /\ alternating (pending tokens current).
Proof.
  unfold pending. intros [[-> ->]|(Hc & Ha & Hu & Halt)].
  - cbn. split; [constructor|exact I].
  - destruct current as [|c s]; [discriminate Hc|]. cbn [nonempty].
    split; [|exact Halt].
    apply Forall_app. split; [exact Hu|].
    constructor; [|constructor]. exists inWord. auto.
Qed.

Lemma tokenize_loop_inv line tokens current inWord :
  tokenizer_inv tokens current inWord ->
  let '(tokens', current') := tokenize_loop line tokens current inWord in
  Forall uniform (pending tokens' current')
  /\ alternating (pending tokens' current').
Proof.
  revert tokens current inWord.
  induction line as [|char rest IH]; intros tokens current inWord Hinv;
    cbn [tokenize_loop].
  - apply (tokenizer_inv_pending _ _ _ Hinv).
  - destruct Hinv as [[-> ->]|(Hc & Ha & Hu & Halt)].
    + rewrite andb_false_r. cbn beta iota. apply IH. right.
      cbn [String.append token_class all_class].
      rewrite Bool.eqb_reflx. repeat split; auto.
    + destruct current as [|c s]; [discriminate Hc|].
      cbn [nonempty]. rewrite andb_true_r.
      destruct (Bool.eqb (isWordChar char) inWord) eqn:E; cbn [negb];
        cbn beta iota.
      * apply IH. right. apply Bool.eqb_prop in E. rewrite E.
        rewrite all_class_snoc, Ha, E, Bool.eqb_reflx.
        repeat split; auto.
        apply (alternating_class tokens (String c s)); [reflexivity|exact Halt].
      * apply IH. right. cbn [String.append token_class all_class].
        rewrite Bool.eqb_reflx. repeat split; auto.
        -- apply Forall_app. split; [exact Hu|].
           constructor; [|constructor]. exists inWord. auto.
        -- apply alternating_snoc; [|exact Halt].
           rewrite Hc. cbn. intros H. injection H as H.
           rewrite <- H, Bool.eqb_reflx in E. discriminate.
Qed.

Lemma tokenize_concat line : concat_all (tokenize line) = line.
Proof.
  unfold tokenize.
  pose proof (tokenize_loop_concat line [] "" false) as H.
  destruct (tokenize_loop line [] "" false) as [tokens current].
  exact H.
Qed.

Lemma tokenize_runs line :
  Forall uniform (tokenize line) /\ alternating (tokenize line).
Proof.
  unfold tokenize.
  pose proof (tokenize_loop_inv line [] "" false) as H.
  destruct (tokenize_loop line [] "" false) as [tokens current].
  apply H. left. auto.
Qed.

(** C6. The tokenizer is lossless: the tokens of a line, written one after
    the other, are the line.  Every token is a non-empty run of word
    characters or of other characters, and neighbouring tokens are of
    different classes.  The empty line has no token, and [foo-bar] has the
    tokens [foo], [-] and [bar]. *)
Theorem tokenize_lossless :
  (forall line, concat_all (tokenize line) = line)
  /\ (forall line, Forall uniform (tokenize line))
  /\ (forall line, alternating (tokenize line))
  /\ tokenize "" = []
  /\ tokenize "foo-bar" = ["foo"; "-"; "bar"].
Proof.
  split; [exact tokenize_concat|].
  split; [intros line; apply tokenize_runs|].
  split; [intros line; apply tokenize_runs|].
  split; reflexivity.
Qed.

(** ** The longest common subsequence *)

Lemma subseq_tail x s l : subseq (x :: s) l -> subseq s l.
Proof.
  intros H. remember (x :: s) as xs eqn:E. revert x s E.
  induction H as [l|y s' l H IH|y s' l H IH]; intros x s E.
  - discriminate.
  - injection E as -> ->. apply sub_skip. exact H.
  - apply sub_skip. eapply IH. exact E.
Qed.

Lemma subseq_skipn s l k : subseq s (skipn k l) -> subseq s l.
Proof.
  revert l. induction k as [|k IH]; intros l H; [exact H|].
  destruct l as [|y l]; [exact H|]. apply sub_skip. apply IH. exact H.
Qed.

Lemma elem_eqb_Some x y a :
  elem_eqb x y = true -> x = Some a -> y = Some a.
Proof.
  intros H ->. destruct y as [b|]; [|discriminate].
  apply String.eqb_eq in H. congruence.
Qed.

(** [computeLCS] ends, and what it returns is a subsequence of both
    arguments, whatever the table holds. *)
Lemma computeLCS_common a b :
  exists lcs, computeLCS a b = Ok lcs /\ subseq lcs a /\ subseq lcs b.
Proof.
  unfold computeLCS.
  apply (while_rule (backtrack_step a b (dp_fill a b))
           (fun s => let '(i, j, lcs) := s in
                     i <= length a /\ j <= length b
                     /\ subseq lcs (skipn i a) /\ subseq lcs (skipn j b))
           (fun lcs => subseq lcs a /\ subseq lcs b)
           (fun s => let '(i, j, _) := s in i + j)).
  - intros [[i j] lcs] (Hi & Hj & Ha & Hb). unfold backtrack_step.
    destruct ((0 <? i)%nat && (0 <? j)%nat) eqn:Hpos; cbn [negb].
    + apply andb_true_iff in Hpos. destruct Hpos as [Hi0 Hj0].
      apply Nat.ltb_lt in Hi0. apply Nat.ltb_lt in Hj0.
      assert (Hia : i - 1 < length a) by lia.
      assert (Hjb : j - 1 < length b) by lia.
      destruct (get_lt a _ Hia) as [x [Hgx Hx]].
      destruct (get_lt b _ Hjb) as [y [_ Hy]].
      pose proof (skipn_nth_cons a _ _ Hx) as Hsa.
      pose proof (skipn_nth_cons b _ _ Hy) as Hsb.
      replace (S (i - 1)) with i in Hsa by lia.
      replace (S (j - 1)) with j in Hsb by lia.
      destruct (elem_eqb (nth_error a (i - 1)) (nth_error b (j - 1))) eqn:E.
      * rewrite Hgx. cbn [bind].
        pose proof (elem_eqb_Some _ _ _ E Hx) as Hy'.
        assert (y = x) by congruence. subst y.
        rewrite Hsa, Hsb.
        repeat split; try lia; apply sub_take; assumption.
      * destruct (dp_get (dp_fill a b) i (j - 1) <? dp_get (dp_fill a b) (i - 1) j)%nat.
        -- rewrite Hsa. repeat split; try lia; auto. apply sub_skip. exact Ha.
        -- rewrite Hsb. repeat split; try lia; auto. apply sub_skip. exact Hb.
    + split; eapply subseq_skipn; eauto.
  - cbn. rewrite !skipn_all. repeat split; auto; constructor.
  - lia.
Qed.

(** ** The word diff of a line pair *)

(** The inner loops of [computeLineDiff] end at the first word in range on
    which [stop] holds, or at the end of the words, and record the words
    they pass when [emit] holds. *)
Lemma drain_spec words stop emit kind idx res :
  exists idx',
    drain words stop emit kind idx res
    = Ok (idx', res ++ (if emit
                        then word_tokens kind (slice words idx idx')
                        else []))
    /\ idx <= idx'
    /\ (idx <= length words -> idx' <= length words)
    /\ (forall k, idx <= k -> k < idx' -> stop (nth_error words k) = false)
    /\ (idx' < length words -> stop (nth_error words idx') = true).
Proof.
  unfold drain.
  destruct (while_rule (drain_step words stop emit kind)
              (fun s => idx <= fst s
                        /\ (idx <= length words -> fst s <= length words)
                        /\ snd s = res ++ (if emit
                                           then word_tokens kind
                                                  (slice words idx (fst s))
                                           else [])
                        /\ (forall k, idx <= k -> k < fst s ->
                                      stop (nth_error words k) = false))
              (fun s => idx <= fst s
                        /\ (idx <= length words -> fst s <= length words)
                        /\ snd s = res ++ (if emit
                                           then word_tokens kind
                                                  (slice words idx (fst s))
                                           else [])
                        /\ (forall k, idx <= k -> k < fst s ->
                                      stop (nth_error words k) = false)
                        /\ (fst s < length words ->
                            stop (nth_error words (fst s)) = true))
              (fun s => length words - fst s))
    with (fuel := S (length words)) (s := (idx, res))
    as [[idx' res'] [Hw (H1 & H2 & H3 & H4 & H5)]]; cbn [fst snd] in *.
  - intros [k r] (H1 & H2 & H3 & H4). cbn [fst snd] in *.
    unfold drain_step.
    destruct (k <? length words)%nat eqn:Hlt; cbn [negb].
    + apply Nat.ltb_lt in Hlt.
      destruct (stop (nth_error words k)) eqn:Hs.
      * cbn [fst snd]. repeat split; auto.
      * destruct (get_lt words _ Hlt) as [w [Hg Hn]]. rewrite Hg. cbn [bind fst snd].
        repeat split; try lia.
        -- subst r. rewrite (slice_S words _ _ _ H1 Hn).
           destruct emit; [|reflexivity].
           unfold word_tokens. rewrite map_app, app_assoc. reflexivity.
        -- intros k' Hk1 Hk2.
           destruct (Nat.eq_dec k' k) as [->|Hne]; [exact Hs|].
           apply H4; lia.
    + apply Nat.ltb_ge in Hlt. cbn [fst snd]. repeat split; auto.
      intros Hk. lia.
  - repeat split; try lia.
    rewrite slice_same. destruct emit; cbn; rewrite app_nil_r; reflexivity.
  - cbn [fst]. lia.
  - exists idx'. subst res'. repeat split; auto.
Qed.

(** The walk to the next word of the common subsequence finds it. *)
Lemma subseq_advance lcs words li x oi' :
  nth_error lcs li = Some x ->
  oi' <= length words ->
  (oi' < length words -> elem_eqb (nth_error words oi') (Some x) = true) ->
  forall n oi, oi' = oi + n ->
  subseq (skipn li lcs) (skipn oi words) ->
  (forall k, oi <= k -> k < oi' ->
             elem_eqb (nth_error words k) (Some x) = false) ->
  nth_error words oi' = Some x
  /\ subseq (skipn (S li) lcs) (skipn (S oi') words).
Proof.
  intros Hx Hle Hstop n.
  rewrite (skipn_nth_cons lcs _ _ Hx).
  induction n as [|n IH]; intros oi Hoi Hsub Hskip.
  - rewrite Nat.add_0_r in Hoi. subst oi.
    destruct (Nat.lt_ge_cases oi' (length words)) as [Hlt|Hge].
    + destruct (get_lt words _ Hlt) as [y [_ Hy]].
      specialize (Hstop Hlt). rewrite Hy in Hstop. cbn in Hstop.
      apply String.eqb_eq in Hstop. subst y.
      split; [exact Hy|].
      rewrite (skipn_nth_cons words _ _ Hy) in Hsub.
      inversion Hsub; subst; [assumption|].
      eapply subseq_tail; eauto.
    + assert (E : skipn oi' words = []) by (apply skipn_all2; lia).
      rewrite E in Hsub. inversion Hsub.
  - assert (Hlt : oi < length words) by lia.
    destruct (get_lt words _ Hlt) as [y [_ Hy]].
    pose proof (Hskip oi (le_n _) ltac:(lia)) as Hne.
    rewrite Hy in Hne. cbn in Hne. apply String.eqb_neq in Hne.
    rewrite (skipn_nth_cons words _ _ Hy) in Hsub.
    apply (IH (S oi)); [lia| |intros k Hk1 Hk2; apply Hskip; lia].
    inversion Hsub; subst; [congruence|assumption].
Qed.

Lemma map_value_word_tokens kind ws : map value (word_tokens kind ws) = ws.
Proof.
  unfold word_tokens. rewrite map_map. cbn [value]. apply map_id.
Qed.

Lemma word_tokens_kind kind (P : WordChange -> Prop) ws :
  (forall w, P {| wtype := kind; value := w |}) ->
  Forall P (word_tokens kind ws).
Proof.
  intros H. unfold word_tokens. apply Forall_map. apply Forall_forall.
  intros w _. apply H.
Qed.

(** The tokens pushed while walking [words] from [i] to [i'] and then the
    common word at [i'] spell the words up to it. *)
Lemma values_advance (words : list string) res i i' x kind :
  map value res = firstn i words -> i <= i' ->
  nth_error words i' = Some x ->
  map value ((res ++ word_tokens kind (slice words i i'))
             ++ [{| wtype := normal; value := x |}])
  = firstn (i' + 1) words.
Proof.
  intros Hres Hle Hx.
  rewrite !map_app, map_value_word_tokens, Hres.
  rewrite <- firstn_slice by exact Hle.
  rewrite Nat.add_1_r. cbn [map value]. symmetry. apply firstn_S_nth. exact Hx.
Qed.

Lemma values_flush (words : list string) res i kind :
  map value res = firstn i words -> i <= length words ->
  map value (res ++ word_tokens kind (slice words i (length words)))
  = firstn (length words) words.
Proof.
  intros Hres Hle.
  rewrite map_app, map_value_word_tokens, Hres.
  rewrite <- firstn_slice by exact Hle. reflexivity.
Qed.

(** The loop of [computeLineDiff] ends within its fuel, with tokens that
    spell the words of the side it annotates. *)
Lemma lineDiff_loop oldWords newWords lcs forType :
  subseq lcs oldWords -> subseq lcs newWords ->
  exists r,
    while (lineDiff_step oldWords newWords lcs forType)
      (S (length oldWords + length newWords + length lcs))
      {| oldIdx := 0; newIdx := 0; lcsIdx := 0; ld_result := [] |} = Ok r
    /\ lineDiff_ok oldWords newWords forType r.
Proof.
  intros Hso Hsn.
  apply (while_rule (lineDiff_step oldWords newWords lcs forType)
           (lineDiff_inv oldWords newWords lcs forType)
           (lineDiff_ok oldWords newWords forType)
           (fun s => (length oldWords - oldIdx s) + (length newWords - newIdx s)
                     + (length lcs - lcsIdx s))).
  - intros s (H1 & H2 & H3 & H4 & H5 & H6 & H7). unfold lineDiff_step.
    destruct ((oldIdx s <? length oldWords)%nat || (newIdx s <? length newWords)%nat)
      eqn:Hrun; cbn [negb].
    + destruct (lcsIdx s <? length lcs)%nat eqn:Hl; cbn zeta.
      * apply Nat.ltb_lt in Hl.
        destruct (get_lt lcs _ Hl) as [x [Hgx Hx]]. rewrite Hx.
        destruct (drain_spec oldWords (fun w => elem_eqb w (Some x))
                    (ChangeType_eqb forType delete) delete (oldIdx s)
                    (ld_result s)) as [o1 (Hd & Ho1 & Ho2 & Ho3 & Ho4)].
        rewrite Hd. cbn [bind].
        destruct (drain_spec newWords (fun w => elem_eqb w (Some x))
                    (ChangeType_eqb forType add) add (newIdx s)
                    (ld_result s ++
                     (if ChangeType_eqb forType delete
                      then word_tokens delete (slice oldWords (oldIdx s) o1)
                      else []))) as [n1 (Hn & Hn1 & Hn2 & Hn3 & Hn4)].
        rewrite Hn. cbn [bind]. rewrite Hgx. cbn [bind].
        destruct (subseq_advance lcs oldWords (lcsIdx s) x o1 Hx (Ho2 H1) Ho4
                    (o1 - oldIdx s) (oldIdx s) ltac:(lia) H4 Ho3) as [Hxo Hso'].
        destruct (subseq_advance lcs newWords (lcsIdx s) x n1 Hx (Hn2 H2) Hn4
                    (n1 - newIdx s) (newIdx s) ltac:(lia) H5 Hn3) as [Hxn Hsn'].
        assert (Ho1lt : o1 < length oldWords) by (apply nth_error_Some; congruence).
        assert (Hn1lt : n1 < length newWords) by (apply nth_error_Some; congruence).
        split; [|cbn [oldIdx newIdx lcsIdx]; lia].
        unfold lineDiff_inv. cbn [oldIdx newIdx lcsIdx ld_result].
        rewrite !Nat.add_1_r.
        repeat split; try lia; try assumption; subst forType;
          cbn [ChangeType_eqb]; rewrite ?app_nil_r.
        -- rewrite <- Nat.add_1_r. apply values_advance; auto.
           apply (proj1 (H6 eq_refl)).
        -- apply Forall_app. split; [apply Forall_app; split|].
           ++ apply (proj2 (H6 eq_refl)).
           ++ apply word_tokens_kind. intros w. cbn. discriminate.
           ++ constructor; [cbn; discriminate|constructor].
        -- rewrite <- Nat.add_1_r. apply values_advance; auto.
           apply (proj1 (H7 eq_refl)).
        -- apply Forall_app. split; [apply Forall_app; split|].
           ++ apply (proj2 (H7 eq_refl)).
           ++ apply word_tokens_kind. intros w. cbn. discriminate.
           ++ constructor; [cbn; discriminate|constructor].
      * apply Nat.ltb_ge in Hl.
        destruct (drain_spec oldWords (fun _ => false)
                    (ChangeType_eqb forType delete) delete (oldIdx s)
                    (ld_result s)) as [o1 (Hd & Ho1 & Ho2 & Ho3 & Ho4)].
        rewrite Hd. cbn [bind].
        destruct (drain_spec newWords (fun _ => false)
                    (ChangeType_eqb forType add) add (newIdx s)
                    (ld_result s ++
                     (if ChangeType_eqb forType delete
                      then word_tokens delete (slice oldWords (oldIdx s) o1)
                      else []))) as [n1 (Hn & Hn1 & Hn2 & Hn3 & Hn4)].
        rewrite Hn. cbn [bind].
        assert (Eo : o1 = length oldWords).
        { specialize (Ho2 H1).
          destruct (Nat.eq_dec o1 (length oldWords)) as [E|E]; [exact E|].
          assert (Hlt : o1 < length oldWords) by lia.
          specialize (Ho4 Hlt). discriminate. }
        assert (En : n1 = length newWords).
        { specialize (Hn2 H2).
          destruct (Nat.eq_dec n1 (length newWords)) as [E|E]; [exact E|].
          assert (Hlt : n1 < length newWords) by lia.
          specialize (Hn4 Hlt). discriminate. }
        subst o1 n1.
        apply orb_true_iff in Hrun.
        split; [|cbn [oldIdx newIdx lcsIdx];
                 destruct Hrun as [Hr|Hr]; apply Nat.ltb_lt in Hr; lia].
        assert (Hlcs : skipn (lcsIdx s) lcs = []) by (apply skipn_all2; lia).
        unfold lineDiff_inv. cbn [oldIdx newIdx lcsIdx ld_result].
        rewrite Hlcs.
        repeat split; try lia; try apply sub_nil; subst forType;
          cbn [ChangeType_eqb]; rewrite ?app_nil_r.
        -- apply values_flush; auto. apply (proj1 (H6 eq_refl)).
        -- apply Forall_app. split.
           ++ apply (proj2 (H6 eq_refl)).
           ++ apply word_tokens_kind. intros w. cbn. discriminate.
        -- apply values_flush; auto. apply (proj1 (H7 eq_refl)).
        -- apply Forall_app. split.
           ++ apply (proj2 (H7 eq_refl)).
           ++ apply word_tokens_kind. intros w. cbn. discriminate.
    + apply orb_false_elim in Hrun. destruct Hrun as [Ho Hn].
      apply Nat.ltb_ge in Ho. apply Nat.ltb_ge in Hn.
      assert (Eo : oldIdx s = length oldWords) by lia.
      assert (En : newIdx s = length newWords) by lia.
      rewrite Eo in H6. rewrite En in H7. rewrite firstn_all in H6, H7.
      split; assumption.
  - unfold lineDiff_inv. cbn [oldIdx newIdx lcsIdx ld_result skipn].
    repeat split; try lia; auto; constructor.
  - cbn [oldIdx newIdx lcsIdx]. lia.
Qed.

(** [computeLineDiff] returns tokens that spell the tokens of the line on
    the side it annotates. *)
Lemma computeLineDiff_spec oldLine newLine forType :
  exists r, computeLineDiff oldLine newLine forType = Ok r
            /\ lineDiff_ok (tokenize oldLine) (tokenize newLine) forType r.
Proof.
  unfold computeLineDiff.
  destruct (computeLCS_common (tokenize oldLine) (tokenize newLine))
    as [lcs [Hl [Ho Hn]]].
  rewrite Hl. cbn [bind]. apply lineDiff_loop; assumption.
Qed.

(** ** Replacement blocks *)

(** The run-collecting loops end at the first Change that is not of kind
    [t], with the Changes they passed. *)
Lemma collect_spec cs t i :
  i <= length cs ->
  exists i',
    collect cs t i = Ok (i', slice cs i i')
    /\ i <= i' /\ i' <= length cs
    /\ (forall k, i <= k -> k < i' -> kind_at cs k t = true)
    /\ kind_at cs i' t = false.
Proof.
  intros Hi. unfold collect.
  destruct (while_rule (collect_step cs t)
              (fun s => i <= fst s /\ fst s <= length cs
                        /\ snd s = slice cs i (fst s)
                        /\ (forall k, i <= k -> k < fst s -> kind_at cs k t = true))
              (fun s => i <= fst s /\ fst s <= length cs
                        /\ snd s = slice cs i (fst s)
                        /\ (forall k, i <= k -> k < fst s -> kind_at cs k t = true)
                        /\ kind_at cs (fst s) t = false)
              (fun s => length cs - fst s))
    with (fuel := S (length cs)) (s := (i, @nil DiffChange))
    as [[i' acc] [Hw (H1 & H2 & H3 & H4 & H5)]]; cbn [fst snd] in *.
  - intros [k acc] (H1 & H2 & H3 & H4). cbn [fst snd] in *.
    unfold collect_step.
    destruct (k <? length cs)%nat eqn:Hlt; cbn [negb].
    + apply Nat.ltb_lt in Hlt.
      destruct (get_lt cs _ Hlt) as [c [Hg Hn]]. rewrite Hg. cbn [bind].
      destruct (type_is t c) eqn:Ht; cbn [fst snd].
      * repeat split; try lia.
        -- subst acc. symmetry. apply slice_S; assumption.
        -- intros k' Hk1 Hk2. destruct (Nat.eq_dec k' k) as [->|Hne].
           ++ unfold kind_at. rewrite Hn. exact Ht.
           ++ apply H4; lia.
      * repeat split; auto. unfold kind_at. rewrite Hn. exact Ht.
    + apply Nat.ltb_ge in Hlt. cbn [fst snd]. repeat split; auto.
      unfold kind_at.
      destruct (nth_error cs k) eqn:E; [|reflexivity].
      assert (k < length cs) by (apply nth_error_Some; congruence). lia.
  - repeat split; try lia. rewrite slice_same. reflexivity.
  - cbn [fst]. lia.
  - exists i'. subst acc. repeat split; auto.
Qed.

Lemma for_each_push deletes adds side forType maxPairs :
  maxPairs <= length deletes -> maxPairs <= length adds ->
  forall len start res,
    start + len = length side ->
    for_each (seq start len)
      (fun j res =>
         c <- get side j ;;
         if (j <? maxPairs)%nat then
           d <- get deletes j ;;
           a <- get adds j ;;
           w <- computeLineDiff (content d) (content a) forType ;;
           Ok (res ++ [with_wordDiff c w])
         else Ok (res ++ [c]))
      res
    = Ok (res ++ annot_run deletes adds forType maxPairs start
                   (skipn start side)).
Proof.
  intros Hd Ha. induction len as [|len IH]; intros start res Hlen.
  - cbn [seq for_each]. rewrite skipn_all2 by lia.
    unfold annot_run. cbn. rewrite app_nil_r. reflexivity.
  - cbn [seq for_each].
    assert (Hlt : start < length side) by lia.
    destruct (get_lt side _ Hlt) as [c [Hg Hn]]. rewrite Hg. cbn [bind].
    rewrite (skipn_nth_cons side _ _ Hn).
    unfold annot_run. cbn [length seq combine map fst snd].
    fold (annot_run deletes adds forType maxPairs (S start)
            (skipn (S start) side)).
    assert (Hrest :
      forall c', for_each (seq (S start) len)
        (fun j res =>
           c <- get side j ;;
           if (j <? maxPairs)%nat then
             d <- get deletes j ;;
             a <- get adds j ;;
             w <- computeLineDiff (content d) (content a) forType ;;
             Ok (res ++ [with_wordDiff c w])
           else Ok (res ++ [c]))
        (res ++ [c'])
      = Ok (res ++ c' :: annot_run deletes adds forType maxPairs (S start)
                           (skipn (S start) side))).
    { intros c'. rewrite IH by lia. rewrite <- app_assoc. reflexivity. }
    unfold annot_at.
    destruct (start <? maxPairs)%nat eqn:Hp.
    + apply Nat.ltb_lt in Hp.
      destruct (get_lt deletes start ltac:(lia)) as [d [Hgd Hnd]].
      destruct (get_lt adds start ltac:(lia)) as [a [Hga Hna]].
      rewrite Hgd, Hga, Hnd, Hna. cbn [bind].
      destruct (computeLineDiff_spec (content d) (content a) forType)
        as [w [Hw _]].
      rewrite Hw. cbn [bind]. apply Hrest.
    + apply Hrest.
Qed.

Lemma push_run_spec deletes adds side forType maxPairs res :
  maxPairs <= length deletes -> maxPairs <= length adds ->
  push_run deletes adds side forType maxPairs res
  = Ok (res ++ annot_run deletes adds forType maxPairs 0 side).
Proof.
  intros Hd Ha. unfold push_run.
  rewrite (for_each_push deletes adds side forType maxPairs Hd Ha
             (length side) 0 res eq_refl).
  reflexivity.
Qed.

Lemma annot_run_length deletes adds forType maxPairs start side :
  length (annot_run deletes adds forType maxPairs start side) = length side.
Proof.
  unfold annot_run. rewrite length_map, length_combine, length_seq.
  apply Nat.min_id.
Qed.

Lemma annot_run_nth deletes adds forType maxPairs side j c :
  nth_error side j = Some c ->
  nth_error (annot_run deletes adds forType maxPairs 0 side) j
  = Some (annot_at deletes adds forType maxPairs j c).
Proof.
  intros Hc. unfold annot_run.
  assert (Hlt : j < length side) by (apply nth_error_Some; congruence).
  rewrite nth_error_map.
  assert (Hcomb : forall n,
            nth_error (combine (seq n (length side)) side) j = Some (n + j, c)).
  { revert j c Hc Hlt.
    induction side as [|x side IH]; intros j c Hc Hlt n; [cbn in Hlt; lia|].
    destruct j as [|j]; cbn [length seq combine nth_error] in *.
    - injection Hc as ->. rewrite Nat.add_0_r. reflexivity.
    - rewrite (IH j c Hc ltac:(lia) (S n)). f_equal. f_equal. lia. }
  rewrite Hcomb. reflexivity.
Qed.

Lemma type_is_delete_not_add c : type_is delete c = true -> type_is add c = false.
Proof. unfold type_is. destruct (type c) as [[]|]; cbn; congruence. Qed.

Lemma type_is_add_not_delete c : type_is add c = true -> type_is delete c = false.
Proof. unfold type_is. destruct (type c) as [[]|]; cbn; congruence. Qed.

Lemma type_is_eq t c : type_is t c = true -> type c = Some t.
Proof.
  unfold type_is. destruct (type c) as [t'|]; [|discriminate].
  destruct t', t; cbn; congruence.
Qed.

Lemma kind_at_Some cs k t :
  kind_at cs k t = true ->
  exists c, nth_error cs k = Some c /\ type_is t c = true.
Proof.
  unfold kind_at. destruct (nth_error cs k) as [c|]; [|discriminate].
  intros H. exists c. auto.
Qed.

Lemma kind_at_delete_not_add cs k :
  kind_at cs k delete = true -> kind_at cs k add = false.
Proof.
  unfold kind_at. destruct (nth_error cs k); [|reflexivity].
  apply type_is_delete_not_add.
Qed.

Lemma kind_at_add_not_delete cs k :
  kind_at cs k add = true -> kind_at cs k delete = false.
Proof.
  unfold kind_at. destruct (nth_error cs k); [|reflexivity].
  apply type_is_add_not_delete.
Qed.

(** Two blocks that start at the same index are the same block. *)
Lemma block_same_start cs s d a d' a' :
  block cs s d a -> block cs s d' a' -> d = d' /\ a = a'.
Proof.
  intros (H1 & H2 & H3 & _ & H5 & H6) (K1 & K2 & K3 & _ & K5 & K6).
  assert (Hd : d = d').
  { destruct (Nat.lt_trichotomy d d') as [Hlt|[E|Hlt]]; [exfalso|exact E|exfalso].
    - rewrite (K2 (s + d)) in H5 by lia. discriminate.
    - rewrite (H2 (s + d')) in K5 by lia. discriminate. }
  subst d'. split; [reflexivity|].
  destruct (Nat.lt_trichotomy a a') as [Hlt|[E|Hlt]]; [exfalso|exact E|exfalso].
  - rewrite (K3 (s + d + a)) in H6 by lia. discriminate.
  - rewrite (H3 (s + d + a')) in K6 by lia. discriminate.
Qed.

(** No block starts inside another one. *)
Lemma block_no_overlap cs i d' a' s d a :
  block cs i d' a' -> block cs s d a -> i < s -> s < i + d' + a' -> False.
Proof.
  intros (K1 & K2 & K3 & _ & _ & _) (H1 & H2 & _ & H4 & _ & _) Hlt Hin.
  assert (Hs : kind_at cs s delete = true) by (apply H2; lia).
  destruct (Nat.lt_ge_cases s (i + d')) as [Hd|Hd].
  - destruct H4 as [E|E]; [lia|].
    rewrite (K2 (s - 1)) in E by lia. discriminate.
  - rewrite (kind_at_add_not_delete cs s) in Hs by (apply K3; lia).
    discriminate.
Qed.

(** What the output holds for a block depends on the output up to the end
    of the block only. *)
Lemma block_done_agree cs out out' n s d a :
  (forall k, k < n -> nth_error out' k = nth_error out k) ->
  s + d + a <= n ->
  block_done cs out s d a -> block_done cs out' s d a.
Proof.
  intros Hagree Hlen [He Hn].
  unfold block_done, unchanged_at, annotated_pair in *. split.
  - intros Hel. destruct (He Hel) as (P1 & P2 & P3).
    split; [|split].
    + intros j Hj. destruct (P1 j Hj) as (cd & ca & wd & wa & Q).
      exists cd, ca, wd, wa.
      destruct Q as (Q1 & Q2 & Q3 & Q4 & Q5 & Q6).
      assert (j < d /\ j < a) by lia.
      rewrite !Hagree by lia. repeat split; assumption.
    + intros k Hk1 Hk2. rewrite Hagree by lia. auto.
    + intros k Hk1 Hk2. rewrite Hagree by lia. auto.
  - intros Hel k Hk1 Hk2. rewrite Hagree by lia. auto.
Qed.

Lemma annot_at_paired deletes adds forType maxPairs j c d a :
  j < maxPairs -> nth_error deletes j = Some d -> nth_error adds j = Some a ->
  exists w, computeLineDiff (content d) (content a) forType = Ok w
            /\ annot_at deletes adds forType maxPairs j c = with_wordDiff c w.
Proof.
  intros Hj Hd Ha. unfold annot_at.
  apply Nat.ltb_lt in Hj. rewrite Hj, Hd, Ha.
  destruct (computeLineDiff_spec (content d) (content a) forType) as [w [Hw _]].
  exists w. rewrite Hw. auto.
Qed.

Lemma annot_at_unpaired deletes adds forType maxPairs j c :
  maxPairs <= j -> annot_at deletes adds forType maxPairs j c = c.
Proof.
  intros Hj. unfold annot_at. apply Nat.ltb_ge in Hj. rewrite Hj. reflexivity.
Qed.

Lemma eligible_test d a :
  (0 <? d)%nat && (0 <? a)%nat && (d <=? 5)%nat && (a <=? 5)%nat = true
  <-> eligible d a.
Proof.
  unfold eligible.
  rewrite !andb_true_iff, !Nat.ltb_lt, !Nat.leb_le. lia.
Qed.

(** One iteration of the loop of [computeHunkWordDiffs] on a delete: it
    takes the whole block that starts there and pushes it, annotated if
    eligible. *)
Lemma block_step cs i out c :
  length out = i -> nth_error cs i = Some c -> type_is delete c = true ->
  exists d a out',
    1 <= d /\ i + d + a <= length cs
    /\ (forall k, i <= k -> k < i + d -> kind_at cs k delete = true)
    /\ (forall k, i + d <= k -> k < i + d + a -> kind_at cs k add = true)
    /\ kind_at cs (i + d) delete = false
    /\ kind_at cs (i + d + a) add = false
    /\ wordDiffs_step cs (i, out) = Ok (Next (i + d + a, out'))
    /\ length out' = i + d + a
    /\ (forall k, k < i -> nth_error out' k = nth_error out k)
    /\ block_done cs out' i d a
    /\ (forall k c0 c', i <= k -> nth_error cs k = Some c0 ->
          nth_error out' k = Some c' -> annotation_of c0 c').
Proof.
  intros Hlen Hc Hdel.
  assert (Hi : i < length cs) by (apply nth_error_Some; congruence).
  destruct (collect_spec cs delete i ltac:(lia))
    as [i1 (Hc1 & Hle1 & Hb1 & Hall1 & Hend1)].
  assert (Hi1 : i < i1).
  { destruct (Nat.eq_dec i1 i) as [E|E]; [|lia]. subst i1.
    unfold kind_at in Hend1. rewrite Hc in Hend1. congruence. }
  destruct (collect_spec cs add i1 Hb1)
    as [i2 (Hc2 & Hle2 & Hb2 & Hall2 & Hend2)].
  assert (Ed : exists d, i1 = i + d /\ 1 <= d) by (exists (i1 - i); lia).
  destruct Ed as [d [-> Hd1]].
  assert (Ea : exists a, i2 = i + d + a) by (exists (i2 - (i + d)); lia).
  destruct Ea as [a ->].
  set (deletes := slice cs i (i + d)) in *.
  set (adds := slice cs (i + d) (i + d + a)) in *.
  assert (Ld : length deletes = d).
  { subst deletes. rewrite slice_length by lia. lia. }
  assert (La : length adds = a).
  { subst adds. rewrite slice_length by lia. lia. }
  assert (Nd : forall j, j < d -> nth_error deletes j = nth_error cs (i + j)).
  { intros j Hj. subst deletes. apply nth_error_slice. lia. }
  assert (Na : forall j, j < a -> nth_error adds j = nth_error cs (i + d + j)).
  { intros j Hj. subst adds. apply nth_error_slice. lia. }
  assert (Dk : forall j, j < d -> exists cd,
             nth_error cs (i + j) = Some cd /\ type cd = Some delete).
  { intros j Hj. destruct (kind_at_Some cs (i + j) delete) as [cd [H1 H2]].
    - apply Hall1; lia.
    - exists cd. split; [exact H1|]. apply type_is_eq. exact H2. }
  assert (Ak : forall j, j < a -> exists ca,
             nth_error cs (i + d + j) = Some ca /\ type ca = Some add).
  { intros j Hj. destruct (kind_at_Some cs (i + d + j) add) as [ca [H1 H2]].
    - apply Hall2; lia.
    - exists ca. split; [exact H1|]. apply type_is_eq. exact H2. }
  exists d, a.
  assert (Hstep : exists R1 R2,
    wordDiffs_step cs (i, out) = Ok (Next (i + d + a, (out ++ R1) ++ R2))
    /\ length R1 = d /\ length R2 = a
    /\ (forall j cd, j < d -> nth_error cs (i + j) = Some cd ->
          (eligible d a -> j < Nat.min d a ->
           exists ca w, nth_error cs (i + d + j) = Some ca
             /\ computeLineDiff (content cd) (content ca) delete = Ok w
             /\ nth_error R1 j = Some (with_wordDiff cd w))
          /\ (~ (eligible d a /\ j < Nat.min d a) -> nth_error R1 j = Some cd))
    /\ (forall j ca, j < a -> nth_error cs (i + d + j) = Some ca ->
          (eligible d a -> j < Nat.min d a ->
           exists cd w, nth_error cs (i + j) = Some cd
             /\ computeLineDiff (content cd) (content ca) add = Ok w
             /\ nth_error R2 j = Some (with_wordDiff ca w))
          /\ (~ (eligible d a /\ j < Nat.min d a) -> nth_error R2 j = Some ca))).
  { unfold wordDiffs_step.
    replace (i <? length cs)%nat with true by (symmetry; apply Nat.ltb_lt; lia).
    cbn [negb]. unfold get at 1. rewrite Hc. cbn [bind]. rewrite Hdel.
    rewrite Hc1. cbn [bind]. rewrite Hc2. cbn [bind].
    rewrite Ld, La.
    destruct ((0 <? d)%nat && (0 <? a)%nat && (d <=? 5)%nat && (a <=? 5)%nat)
      eqn:Hel.
    - apply eligible_test in Hel.
      rewrite push_run_spec by (rewrite ?Ld, ?La; lia). cbn [bind].
      rewrite push_run_spec by (rewrite ?Ld, ?La; lia). cbn [bind].
      eexists. eexists. split; [reflexivity|].
      rewrite !annot_run_length.
      split; [exact Ld|]. split; [exact La|]. split.
      + intros j cd Hj Hcd. split.
        * intros _ Hjm.
          destruct (Ak j ltac:(lia)) as [ca [Hca _]].
          destruct (annot_at_paired deletes adds delete (Nat.min d a) j cd cd ca Hjm)
            as [w [Hw Hann]];
            [rewrite Nd by lia; assumption|rewrite Na by lia; assumption|].
          exists ca, w. repeat split; auto.
          rewrite (annot_run_nth _ _ _ _ deletes j cd) by (rewrite Nd by lia; auto).
          rewrite Hann. reflexivity.
        * intros Hno.
          rewrite (annot_run_nth _ _ _ _ deletes j cd) by (rewrite Nd by lia; auto).
          rewrite annot_at_unpaired; [reflexivity|].
          destruct (Nat.lt_ge_cases j (Nat.min d a)); [tauto|lia].
      + intros j ca Hj Hca. split.
        * intros _ Hjm.
          destruct (Dk j ltac:(lia)) as [cd [Hcd _]].
          destruct (annot_at_paired deletes adds add (Nat.min d a) j ca cd ca Hjm)
            as [w [Hw Hann]];
            [rewrite Nd by lia; assumption|rewrite Na by lia; assumption|].
          exists cd, w. repeat split; auto.
          rewrite (annot_run_nth _ _ _ _ adds j ca) by (rewrite Na by lia; auto).
          rewrite Hann. reflexivity.
        * intros Hno.
          rewrite (annot_run_nth _ _ _ _ adds j ca) by (rewrite Na by lia; auto).
          rewrite annot_at_unpaired; [reflexivity|].
          destruct (Nat.lt_ge_cases j (Nat.min d a)); [tauto|lia].
    - assert (Hnel : ~ eligible d a).
      { intros H. apply eligible_test in H. congruence. }
      exists deletes, adds. rewrite app_assoc.
      split; [reflexivity|].
      split; [exact Ld|]. split; [exact La|]. split.
      + intros j cd Hj Hcd. split; [tauto|].
        intros _. rewrite Nd by lia. assumption.
      + intros j ca Hj Hca. split; [tauto|].
        intros _. rewrite Na by lia. assumption. }
  destruct Hstep as (R1 & R2 & Hw & L1 & L2 & HR1 & HR2).
  destruct (nth_error_parts out R1 R2) as (Npre & Nmid & Npost).
  rewrite Hlen, ?L1 in *.
  exists ((out ++ R1) ++ R2).
  split; [exact Hd1|]. split; [exact Hb2|]. split; [exact Hall1|].
  split; [exact Hall2|]. split; [exact Hend1|]. split; [exact Hend2|].
  split; [exact Hw|]. split; [rewrite !length_app; lia|].
  split; [exact Npre|]. split; [split|].
  - intros Hel. split; [|split].
    + intros j Hj.
      destruct (Dk j ltac:(lia)) as [cd [Hcd _]].
      destruct (Ak j ltac:(lia)) as [ca [Hca _]].
      destruct (proj1 (HR1 j cd ltac:(lia) Hcd) Hel Hj) as (ca' & wd & E1 & E2 & E3).
      destruct (proj1 (HR2 j ca ltac:(lia) Hca) Hel Hj) as (cd' & wa & E4 & E5 & E6).
      assert (ca' = ca) by congruence. assert (cd' = cd) by congruence.
      subst ca' cd'.
      exists cd, ca, wd, wa. repeat split; auto.
      * rewrite Nmid by lia. exact E3.
      * replace (i + d + j) with (i + d + j) by reflexivity.
        rewrite Npost. exact E6.
    + intros k Hk1 Hk2. unfold unchanged_at.
      replace k with (i + (k - i)) by lia.
      destruct (Dk (k - i) ltac:(lia)) as [cd [Hcd _]].
      rewrite Nmid by lia. rewrite Hcd.
      apply (proj2 (HR1 (k - i) cd ltac:(lia) Hcd)). lia.
    + intros k Hk1 Hk2. unfold unchanged_at.
      replace k with (i + d + (k - (i + d))) by lia.
      destruct (Ak (k - (i + d)) ltac:(lia)) as [ca [Hca _]].
      rewrite Npost. rewrite Hca.
      apply (proj2 (HR2 (k - (i + d)) ca ltac:(lia) Hca)). lia.
  - intros Hnel k Hk1 Hk2. unfold unchanged_at.
    destruct (Nat.lt_ge_cases k (i + d)) as [Hlow|Hhigh].
    + replace k with (i + (k - i)) by lia.
      destruct (Dk (k - i) ltac:(lia)) as [cd [Hcd _]].
      rewrite Nmid by lia. rewrite Hcd.
      apply (proj2 (HR1 (k - i) cd ltac:(lia) Hcd)). tauto.
    + replace k with (i + d + (k - (i + d))) by lia.
      destruct (Ak (k - (i + d)) ltac:(lia)) as [ca [Hca _]].
      rewrite Npost. rewrite Hca.
      apply (proj2 (HR2 (k - (i + d)) ca ltac:(lia) Hca)). tauto.
  - intros k c0 c' Hk Hc0 Hc'.
    assert (Hklt : k < i + d + a).
    { assert (Hl : k < length ((out ++ R1) ++ R2))
        by (apply nth_error_Some; congruence).
      rewrite !length_app in Hl. lia. }
    destruct (Nat.lt_ge_cases k (i + d)) as [Hlow|Hhigh].
    + replace k with (i + (k - i)) in Hc0, Hc' by lia.
      destruct (Dk (k - i) ltac:(lia)) as [cd [Hcd Htd]].
      assert (cd = c0) by congruence. subst cd.
      rewrite Nmid in Hc' by lia.
      destruct (HR1 (k - i) c0 ltac:(lia) Hc0) as [Hp Hu].
      assert (Hdec : (eligible d a /\ k - i < Nat.min d a)
                     \/ ~ (eligible d a /\ k - i < Nat.min d a)).
      { unfold eligible. lia. }
      destruct Hdec as [[Hel Hj]|Hno].
      * destruct (Hp Hel Hj) as (ca & w & E1 & E2 & E3).
        right. left. exists (content ca), w.
        repeat split; auto. congruence.
      * left. rewrite (Hu Hno) in Hc'. congruence.
    + replace k with (i + d + (k - (i + d))) in Hc0, Hc' by lia.
      destruct (Ak (k - (i + d)) ltac:(lia)) as [ca [Hca Hta]].
      assert (ca = c0) by congruence. subst ca.
      rewrite Npost in Hc'.
      destruct (HR2 (k - (i + d)) c0 ltac:(lia) Hc0) as [Hp Hu].
      assert (Hdec : (eligible d a /\ k - (i + d) < Nat.min d a)
                     \/ ~ (eligible d a /\ k - (i + d) < Nat.min d a)).
      { unfold eligible. lia. }
      destruct Hdec as [[Hel Hj]|Hno].
      * destruct (Hp Hel Hj) as (cd & w & E1 & E2 & E3).
        right. right. exists (content cd), w.
        repeat split; auto. congruence.
      * left. rewrite (Hu Hno) in Hc'. congruence.
Qed.

(** [computeHunkWordDiffs] ends, and returns what [wordDiffs_ok] says. *)
Lemma wordDiffs_spec cs :
  exists out, computeHunkWordDiffs cs = Ok out /\ wordDiffs_ok cs out.
Proof.
  unfold computeHunkWordDiffs.
  apply (while_rule (wordDiffs_step cs) (wordDiffs_inv cs) (wordDiffs_ok cs)
           (fun st => length cs - fst st)).
  - intros [i out] (I1 & I1' & I2 & I3 & I4 & I6 & I5).
    destruct (i <? length cs)%nat eqn:Hlt.
    + apply Nat.ltb_lt in Hlt.
      destruct (get_lt cs _ Hlt) as [c [Hg Hc]].
      destruct (type_is delete c) eqn:Hdel.
      * destruct (block_step cs i out c I1 Hc Hdel)
          as (d & a & out' & Hd1 & Hb & Hall1 & Hall2 & Hend1 & Hend2
              & Hstep & Hlen' & Hpre & Hdone & Hann).
        rewrite Hstep.
        assert (Hki : kind_at cs i delete = true).
        { unfold kind_at. rewrite Hc. exact Hdel. }
        assert (B : block cs i d a).
        { unfold block. repeat split; auto.
          destruct I2 as [E|[E|E]]; auto. congruence. }
        split; [|cbn [fst]; lia].
        unfold wordDiffs_inv.
        split; [exact Hlen'|]. split; [exact Hb|].
        split; [|split; [|split; [|split]]].
        -- destruct a as [|a].
           ++ right. right. rewrite Nat.add_0_r. exact Hend1.
           ++ right. left. apply kind_at_add_not_delete. apply Hall2; lia.
        -- intros s' d' a' B'.
           destruct (I3 s' d' a' B') as [Hle|[Hle Hbd]].
           ++ destruct (Nat.eq_dec s' i) as [->|Hne].
              ** destruct (block_same_start cs i d a d' a' B B') as [<- <-].
                 right. split; [lia|exact Hdone].
              ** destruct (Nat.lt_ge_cases s' (i + d + a)) as [Hin|Hout];
                   [|left; exact Hout].
                 exfalso. apply (block_no_overlap cs i d a s' d' a' B B'); lia.
           ++ right. split; [lia|].
              apply (block_done_agree cs out out' i); auto.
        -- intros k Hk Hout. destruct (Nat.lt_ge_cases k i) as [Hlow|Hhigh].
           ++ unfold unchanged_at. rewrite Hpre by exact Hlow.
              apply I4; assumption.
           ++ exfalso. apply (Hout i d a B). lia.
        -- intros k Hk. destruct (Nat.lt_ge_cases k i) as [Hlow|Hhigh].
           ++ apply I6. exact Hlow.
           ++ right. exists i, d, a. split; [exact B|lia].
        -- intros k c0 c' Hc0 Hc'.
           destruct (Nat.lt_ge_cases k i) as [Hlow|Hhigh].
           ++ rewrite Hpre in Hc' by exact Hlow. eapply I5; eauto.
           ++ eapply Hann; eauto.
      * unfold wordDiffs_step.
        replace (i <? length cs)%nat with true
          by (symmetry; apply Nat.ltb_lt; lia).
        cbn [negb]. rewrite Hg. cbn [bind]. rewrite Hdel.
        assert (Hki : kind_at cs i delete = false).
        { unfold kind_at. rewrite Hc. exact Hdel. }
        assert (Hpre : forall k, k < i ->
                  nth_error (out ++ [c]) k = nth_error out k).
        { intros k Hk. apply nth_error_app1. lia. }
        assert (Hat : nth_error (out ++ [c]) i = Some c).
        { rewrite nth_error_app2 by lia. rewrite I1, Nat.sub_diag. reflexivity. }
        split; [|cbn [fst]; lia].
        unfold wordDiffs_inv.
        split; [rewrite length_app; cbn [length]; lia|].
        split; [lia|]. split; [|split; [|split; [|split]]].
        -- right. left. replace (i + 1 - 1) with i by lia. exact Hki.
        -- intros s' d' a' B'.
           destruct (I3 s' d' a' B') as [Hle|[Hle Hbd]].
           ++ left. destruct (Nat.eq_dec s' i) as [->|Hne]; [|lia].
              destruct B' as (K1 & K2 & _).
              rewrite (K2 i) in Hki by lia. discriminate.
           ++ right. split; [lia|].
              apply (block_done_agree cs out (out ++ [c]) i); auto.
        -- intros k Hk Hout. destruct (Nat.eq_dec k i) as [->|Hne].
           ++ unfold unchanged_at. rewrite Hat, Hc. reflexivity.
           ++ unfold unchanged_at. rewrite Hpre by lia. apply I4; [lia|assumption].
        -- intros k Hk. destruct (Nat.eq_dec k i) as [->|Hne]; [|apply I6; lia].
           left. intros s' d' a' B' [K1 K2].
           destruct (I3 s' d' a' B') as [Hle|[Hle _]]; [|lia].
           assert (s' = i) by lia. subst s'.
           destruct B' as (D1 & K3 & _).
           rewrite (K3 i) in Hki by lia. discriminate.
        -- intros k c0 c' Hc0 Hc'.
           destruct (Nat.lt_ge_cases k i) as [Hlow|Hhigh].
           ++ rewrite Hpre in Hc' by exact Hlow. eapply I5; eauto.
           ++ destruct (Nat.eq_dec k i) as [->|Hne].
              ** left. congruence.
              ** assert (Hl : k < length (out ++ [c]))
                   by (apply nth_error_Some; congruence).
                 rewrite length_app in Hl. cbn [length] in Hl. lia.
    + apply Nat.ltb_ge in Hlt.
      unfold wordDiffs_step.
      replace (i <? length cs)%nat with false
        by (symmetry; apply Nat.ltb_ge; lia).
      cbn [negb].
      assert (Ei : i = length cs) by lia.
      unfold wordDiffs_ok.
      split; [lia|]. split; [|split; [|split]].
      * intros s d a B. destruct (I3 s d a B) as [Hle|[_ Hbd]]; [|exact Hbd].
        exfalso. destruct B as (K1 & K2 & _).
        destruct (kind_at_Some cs s delete (K2 s ltac:(lia) ltac:(lia)))
          as [c0 [Hc0 _]].
        assert (s < length cs) by (apply nth_error_Some; congruence). lia.
      * intros k Hout. destruct (Nat.lt_ge_cases k i) as [Hlow|Hhigh].
        -- apply I4; assumption.
        -- unfold unchanged_at.
           rewrite (proj2 (nth_error_None out k)) by lia.
           rewrite (proj2 (nth_error_None cs k)) by lia. reflexivity.
      * intros k Hk. apply I6. lia.
      * exact I5.
  - unfold wordDiffs_inv. cbn [length].
    split; [reflexivity|]. split; [lia|]. split; [left; reflexivity|].
    split; [intros; left; lia|]. split; [intros; lia|].
    split; [intros; lia|].
    intros k c c' _ H. destruct k; discriminate H.
  - cbn [fst]. lia.
Qed.

(** ** Word diffs of hunks and files *)

Lemma mapM_spec {A B} (f : A -> result B) (P : A -> B -> Prop) l :
  (forall x, exists y, f x = Ok y /\ P x y) ->
  exists ys, mapM f l = Ok ys /\ Forall2 P l ys.
Proof.
  intros Hf. induction l as [|x l [ys [IH1 IH2]]]; cbn [mapM].
  - exists []. split; [reflexivity|constructor].
  - destruct (Hf x) as [y [Hy HP]]. rewrite Hy, IH1. cbn [bind].
    exists (y :: ys). split; [reflexivity|constructor; assumption].
Qed.

(** [computeWordDiffs] runs [computeHunkWordDiffs] on the changes of every
    hunk of every file and leaves the rest as it is. *)
Lemma computeWordDiffs_spec files :
  exists files', computeWordDiffs files = Ok files'
                 /\ Forall2 file_annotated files files'.
Proof.
  unfold computeWordDiffs. apply mapM_spec. intros f.
  destruct (mapM_spec
              (fun hunk =>
                 cs <- computeHunkWordDiffs (changes hunk) ;;
                 Ok {| header := header hunk; oldStart := oldStart hunk;
                       oldLines := oldLines hunk; newStart := newStart hunk;
                       newLines := newLines hunk; changes := cs;
                       hunkExpanded := hunkExpanded hunk |})
              hunk_annotated (hunks f)) as [hs [Hhs Hall]].
  - intros h. destruct (wordDiffs_spec (changes h)) as [out [Hout _]].
    rewrite Hout. cbn [bind]. eexists. split; [reflexivity|].
    unfold hunk_annotated. cbn. repeat split; auto.
  - rewrite Hhs. cbn [bind]. eexists. split; [reflexivity|].
    unfold file_annotated. cbn. repeat split; auto.
Qed.

Lemma annotation_same_line c c' : annotation_of c c' -> same_line c c'.
Proof.
  unfold same_line.
  intros [->|[(other & w & _ & _ & ->)|(other & w & _ & _ & ->)]];
    cbn; repeat split; reflexivity.
Qed.

Lemma annotated_pair_marked cs out s d j :
  annotated_pair cs out s d j -> pair_marked cs out s d j.
Proof.
  intros (cd & ca & wd & wa & Hcd & Hca & Hwd & Hwa & Hod & Hoa).
  exists cd, ca, (with_wordDiff cd wd), (with_wordDiff ca wa), wd, wa.
  unfold same_line. cbn [with_wordDiff wordDiff type content oldLineNumber
                         newLineNumber].
  repeat (split; [assumption || reflexivity|]). repeat split; reflexivity.
Qed.

(** C5. [computeWordDiffs] maps [computeHunkWordDiffs] over the hunks and
    leaves everything else.  In the Changes of a hunk, every replacement
    block (a maximal run of deletes with the maximal run of adds right after
    it) that is eligible (both runs non-empty, neither longer than 5) has its
    first [min d a] deletes and first [min d a] adds annotated with the word
    diff of their pair: the Change that comes out has that word diff as its
    [wordDiff], and the kind, content and numbers of the Change that went
    in.  Its other entries, the blocks that are not eligible (6 deletes and
    1 add, for one) and the Changes outside the blocks come out as they went
    in.  Kind, content, line numbers, order and count of the Changes are
    never altered. *)
Theorem word_diff_blocks :
  (forall files, exists files',
      computeWordDiffs files = Ok files' /\ Forall2 file_annotated files files')
  /\ (forall cs, exists out,
        computeHunkWordDiffs cs = Ok out
        /\ length out = length cs
        /\ (forall k c c', nth_error cs k = Some c -> nth_error out k = Some c' ->
                           same_line c c')
        /\ (forall s d a j, block cs s d a -> eligible d a -> j < Nat.min d a ->
                            pair_marked cs out s d j)
        /\ (forall s d a, block cs s d a -> block_done cs out s d a)
        /\ (forall k, outside_blocks cs k -> unchanged_at cs out k)
        /\ (forall k, k < length cs -> outside_blocks cs k \/ inside_block cs k))
  /\ computeHunkWordDiffs six_deletes_one_add = Ok six_deletes_one_add.
Proof.
  split; [exact computeWordDiffs_spec|]. split; [|reflexivity].
  intros cs. destruct (wordDiffs_spec cs) as (out & Hout & H1 & H2 & H3 & H4 & H5).
  exists out. split; [exact Hout|]. split; [exact H1|].
  split; [|split; [|split; [exact H2|split; [exact H3|exact H4]]]].
  - intros k c c' Hc Hc'. apply annotation_same_line. eapply H5; eauto.
  - intros s d a j Hb He Hj. apply annotated_pair_marked.
    destruct (H2 s d a Hb) as [Hdone _]. apply (Hdone He). exact Hj.
Qed.

Lemma word_diff_blocks_witness :
  exists out cd' ca',
    computeHunkWordDiffs two_deletes_one_add = Ok out
    /\ nth_error out 1 = Some cd'
    /\ nth_error out 3 = Some ca'
    /\ wordDiff cd' =
       Some [{| wtype := normal; value := "const" |};
             {| wtype := normal; value := " " |};
             {| wtype := normal; value := "x" |};
             {| wtype := normal; value := " = " |};
             {| wtype := delete; value := "1" |};
             {| wtype := normal; value := ";" |}]
    /\ wordDiff ca' =
       Some [{| wtype := normal; value := "const" |};
             {| wtype := normal; value := " " |};
             {| wtype := normal; value := "x" |};
             {| wtype := normal; value := " = " |};
             {| wtype := add; value := "2" |};
             {| wtype := normal; value := ";" |}]
    /\ same_line (mkChange (Some delete) "const x = 1;" (Some 2%N) None) cd'
    /\ same_line (mkChange (Some add) "const x = 2;" None (Some 2%N)) ca'
    /\ nth_error out 2 = Some (mkChange (Some delete) "gone" (Some 3%N) None)
    /\ block_done two_deletes_one_add out 1 2 1.
Proof.
  destruct (proj1 (proj2 word_diff_blocks) two_deletes_one_add)
    as (out & Hout & _ & _ & Hm & Hb & _).
  assert (Hblock : block two_deletes_one_add 1 2 1).
  { unfold block. split; [lia|].
    split.
    { intros k H1 H2. assert (H : k = 1 \/ k = 2) by lia.
      destruct H as [-> | ->]; reflexivity. }
    split.
    { intros k H1 H2. assert (H : k = 3) by lia. subst k. reflexivity. }
    split; [right; reflexivity|]. split; reflexivity. }
  assert (Helig : eligible 2 1) by (unfold eligible; lia).
  destruct (Hm 1 2 1 0 Hblock Helig ltac:(cbn; lia))
    as (cd & ca & cd' & ca' & wd & wa & Hcd & Hca & Hcd' & Hca' & Hwd & Hwa
        & Hd' & Ha' & Hsd & Hsa).
  cbn in Hcd, Hca. injection Hcd as <-. injection Hca as <-.
  vm_compute in Hwd, Hwa. injection Hwd as <-. injection Hwa as <-.
  exists out, cd', ca'.
  split; [exact Hout|]. split; [exact Hcd'|]. split; [exact Hca'|].
  split; [exact Hd'|]. split; [exact Ha'|].
  split; [exact Hsd|]. split; [exact Hsa|].
  split; [|exact (Hb 1 2 1 Hblock)].
  destruct (Hb 1 2 1 Hblock) as [Hdone _].
  destruct (Hdone Helig) as (_ & Hrest & _).
  apply (Hrest 2); cbn; lia.
Defined.

(** C10. On every Change that [computeHunkWordDiffs] gives a [wordDiff],
    the values of the word tokens, written one after the other, are the
    content of the Change: on a delete its delete and normal tokens spell the
    old line, on an add its add and normal tokens spell the new line. *)
Theorem word_diff_spells_line cs :
  exists out,
    computeHunkWordDiffs cs = Ok out
    /\ forall k c c' ws,
         nth_error cs k = Some c -> nth_error out k = Some c' ->
         wordDiff c = None -> wordDiff c' = Some ws ->
         concat_all (map value ws) = content c'
         /\ ((type c' = Some delete
              /\ Forall (fun w => wtype w = delete \/ wtype w = normal) ws)
             \/ (type c' = Some add
                 /\ Forall (fun w => wtype w = add \/ wtype w = normal) ws)).
Proof.
  destruct (wordDiffs_spec cs) as (out & Hout & _ & _ & _ & _ & Hann).
  exists out. split; [exact Hout|].
  intros k c c' ws Hc Hc' Hnone Hsome.
  destruct (Hann k c c' Hc Hc')
    as [->|[(other & w & Ht & Hw & ->)|(other & w & Ht & Hw & ->)]].
  - congruence.
  - cbn in Hsome. injection Hsome as ->. cbn [content type with_wordDiff].
    destruct (computeLineDiff_spec (content c) other delete) as [r [Hr [Hok _]]].
    assert (r = ws) by congruence. subst r.
    destruct (Hok eq_refl) as [Hv Hk].
    split; [rewrite Hv; apply tokenize_concat|].
    left. split; [exact Ht|].
    eapply Forall_impl; [|exact Hk].
    intros x Hx. cbn beta in Hx. destruct (wtype x); auto. congruence.
  - cbn in Hsome. injection Hsome as ->. cbn [content type with_wordDiff].
    destruct (computeLineDiff_spec other (content c) add) as [r [Hr [_ Hok]]].
    assert (r = ws) by congruence. subst r.
    destruct (Hok eq_refl) as [Hv Hk].
    split; [rewrite Hv; apply tokenize_concat|].
    right. split; [exact Ht|].
    eapply Forall_impl; [|exact Hk].
    intros x Hx. cbn beta in Hx. destruct (wtype x); auto. congruence.
Qed.

Lemma word_diff_spells_line_witness :
  exists out c' ws,
    computeHunkWordDiffs two_deletes_one_add = Ok out
    /\ nth_error out 1 = Some c'
    /\ wordDiff c' = Some ws
    /\ concat_all (map value ws) = content c'
    /\ ((type c' = Some delete
         /\ Forall (fun w => wtype w = delete \/ wtype w = normal) ws)
        \/ (type c' = Some add
            /\ Forall (fun w => wtype w = add \/ wtype w = normal) ws)).
Proof.
  destruct (word_diff_spells_line two_deletes_one_add) as (out & Hout & H).
  eassert (E : computeHunkWordDiffs two_deletes_one_add = Ok _)
    by (vm_compute; reflexivity).
  rewrite E in Hout. injection Hout as <-.
  eexists. eexists. eexists.
  split; [exact E|]. split; [reflexivity|]. split; [reflexivity|].
  eapply (H 1); reflexivity.
Defined.

(** * Further properties of the code *)

(** ** Lines and Changes of a hunk *)

Lemma parseHunk_line_push line s :
  (is_backslash_line line = true
   /\ h_changes (parseHunk_line line s) = h_changes s)
  \/ (is_backslash_line line = false
      /\ exists c, h_changes (parseHunk_line line s) = h_changes s ++ [c]
                   /\ change_of_line line c).
Proof.
  pose proof (not_backslash_line line) as Hnb.
  pose proof (proj2 (is_backslash_line_charAt0 line)) as Hbs.
  unfold parseHunk_line, change_of_line, kind_of_line.
  destruct (charAt0 line) as [c|] eqn:Hc.
  - destruct (c =? "+")%char eqn:E1.
    { right. split; [apply Hnb; apply Ascii.eqb_eq in E1; subst c; discriminate|].
      eexists. split; [reflexivity|]. cbn. auto. }
    destruct (c =? "-")%char eqn:E2.
    { right. split; [apply Hnb; apply Ascii.eqb_eq in E2; subst c; discriminate|].
      eexists. split; [reflexivity|]. cbn. auto. }
    destruct (c =? " ")%char eqn:E3.
    { right. split; [apply Hnb; apply Ascii.eqb_eq in E3; subst c; discriminate|].
      eexists. split; [reflexivity|]. cbn. auto. }
    destruct (c =? "\")%char eqn:E4.
    { left. apply Ascii.eqb_eq in E4. subst c. split; [auto|reflexivity]. }
    right. split.
    { apply Hnb. intros H. injection H as ->.
      rewrite Ascii.eqb_refl in E4. discriminate. }
    destruct (line =? "")%string eqn:El.
    + apply String.eqb_eq in El. subst line. discriminate Hc.
    + eexists. split; [reflexivity|]. cbn. auto.
  - right. split; [apply Hnb; discriminate|].
    destruct line as [|x l]; [|discriminate Hc].
    cbn [String.eqb]. eexists. split; [reflexivity|]. cbn. auto.
Qed.

Lemma hunk_lines_inv_line lines j s line :
  hunk_lines_inv lines j s ->
  nth_error lines (h_i s) = Some line ->
  hunk_stops lines (h_i s) line = false ->
  hunk_lines_inv lines j (parseHunk_line line s).
Proof.
  intros (H1 & H2 & H3 & H4) Hl Hns.
  assert (Hlt : h_i s < length lines) by (apply nth_error_Some; congruence).
  unfold hunk_lines_inv. rewrite parseHunk_line_index.
  rewrite (slice_S lines _ _ _ H1 Hl).
  split; [lia|]. split; [lia|]. split.
  - apply Forall_app. split; [exact H3|].
    constructor; [|constructor].
    unfold hunk_stops in Hns. unfold is_hunk_boundary.
    apply orb_false_elim in Hns. tauto.
  - unfold change_lines in *. rewrite filter_app. cbn [filter].
    destruct (parseHunk_line_push line s) as [[Hb ->]|[Hb [c [-> Hc]]]];
      rewrite Hb; cbn [negb].
    + rewrite app_nil_r. exact H4.
    + apply Forall2_app; [exact H4|]. constructor; [exact Hc|constructor].
Qed.

(** What [parseHunk] returns, read against the lines. *)
Lemma parseHunk_lines lines j e h next :
  parseHunk lines j e = Ok (Some (h, next)) ->
  nth_error lines j = Some (header h)
  /\ hunkExpanded h = e
  /\ j < next /\ next <= length lines
  /\ Forall (fun l => is_hunk_boundary l = false) (slice lines (j + 1) next)
  /\ hunk_stopped lines next
  /\ Forall2 change_of_line (change_lines (slice lines (j + 1) next))
       (changes h).
Proof.
  intros Hp.
  pose proof (parseHunk_header_line _ _ _ _ _ Hp) as Hnth.
  assert (Hj : j < length lines) by (apply nth_error_Some; congruence).
  destruct (parseHunk_rule lines j e (hunk_lines_inv lines j) (header h) Hnth)
    as [[Hr _]|[m [s [_ [Hr [Hs [Hst Hle]]]]]]].
  - intros m _. unfold hunk_lines_inv. cbn [h_i h_changes].
    rewrite slice_same. cbn.
    split; [lia|]. split; [lia|]. split; constructor.
  - intros s line Hs Hl Hns. apply hunk_lines_inv_line; assumption.
  - congruence.
  - rewrite Hr in Hp. injection Hp as Eh En.
    destruct Hs as (H1 & H2 & H3 & H4).
    rewrite <- En, <- Eh. cbn [hunkExpanded changes].
    split; [exact Hnth|]. split; [reflexivity|].
    split; [lia|]. split; [exact H2|]. split; [exact H3|].
    split; [exact Hst|exact H4].
Qed.

(** X1. The Changes of a hunk are, in order, those of the lines read after
    its header that do not start with a backslash: each keeps the text after
    the first character of its line and takes its kind from that character
    ([+] add, [-] delete, space normal); an empty line gives a normal Change
    with empty content, and a line that starts with anything else gives a
    Change without kind, after which the hunk goes on. *)
Theorem hunk_changes_follow_lines lines j e h next :
  parseHunk lines j e = Ok (Some (h, next)) ->
  Forall2 change_of_line (change_lines (slice lines (j + 1) next)) (changes h).
Proof. intros Hp. apply (parseHunk_lines _ _ _ _ _ Hp). Qed.

Lemma hunk_changes_follow_lines_witness :
  exists h next,
    parseHunk ["@@ -1,3 +1,3 @@"; " keep"; "-old"; "\ No newline"; "";
               "oops"; "+new"; "@@ -9 +9 @@"] 0 true = Ok (Some (h, next))
    /\ Forall2 change_of_line [" keep"; "-old"; ""; "oops"; "+new"] (changes h).
Proof.
  eexists. eexists. split; [vm_compute; reflexivity|].
  apply (hunk_changes_follow_lines
           ["@@ -1,3 +1,3 @@"; " keep"; "-old"; "\ No newline"; "";
            "oops"; "+new"; "@@ -9 +9 @@"] 0 true _ 7).
  vm_compute. reflexivity.
Defined.

(** X2. A hunk takes its header line and at least that line, never reads
    past the end of the input, and reads no line that starts a hunk or a
    file: it ends at the end of the input, at such a line, which is left for
    the caller, or at an empty last line. *)
Theorem hunk_extent lines j e h next :
  parseHunk lines j e = Ok (Some (h, next)) ->
  nth_error lines j = Some (header h)
  /\ j < next /\ next <= length lines
  /\ Forall (fun l => is_hunk_boundary l = false) (slice lines (j + 1) next)
  /\ hunk_stopped lines next.
Proof.
  intros Hp.
  destruct (parseHunk_lines _ _ _ _ _ Hp) as (H1 & _ & H2 & H3 & H4 & H5 & _).
  auto.
Qed.

Lemma hunk_extent_witness :
  exists h,
    nth_error ["@@ -1 +1 @@"; "-a"; "+b"; "@@ -5 +5 @@"; "+c"] 0 = Some (header h)
    /\ 0 < 3 /\ 3 <= 5
    /\ Forall (fun l => is_hunk_boundary l = false)
         (slice ["@@ -1 +1 @@"; "-a"; "+b"; "@@ -5 +5 @@"; "+c"] (0 + 1) 3)
    /\ hunk_stopped ["@@ -1 +1 @@"; "-a"; "+b"; "@@ -5 +5 @@"; "+c"] 3.
Proof.
  eexists.
  eapply (hunk_extent ["@@ -1 +1 @@"; "-a"; "+b"; "@@ -5 +5 @@"; "+c"] 0 true).
  vm_compute. reflexivity.
Defined.

(** ** Counting lines and Changes *)

Lemma kind_lines_app t xs ys :
  kind_lines t (xs ++ ys) = kind_lines t xs + kind_lines t ys.
Proof. unfold kind_lines. rewrite filter_app, length_app. reflexivity. Qed.

Lemma kind_hunks_snoc t hs h :
  kind_hunks t (hs ++ [h]) = kind_hunks t hs + kind_changes t (changes h).
Proof.
  unfold kind_hunks. rewrite map_app, list_sum_app. simpl. lia.
Qed.

Lemma kind_files_snoc t fs f :
  kind_files t (fs ++ [f]) = kind_files t fs + kind_hunks t (hunks f).
Proof.
  unfold kind_files. rewrite map_app, list_sum_app. simpl. lia.
Qed.

(** A Change is an add or a delete exactly when its line starts with the
    marker. *)
Lemma change_of_line_kind t line c :
  t <> normal -> change_of_line line c ->
  type_is t c = starts_with_char (marker_of t) line.
Proof.
  intros Ht (_ & Hty & _). unfold type_is, starts_with_char. rewrite Hty.
  unfold kind_of_line. destruct (charAt0 line) as [x|].
  - destruct (x =? "+")%char eqn:E1.
    { apply Ascii.eqb_eq in E1. subst x. destruct t; reflexivity || congruence. }
    destruct (x =? "-")%char eqn:E2.
    { apply Ascii.eqb_eq in E2. subst x. destruct t; reflexivity || congruence. }
    destruct (x =? " ")%char eqn:E3.
    { apply Ascii.eqb_eq in E3. subst x. destruct t; reflexivity || congruence. }
    destruct t; cbn [marker_of]; try congruence; symmetry; assumption.
  - destruct t; reflexivity || congruence.
Qed.

Lemma kind_lines_change_lines t ls :
  t <> normal -> kind_lines t (change_lines ls) = kind_lines t ls.
Proof.
  intros Ht. unfold kind_lines, change_lines.
  induction ls as [|l ls IH]; [reflexivity|]. cbn [filter].
  destruct (is_backslash_line l) eqn:Hb; cbn [negb filter].
  - apply is_backslash_line_charAt0 in Hb.
    unfold starts_with_char at 2. rewrite Hb.
    destruct t; cbn [marker_of]; try congruence; exact IH.
  - destruct (starts_with_char (marker_of t) l); cbn [length]; rewrite IH;
      reflexivity.
Qed.

Lemma kind_changes_lines t ls cs :
  t <> normal -> Forall2 change_of_line ls cs ->
  kind_changes t cs = kind_lines t ls.
Proof.
  intros Ht. unfold kind_changes, kind_lines.
  induction 1 as [|l c ls cs Hc _ IH]; [reflexivity|]. cbn [filter].
  rewrite (change_of_line_kind t l c Ht Hc).
  destruct (starts_with_char (marker_of t) l); cbn [length]; rewrite IH;
    reflexivity.
Qed.

(** The add and delete Changes of a hunk are as many as the lines read that
    start with [+] and with [-]. *)
Lemma parseHunk_kind_count lines j e h next t :
  parseHunk lines j e = Ok (Some (h, next)) -> t <> normal ->
  kind_changes t (changes h) = kind_lines t (slice lines (j + 1) next).
Proof.
  intros Hp Ht.
  destruct (parseHunk_lines _ _ _ _ _ Hp) as (_ & _ & _ & _ & _ & _ & H).
  rewrite (kind_changes_lines t _ _ Ht H).
  apply kind_lines_change_lines. exact Ht.
Qed.

(** ** The lines of a file section *)

Lemma parseHunk_None_header lines j e line :
  nth_error lines j = Some line ->
  parseHunk lines j e = Ok None -> match_hunk_header line = None.
Proof.
  intros Hnth Hp.
  destruct (parseHunk_rule lines j e (fun _ => True) line Hnth)
    as [[_ Hm]|[m [s [_ [Hr _]]]]]; auto.
  rewrite Hr in Hp. discriminate.
Qed.

Lemma parseHunk_Some_header lines j e h next :
  parseHunk lines j e = Ok (Some (h, next)) -> is_hunk_header (header h) = true.
Proof.
  intros Hp.
  pose proof (parseHunk_header_line _ _ _ _ _ Hp) as Hnth.
  destruct (parseHunk_rule lines j e (fun _ => True) (header h) Hnth)
    as [[Hr _]|[m [s [Hm _]]]]; auto.
  - rewrite Hr in Hp. discriminate.
  - unfold is_hunk_header. rewrite Hm. reflexivity.
Qed.

Lemma not_starts_hunk_not_header line :
  startsWith line "@@" = false -> is_hunk_header line = false.
Proof.
  intros H. unfold is_hunk_header.
  destruct (match_hunk_header line) eqn:E; [|reflexivity].
  rewrite hunk_header_starts in H; congruence.
Qed.

Lemma no_boundary_no_header ls :
  Forall (fun l => is_hunk_boundary l = false) ls ->
  filter is_hunk_header ls = []
  /\ Forall (fun l => starts_file l = false) ls.
Proof.
  induction 1 as [|l ls Hl _ [IH1 IH2]]; [split; constructor|].
  unfold is_hunk_boundary in Hl. apply orb_false_elim in Hl.
  destruct Hl as [Ha Hd].
  cbn [filter]. rewrite (not_starts_hunk_not_header _ Ha).
  split; [exact IH1|]. constructor; assumption.
Qed.

(** The metadata loop stays inside the input and reads no line that starts
    a hunk or a file. *)
Lemma metadata_loop_section lines i0 st0 fuel :
  i0 <= length lines -> length lines - i0 < fuel ->
  exists i st, while (metadata_step lines) fuel (i0, st0) = Ok (i, st)
               /\ i0 <= i /\ i <= length lines
               /\ Forall (fun l => is_hunk_boundary l = false)
                    (slice lines i0 i).
Proof.
  intros Hi0 Hfuel.
  set (Inv := fun s : nat * FileStatus =>
                i0 <= fst s /\ fst s <= length lines
                /\ Forall (fun l => is_hunk_boundary l = false)
                     (slice lines i0 (fst s))).
  destruct (while_rule (metadata_step lines) Inv Inv
              (fun s => length lines - fst s)) with (fuel := fuel) (s := (i0, st0))
    as [[i st] [Hw Hp]]; auto.
  - intros [i st] (H1 & H2 & H3). cbn [fst] in *.
    destruct (nth_error lines i) as [line|] eqn:Hnth.
    + rewrite (metadata_step_line _ _ st _ Hnth).
      assert (Hlt : i < length lines) by (apply nth_error_Some; congruence).
      assert (Hnext : startsWith line "diff --git" = false ->
                      startsWith line "@@" = false ->
                      forall st', Inv (i + 1, st')).
      { intros Hd Ha st'. unfold Inv. cbn [fst].
        split; [lia|]. split; [lia|].
        rewrite (slice_S lines _ _ _ H1 Hnth). apply Forall_app.
        split; [exact H3|]. constructor; [|constructor].
        unfold is_hunk_boundary. rewrite Hd, Ha. reflexivity. }
      destruct (startsWith line "diff --git") eqn:Hd;
        [unfold Inv; cbn [fst]; auto|].
      destruct (startsWith line "@@") eqn:Ha;
        [unfold Inv; cbn [fst]; auto|].
      destruct (startsWith line "Binary files").
      * apply Hnext; reflexivity.
      * split; [apply Hnext; reflexivity|cbn [fst]; lia].
    + rewrite (metadata_step_end _ _ st Hnth). unfold Inv. cbn [fst]. auto.
  - unfold Inv. cbn [fst]. rewrite slice_same. auto.
  - exists i, st. destruct Hp as (H1 & H2 & H3). cbn [fst] in *. auto.
Qed.

Lemma file_lines_inv_step lines i e j hs line :
  i + 1 <= j ->
  file_lines_inv lines i e (j, hs) -> nth_error lines j = Some line ->
  startsWith line "diff --git" = false ->
  (startsWith line "@@" = false -> file_lines_inv lines i e (j + 1, hs))
  /\ (startsWith line "@@" = true ->
      parseHunk lines j e = Ok None -> file_lines_inv lines i e (j + 1, hs))
  /\ (startsWith line "@@" = true -> forall h next,
      parseHunk lines j e = Ok (Some (h, next)) -> j < next ->
      file_lines_inv lines i e (next, hs ++ [h])).
Proof.
  intros Hij (H1 & H2 & H3 & H4 & H5) Hnth Hd. cbn [fst snd] in *.
  assert (Hlt : j < length lines) by (apply nth_error_Some; congruence).
  assert (Hskip : is_hunk_header line = false ->
                  file_lines_inv lines i e (j + 1, hs)).
  { intros Hh. unfold file_lines_inv. cbn [fst snd].
    rewrite (slice_S lines _ _ _ Hij Hnth).
    split; [lia|]. split; [|split; [|split; [exact H4|]]].
    - apply Forall_app. split; [exact H2|]. constructor; [exact Hd|constructor].
    - rewrite filter_app. cbn [filter]. rewrite Hh, app_nil_r. exact H3.
    - intros t Ht. rewrite kind_lines_app. specialize (H5 t Ht). lia. }
  split; [|split].
  - intros Ha. apply Hskip. apply not_starts_hunk_not_header. exact Ha.
  - intros _ Hp. apply Hskip. unfold is_hunk_header.
    rewrite (parseHunk_None_header _ _ _ _ Hnth Hp). reflexivity.
  - intros _ h next Hp Hjn.
    pose proof (parseHunk_Some_header _ _ _ _ _ Hp) as Hh.
    destruct (parseHunk_lines _ _ _ _ _ Hp)
      as (K1 & K2 & K3 & K4 & K5 & _ & _).
    assert (line = header h) by congruence. subst line.
    destruct (no_boundary_no_header _ K5) as [N1 N2].
    unfold file_lines_inv. cbn [fst snd].
    rewrite <- (slice_app lines (i + 1) (j + 1) next) by lia.
    rewrite (slice_S lines _ _ _ Hij Hnth).
    split; [exact K4|]. split; [|split; [|split]].
    + apply Forall_app. split; [|exact N2].
      apply Forall_app. split; [exact H2|]. constructor; [exact Hd|constructor].
    + rewrite !filter_app, N1, app_nil_r. cbn [filter]. rewrite Hh.
      rewrite map_app, H3. reflexivity.
    + apply Forall_app. split; [exact H4|]. constructor; [exact K2|constructor].
    + intros t Ht. rewrite kind_hunks_snoc, !kind_lines_app.
      rewrite (parseHunk_kind_count _ _ _ _ _ t Hp Ht).
      specialize (H5 t Ht). lia.
Qed.

(** What [parseFile] returns, read against the lines. *)
Lemma parseFile_lines lines i e f next :
  parseFile lines i e = Ok (Some (f, next)) ->
  (exists gitLine, nth_error lines i = Some gitLine
                   /\ match_git_line gitLine = Some (paths_of f))
  /\ i < next /\ file_lines_inv lines i e (next, hunks f)
  /\ file_stopped lines next /\ isExpanded f = e.
Proof.
  intros Hf.
  destruct (nth_error lines i) as [gitLine|] eqn:Hnth;
    [|unfold parseFile, get in Hf; rewrite Hnth in Hf; discriminate].
  assert (Hlt : i < length lines) by (apply nth_error_Some; congruence).
  unfold parseFile, get in Hf. rewrite Hnth in Hf. cbn [bind] in Hf.
  destruct (match_git_line gitLine) as [[o n]|] eqn:Hm; [|discriminate].
  destruct (metadata_loop_section lines (i + 1) modified (S (length lines)))
    as [i1 [st [Hw1 [Hle1 [Hle1' Hmeta]]]]]; [lia|lia|].
  destruct (no_boundary_no_header _ Hmeta) as [N1 N2].
  destruct (hunks_loop_rule lines e
              (fun s => i + 1 <= fst s /\ file_lines_inv lines i e s) (i1, []))
    with (fuel := S (length lines))
    as [[i2 hs] [Hw2 [[Hp0 Hp] [Hs Hle2]]]].
  - cbn [fst]. split; [exact Hle1|]. unfold file_lines_inv. cbn [fst snd].
    rewrite N1. split; [exact Hle1'|]. split; [exact N2|].
    split; [reflexivity|]. split; [constructor|].
    intros t _. cbn. lia.
  - intros j hs line [Hj Hinv] Hl Hd. cbn [fst] in Hj.
    destruct (file_lines_inv_step lines i e j hs line Hj Hinv Hl Hd)
      as (S1 & S2 & S3).
    split; [|split].
    + intros Ha. cbn [fst]. split; [lia|auto].
    + intros Ha Hp. cbn [fst]. split; [lia|auto].
    + intros Ha h nx Hp Hjn. cbn [fst]. split; [lia|eauto].
  - cbn [fst]. lia.
  - rewrite Hw1 in Hf. cbn [bind] in Hf. rewrite Hw2 in Hf. cbn [bind] in Hf.
    injection Hf as <- <-. cbn [fst snd hunks isExpanded] in *.
    split; [exists gitLine; split; [reflexivity|exact Hm]|].
    split; [lia|]. split; [exact Hp|]. split; [exact Hs|reflexivity].
Qed.

(** X3. The section of a file runs from its [diff --git] line, which gives
    the two paths, up to the next line that starts with [diff --git] or the
    end of the input: [parseFile] returns the index of that line and reads
    no such line before it, so the section is never empty and no later file
    is swallowed. *)
Theorem file_section_extent lines i e f next :
  parseFile lines i e = Ok (Some (f, next)) ->
  (exists gitLine, nth_error lines i = Some gitLine
                   /\ match_git_line gitLine = Some (oldPath f, newPath f))
  /\ i < next /\ next <= length lines
  /\ Forall (fun l => starts_file l = false) (slice lines (i + 1) next)
  /\ file_stopped lines next.
Proof.
  intros Hf.
  destruct (parseFile_lines _ _ _ _ _ Hf) as (H1 & H2 & (H3 & H4 & _) & H5 & _).
  cbn [fst] in *. auto.
Qed.

Lemma file_section_extent_witness :
  exists f,
    (exists gitLine,
        nth_error ["diff --git a/x b/y"; "index 1..2"; "@@ -1 +1 @@"; "-a";
                   "+b"; "diff --git a/u b/v"; "Binary files differ"] 0
        = Some gitLine
        /\ match_git_line gitLine = Some (oldPath f, newPath f))
    /\ 0 < 5 /\ 5 <= 7
    /\ Forall (fun l => starts_file l = false)
         (slice ["diff --git a/x b/y"; "index 1..2"; "@@ -1 +1 @@"; "-a";
                 "+b"; "diff --git a/u b/v"; "Binary files differ"] (0 + 1) 5)
    /\ file_stopped ["diff --git a/x b/y"; "index 1..2"; "@@ -1 +1 @@"; "-a";
                     "+b"; "diff --git a/u b/v"; "Binary files differ"] 5.
Proof.
  eexists.
  eapply (file_section_extent
            ["diff --git a/x b/y"; "index 1..2"; "@@ -1 +1 @@"; "-a";
             "+b"; "diff --git a/u b/v"; "Binary files differ"] 0 true).
  vm_compute. reflexivity.
Defined.

(** X4. The hunks of a file are, in order, exactly the lines of its section
    that match the pattern of a hunk header, each kept as the header of its
    hunk: no such line is read as metadata or as the body of the hunk before
    it, and a line that starts with [@@] without matching gives no hunk. *)
Theorem file_hunk_headers lines i e f next :
  parseFile lines i e = Ok (Some (f, next)) ->
  map header (hunks f) = filter is_hunk_header (slice lines (i + 1) next).
Proof.
  intros Hf.
  destruct (parseFile_lines _ _ _ _ _ Hf) as (_ & _ & (_ & _ & H & _) & _).
  exact H.
Qed.

Lemma file_hunk_headers_witness :
  exists f,
    parseFile ["diff --git a/x b/x"; "--- a/x"; "+++ b/x"; "@@ -1 +1 @@ f";
               "-a"; "+b"; "@@ nonsense"; "@@ -7,2 +7 @@"; "-c"; " d"] 0 false
    = Ok (Some (f, 10))
    /\ map header (hunks f) = ["@@ -1 +1 @@ f"; "@@ -7,2 +7 @@"].
Proof.
  eexists. split; [vm_compute; reflexivity|].
  apply (file_hunk_headers
           ["diff --git a/x b/x"; "--- a/x"; "+++ b/x"; "@@ -1 +1 @@ f";
            "-a"; "+b"; "@@ nonsense"; "@@ -7,2 +7 @@"; "-c"; " d"] 0 false _ 10).
  vm_compute. reflexivity.
Defined.

(** ** The lines of a diff *)

(** The rule of the loop over the files of a diff, with the index. *)
Lemma parseGitDiff_index_rule lines e (P : nat * list DiffFile -> Prop) s0 :
  P s0 ->
  (forall i files line, P (i, files) -> nth_error lines i = Some line ->
     (starts_file line = false -> P (i + 1, files))
     /\ (starts_file line = true ->
         parseFile lines i e = Ok None -> match_git_line line = None ->
         P (i + 1, files))
     /\ (starts_file line = true -> forall f next,
         parseFile lines i e = Ok (Some (f, next)) -> P (next, files ++ [f]))) ->
  forall fuel, length lines - fst s0 < fuel ->
  exists files, while (parseGitDiff_step lines e) fuel s0 = Ok files
                /\ exists i, P (i, files) /\ length lines <= i.
Proof.
  intros H0 Hkeep fuel Hfuel.
  apply (while_rule (parseGitDiff_step lines e) P
           (fun files => exists i, P (i, files) /\ length lines <= i)
           (fun s => length lines - fst s)); auto.
  intros [i files] Hs. unfold parseGitDiff_step.
  destruct (i <? length lines)%nat eqn:Hlt; cbn [negb].
  - apply Nat.ltb_lt in Hlt.
    destruct (get_lt lines _ Hlt) as [line [Hget Hnth]].
    rewrite Hget. cbn [bind].
    destruct (Hkeep i files line Hs Hnth) as (K1 & K2 & K3).
    unfold starts_file in *.
    destruct (startsWith line "diff --git") eqn:Hd.
    + destruct (parseFile_rule lines i e _ (fun _ => True) Hnth)
        as [[Hr Hm]|[o [n [i1 [st [i2 [hs [_ [_ [_ [Hr [Hle1 [Hle2 _]]]]]]]]]]]]];
        auto.
      * rewrite Hr. cbn [bind fst]. split; [auto|lia].
      * rewrite Hr. cbn [bind fst]. split; [eauto|lia].
    + cbn [fst]. split; [auto|lia].
  - apply Nat.ltb_ge in Hlt. exists i. auto.
Qed.

Lemma git_paths_app xs ys : git_paths (xs ++ ys) = git_paths xs ++ git_paths ys.
Proof. unfold git_paths. apply flat_map_app. Qed.

Lemma git_paths_none ls :
  Forall (fun l => starts_file l = false) ls -> git_paths ls = [].
Proof.
  induction 1 as [|l ls Hl _ IH]; [reflexivity|].
  unfold git_paths in *. cbn [flat_map]. rewrite IH.
  destruct (match_git_line l) eqn:E; [|reflexivity].
  unfold starts_file in Hl. rewrite git_line_starts in Hl; congruence.
Qed.

Lemma firstn_S_slice {A} (l : list A) i x :
  nth_error l i = Some x -> firstn (i + 1) l = firstn i l ++ [x].
Proof.
  intros H. rewrite (firstn_slice l i (i + 1)) by lia.
  f_equal. rewrite <- (Nat.add_0_r i) at 1.
  replace (i + 0) with i by lia.
  assert (E : slice l i (i + 1) = slice l i i ++ [x])
    by (apply slice_S; [lia|exact H]).
  rewrite E, slice_same. reflexivity.
Qed.

Lemma diff_lines_inv_step lines e i files line :
  diff_lines_inv lines e (i, files) -> nth_error lines i = Some line ->
  (starts_file line = false -> diff_lines_inv lines e (i + 1, files))
  /\ (starts_file line = true ->
      parseFile lines i e = Ok None -> match_git_line line = None ->
      diff_lines_inv lines e (i + 1, files))
  /\ (starts_file line = true -> forall f next,
      parseFile lines i e = Ok (Some (f, next)) ->
      diff_lines_inv lines e (next, files ++ [f])).
Proof.
  intros (H1 & H2 & H3 & H4) Hnth. cbn [fst snd] in *.
  assert (Hlt : i < length lines) by (apply nth_error_Some; congruence).
  assert (Hskip : match_git_line line = None ->
                  diff_lines_inv lines e (i + 1, files)).
  { intros Hm. unfold diff_lines_inv. cbn [fst snd].
    rewrite (firstn_S_slice _ _ _ Hnth), git_paths_app.
    unfold git_paths at 2. cbn [flat_map]. rewrite Hm, !app_nil_r.
    split; [lia|]. split; [assumption|]. split; [assumption|].
    intros t Ht. rewrite kind_lines_app. specialize (H4 t Ht). lia. }
  split; [|split].
  - intros Hd. apply Hskip.
    destruct (match_git_line line) eqn:E; [|reflexivity].
    unfold starts_file in Hd. rewrite git_line_starts in Hd; congruence.
  - intros _ _ Hm. apply Hskip. exact Hm.
  - intros _ f next Hf.
    destruct (parseFile_lines _ _ _ _ _ Hf)
      as ([gitLine [G1 G2]] & K2 & (K3 & K4 & _ & K5 & K7) & _ & K6).
    cbn [fst snd] in *.
    assert (gitLine = line) by congruence. subst gitLine.
    unfold diff_lines_inv. cbn [fst snd].
    split; [exact K3|]. split; [|split].
    + rewrite (firstn_slice lines (i + 1) next) by lia.
      rewrite (firstn_S_slice _ _ _ Hnth), !git_paths_app.
      rewrite (git_paths_none _ K4), app_nil_r.
      unfold git_paths at 2. cbn [flat_map]. rewrite G2.
      rewrite map_app, H2. reflexivity.
    + apply Forall_app. split; [exact H3|]. constructor; [auto|constructor].
    + intros t Ht. rewrite kind_files_snoc.
      rewrite (firstn_slice lines (i + 1) next) by lia.
      rewrite (firstn_S_slice _ _ _ Hnth), !kind_lines_app.
      specialize (H4 t Ht). specialize (K7 t Ht). lia.
Qed.

(** What [parseGitDiff] returns, read against the lines. *)
Lemma parseGitDiff_lines diffOutput e :
  exists files, parseGitDiff diffOutput e = Ok files
                /\ diff_lines_inv (split_lines diffOutput) e
                     (length (split_lines diffOutput), files).
Proof.
  unfold parseGitDiff.
  destruct (parseGitDiff_index_rule (split_lines diffOutput) e
              (diff_lines_inv (split_lines diffOutput) e) (0, []))
    with (fuel := S (length (split_lines diffOutput)))
    as [files [Hw [i [Hp Hi]]]].
  - unfold diff_lines_inv. cbn. split; [lia|]. split; [reflexivity|].
    split; [constructor|]. intros t _. lia.
  - intros i files line. apply diff_lines_inv_step.
  - cbn [fst]. lia.
  - exists files. split; [exact Hw|].
    destruct Hp as (H1 & H2 & H3 & H4). cbn [fst snd] in *.
    assert (i = length (split_lines diffOutput)) by lia. subst i.
    unfold diff_lines_inv. cbn [fst snd]. auto.
Qed.

(** X5. [parseGitDiff] returns one file for each line that matches the
    pattern of a [diff --git] line, in the order of the lines and with the
    two paths of that line: no such line is lost in the metadata or the
    hunks of the file before it, and a line that starts with [diff --git]
    without matching gives no file. *)
Theorem files_follow_git_lines diffOutput e :
  exists files, parseGitDiff diffOutput e = Ok files
                /\ map paths_of files = git_paths (split_lines diffOutput).
Proof.
  destruct (parseGitDiff_lines diffOutput e) as [files [Hr (_ & H & _)]].
  exists files. split; [exact Hr|].
  cbn [fst snd] in H. rewrite firstn_all in H. exact H.
Qed.

(** X6. Every file and every hunk [parseGitDiff] returns carries the
    [expandedByDefault] flag it was called with. *)
Theorem expanded_by_default diffOutput e :
  exists files, parseGitDiff diffOutput e = Ok files
                /\ Forall (fun f => isExpanded f = e
                                    /\ Forall (fun h => hunkExpanded h = e)
                                         (hunks f)) files.
Proof.
  destruct (parseGitDiff_lines diffOutput e) as [files [Hr (_ & _ & H & _)]].
  exists files. split; [exact Hr|exact H].
Qed.

(** ** getDiffStats *)

Lemma stats_changes cs a d :
  fold_left stats_change cs (a, d)
  = (a + kind_changes add cs, d + kind_changes delete cs).
Proof.
  unfold kind_changes. revert a d.
  induction cs as [|c cs IH]; intros a d; cbn [fold_left filter length].
  - f_equal; lia.
  - unfold stats_change at 2.
    destruct (type_is add c), (type_is delete c); rewrite IH; cbn [length];
      f_equal; lia.
Qed.

Lemma stats_hunks hs a d :
  fold_left (fun acc hunk => fold_left stats_change (changes hunk) acc) hs (a, d)
  = (a + kind_hunks add hs, d + kind_hunks delete hs).
Proof.
  unfold kind_hunks. revert a d.
  induction hs as [|h hs IH]; intros a d; cbn [fold_left map].
  - simpl. f_equal; lia.
  - rewrite stats_changes, IH. simpl. f_equal; lia.
Qed.

(** The counters of [getDiffStats] are the numbers of add and delete
    Changes. *)
Lemma getDiffStats_counts fs :
  getDiffStats fs = {| additions := kind_files add fs;
                       deletions := kind_files delete fs;
                       files := length fs |}.
Proof.
  unfold getDiffStats.
  assert (H : forall a d,
            fold_left (fun acc file =>
                         fold_left (fun acc hunk =>
                                      fold_left stats_change (changes hunk) acc)
                           (hunks file) acc) fs (a, d)
            = (a + kind_files add fs, d + kind_files delete fs)).
  { unfold kind_files. induction fs as [|f fs IH]; intros a d; cbn [fold_left map].
    - simpl. f_equal; lia.
    - rewrite stats_hunks, IH. simpl. f_equal; lia. }
  rewrite H. reflexivity.
Qed.

Lemma kind_changes_same_types t cs out :
  length out = length cs ->
  (forall k c c', nth_error cs k = Some c -> nth_error out k = Some c' ->
                  type c' = type c) ->
  kind_changes t out = kind_changes t cs.
Proof.
  unfold kind_changes. revert out.
  induction cs as [|c cs IH]; intros [|c' out] Hlen Hty; try discriminate;
    [reflexivity|].
  assert (Et : type_is t c' = type_is t c)
    by (unfold type_is; rewrite (Hty 0 c c' eq_refl eq_refl); reflexivity).
  assert (E : length (filter (type_is t) out) = length (filter (type_is t) cs)).
  { apply IH; [simpl in Hlen; lia|].
    intros k x x' Hx Hx'. apply (Hty (S k)); assumption. }
  cbn [filter]. rewrite Et.
  destruct (type_is t c); cbn [length]; rewrite E; reflexivity.
Qed.

Lemma hunk_annotated_kinds t h h' :
  hunk_annotated h h' -> kind_changes t (changes h') = kind_changes t (changes h).
Proof.
  intros (_ & _ & _ & _ & _ & _ & Hc).
  destruct (wordDiffs_spec (changes h)) as [out [Hout (Hlen & _ & _ & _ & Hann)]].
  assert (out = changes h') by congruence. subst out.
  apply kind_changes_same_types; [exact Hlen|].
  intros k c c' Hk Hk'.
  apply (annotation_same_line _ _ (Hann k c c' Hk Hk')).
Qed.

Lemma file_annotated_kinds t fs fs' :
  Forall2 file_annotated fs fs' -> kind_files t fs' = kind_files t fs.
Proof.
  unfold kind_files.
  induction 1 as [|f f' fs fs' (_ & _ & _ & _ & Hh) _ IH]; [reflexivity|].
  cbn [map]. simpl. rewrite IH. f_equal.
  unfold kind_hunks. clear IH.
  induction Hh as [|h h' hs hs' Hh _ IHh]; [reflexivity|].
  cbn [map]. simpl. rewrite IHh, (hunk_annotated_kinds t _ _ Hh). reflexivity.
Qed.

(** X7. Attaching word diffs changes none of the numbers [getDiffStats]
    reports: the additions, deletions and files of
    [computeWordDiffs files] are those of [files]. *)
Theorem stats_unchanged_by_word_diffs fs :
  exists fs', computeWordDiffs fs = Ok fs'
              /\ getDiffStats fs' = getDiffStats fs.
Proof.
  destruct (computeWordDiffs_spec fs) as [fs' [Hr Hall]].
  exists fs'. split; [exact Hr|].
  rewrite !getDiffStats_counts, !(file_annotated_kinds _ _ _ Hall).
  rewrite (Forall2_length Hall). reflexivity.
Qed.

(** X8. For the files the canvas shows, with word diffs or without, the
    file count of [getDiffStats] is the number of lines of the diff that
    match the pattern of a [diff --git] line, and its additions and deletions
    never exceed the numbers of lines that start with [+] and with [-]. *)
Theorem stats_bounded_by_lines diffInput wordDiffEnabled e :
  exists fs, canvas_files diffInput wordDiffEnabled e = Ok fs
             /\ files (getDiffStats fs)
                = length (git_paths (split_lines diffInput))
             /\ additions (getDiffStats fs)
                <= kind_lines add (split_lines diffInput)
             /\ deletions (getDiffStats fs)
                <= kind_lines delete (split_lines diffInput).
Proof.
  destruct (parseGitDiff_lines diffInput e) as [fs [Hr (_ & Hp & _ & Hk)]].
  cbn [fst snd] in Hp, Hk. rewrite firstn_all in Hp, Hk.
  assert (Hadd : add <> normal) by discriminate.
  assert (Hdel : delete <> normal) by discriminate.
  unfold canvas_files. rewrite Hr. cbn [bind].
  destruct wordDiffEnabled.
  - destruct (computeWordDiffs_spec fs) as [fs' [Hr' Hall]].
    exists fs'. split; [exact Hr'|].
    rewrite getDiffStats_counts. cbn [files additions deletions].
    rewrite !(file_annotated_kinds _ _ _ Hall), <- (Forall2_length Hall).
    rewrite <- Hp, length_map.
    split; [reflexivity|]. split; [apply Hk, Hadd|apply Hk, Hdel].
  - exists fs. split; [reflexivity|].
    rewrite getDiffStats_counts. cbn [files additions deletions].
    rewrite <- Hp, length_map.
    split; [reflexivity|]. split; [apply Hk, Hadd|apply Hk, Hdel].
Qed.

(** ** The longest common subsequence *)

Lemma lcs_length_nil_r xs : lcs_length xs [] = 0.
Proof. destruct xs; reflexivity. Qed.

Lemma lcs_length_cons x xs y ys :
  lcs_length (x :: xs) (y :: ys)
  = if (x =? y)%string then lcs_length xs ys + 1
    else Nat.max (lcs_length xs (y :: ys)) (lcs_length (x :: xs) ys).
Proof. reflexivity. Qed.

Lemma subseq_nil_inv s : subseq s [] -> s = [].
Proof. intros H. inversion H. reflexivity. Qed.

Lemma subseq_cons_inv z s x l :
  subseq (z :: s) (x :: l) -> (z = x /\ subseq s l) \/ subseq (z :: s) l.
Proof. intros H. inversion H; subst; auto. Qed.

(** No common subsequence is longer than [lcs_length] says. *)
Lemma lcs_length_bound xs ys s :
  subseq s xs -> subseq s ys -> length s <= lcs_length xs ys.
Proof.
  revert ys s. induction xs as [|x xs IHx]; intros ys s Hx Hy.
  - apply subseq_nil_inv in Hx. subst s. cbn. lia.
  - induction ys as [|y ys IHy].
    + apply subseq_nil_inv in Hy. subst s. cbn. lia.
    + rewrite lcs_length_cons.
      destruct s as [|z s]; [cbn; lia|].
      destruct (subseq_cons_inv _ _ _ _ Hx) as [[E1 Hx']|Hx'];
        destruct (subseq_cons_inv _ _ _ _ Hy) as [[E2 Hy']|Hy'].
      * subst. rewrite String.eqb_refl.
        specialize (IHx _ _ Hx' Hy'). cbn [length]. lia.
      * destruct (x =? y)%string.
        -- specialize (IHx _ _ Hx' (subseq_tail _ _ _ Hy')). cbn [length]. lia.
        -- specialize (IHy Hy'). lia.
      * destruct (x =? y)%string.
        -- specialize (IHx _ _ (subseq_tail _ _ _ Hx') Hy'). cbn [length]. lia.
        -- specialize (IHx _ _ Hx' Hy). lia.
      * destruct (x =? y)%string.
        -- specialize (IHx _ _ (subseq_tail _ _ _ Hx') (subseq_tail _ _ _ Hy')).
           cbn [length]. lia.
        -- specialize (IHx _ _ Hx' Hy). lia.
Qed.

Lemma subseq_app s1 l1 s2 l2 :
  subseq s1 l1 -> subseq s2 l2 -> subseq (s1 ++ s2) (l1 ++ l2).
Proof.
  intros H1 H2. induction H1 as [l|x s l H IH|x s l H IH]; cbn [app].
  - induction l as [|y l IH]; [exact H2|]. apply sub_skip. exact IH.
  - apply sub_take. exact IH.
  - apply sub_skip. exact IH.
Qed.

Lemma subseq_rev s l : subseq s l -> subseq (rev s) (rev l).
Proof.
  induction 1 as [l|x s l H IH|x s l H IH]; cbn [rev].
  - apply sub_nil.
  - apply subseq_app; [exact IH|]. apply sub_take. apply sub_nil.
  - rewrite <- (app_nil_r (rev s)). apply subseq_app; [exact IH|]. apply sub_nil.
Qed.

Lemma subseq_length s l : subseq s l -> length s <= length l.
Proof. induction 1; cbn [length]; lia. Qed.

Lemma subseq_refl l : subseq l l.
Proof. induction l as [|x l IH]; [apply sub_nil|apply sub_take; exact IH]. Qed.

(** A subsequence as long as the sequence is the sequence. *)
Lemma subseq_full s l : subseq s l -> length l <= length s -> s = l.
Proof.
  induction 1 as [l|x s l H IH|x s l H IH]; cbn [length]; intros Hlen.
  - destruct l; [reflexivity|cbn in Hlen; lia].
  - f_equal. apply IH. lia.
  - apply subseq_length in H. lia.
Qed.

(** *** The table *)

Lemma length_set_nth {A} (l : list A) k v : length (set_nth l k v) = length l.
Proof.
  revert k. induction l as [|x l IH]; intros [|k]; cbn; auto.
Qed.

Lemma nth_set_nth_eq {A} (l : list A) k v d :
  k < length l -> nth k (set_nth l k v) d = v.
Proof.
  revert k. induction l as [|x l IH]; intros [|k] Hk; cbn in *; try lia; auto.
  apply IH. lia.
Qed.

Lemma nth_set_nth_neq {A} (l : list A) k k' v d :
  k <> k' -> nth k' (set_nth l k v) d = nth k' l d.
Proof.
  revert k k'. induction l as [|x l IH]; intros [|k] [|k'] Hne; cbn;
    try reflexivity; try congruence.
  apply IH. congruence.
Qed.

Lemma dp_get_set_eq dp i j v :
  i < length dp -> j < length (nth i dp []) -> dp_get (dp_set dp i j v) i j = v.
Proof.
  intros Hi Hj. unfold dp_get, dp_set.
  rewrite nth_set_nth_eq by exact Hi. apply nth_set_nth_eq. exact Hj.
Qed.

Lemma dp_get_set_neq dp i j v i' j' :
  i' <> i \/ j' <> j -> dp_get (dp_set dp i j v) i' j' = dp_get dp i' j'.
Proof.
  intros Hne. unfold dp_get, dp_set.
  destruct (Nat.eq_dec i i') as [<-|Hi].
  - destruct (Nat.lt_ge_cases i (length dp)) as [Hlt|Hge].
    + rewrite nth_set_nth_eq by exact Hlt.
      apply nth_set_nth_neq. destruct Hne; congruence.
    + assert (E : forall (l : list (list nat)) k r,
                length l <= k -> set_nth l k r = l).
      { induction l as [|x l IH]; intros [|k] r Hk; cbn in *; try lia; auto.
        f_equal. apply IH. lia. }
      rewrite E by exact Hge. reflexivity.
  - rewrite nth_set_nth_neq by exact Hi. reflexivity.
Qed.

Lemma dp_shape_set dp m n i j v :
  dp_shape dp m n -> dp_shape (dp_set dp i j v) m n.
Proof.
  intros [H1 H2]. unfold dp_shape, dp_set.
  rewrite length_set_nth. split; [exact H1|].
  intros i' Hi'. destruct (Nat.eq_dec i i') as [<-|Hne].
  - rewrite nth_set_nth_eq by lia. rewrite length_set_nth. apply H2. exact Hi'.
  - rewrite nth_set_nth_neq by exact Hne. apply H2. exact Hi'.
Qed.

Lemma rev_firstn_S {A} (l : list A) i x :
  nth_error l i = Some x -> rev (firstn (S i) l) = x :: rev (firstn i l).
Proof.
  intros H. rewrite (firstn_S_nth _ _ _ H), rev_app_distr. reflexivity.
Qed.

(** The recurrence of the table, on the lengths. *)
Lemma lcs_cell_step a b i j :
  1 <= i -> i <= length a -> 1 <= j -> j <= length b ->
  lcs_cell a b i j
  = if elem_eqb (nth_error a (i - 1)) (nth_error b (j - 1))
    then lcs_cell a b (i - 1) (j - 1) + 1
    else Nat.max (lcs_cell a b (i - 1) j) (lcs_cell a b i (j - 1)).
Proof.
  intros Hi1 Hi2 Hj1 Hj2.
  destruct i as [|i]; [lia|]. destruct j as [|j]; [lia|].
  replace (S i - 1) with i by lia. replace (S j - 1) with j by lia.
  destruct (get_lt a i ltac:(lia)) as [x [_ Hx]].
  destruct (get_lt b j ltac:(lia)) as [y [_ Hy]].
  rewrite Hx, Hy. cbn [elem_eqb]. unfold lcs_cell.
  rewrite (rev_firstn_S _ _ _ Hx), (rev_firstn_S _ _ _ Hy).
  apply lcs_length_cons.
Qed.

Lemma lcs_cell_zero a b i j : i = 0 \/ j = 0 -> lcs_cell a b i j = 0.
Proof.
  unfold lcs_cell. intros [->| ->]; cbn [firstn rev]; [reflexivity|].
  apply lcs_length_nil_r.
Qed.

Lemma fold_left_seq_inv {A} (f : A -> nat -> A) (P : nat -> A -> Prop) len :
  forall start acc,
    P start acc ->
    (forall k x, start <= k -> k < start + len -> P k x -> P (S k) (f x k)) ->
    P (start + len) (fold_left f (seq start len) acc).
Proof.
  induction len as [|len IH]; intros start acc H0 Hstep; cbn [seq fold_left].
  - rewrite Nat.add_0_r. exact H0.
  - replace (start + S len) with (S start + len) by lia.
    apply IH.
    + apply Hstep; [lia|lia|exact H0].
    + intros k x Hk1 Hk2. apply Hstep; lia.
Qed.

(** Writing the cell [(i, j)] keeps the table right. *)
Lemma dp_inv_cell a b i j dp :
  1 <= i -> i <= length a -> 1 <= j -> j <= length b ->
  dp_inv a b i j dp -> dp_inv a b i (S j) (dp_cell a b i dp j).
Proof.
  intros Hi1 Hi2 Hj1 Hj2 [Hshape Hcells].
  assert (Hv : (if elem_eqb (nth_error a (i - 1)) (nth_error b (j - 1))
                then dp_get dp (i - 1) (j - 1) + 1
                else Nat.max (dp_get dp (i - 1) j) (dp_get dp i (j - 1)))
               = lcs_cell a b i j).
  { rewrite (lcs_cell_step a b i j Hi1 Hi2 Hj1 Hj2).
    rewrite !Hcells by lia. reflexivity. }
  assert (Hin : i < length dp /\ j < length (nth i dp [])).
  { destruct Hshape as [S1 S2]. rewrite S1, (S2 i Hi2). lia. }
  unfold dp_cell.
  destruct (elem_eqb (nth_error a (i - 1)) (nth_error b (j - 1)));
    (split; [apply dp_shape_set; exact Hshape|]);
    intros i' j' Hi' Hj' Hdone;
    (destruct (Nat.eq_dec i' i) as [->|Hne];
     [destruct (Nat.eq_dec j' j) as [->|Hne]|]);
    try (rewrite dp_get_set_eq by tauto; exact Hv);
    try (rewrite dp_get_set_neq by tauto; apply Hcells; lia).
Qed.

(** The table [computeLCS] builds holds the lengths. *)
Lemma dp_fill_cells a b i j :
  i <= length a -> j <= length b ->
  dp_get (dp_fill a b) i j = lcs_cell a b i j.
Proof.
  intros Hi Hj.
  assert (H : dp_inv a b (1 + length a) 1 (dp_fill a b)).
  { unfold dp_fill.
    apply (fold_left_seq_inv
             (fun dp i => fold_left (dp_cell a b i) (seq 1 (length b)) dp)
             (fun i dp => dp_inv a b i 1 dp)).
    - split.
      + split; [apply repeat_length|].
        intros k Hk. rewrite nth_repeat_lt by lia. apply repeat_length.
      + intros i' j' Hi' Hj' Hz.
        rewrite lcs_cell_zero by lia.
        unfold dp_get. rewrite nth_repeat_lt by lia.
        apply nth_repeat_lt. lia.
    - intros k dp Hk1 Hk2 Hinv.
      assert (Hrow : dp_inv a b k (1 + length b)
                       (fold_left (dp_cell a b k) (seq 1 (length b)) dp)).
      { apply (fold_left_seq_inv (dp_cell a b k) (fun j dp => dp_inv a b k j dp)).
        - exact Hinv.
        - intros c x Hc1 Hc2. apply dp_inv_cell; lia. }
      destruct Hrow as [Hshape Hcells]. split; [exact Hshape|].
      intros i' j' Hi' Hj' Hdone. apply Hcells; lia. }
  destruct H as [_ Hcells]. apply Hcells; lia.
Qed.

(** *** The backtracking *)

(** [computeLCS] returns a common subsequence of the length the table
    holds. *)
Lemma computeLCS_length a b :
  exists lcs, computeLCS a b = Ok lcs /\ subseq lcs a /\ subseq lcs b
              /\ length lcs = lcs_cell a b (length a) (length b).
Proof.
  destruct (computeLCS_common a b) as [lcs (Hr & Ha & Hb)].
  exists lcs. split; [exact Hr|]. split; [exact Ha|]. split; [exact Hb|].
  unfold computeLCS in Hr.
  destruct (while_rule (backtrack_step a b (dp_fill a b))
              (fun s => let '(i, j, lcs) := s in
                        i <= length a /\ j <= length b
                        /\ length lcs + lcs_cell a b i j
                           = lcs_cell a b (length a) (length b))
              (fun lcs => length lcs = lcs_cell a b (length a) (length b))
              (fun s => let '(i, j, _) := s in i + j))
    with (fuel := S (length a + length b)) (s := (length a, length b, @nil string))
    as [r [Hw Hlen]].
  - intros [[i j] l] (Hi & Hj & Hl). unfold backtrack_step.
    destruct ((0 <? i)%nat && (0 <? j)%nat) eqn:Hpos; cbn [negb].
    + apply andb_true_iff in Hpos. destruct Hpos as [Hi0 Hj0].
      apply Nat.ltb_lt in Hi0. apply Nat.ltb_lt in Hj0.
      rewrite (lcs_cell_step a b i j) in Hl by lia.
      destruct (get_lt a (i - 1) ltac:(lia)) as [x [Hgx Hx]].
      destruct (elem_eqb (nth_error a (i - 1)) (nth_error b (j - 1))).
      * rewrite Hgx. cbn [bind length]. repeat split; lia.
      * rewrite !dp_fill_cells by lia.
        destruct (lcs_cell a b i (j - 1) <? lcs_cell a b (i - 1) j)%nat eqn:E.
        -- apply Nat.ltb_lt in E. repeat split; lia.
        -- apply Nat.ltb_ge in E. repeat split; lia.
    + apply andb_false_iff in Hpos.
      rewrite lcs_cell_zero in Hl; [lia|].
      destruct Hpos as [H|H]; apply Nat.ltb_ge in H; lia.
  - cbn [length]. repeat split; lia.
  - lia.
  - congruence.
Qed.

(** X9. [computeLCS] returns a longest common subsequence: what it returns
    is a subsequence of both arguments, and no common subsequence of the
    two is longer. *)
Theorem computeLCS_longest a b :
  exists lcs, computeLCS a b = Ok lcs /\ subseq lcs a /\ subseq lcs b
              /\ forall s, subseq s a -> subseq s b -> length s <= length lcs.
Proof.
  destruct (computeLCS_length a b) as [lcs (Hr & Ha & Hb & Hlen)].
  exists lcs. split; [exact Hr|]. split; [exact Ha|]. split; [exact Hb|].
  intros s Hsa Hsb. rewrite Hlen. unfold lcs_cell.
  rewrite !firstn_all, <- length_rev.
  apply lcs_length_bound; apply subseq_rev; assumption.
Qed.

(** Of a sequence and itself, [computeLCS] returns the sequence. *)
Lemma computeLCS_same a : computeLCS a a = Ok a.
Proof.
  destruct (computeLCS_length a a) as [lcs (Hr & Ha & _ & Hlen)].
  rewrite Hr. f_equal. apply subseq_full; [exact Ha|].
  rewrite Hlen. unfold lcs_cell. rewrite firstn_all.
  rewrite <- length_rev. apply lcs_length_bound; apply subseq_refl.
Qed.

(** ** The unchanged tokens of a line pair *)

Lemma normal_values_app r1 r2 :
  normal_values (r1 ++ r2) = normal_values r1 ++ normal_values r2.
Proof. unfold normal_values. rewrite filter_app, map_app. reflexivity. Qed.

Lemma normal_values_emit (emit : bool) kind ws :
  kind <> normal ->
  normal_values (if emit then word_tokens kind ws else []) = [].
Proof.
  intros Hk. destruct emit; [|reflexivity].
  unfold normal_values, word_tokens.
  induction ws as [|w ws IH]; [reflexivity|]. cbn [map filter wtype].
  destruct kind; try congruence; exact IH.
Qed.

(** The loop of [computeLineDiff] ends with tokens that spell the words of
    the side it annotates, and whose tokens of kind normal are the words of
    [lcs]. *)
Lemma lineDiff_loop_normals oldWords newWords lcs forType :
  subseq lcs oldWords -> subseq lcs newWords ->
  exists r,
    while (lineDiff_step oldWords newWords lcs forType)
      (S (length oldWords + length newWords + length lcs))
      {| oldIdx := 0; newIdx := 0; lcsIdx := 0; ld_result := [] |} = Ok r
    /\ lineDiff_ok oldWords newWords forType r
    /\ normal_values r = lcs.
Proof.
  intros Hso Hsn.
  apply (while_rule (lineDiff_step oldWords newWords lcs forType)
           (lineDiff_normals_inv oldWords newWords lcs forType)
           (fun r => lineDiff_ok oldWords newWords forType r
                     /\ normal_values r = lcs)
           (fun s => (length oldWords - oldIdx s) + (length newWords - newIdx s)
                     + (length lcs - lcsIdx s))).
  - intros s [(H1 & H2 & H3 & H4 & H5 & H6 & H7) H8]. unfold lineDiff_step.
    destruct ((oldIdx s <? length oldWords)%nat || (newIdx s <? length newWords)%nat)
      eqn:Hrun; cbn [negb].
    + destruct (lcsIdx s <? length lcs)%nat eqn:Hl; cbn zeta.
      * apply Nat.ltb_lt in Hl.
        destruct (get_lt lcs _ Hl) as [x [Hgx Hx]]. rewrite Hx.
        destruct (drain_spec oldWords (fun w => elem_eqb w (Some x))
                    (ChangeType_eqb forType delete) delete (oldIdx s)
                    (ld_result s)) as [o1 (Hd & Ho1 & Ho2 & Ho3 & Ho4)].
        rewrite Hd. cbn [bind].
        destruct (drain_spec newWords (fun w => elem_eqb w (Some x))
                    (ChangeType_eqb forType add) add (newIdx s)
                    (ld_result s ++
                     (if ChangeType_eqb forType delete
                      then word_tokens delete (slice oldWords (oldIdx s) o1)
                      else []))) as [n1 (Hn & Hn1 & Hn2 & Hn3 & Hn4)].
        rewrite Hn. cbn [bind]. rewrite Hgx. cbn [bind].
        destruct (subseq_advance lcs oldWords (lcsIdx s) x o1 Hx (Ho2 H1) Ho4
                    (o1 - oldIdx s) (oldIdx s) ltac:(lia) H4 Ho3) as [Hxo Hso'].
        destruct (subseq_advance lcs newWords (lcsIdx s) x n1 Hx (Hn2 H2) Hn4
                    (n1 - newIdx s) (newIdx s) ltac:(lia) H5 Hn3) as [Hxn Hsn'].
        assert (Ho1lt : o1 < length oldWords) by (apply nth_error_Some; congruence).
        assert (Hn1lt : n1 < length newWords) by (apply nth_error_Some; congruence).
        split; [|cbn [oldIdx newIdx lcsIdx]; lia].
        split.
        -- unfold lineDiff_inv. cbn [oldIdx newIdx lcsIdx ld_result].
           rewrite !Nat.add_1_r.
           repeat split; try lia; try assumption; subst forType;
             cbn [ChangeType_eqb]; rewrite ?app_nil_r.
           ++ rewrite <- Nat.add_1_r. apply values_advance; auto.
              apply (proj1 (H6 eq_refl)).
           ++ apply Forall_app. split; [apply Forall_app; split|].
              ** apply (proj2 (H6 eq_refl)).
              ** apply word_tokens_kind. intros w. cbn. discriminate.
              ** constructor; [cbn; discriminate|constructor].
           ++ rewrite <- Nat.add_1_r. apply values_advance; auto.
              apply (proj1 (H7 eq_refl)).
           ++ apply Forall_app. split; [apply Forall_app; split|].
              ** apply (proj2 (H7 eq_refl)).
              ** apply word_tokens_kind. intros w. cbn. discriminate.
              ** constructor; [cbn; discriminate|constructor].
        -- cbn [lcsIdx ld_result].
           rewrite !normal_values_app, !normal_values_emit by discriminate.
           rewrite !app_nil_r, H8, Nat.add_1_r.
           symmetry. apply firstn_S_nth. exact Hx.
      * apply Nat.ltb_ge in Hl.
        destruct (drain_spec oldWords (fun _ => false)
                    (ChangeType_eqb forType delete) delete (oldIdx s)
                    (ld_result s)) as [o1 (Hd & Ho1 & Ho2 & Ho3 & Ho4)].
        rewrite Hd. cbn [bind].
        destruct (drain_spec newWords (fun _ => false)
                    (ChangeType_eqb forType add) add (newIdx s)
                    (ld_result s ++
                     (if ChangeType_eqb forType delete
                      then word_tokens delete (slice oldWords (oldIdx s) o1)
                      else []))) as [n1 (Hn & Hn1 & Hn2 & Hn3 & Hn4)].
        rewrite Hn. cbn [bind].
        assert (Eo : o1 = length oldWords).
        { specialize (Ho2 H1).
          destruct (Nat.eq_dec o1 (length oldWords)) as [E|E]; [exact E|].
          assert (Hlt : o1 < length oldWords) by lia.
          specialize (Ho4 Hlt). discriminate. }
        assert (En : n1 = length newWords).
        { specialize (Hn2 H2).
          destruct (Nat.eq_dec n1 (length newWords)) as [E|E]; [exact E|].
          assert (Hlt : n1 < length newWords) by lia.
          specialize (Hn4 Hlt). discriminate. }
        subst o1 n1.
        apply orb_true_iff in Hrun.
        split; [|cbn [oldIdx newIdx lcsIdx];
                 destruct Hrun as [Hr|Hr]; apply Nat.ltb_lt in Hr; lia].
        assert (Hlcs : skipn (lcsIdx s) lcs = []) by (apply skipn_all2; lia).
        split.
        -- unfold lineDiff_inv. cbn [oldIdx newIdx lcsIdx ld_result].
           rewrite Hlcs.
           repeat split; try lia; try apply sub_nil; subst forType;
             cbn [ChangeType_eqb]; rewrite ?app_nil_r.
           ++ apply values_flush; auto. apply (proj1 (H6 eq_refl)).
           ++ apply Forall_app. split.
              ** apply (proj2 (H6 eq_refl)).
              ** apply word_tokens_kind. intros w. cbn. discriminate.
           ++ apply values_flush; auto. apply (proj1 (H7 eq_refl)).
           ++ apply Forall_app. split.
              ** apply (proj2 (H7 eq_refl)).
              ** apply word_tokens_kind. intros w. cbn. discriminate.
        -- cbn [lcsIdx ld_result].
           rewrite !normal_values_app, !normal_values_emit by discriminate.
           rewrite !app_nil_r. exact H8.
    + apply orb_false_elim in Hrun. destruct Hrun as [Ho Hn].
      apply Nat.ltb_ge in Ho. apply Nat.ltb_ge in Hn.
      assert (Eo : oldIdx s = length oldWords) by lia.
      assert (En : newIdx s = length newWords) by lia.
      split.
      * rewrite Eo in H6. rewrite En in H7. rewrite firstn_all in H6, H7.
        split; assumption.
      * rewrite H8. rewrite Eo, skipn_all in H4.
        apply subseq_nil_inv in H4.
        rewrite <- (firstn_skipn (lcsIdx s) lcs) at 2.
        rewrite H4, app_nil_r. reflexivity.
  - split.
    + unfold lineDiff_inv. cbn [oldIdx newIdx lcsIdx ld_result skipn].
      repeat split; try lia; auto; constructor.
    + reflexivity.
  - cbn [oldIdx newIdx lcsIdx]. lia.
Qed.

(** [computeLineDiff] marks as normal the words [computeLCS] returns for
    the tokens of the two lines. *)
Lemma computeLineDiff_normals oldLine newLine forType :
  exists r lcs,
    computeLineDiff oldLine newLine forType = Ok r
    /\ computeLCS (tokenize oldLine) (tokenize newLine) = Ok lcs
    /\ lineDiff_ok (tokenize oldLine) (tokenize newLine) forType r
    /\ normal_values r = lcs.
Proof.
  unfold computeLineDiff.
  destruct (computeLCS_common (tokenize oldLine) (tokenize newLine))
    as [lcs [Hl [Ho Hn]]].
  destruct (lineDiff_loop_normals _ _ lcs forType Ho Hn) as [r (Hw & Hok & Hnv)].
  exists r, lcs. rewrite Hl. cbn [bind]. auto.
Qed.

(** X10. The two word diffs of a line pair agree on what is unchanged: the
    tokens of kind normal on the delete side and on the add side are the
    same sequence, a common subsequence of the tokens of the two lines, and
    no common subsequence is longer. *)
Theorem word_diff_sides_agree oldLine newLine :
  exists wd wa lcs,
    computeLineDiff oldLine newLine delete = Ok wd
    /\ computeLineDiff oldLine newLine add = Ok wa
    /\ normal_values wd = lcs /\ normal_values wa = lcs
    /\ subseq lcs (tokenize oldLine) /\ subseq lcs (tokenize newLine)
    /\ forall s, subseq s (tokenize oldLine) -> subseq s (tokenize newLine) ->
                 length s <= length lcs.
Proof.
  destruct (computeLineDiff_normals oldLine newLine delete)
    as [wd [l1 (Hd & Hl1 & _ & Hn1)]].
  destruct (computeLineDiff_normals oldLine newLine add)
    as [wa [l2 (Ha & Hl2 & _ & Hn2)]].
  destruct (computeLCS_length (tokenize oldLine) (tokenize newLine))
    as [lcs (Hr & Hso & Hsn & Hlen)].
  assert (l1 = lcs) by congruence. assert (l2 = lcs) by congruence.
  subst l1 l2.
  exists wd, wa, lcs. repeat (split; [assumption|]).
  intros s Hsa Hsb. rewrite Hlen. unfold lcs_cell.
  rewrite !firstn_all, <- length_rev.
  apply lcs_length_bound; apply subseq_rev; assumption.
Qed.

Lemma filter_all_length {A} (p : A -> bool) l :
  length (filter p l) = length l -> Forall (fun x => p x = true) l.
Proof.
  induction l as [|x l IH]; cbn [filter]; intros H; [constructor|].
  pose proof (filter_length_le p l) as Hle.
  destruct (p x) eqn:E; cbn [length] in H.
  - constructor; [exact E|]. apply IH. lia.
  - lia.
Qed.

Lemma all_normal_tokens r :
  Forall (fun w => ChangeType_eqb (wtype w) normal = true) r ->
  r = word_tokens normal (map value r).
Proof.
  induction 1 as [|[t v] r Hw _ IH]; [reflexivity|].
  cbn [map value word_tokens]. cbn in Hw.
  destruct t; try discriminate. f_equal. exact IH.
Qed.

(** X11. The word diff of a line against itself marks nothing: on either
    side it is the tokens of the line, all of kind normal. *)
Theorem identical_lines_all_normal line :
  computeLineDiff line line delete = Ok (word_tokens normal (tokenize line))
  /\ computeLineDiff line line add = Ok (word_tokens normal (tokenize line)).
Proof.
  assert (H : forall forType, forType <> normal ->
            computeLineDiff line line forType
            = Ok (word_tokens normal (tokenize line))).
  { intros forType Hft.
    destruct (computeLineDiff_normals line line forType)
      as [r [lcs (Hr & Hl & [Hd Ha] & Hn)]].
    rewrite computeLCS_same in Hl. injection Hl as <-.
    assert (Hv : map value r = tokenize line).
    { destruct forType; [apply Ha|apply Hd|congruence]; reflexivity. }
    rewrite Hr. f_equal.
    rewrite <- Hv at 1. apply all_normal_tokens.
    apply filter_all_length.
    unfold normal_values in Hn.
    rewrite <- (length_map value), Hn, <- Hv, length_map. reflexivity. }
  split; apply H; discriminate.
Qed.

(** ** Word diffs that change nothing *)

Lemma same_positions {A} (l l' : list A) :
  length l' = length l ->
  (forall k, k < length l -> nth_error l' k = nth_error l k) -> l' = l.
Proof.
  intros Hlen H. apply nth_error_ext. intros k.
  destruct (Nat.lt_ge_cases k (length l)) as [Hlt|Hge]; [apply H; exact Hlt|].
  rewrite (proj2 (nth_error_None l k)) by exact Hge.
  apply nth_error_None. lia.
Qed.

(** X12. Without an eligible replacement block (no delete run of at most 5
    lines followed at once by an add run of at most 5 lines),
    [computeHunkWordDiffs] returns the Changes as they are: pure additions,
    pure deletions and large replacements get no word diff. *)
Theorem word_diffs_pass_through cs :
  (forall s d a, block cs s d a -> ~ eligible d a) ->
  computeHunkWordDiffs cs = Ok cs.
Proof.
  intros Hno.
  destruct (wordDiffs_spec cs) as [out [Hr (Hlen & Hblk & Hout & Hcov & _)]].
  rewrite Hr. f_equal. apply same_positions; [exact Hlen|].
  intros k Hk. destruct (Hcov k Hk) as [Ho|(s & d & a & Hb & Hin)].
  - apply (Hout k Ho).
  - destruct (Hblk s d a Hb) as [_ Hne].
    apply (Hne (Hno s d a Hb) k); lia.
Qed.

Lemma word_diffs_pass_through_witness :
  computeHunkWordDiffs
    [mkChange (Some add) "one" None (Some 1%N);
     mkChange (Some add) "two" None (Some 2%N);
     mkChange (Some normal) "three" (Some 1%N) (Some 3%N)]
  = Ok [mkChange (Some add) "one" None (Some 1%N);
        mkChange (Some add) "two" None (Some 2%N);
        mkChange (Some normal) "three" (Some 1%N) (Some 3%N)].
Proof.
  apply word_diffs_pass_through.
  intros s d a (Hd & Hdel & _) _.
  specialize (Hdel s (le_n s) ltac:(lia)).
  destruct s as [|[|[|[|s]]]]; discriminate Hdel.
Defined.

(** *** Running the word diffs twice *)

Lemma annotated_kind_at cs out k t :
  wordDiffs_ok cs out -> kind_at out k t = kind_at cs k t.
Proof.
  intros (Hlen & _ & _ & _ & Hann). unfold kind_at.
  destruct (nth_error cs k) as [c|] eqn:Hc.
  - assert (Hk : k < length out)
      by (rewrite Hlen; apply nth_error_Some; congruence).
    destruct (nth_error out k) as [c'|] eqn:Hc';
      [|apply nth_error_None in Hc'; lia].
    destruct (annotation_same_line _ _ (Hann k c c' Hc Hc')) as [Ht _].
    unfold type_is. rewrite Ht. reflexivity.
  - apply nth_error_None in Hc.
    rewrite (proj2 (nth_error_None out k)) by lia. reflexivity.
Qed.

Lemma annotated_block cs out s d a :
  wordDiffs_ok cs out -> block out s d a -> block cs s d a.
Proof.
  intros Hok. unfold block.
  rewrite !(annotated_kind_at cs out _ _ Hok).
  intros (H1 & H2 & H3 & H4 & H5 & H6).
  split; [exact H1|]. split.
  { intros k K1 K2. rewrite <- (annotated_kind_at cs out _ _ Hok). auto. }
  split.
  { intros k K1 K2. rewrite <- (annotated_kind_at cs out _ _ Hok). auto. }
  auto.
Qed.

Lemma with_wordDiff_twice c w w' :
  with_wordDiff (with_wordDiff c w) w' = with_wordDiff c w'.
Proof. reflexivity. Qed.

(** [computeHunkWordDiffs] leaves its own output as it is. *)
Lemma wordDiffs_idempotent cs out :
  computeHunkWordDiffs cs = Ok out -> computeHunkWordDiffs out = Ok out.
Proof.
  intros Hr.
  destruct (wordDiffs_spec cs) as [out0 [Hr0 Hok]].
  assert (out0 = out) by congruence. subst out0.
  destruct (wordDiffs_spec out) as [out2 [Hr2 Hok2]].
  rewrite Hr2. f_equal.
  pose proof Hok as (Hlen & Hblk & _ & _ & _).
  pose proof Hok2 as (Hlen2 & Hblk2 & Hout2 & Hcov2 & _).
  apply same_positions; [exact Hlen2|].
  intros k Hk. destruct (Hcov2 k Hk) as [Ho|(s & d & a & Hb & Hin)].
  { apply (Hout2 k Ho). }
  pose proof (annotated_block _ _ _ _ _ Hok Hb) as Hb0.
  destruct (Hblk2 s d a Hb) as [He2 Hn2].
  destruct (Hblk s d a Hb0) as [He _].
  assert (Hdec : eligible d a \/ ~ eligible d a) by (unfold eligible; lia).
  destruct Hdec as [Hel|Hnel]; [|apply (Hn2 Hnel k); lia].
  destruct (He2 Hel) as (P1' & P2' & P3').
  destruct (He Hel) as (P1 & _ & _).
  assert (Hpair : forall j, j < Nat.min d a ->
            nth_error out2 (s + j) = nth_error out (s + j)
            /\ nth_error out2 (s + d + j) = nth_error out (s + d + j)).
  { intros j Hj.
    destruct (P1 j Hj) as (cd & ca & wd & wa & _ & _ & Q3 & Q4 & Q5 & Q6).
    destruct (P1' j Hj)
      as (cd' & ca' & wd' & wa' & Q1' & Q2' & Q3' & Q4' & Q5' & Q6').
    rewrite Q5 in Q1'. injection Q1' as <-.
    rewrite Q6 in Q2'. injection Q2' as <-.
    cbn [with_wordDiff content] in Q3', Q4'.
    assert (wd' = wd) by congruence. assert (wa' = wa) by congruence.
    subst wd' wa'.
    rewrite Q5, Q6, Q5', Q6', !with_wordDiff_twice. split; reflexivity. }
  destruct (Nat.lt_ge_cases k (s + Nat.min d a)) as [C1|C1].
  { replace k with (s + (k - s)) by lia. apply Hpair. lia. }
  destruct (Nat.lt_ge_cases k (s + d)) as [C2|C2]; [apply P2'; lia|].
  destruct (Nat.lt_ge_cases k (s + d + Nat.min d a)) as [C3|C3].
  { replace k with (s + d + (k - s - d)) by lia. apply Hpair. lia. }
  apply P3'; lia.
Qed.

Lemma hunk_annotated_twice h h' h'' :
  hunk_annotated h h' -> hunk_annotated h' h'' -> h'' = h'.
Proof.
  intros (_ & _ & _ & _ & _ & _ & Hc) (E1 & E2 & E3 & E4 & E5 & E6 & Hc').
  rewrite (wordDiffs_idempotent _ _ Hc) in Hc'. injection Hc' as Hc'.
  destruct h', h''. cbn in *. congruence.
Qed.

Lemma file_annotated_twice f f' f'' :
  file_annotated f f' -> file_annotated f' f'' -> f'' = f'.
Proof.
  intros (_ & _ & _ & _ & Hh) (E1 & E2 & E3 & E4 & Hh').
  assert (E5 : hunks f'' = hunks f').
  { clear E1 E2 E3 E4. revert Hh'. generalize (hunks f'').
    induction Hh as [|h h' hs hs' H _ IH]; intros l Hl; inversion Hl; subst;
      [reflexivity|].
    f_equal; [eapply hunk_annotated_twice; eauto|apply IH; assumption]. }
  destruct f', f''. cbn in *. congruence.
Qed.

(** X13. Attaching word diffs twice is attaching them once:
    [computeWordDiffs] returns its own output unchanged. *)
Theorem word_diffs_idempotent fs :
  exists fs', computeWordDiffs fs = Ok fs' /\ computeWordDiffs fs' = Ok fs'.
Proof.
  destruct (computeWordDiffs_spec fs) as [fs' [Hr Hall]].
  destruct (computeWordDiffs_spec fs') as [fs'' [Hr' Hall']].
  exists fs'. split; [exact Hr|]. rewrite Hr'. f_equal.
  clear Hr Hr'. revert fs'' Hall'.
  induction Hall as [|f f' l l' H _ IH]; intros fs'' Hall'; inversion Hall';
    subst; [reflexivity|].
  f_equal; [eapply file_annotated_twice; eauto|apply IH; assumption].
Qed.

(** ** The virtual lines of the canvas *)

Lemma forEach_push {A B} (arr : list A) (body : list B -> A -> nat -> list B)
    (g : nat * A -> list B) :
  (forall s a i, body s a i = s ++ g (i, a)) ->
  forall s, forEach arr body s = s ++ flat_map g (indexed_from 0 arr).
Proof.
  intros Hbody. unfold forEach, indexed_from. generalize 0 as k.
  induction arr as [|a arr IH]; intros k s; cbn [length seq combine fold_left flat_map].
  - rewrite app_nil_r. reflexivity.
  - rewrite IH. cbn [fst snd]. rewrite Hbody, app_assoc. reflexivity.
Qed.

(** The virtual lines are the blocks of the files, one after the other. *)
Lemma virtualLines_blocks files cf ch :
  virtualLines files cf ch = flat_map (file_block cf ch) (indexed_from 0 files).
Proof.
  unfold virtualLines.
  rewrite (forEach_push files _ (file_block cf ch)); [reflexivity|].
  intros s file fileIndex. unfold file_block. cbn [fst snd].
  destruct (set_has cf fileIndex); [reflexivity|].
  rewrite (forEach_push (hunks file) _ (hunk_block ch fileIndex)).
  - rewrite <- app_assoc. reflexivity.
  - intros s' hunk hunkIndex. unfold hunk_block. cbn [fst snd].
    destruct (hunk_collapsed ch fileIndex hunkIndex); [reflexivity|].
    rewrite (forEach_push (changes hunk) _
               (fun q => [ChangeLine fileIndex hunkIndex (fst q)])).
    + rewrite <- app_assoc. reflexivity.
    + reflexivity.
Qed.

Lemma indexed_from_cons {A} k (a : A) l :
  indexed_from k (a :: l) = (k, a) :: indexed_from (S k) l.
Proof. reflexivity. Qed.

Lemma In_indexed_from {A} (l : list A) k i a :
  In (i, a) (indexed_from k l) -> k <= i /\ nth_error l (i - k) = Some a.
Proof.
  revert k. induction l as [|x l IH]; intros k; [intros []|].
  rewrite indexed_from_cons. intros [E|Hin].
  - injection E as <- <-. rewrite Nat.sub_diag. split; [lia|reflexivity].
  - destruct (IH _ Hin) as [Hle Hn]. split; [lia|].
    replace (i - k) with (S (i - S k)) by lia. exact Hn.
Qed.

(** X14. Every virtual line refers to a file, a hunk and a Change that
    exist, whatever is collapsed: [renderLine] never returns [null] for a
    line of [virtualLines]. *)
Theorem virtual_lines_render files cf ch showLineNumbers lineNumberWidth :
  Forall (fun vLine => forall isSelected,
            renderLine files cf ch showLineNumbers lineNumberWidth vLine
              isSelected <> None)
    (virtualLines files cf ch).
Proof.
  rewrite virtualLines_blocks. apply Forall_forall. intros v Hv sel.
  apply in_flat_map in Hv. destruct Hv as [[fi f] [Hf Hv]].
  apply In_indexed_from in Hf. destruct Hf as [_ Hf].
  rewrite Nat.sub_0_r in Hf.
  unfold file_block in Hv. cbn [fst snd] in Hv.
  destruct Hv as [<-|Hv]; [cbn [renderLine]; rewrite Hf; discriminate|].
  destruct (set_has cf fi); [destruct Hv|].
  apply in_flat_map in Hv. destruct Hv as [[hi h] [Hh Hv]].
  apply In_indexed_from in Hh. destruct Hh as [_ Hh].
  rewrite Nat.sub_0_r in Hh.
  unfold hunk_block in Hv. cbn [fst snd] in Hv.
  destruct Hv as [<-|Hv]; [cbn [renderLine]; rewrite Hf, Hh; discriminate|].
  destruct (hunk_collapsed ch fi hi); [destruct Hv|].
  apply in_flat_map in Hv. destruct Hv as [[ci c] [Hc Hv]].
  apply In_indexed_from in Hc. destruct Hc as [_ Hc].
  rewrite Nat.sub_0_r in Hc.
  destruct Hv as [<-|[]]. cbn [renderLine fst]. rewrite Hf, Hh, Hc. discriminate.
Qed.

Lemma hunk_block_no_file_header ch fi p :
  filter is_file_header_line (hunk_block ch fi p) = [].
Proof.
  unfold hunk_block. cbn [filter is_file_header_line].
  destruct (hunk_collapsed ch fi (fst p)); [reflexivity|].
  induction (indexed_from 0 (changes (snd p))) as [|q l IH]; [reflexivity|].
  cbn [flat_map app filter is_file_header_line]. exact IH.
Qed.

Lemma file_block_file_header cf ch p :
  filter is_file_header_line (file_block cf ch p) = [FileHeaderLine (fst p)].
Proof.
  unfold file_block. cbn [filter is_file_header_line]. f_equal.
  destruct (set_has cf (fst p)); [reflexivity|].
  induction (indexed_from 0 (hunks (snd p))) as [|q l IH]; [reflexivity|].
  cbn [flat_map]. rewrite filter_app, hunk_block_no_file_header. exact IH.
Qed.

(** X15. Collapsing hides no file: whatever is collapsed, the file headers
    among the virtual lines are those of all the files, each once and in
    order. *)
Theorem virtual_lines_file_headers files cf ch :
  filter is_file_header_line (virtualLines files cf ch)
  = map FileHeaderLine (seq 0 (length files)).
Proof.
  rewrite virtualLines_blocks. generalize 0 as k.
  induction files as [|f files IH]; intros k; [reflexivity|].
  rewrite indexed_from_cons. cbn [flat_map length seq map].
  rewrite filter_app, file_block_file_header, IH. reflexivity.
Qed.

(** ** Collapsing and expanding *)

Lemma set_has_delete s x y :
  set_has (set_delete s x) y = set_has s y && negb (y =? x)%nat.
Proof.
  unfold set_has, set_delete.
  induction s as [|z s IH]; [reflexivity|]. cbn [filter existsb].
  destruct (z =? x)%nat eqn:Ezx; cbn [negb existsb]; rewrite IH.
  - apply Nat.eqb_eq in Ezx. subst z.
    destruct (y =? x)%nat eqn:Eyx; cbn [negb].
    + rewrite andb_false_r, andb_false_r. reflexivity.
    + rewrite !andb_true_r. reflexivity.
  - destruct (y =? z)%nat eqn:Eyz; [|reflexivity].
    apply Nat.eqb_eq in Eyz. subst z. rewrite Ezx. reflexivity.
Qed.

Lemma set_has_add s x y :
  set_has (set_add s x) y = set_has s y || (y =? x)%nat.
Proof.
  unfold set_add. destruct (set_has s x) eqn:E.
  - destruct (y =? x)%nat eqn:Eyx; [|rewrite orb_false_r; reflexivity].
    apply Nat.eqb_eq in Eyx. subst y. rewrite E. reflexivity.
  - unfold set_has. rewrite existsb_app. cbn [existsb].
    rewrite orb_false_r. reflexivity.
Qed.

(** [toggleFile] flips the membership of [fileIndex] and of nothing else. *)
Lemma set_has_toggleFile s fileIndex x :
  set_has (toggleFile s fileIndex) x
  = if (x =? fileIndex)%nat then negb (set_has s fileIndex) else set_has s x.
Proof.
  unfold toggleFile. destruct (set_has s fileIndex) eqn:E.
  - rewrite set_has_delete. destruct (x =? fileIndex)%nat eqn:Ex; cbn [negb].
    + apply andb_false_r.
    + apply andb_true_r.
  - rewrite set_has_add. destruct (x =? fileIndex)%nat eqn:Ex.
    + apply orb_true_r.
    + apply orb_false_r.
Qed.

Lemma map_get_set m k v x :
  map_get (map_set m k v) x = if (x =? k)%nat then Some v else map_get m x.
Proof.
  induction m as [|[k' v'] m IH]; cbn [map_set map_get].
  - rewrite (Nat.eqb_sym x k). reflexivity.
  - destruct (k' =? k)%nat eqn:Ek; cbn [map_get].
    + apply Nat.eqb_eq in Ek. subst k'. rewrite (Nat.eqb_sym x k).
      destruct (k =? x)%nat; reflexivity.
    + rewrite IH. destruct (k' =? x)%nat eqn:Ex; [|reflexivity].
      apply Nat.eqb_eq in Ex. subst k'. rewrite Ek. reflexivity.
Qed.

(** [toggleHunk] flips one hunk of one file and nothing else. *)
Lemma hunk_collapsed_toggleHunk m fileIndex hunkIndex x y :
  hunk_collapsed (toggleHunk m fileIndex hunkIndex) x y
  = if ((x =? fileIndex) && (y =? hunkIndex))%nat
    then negb (hunk_collapsed m fileIndex hunkIndex)
    else hunk_collapsed m x y.
Proof.
  unfold hunk_collapsed, toggleHunk. rewrite map_get_set.
  destruct (x =? fileIndex)%nat eqn:Ex; cbn [andb]; [|reflexivity].
  apply Nat.eqb_eq in Ex. subst x.
  pose proof (set_has_toggleFile
                match map_get m fileIndex with Some s => s | None => [] end
                hunkIndex y) as H.
  unfold toggleFile in H. rewrite H.
  destruct (map_get m fileIndex); reflexivity.
Qed.

Lemma hunk_block_ext ch ch' fi p :
  hunk_collapsed ch' fi (fst p) = hunk_collapsed ch fi (fst p) ->
  hunk_block ch' fi p = hunk_block ch fi p.
Proof. unfold hunk_block. intros ->. reflexivity. Qed.

Lemma file_block_ext cf ch cf' ch' p :
  set_has cf' (fst p) = set_has cf (fst p) ->
  (forall y, hunk_collapsed ch' (fst p) y = hunk_collapsed ch (fst p) y) ->
  file_block cf' ch' p = file_block cf ch p.
Proof.
  intros Hf Hh. unfold file_block. rewrite Hf. f_equal.
  destruct (set_has cf (fst p)); [reflexivity|].
  apply flat_map_ext. intros q. apply hunk_block_ext. apply Hh.
Qed.

(** The virtual lines depend on the collapsed sets through membership
    alone. *)
Lemma virtualLines_ext files cf ch cf' ch' :
  (forall x, set_has cf' x = set_has cf x) ->
  (forall x y, hunk_collapsed ch' x y = hunk_collapsed ch x y) ->
  virtualLines files cf' ch' = virtualLines files cf ch.
Proof.
  intros Hf Hh. rewrite !virtualLines_blocks. apply flat_map_ext.
  intros p. apply file_block_ext; [apply Hf|apply Hh].
Qed.

Lemma hunk_block_lines ch fi p :
  Forall (fun v => line_file v = fi /\ line_hunk v = Some (fst p))
    (hunk_block ch fi p).
Proof.
  unfold hunk_block. constructor; [split; reflexivity|].
  destruct (hunk_collapsed ch fi (fst p)); [constructor|].
  apply Forall_flat_map. apply Forall_forall. intros q _.
  constructor; [split; reflexivity|constructor].
Qed.

Lemma hunk_blocks_from ch fi k hs :
  Forall (fun v => line_file v = fi
                   /\ exists h, line_hunk v = Some h /\ k <= h)
    (flat_map (hunk_block ch fi) (indexed_from k hs)).
Proof.
  apply Forall_flat_map. apply Forall_forall. intros [hi h] Hin.
  apply In_indexed_from in Hin. destruct Hin as [Hle _].
  eapply Forall_impl; [|apply hunk_block_lines].
  cbn [fst]. intros v [H1 H2]. split; [exact H1|]. exists hi. auto.
Qed.

Lemma file_block_lines cf ch p :
  Forall (fun v => line_file v = fst p) (file_block cf ch p).
Proof.
  unfold file_block. constructor; [reflexivity|].
  destruct (set_has cf (fst p)); [constructor|].
  eapply Forall_impl; [|apply (hunk_blocks_from ch (fst p) 0)].
  intros v [H _]. exact H.
Qed.

Lemma file_blocks_from cf ch k fs :
  Forall (fun v => k <= line_file v)
    (flat_map (file_block cf ch) (indexed_from k fs)).
Proof.
  apply Forall_flat_map. apply Forall_forall. intros [fi f] Hin.
  apply In_indexed_from in Hin. destruct Hin as [Hle _].
  eapply Forall_impl; [|apply file_block_lines].
  cbn [fst]. intros v ->. exact Hle.
Qed.

Lemma nth_error_Forall {A} (P : A -> Prop) l k x :
  Forall P l -> nth_error l k = Some x -> P x.
Proof.
  intros H Hk. rewrite Forall_forall in H. apply H.
  eapply nth_error_In. exact Hk.
Qed.

(** A line found in a list of two parts is in the first or in the
    second. *)
Lemma nth_error_app_cases {A} (l1 l2 : list A) k x :
  nth_error (l1 ++ l2) k = Some x ->
  (k < length l1 /\ nth_error l1 k = Some x)
  \/ (length l1 <= k /\ nth_error l2 (k - length l1) = Some x).
Proof.
  intros H. destruct (Nat.lt_ge_cases k (length l1)) as [Hlt|Hge].
  - left. rewrite nth_error_app1 in H by exact Hlt. auto.
  - right. rewrite nth_error_app2 in H by exact Hge. auto.
Qed.

(** The header of a hunk stays where it is when the hunks before it are
    collapsed as before. *)
Lemma hunk_header_stays ch ch' fi hi hs :
  (forall y, y <> hi -> hunk_collapsed ch' fi y = hunk_collapsed ch fi y) ->
  forall k c,
    nth_error (flat_map (hunk_block ch fi) (indexed_from k hs)) c
    = Some (HunkHeaderLine fi hi) ->
    nth_error (flat_map (hunk_block ch' fi) (indexed_from k hs)) c
    = Some (HunkHeaderLine fi hi).
Proof.
  intros Hsame. induction hs as [|h hs IH]; intros k c Hc.
  - destruct c; discriminate Hc.
  - rewrite indexed_from_cons in *. cbn [flat_map] in *.
    apply nth_error_app_cases in Hc. destruct Hc as [[Hlt Hc]|[Hge Hc]].
    + pose proof (nth_error_Forall _ _ _ _ (hunk_block_lines ch fi (k, h)) Hc)
        as [_ Hh].
      cbn [line_hunk fst] in Hh. injection Hh as <-.
      destruct c as [|c].
      * reflexivity.
      * exfalso. unfold hunk_block in Hc. cbn [nth_error fst snd] in Hc.
        destruct (hunk_collapsed ch fi hi); [destruct c; discriminate Hc|].
        apply nth_error_In in Hc. apply in_flat_map in Hc.
        destruct Hc as [q [_ [E|[]]]]. discriminate E.
    + pose proof (nth_error_Forall _ _ _ _ (hunk_blocks_from ch fi (S k) hs) Hc)
        as [_ [h' [Hh Hle]]].
      cbn [line_hunk] in Hh. injection Hh as <-.
      assert (E : hunk_block ch' fi (k, h) = hunk_block ch fi (k, h)).
      { apply hunk_block_ext. apply Hsame. cbn [fst]. lia. }
      rewrite E, nth_error_app2 by exact Hge. apply IH. exact Hc.
Qed.

(** A header stays where it is when everything before it is collapsed as
    before: the header of file [fi], when the other files are as before;
    the header of hunk [hi] of file [fi], when file [fi] and its other
    hunks are as well. *)
Lemma header_stays files cf ch cf' ch' v fi :
  line_file v = fi ->
  (forall x, x <> fi -> set_has cf' x = set_has cf x) ->
  (forall x y, x <> fi -> hunk_collapsed ch' x y = hunk_collapsed ch x y) ->
  match v with
  | FileHeaderLine _ => True
  | HunkHeaderLine _ hi =>
      set_has cf' fi = set_has cf fi
      /\ forall y, y <> hi -> hunk_collapsed ch' fi y = hunk_collapsed ch fi y
  | ChangeLine _ _ _ => False
  end ->
  forall c, nth_error (virtualLines files cf ch) c = Some v ->
            nth_error (virtualLines files cf' ch') c = Some v.
Proof.
  intros Hv Hf Hh Hat. rewrite !virtualLines_blocks. generalize 0 as k.
  induction files as [|f files IH]; intros k c Hc.
  - destruct c; discriminate Hc.
  - rewrite indexed_from_cons in *. cbn [flat_map] in *.
    apply nth_error_app_cases in Hc. destruct Hc as [[Hlt Hc]|[Hge Hc]].
    + pose proof (nth_error_Forall _ _ _ _ (file_block_lines cf ch (k, f)) Hc)
        as Hk.
      cbn [fst] in Hk. rewrite Hv in Hk. subst k.
      assert (Hin : c < length (file_block cf' ch' (fi, f))
                    /\ nth_error (file_block cf' ch' (fi, f)) c = Some v).
      { unfold file_block in *. cbn [fst snd] in *.
        destruct c as [|c]; [cbn in *; split; [lia|exact Hc]|].
        cbn [nth_error] in Hc.
        destruct (set_has cf fi) eqn:Ecf; [destruct c; discriminate Hc|].
        destruct v as [x|x hi|x hi ci]; cbn [line_file] in Hv; subst x.
        - exfalso.
          pose proof (nth_error_Forall _ _ _ _ (hunk_blocks_from ch fi 0 _) Hc)
            as [_ [h' [Hl _]]].
          discriminate Hl.
        - destruct Hat as [Hcf Hother]. rewrite Hcf.
          pose proof (hunk_header_stays ch ch' fi hi (hunks f) Hother 0 c Hc)
            as Hc'.
          cbn [nth_error length]. split; [|exact Hc'].
          apply -> Nat.succ_lt_mono. apply nth_error_Some. congruence.
        - destruct Hat. }
      destruct Hin as [Hlt' Hc']. rewrite nth_error_app1 by exact Hlt'.
      exact Hc'.
    + pose proof (nth_error_Forall _ _ _ _ (file_blocks_from cf ch (S k) files) Hc)
        as Hk.
      cbn beta in Hk. rewrite Hv in Hk.
      assert (E : file_block cf' ch' (k, f) = file_block cf ch (k, f)).
      { apply file_block_ext; cbn [fst].
        - apply Hf. lia.
        - intros y. apply Hh. lia. }
      rewrite E, nth_error_app2 by exact Hge. apply IH. exact Hc.
Qed.

(** ** Jumping to a hunk or a file *)

Lemma at_index_Some {A} (l : list A) (i : Z) x :
  at_index l i = Some x ->
  (0 <= i < Z.of_nat (length l))%Z /\ nth_error l (Z.to_nat i) = Some x.
Proof.
  unfold at_index. destruct (Z.ltb_spec i 0) as [Hneg|Hpos]; [discriminate|].
  intros H. split; [|exact H].
  assert (Z.to_nat i < length l) by (apply nth_error_Some; congruence). lia.
Qed.

Lemma at_index_in_range {A} (l : list A) (i : Z) :
  (0 <= i < Z.of_nat (length l))%Z -> exists x, at_index l i = Some x.
Proof.
  intros Hi. unfold at_index.
  destruct (Z.ltb_spec i 0) as [Hneg|Hpos]; [lia|].
  destruct (nth_error l (Z.to_nat i)) as [x|] eqn:E; [exists x; reflexivity|].
  apply nth_error_None in E. lia.
Qed.

(** The loop of [findNextHunk] and [findNextFile] ends within its fuel, at
    the nearest wanted line in the direction if there is one. *)
Lemma find_line_spec lines wanted fromLine direction :
  (-1 <= fromLine <= Z.of_nat (length lines))%Z ->
  exists r, find_line lines wanted fromLine direction = Ok r
            /\ nearest_wanted lines wanted direction fromLine r
            /\ (r = fromLine \/ (0 <= r < Z.of_nat (length lines))%Z).
Proof.
  intros Hfrom. unfold find_line.
  destruct (while_rule (find_step lines wanted direction)
              (fun line => ahead direction fromLine line
                           /\ none_between lines wanted direction fromLine line)
              (fun found =>
                 match found with
                 | Some r =>
                     ahead direction fromLine r
                     /\ (exists v, at_index lines r = Some v /\ wanted v = true)
                     /\ none_between lines wanted direction fromLine r
                     /\ (0 <= r < Z.of_nat (length lines))%Z
                 | None => none_ahead lines wanted direction fromLine
                 end)
              (fun line => match direction with
                           | Forward => Z.to_nat (Z.of_nat (length lines) - line)
                           | Backward => Z.to_nat (line + 1)
                           end))
    with (fuel := S (length lines)) (s := (fromLine + delta direction)%Z)
    as [found [Hw Hpost]].
  - intros line (Ha & Hnb). unfold find_step.
    destruct ((0 <=? line)%Z && (line <? Z.of_nat (length lines))%Z) eqn:Hin;
      cbn [negb].
    + apply andb_true_iff in Hin. destruct Hin as [H0 H1].
      apply Z.leb_le in H0. apply Z.ltb_lt in H1.
      assert (Hnext : (forall v, at_index lines line = Some v ->
                                 wanted v = false) ->
                ahead direction fromLine (line + delta direction)
                /\ none_between lines wanted direction fromLine
                     (line + delta direction)).
      { intros Hline. split.
        - destruct direction; cbn [ahead delta] in *; lia.
        - intros k v K1 K2 Hk.
          assert (Hcases : k = line \/ ahead direction k line)
            by (destruct direction; cbn [ahead delta] in *; lia).
          destruct Hcases as [->|K3]; [apply Hline; exact Hk|].
          apply (Hnb k v K1 K3 Hk). }
      assert (Hless : match direction with
                      | Forward =>
                          Z.to_nat (Z.of_nat (length lines)
                                    - (line + delta direction))
                      | Backward => Z.to_nat (line + delta direction + 1)
                      end
                      < match direction with
                        | Forward => Z.to_nat (Z.of_nat (length lines) - line)
                        | Backward => Z.to_nat (line + 1)
                        end)
        by (destruct direction; cbn [delta]; lia).
      destruct (at_index lines line) as [v|] eqn:Hv.
      * destruct (wanted v) eqn:Hwv.
        -- split; [exact Ha|]. split; [exists v; auto|]. split; [exact Hnb|lia].
        -- split; [|exact Hless]. apply Hnext.
           intros v' E. injection E as <-. exact Hwv.
      * split; [|exact Hless]. apply Hnext. intros v' E. discriminate E.
    + intros k v K1 Hk. apply at_index_Some in Hk. destruct Hk as [Hr Hk].
      apply andb_false_iff in Hin.
      assert (Hcases : ahead direction k line).
      { destruct Hin as [H|H];
          [apply Z.leb_gt in H|apply Z.ltb_ge in H];
          destruct direction; cbn [ahead] in *; lia. }
      apply (Hnb k v K1 Hcases).
      unfold at_index. destruct (Z.ltb_spec k 0); [lia|exact Hk].
  - split; [destruct direction; cbn [ahead delta]; lia|].
    intros k v K1 K2. destruct direction; cbn [ahead delta] in *; lia.
  - destruct direction; cbn [delta]; lia.
  - rewrite Hw. cbn [bind]. destruct found as [r|].
    + destruct Hpost as (P1 & P2 & P3 & P4).
      exists r. split; [reflexivity|]. split; [right; auto|right; exact P4].
    + exists fromLine. split; [reflexivity|]. split; [left; auto|left; reflexivity].
Qed.

(** X16. From a line of the list, [findNextHunk] returns the nearest hunk
    header in the direction and [findNextFile] the nearest file header,
    skipping no header on the way; when there is none in that direction
    they return the line they started from. *)
Theorem find_next_nearest lines fromLine direction :
  (0 <= fromLine < Z.of_nat (length lines))%Z ->
  (exists r, findNextHunk lines fromLine direction = Ok r
             /\ nearest_wanted lines is_hunk_header_line direction fromLine r)
  /\ (exists r, findNextFile lines fromLine direction = Ok r
                /\ nearest_wanted lines is_file_header_line direction
                     fromLine r).
Proof.
  intros Hfrom. unfold findNextHunk, findNextFile. split.
  - destruct (find_line_spec lines is_hunk_header_line fromLine direction)
      as [r (Hr & Hn & _)]; [lia|]. exists r. auto.
  - destruct (find_line_spec lines is_file_header_line fromLine direction)
      as [r (Hr & Hn & _)]; [lia|]. exists r. auto.
Qed.

Lemma find_next_nearest_witness :
  (exists r, findNextHunk (virtualLines sample_files [] []) 2 Forward = Ok r
             /\ nearest_wanted (virtualLines sample_files [] [])
                  is_hunk_header_line Forward 2 r)
  /\ (exists r, findNextFile (virtualLines sample_files [] []) 2 Forward = Ok r
                /\ nearest_wanted (virtualLines sample_files [] [])
                     is_file_header_line Forward 2 r).
Proof. apply find_next_nearest. vm_compute. split; [discriminate|reflexivity]. Defined.

(** ** The cursor and the viewport *)

Lemma ensureCursorVisible_ok vh line offset :
  (1 <= vh)%Z -> (0 <= line)%Z -> (0 <= offset)%Z ->
  (0 <= ensureCursorVisible vh line offset)%Z
  /\ (ensureCursorVisible vh line offset <= line
      < ensureCursorVisible vh line offset + vh)%Z.
Proof.
  intros Hvh Hl Ho. unfold ensureCursorVisible.
  destruct (Z.ltb_spec line offset) as [H1|H1]; [lia|].
  rewrite Z.geb_leb.
  destruct (Z.leb_spec (offset + vh) line) as [H2|H2]; lia.
Qed.

Lemma jump_ok files vh s newLine :
  (1 <= vh)%Z -> (0 <= scrollOffset s)%Z ->
  (0 <= newLine < Z.of_nat (length (lines_of files s)))%Z ->
  canvas_ok (lines_of files
               (move_to s newLine
                  (ensureCursorVisible vh newLine (scrollOffset s))))
    vh (move_to s newLine (ensureCursorVisible vh newLine (scrollOffset s))).
Proof.
  intros Hvh Ho Hn.
  destruct (ensureCursorVisible_ok vh newLine (scrollOffset s) Hvh
              ltac:(lia) Ho) as [E1 E2].
  unfold canvas_ok, lines_of, move_to in *. cbn. auto.
Qed.

(** [Enter] leaves the header under the cursor where it is. *)
Lemma toggle_keeps_header files s v :
  at_index (lines_of files s) (cursorLine s) = Some v ->
  match v with
  | FileHeaderLine fileIndex =>
      at_index (virtualLines files
                  (toggleFile (collapsedFiles s) fileIndex) (collapsedHunks s))
        (cursorLine s) = Some v
  | HunkHeaderLine fileIndex hunkIndex =>
      at_index (virtualLines files (collapsedFiles s)
                  (toggleHunk (collapsedHunks s) fileIndex hunkIndex))
        (cursorLine s) = Some v
  | ChangeLine _ _ _ => True
  end.
Proof.
  unfold at_index, lines_of.
  destruct (cursorLine s <? 0)%Z; [discriminate|]. intros Hv.
  destruct v as [fi|fi hi|fi hi ci]; [| |exact I].
  - apply (header_stays files (collapsedFiles s) (collapsedHunks s) _ _
             (FileHeaderLine fi) fi); auto.
    intros x Hx. rewrite set_has_toggleFile.
    apply Nat.eqb_neq in Hx. rewrite Hx. reflexivity.
  - apply (header_stays files (collapsedFiles s) (collapsedHunks s) _ _
             (HunkHeaderLine fi hi) fi); auto.
    + intros x y Hx. rewrite hunk_collapsed_toggleHunk.
      apply Nat.eqb_neq in Hx. rewrite Hx. reflexivity.
    + split; [reflexivity|]. intros y Hy. rewrite hunk_collapsed_toggleHunk.
      apply Nat.eqb_neq in Hy. rewrite Hy, andb_false_r. reflexivity.
Qed.

(** The handler keeps the cursor on the list and inside the viewport. *)
Lemma useInput_canvas_ok files termHeight input key s :
  (1 <= viewportHeight termHeight)%Z ->
  canvas_ok (lines_of files s) (viewportHeight termHeight) s ->
  exists s' effects,
    useInput files termHeight input key s = Ok (s', effects)
    /\ canvas_ok (lines_of files s') (viewportHeight termHeight) s'.
Proof.
  intros Hvh Hok. pose proof Hok as (Ho & Hc & Hv).
  unfold useInput. cbn zeta. fold (lines_of files s).
  remember (viewportHeight termHeight) as vh eqn:Evh. clear Evh.
  assert (Hjump : forall newLine,
            (0 <= newLine < Z.of_nat (length (lines_of files s)))%Z ->
            exists s' effects,
              Ok (move_to s newLine
                    (ensureCursorVisible vh newLine (scrollOffset s)),
                  @nil Effect) = Ok (s', effects)
              /\ canvas_ok (lines_of files s') vh s').
  { intros newLine Hn. eexists. eexists. split; [reflexivity|].
    apply jump_ok; assumption. }
  assert (Hfind : forall wanted direction,
            exists s' effects,
              (newLine <- find_line (lines_of files s) wanted (cursorLine s)
                            direction ;;
               Ok (move_to s newLine
                     (ensureCursorVisible vh newLine (scrollOffset s)),
                   @nil Effect)) = Ok (s', effects)
              /\ canvas_ok (lines_of files s') vh s').
  { intros wanted direction.
    destruct (find_line_spec (lines_of files s) wanted (cursorLine s) direction)
      as [r (Hr & _ & Hrange)]; [lia|].
    rewrite Hr. cbn [bind]. apply Hjump. lia. }
  destruct (escape key || (input =? "q")); [exists s; eexists; split; eauto|].
  destruct (upArrow key || (input =? "k")); [apply Hjump; lia|].
  destruct (downArrow key || (input =? "j")); [apply Hjump; lia|].
  destruct (pageUp key).
  { eexists. eexists. split; [reflexivity|].
    unfold canvas_ok, lines_of, move_to in *. cbn. lia. }
  destruct (pageDown key).
  { eexists. eexists. split; [reflexivity|].
    unfold canvas_ok, lines_of, move_to, maxScroll in *. cbn. lia. }
  destruct (input =? "n"); [apply Hfind|].
  destruct (input =? "p"); [apply Hfind|].
  destruct (input =? "]"); [apply Hfind|].
  destruct (input =? "["); [apply Hfind|].
  destruct (key_return key); [|exists s; eexists; split; eauto].
  destruct (at_index (lines_of files s) (cursorLine s)) as [v|] eqn:Hat;
    [|exists s; eexists; split; eauto].
  pose proof (toggle_keeps_header files s v Hat) as Hkeep.
  destruct v as [fi|fi hi|fi hi ci]; [| |exists s; eexists; split; eauto];
    (eexists; eexists; split; [reflexivity|]);
    apply at_index_Some in Hkeep; destruct Hkeep as [Hr _];
    unfold canvas_ok, lines_of; cbn; auto.
Qed.

(** The same without a word on where the window lies: the scroll offset
    may be negative before the key, and is not after it unless it was. *)
Lemma useInput_cursor_visible files termHeight input key s :
  (1 <= viewportHeight termHeight)%Z ->
  cursor_visible (lines_of files s) (viewportHeight termHeight) s ->
  exists s' effects,
    useInput files termHeight input key s = Ok (s', effects)
    /\ cursor_visible (lines_of files s') (viewportHeight termHeight) s'
    /\ ((0 <= scrollOffset s)%Z -> (0 <= scrollOffset s')%Z).
Proof.
  intros Hvh Hok. pose proof Hok as (Hc & Hv).
  unfold useInput. cbn zeta. fold (lines_of files s).
  remember (viewportHeight termHeight) as vh eqn:Evh. clear Evh.
  assert (Hjump : forall newLine,
            (0 <= newLine < Z.of_nat (length (lines_of files s)))%Z ->
            exists s' effects,
              Ok (move_to s newLine
                    (ensureCursorVisible vh newLine (scrollOffset s)),
                  @nil Effect) = Ok (s', effects)
              /\ cursor_visible (lines_of files s') vh s'
              /\ ((0 <= scrollOffset s)%Z -> (0 <= scrollOffset s')%Z)).
  { intros newLine Hn. eexists. eexists. split; [reflexivity|].
    unfold cursor_visible, lines_of, move_to, ensureCursorVisible in *.
    cbn [cursorLine scrollOffset collapsedFiles collapsedHunks].
    destruct (Z.ltb_spec newLine (scrollOffset s)) as [H1|H1]; [lia|].
    rewrite Z.geb_leb.
    destruct (Z.leb_spec (scrollOffset s + vh) newLine) as [H2|H2]; lia. }
  assert (Hfind : forall wanted direction,
            exists s' effects,
              (newLine <- find_line (lines_of files s) wanted (cursorLine s)
                            direction ;;
               Ok (move_to s newLine
                     (ensureCursorVisible vh newLine (scrollOffset s)),
                   @nil Effect)) = Ok (s', effects)
              /\ cursor_visible (lines_of files s') vh s'
              /\ ((0 <= scrollOffset s)%Z -> (0 <= scrollOffset s')%Z)).
  { intros wanted direction.
    destruct (find_line_spec (lines_of files s) wanted (cursorLine s) direction)
      as [r (Hr & _ & Hrange)]; [lia|].
    rewrite Hr. cbn [bind]. apply Hjump. lia. }
  destruct (escape key || (input =? "q")); [exists s; eexists; split; eauto|].
  destruct (upArrow key || (input =? "k")); [apply Hjump; lia|].
  destruct (downArrow key || (input =? "j")); [apply Hjump; lia|].
  destruct (pageUp key).
  { eexists. eexists. split; [reflexivity|].
    unfold cursor_visible, lines_of, move_to in *. cbn. lia. }
  destruct (pageDown key).
  { eexists. eexists. split; [reflexivity|].
    unfold cursor_visible, lines_of, move_to, maxScroll in *. cbn. lia. }
  destruct (input =? "n"); [apply Hfind|].
  destruct (input =? "p"); [apply Hfind|].
  destruct (input =? "]"); [apply Hfind|].
  destruct (input =? "["); [apply Hfind|].
  destruct (key_return key); [|exists s; eexists; split; eauto].
  destruct (at_index (lines_of files s) (cursorLine s)) as [v|] eqn:Hat;
    [|exists s; eexists; split; eauto].
  pose proof (toggle_keeps_header files s v Hat) as Hkeep.
  destruct v as [fi|fi hi|fi hi ci]; [| |exists s; eexists; split; eauto];
    (eexists; eexists; split; [reflexivity|]);
    apply at_index_Some in Hkeep; destruct Hkeep as [Hr _];
    unfold cursor_visible, lines_of; cbn; auto.
Qed.

(** X17. With a viewport of at least one row, no key takes the cursor off
    the list or out of the viewport: from a state whose cursor stands on a
    virtual line and inside the viewport, wherever the scroll offset is,
    every call of the handler ends in such a state, for the list as it is
    after the key.  A scroll offset that is not negative stays so. *)
Theorem cursor_stays_visible files termHeight input key s :
  (1 <= viewportHeight termHeight)%Z ->
  cursor_visible (lines_of files s) (viewportHeight termHeight) s ->
  exists s' effects,
    useInput files termHeight input key s = Ok (s', effects)
    /\ cursor_visible (lines_of files s') (viewportHeight termHeight) s'
    /\ ((0 <= scrollOffset s)%Z -> (0 <= scrollOffset s')%Z).
Proof. apply useInput_cursor_visible. Qed.

Lemma cursor_stays_visible_witness :
  (exists s' effects,
     useInput sample_files 8 "" enter_key
       {| scrollOffset := 0; cursorLine := 1; collapsedFiles := [];
          collapsedHunks := [] |} = Ok (s', effects)
     /\ cursor_visible (lines_of sample_files s') (viewportHeight 8) s'
     /\ ((0 <= 0)%Z -> (0 <= scrollOffset s')%Z))
  /\ (exists s' effects,
        useInput sample_files 8 "j" letter_key
          {| scrollOffset := -1; cursorLine := 0; collapsedFiles := [];
             collapsedHunks := [] |} = Ok (s', effects)
        /\ cursor_visible (lines_of sample_files s') (viewportHeight 8) s'
        /\ ((0 <= -1)%Z -> (0 <= scrollOffset s')%Z)).
Proof.
  split; apply cursor_stays_visible.
  - vm_compute. discriminate.
  - vm_compute. repeat split; discriminate.
  - vm_compute. discriminate.
  - vm_compute. repeat split; discriminate.
Defined.

(** X18. [Enter] twice is no change to what is shown: the second [Enter]
    undoes the first, and the virtual lines, the cursor and the scroll
    offset are as before. *)
Theorem enter_twice files termHeight s :
  exists s1 s2 e1 e2,
    useInput files termHeight "" enter_key s = Ok (s1, e1)
    /\ useInput files termHeight "" enter_key s1 = Ok (s2, e2)
    /\ lines_of files s2 = lines_of files s
    /\ cursorLine s2 = cursorLine s /\ scrollOffset s2 = scrollOffset s.
Proof.
  unfold useInput. cbn [enter_key escape upArrow downArrow pageUp pageDown
                          key_return String.eqb orb].
  cbn zeta. fold (lines_of files s).
  destruct (at_index (lines_of files s) (cursorLine s)) as [v|] eqn:Hat.
  - pose proof (toggle_keeps_header files s v Hat) as Hkeep.
    destruct v as [fi|fi hi|fi hi ci].
    + eexists. eexists. eexists. eexists. split; [reflexivity|].
      cbn [collapsedFiles collapsedHunks cursorLine scrollOffset].
      rewrite Hkeep. split; [reflexivity|]. split; [|split; reflexivity].
      unfold lines_of. cbn [collapsedFiles collapsedHunks].
      apply virtualLines_ext; [|reflexivity].
      intros x. rewrite !set_has_toggleFile.
      destruct (x =? fi)%nat eqn:Ex; [|reflexivity].
      apply Nat.eqb_eq in Ex. subst x.
      rewrite Nat.eqb_refl, negb_involutive. reflexivity.
    + eexists. eexists. eexists. eexists. split; [reflexivity|].
      cbn [collapsedFiles collapsedHunks cursorLine scrollOffset].
      rewrite Hkeep. split; [reflexivity|]. split; [|split; reflexivity].
      unfold lines_of. cbn [collapsedFiles collapsedHunks].
      apply virtualLines_ext; [reflexivity|].
      intros x y. rewrite !hunk_collapsed_toggleHunk.
      destruct ((x =? fi) && (y =? hi))%nat eqn:Exy; [|reflexivity].
      apply andb_true_iff in Exy. destruct Exy as [Ex Ey].
      apply Nat.eqb_eq in Ex. apply Nat.eqb_eq in Ey. subst x y.
      rewrite !Nat.eqb_refl. cbn [andb]. apply negb_involutive.
    + exists s, s. eexists. eexists. split; [reflexivity|].
      fold (lines_of files s). rewrite Hat. auto.
  - exists s, s. eexists. eexists. split; [reflexivity|].
    fold (lines_of files s). rewrite Hat. auto.
Qed.

(** ** What [Enter] hides and shows *)

Lemma filter_flat_map {A B} (p : B -> bool) (g : A -> list B) l :
  filter p (flat_map g l) = flat_map (fun x => filter p (g x)) l.
Proof.
  induction l as [|x l IH]; [reflexivity|].
  cbn [flat_map]. rewrite filter_app, IH. reflexivity.
Qed.

Lemma filter_all {A} (p : A -> bool) l :
  Forall (fun x => p x = true) l -> filter p l = l.
Proof.
  induction 1 as [|x l Hx _ IH]; [reflexivity|].
  cbn [filter]. rewrite Hx, IH. reflexivity.
Qed.

(** Without the lines its header governs, the block of a file is the block
    of the file collapsed. *)
Lemma file_block_without cf cf2 ch fi p :
  (forall x, x <> fi -> set_has cf2 x = set_has cf x) ->
  set_has cf2 fi = true ->
  without_governed (FileHeaderLine fi) (file_block cf ch p)
  = file_block cf2 ch p.
Proof.
  intros Hother Hfi. unfold without_governed.
  destruct (Nat.eq_dec (fst p) fi) as [E|E].
  - unfold file_block. rewrite E, Hfi.
    cbn [filter governed line_file is_file_header_line negb].
    rewrite andb_false_r. cbn [negb]. f_equal.
    destruct (set_has cf fi); [reflexivity|].
    rewrite filter_flat_map.
    induction (indexed_from 0 (hunks (snd p))) as [|q l IH]; [reflexivity|].
    cbn [flat_map]. rewrite IH, app_nil_r.
    pose proof (hunk_block_lines ch fi q) as Hq.
    induction Hq as [|v vs [Hv1 Hv2] _ IHq]; [reflexivity|].
    cbn [filter governed]. rewrite Hv1, Nat.eqb_refl.
    destruct v; [discriminate Hv2| |]; cbn; exact IHq.
  - rewrite (file_block_ext cf ch cf2 ch p (Hother _ E) (fun _ => eq_refl)).
    apply filter_all.
    eapply Forall_impl; [|apply file_block_lines].
    intros v Hv. cbn [governed]. rewrite Hv.
    apply Nat.eqb_neq in E. rewrite E. reflexivity.
Qed.

(** Without the lines its header governs, the block of a hunk is the block
    of the hunk collapsed. *)
Lemma hunk_block_without ch ch2 fi hi x q :
  (forall a b, a <> fi \/ b <> hi ->
               hunk_collapsed ch2 a b = hunk_collapsed ch a b) ->
  hunk_collapsed ch2 fi hi = true ->
  without_governed (HunkHeaderLine fi hi) (hunk_block ch x q)
  = hunk_block ch2 x q.
Proof.
  intros Hother Hhi. unfold without_governed.
  destruct (Nat.eq_dec x fi) as [Ex|Ex];
    [destruct (Nat.eq_dec (fst q) hi) as [Ey|Ey]|].
  - subst x. unfold hunk_block. rewrite Ey, Hhi. cbn [filter governed negb].
    f_equal. destruct (hunk_collapsed ch fi hi); [reflexivity|].
    induction (indexed_from 0 (changes (snd q))) as [|c l IH]; [reflexivity|].
    cbn [flat_map app filter governed]. rewrite !Nat.eqb_refl. exact IH.
  - rewrite (hunk_block_ext ch ch2 x q) by (apply Hother; auto).
    apply filter_all.
    eapply Forall_impl; [|apply hunk_block_lines].
    intros v [_ Hv]. destruct v; cbn [governed line_hunk] in *; try reflexivity.
    injection Hv as ->. apply Nat.eqb_neq in Ey.
    rewrite Ey, andb_false_r. reflexivity.
  - rewrite (hunk_block_ext ch ch2 x q) by (apply Hother; auto).
    apply filter_all.
    eapply Forall_impl; [|apply hunk_block_lines].
    intros v [Hv _]. destruct v; cbn [governed line_file] in *; try reflexivity.
    subst. apply Nat.eqb_neq in Ex. rewrite Ex. reflexivity.
Qed.

Lemma virtualLines_without_file files cf cf2 ch fi :
  (forall x, x <> fi -> set_has cf2 x = set_has cf x) ->
  set_has cf2 fi = true ->
  without_governed (FileHeaderLine fi) (virtualLines files cf ch)
  = virtualLines files cf2 ch.
Proof.
  intros Hother Hfi. rewrite !virtualLines_blocks.
  unfold without_governed. rewrite filter_flat_map.
  apply flat_map_ext. intros p.
  apply (file_block_without cf cf2 ch fi p Hother Hfi).
Qed.

Lemma virtualLines_without_hunk files cf ch ch2 fi hi :
  (forall a b, a <> fi \/ b <> hi ->
               hunk_collapsed ch2 a b = hunk_collapsed ch a b) ->
  hunk_collapsed ch2 fi hi = true ->
  without_governed (HunkHeaderLine fi hi) (virtualLines files cf ch)
  = virtualLines files cf ch2.
Proof.
  intros Hother Hhi. rewrite !virtualLines_blocks.
  unfold without_governed. rewrite filter_flat_map.
  apply flat_map_ext. intros p. unfold file_block.
  cbn [filter governed negb]. f_equal.
  destruct (set_has cf (fst p)); [reflexivity|].
  rewrite filter_flat_map. apply flat_map_ext. intros q.
  apply (hunk_block_without ch ch2 fi hi (fst p) q Hother Hhi).
Qed.

(** X19. [Enter] on a header collapses what is expanded and expands what
    is collapsed, and touches nothing else: on the header of a file it
    hides or shows the lines of the hunks of that file, on the header of a
    hunk the lines of its Changes, and every other line stays, in order. *)
Theorem enter_hides_or_shows files termHeight s head :
  at_index (lines_of files s) (cursorLine s) = Some head ->
  is_file_header_line head || is_hunk_header_line head = true ->
  exists s',
    useInput files termHeight "" enter_key s = Ok (s', [])
    /\ is_collapsed s' head = negb (is_collapsed s head)
    /\ if is_collapsed s head
       then without_governed head (lines_of files s') = lines_of files s
       else lines_of files s' = without_governed head (lines_of files s).
Proof.
  intros Hat Hhead. unfold useInput.
  cbn [enter_key escape upArrow downArrow pageUp pageDown key_return
         String.eqb orb].
  cbn zeta. fold (lines_of files s). rewrite Hat.
  destruct head as [fi|fi hi|fi hi ci]; [| |discriminate Hhead];
    (eexists; split; [reflexivity|]);
    unfold lines_of; cbn [is_collapsed collapsedFiles collapsedHunks].
  - assert (Hother : forall x, x <> fi ->
              set_has (toggleFile (collapsedFiles s) fi) x
              = set_has (collapsedFiles s) x).
    { intros x Hx. rewrite set_has_toggleFile.
      apply Nat.eqb_neq in Hx. rewrite Hx. reflexivity. }
    assert (Hfi : set_has (toggleFile (collapsedFiles s) fi) fi
                  = negb (set_has (collapsedFiles s) fi))
      by (rewrite set_has_toggleFile, Nat.eqb_refl; reflexivity).
    split; [exact Hfi|].
    destruct (set_has (collapsedFiles s) fi) eqn:E.
    + apply virtualLines_without_file; [|exact E].
      intros x Hx. symmetry. apply Hother. exact Hx.
    + symmetry. apply virtualLines_without_file; [exact Hother|exact Hfi].
  - assert (Hother : forall a b, a <> fi \/ b <> hi ->
              hunk_collapsed (toggleHunk (collapsedHunks s) fi hi) a b
              = hunk_collapsed (collapsedHunks s) a b).
    { intros a b Hab. rewrite hunk_collapsed_toggleHunk.
      destruct ((a =? fi) && (b =? hi))%nat eqn:Eab; [|reflexivity].
      apply andb_true_iff in Eab. destruct Eab as [Ea Eb].
      apply Nat.eqb_eq in Ea. apply Nat.eqb_eq in Eb. lia. }
    assert (Hhi : hunk_collapsed (toggleHunk (collapsedHunks s) fi hi) fi hi
                  = negb (hunk_collapsed (collapsedHunks s) fi hi))
      by (rewrite hunk_collapsed_toggleHunk, !Nat.eqb_refl; reflexivity).
    split; [exact Hhi|].
    destruct (hunk_collapsed (collapsedHunks s) fi hi) eqn:E.
    + apply virtualLines_without_hunk; [|exact E].
      intros a b Hab. symmetry. apply Hother. exact Hab.
    + symmetry. apply virtualLines_without_hunk; [exact Hother|exact Hhi].
Qed.

Lemma enter_hides_or_shows_witness :
  exists s',
    useInput sample_files 8 "" enter_key
      {| scrollOffset := 0; cursorLine := 1; collapsedFiles := [];
         collapsedHunks := [] |} = Ok (s', [])
    /\ is_collapsed s' (HunkHeaderLine 0 0)
       = negb (is_collapsed {| scrollOffset := 0; cursorLine := 1;
                               collapsedFiles := []; collapsedHunks := [] |}
                 (HunkHeaderLine 0 0))
    /\ lines_of sample_files s'
       = without_governed (HunkHeaderLine 0 0)
           (lines_of sample_files
              {| scrollOffset := 0; cursorLine := 1; collapsedFiles := [];
                 collapsedHunks := [] |}).
Proof.
  apply (enter_hides_or_shows sample_files 8
           {| scrollOffset := 0; cursorLine := 1; collapsedFiles := [];
              collapsedHunks := [] |} (HunkHeaderLine 0 0));
    vm_compute; reflexivity.
Defined.

(** ** The text of a displayed line *)

Lemma shown_app xs ys : shown (xs ++ ys) = (shown xs ++ shown ys)%string.
Proof. unfold shown. rewrite map_app. apply concat_all_app. Qed.

Lemma shown_WordDiffContent ws bg :
  shown (WordDiffContent ws bg) = concat_all (map value ws).
Proof.
  unfold shown, WordDiffContent. rewrite map_map. f_equal.
  apply map_ext. intros w.
  destruct (ChangeType_eqb (wtype w) add); [reflexivity|].
  destruct (ChangeType_eqb (wtype w) delete); reflexivity.
Qed.

(** A word diff that spells the content leaves the characters of the line
    as they are. *)
Lemma with_wordDiff_same_text sln width c w :
  wordDiff c = None -> concat_all (map value w) = content c ->
  same_text sln width c (with_wordDiff c w).
Proof.
  intros Hnone Hw. unfold same_text, DiffLine.
  cbn [with_wordDiff wordDiff content oldLineNumber newLineNumber].
  replace (type_is add (with_wordDiff c w)) with (type_is add c) by reflexivity.
  replace (type_is delete (with_wordDiff c w)) with (type_is delete c)
    by reflexivity.
  rewrite Hnone, !shown_app. f_equal. f_equal.
  destruct w as [|x w]; [reflexivity|].
  rewrite shown_WordDiffContent, Hw. unfold shown. cbn [map children concat_all fold_right].
  rewrite string_app_empty_r. reflexivity.
Qed.

Lemma annotation_same_text sln width c c' :
  wordDiff c = None -> annotation_of c c' -> same_text sln width c c'.
Proof.
  intros Hnone [->|[(other & w & _ & Hw & ->)|(other & w & _ & Hw & ->)]].
  - reflexivity.
  - apply with_wordDiff_same_text; [exact Hnone|].
    destruct (computeLineDiff_spec (content c) other delete)
      as [r [Hr [Hd _]]].
    assert (r = w) by congruence. subst r.
    rewrite (proj1 (Hd eq_refl)). apply tokenize_concat.
  - apply with_wordDiff_same_text; [exact Hnone|].
    destruct (computeLineDiff_spec other (content c) add)
      as [r [Hr [_ Ha]]].
    assert (r = w) by congruence. subst r.
    rewrite (proj1 (Ha eq_refl)). apply tokenize_concat.
Qed.

Lemma Forall2_of_nth {A B} (R : A -> B -> Prop) l l' :
  length l' = length l ->
  (forall k x y, nth_error l k = Some x -> nth_error l' k = Some y -> R x y) ->
  Forall2 R l l'.
Proof.
  revert l'. induction l as [|x l IH]; intros [|y l'] Hlen H; try discriminate;
    constructor.
  - apply (H 0); reflexivity.
  - apply IH; [simpl in Hlen; lia|].
    intros k a b Ha Hb. apply (H (S k)); assumption.
Qed.

Lemma hunk_annotated_same_text sln width h h' :
  Forall (fun c => wordDiff c = None) (changes h) ->
  hunk_annotated h h' ->
  Forall2 (same_text sln width) (changes h) (changes h').
Proof.
  intros Hnone (_ & _ & _ & _ & _ & _ & Hc).
  destruct (wordDiffs_spec (changes h)) as [out [Hout (Hlen & _ & _ & _ & Hann)]].
  assert (out = changes h') by congruence. subst out.
  apply Forall2_of_nth; [exact Hlen|].
  intros k c c' Hk Hk'. apply annotation_same_text.
  - apply (nth_error_Forall _ _ _ _ Hnone Hk).
  - apply (Hann k c c' Hk Hk').
Qed.

Lemma files_annotated_same_text sln width fs fs' :
  no_word_diffs fs -> Forall2 file_annotated fs fs' ->
  files_same_text sln width fs fs'.
Proof.
  intros Hnone Hall. unfold files_same_text.
  induction Hall as [|f f' l l' (_ & _ & _ & _ & Hh) _ IH]; [constructor|].
  inversion Hnone as [|? ? Hf Hl]; subst.
  constructor; [|apply IH; exact Hl].
  clear IH Hl Hnone. induction Hh as [|h h' hs hs' H _ IHh]; [constructor|].
  inversion Hf as [|? ? Hh0 Hhs]; subst.
  constructor; [|apply IHh; exact Hhs].
  apply hunk_annotated_same_text; assumption.
Qed.

(** The parser attaches no word diff. *)
Lemma parseGitDiff_no_word_diffs diffOutput e fs :
  parseGitDiff diffOutput e = Ok fs -> no_word_diffs fs.
Proof.
  intros Hr. pose proof (parseGitDiff_hunks _ _ _ Hr) as H.
  unfold no_word_diffs. eapply Forall_impl; [|exact H].
  intros f Hf. eapply Forall_impl; [|exact Hf].
  intros h (j & next & Hp).
  destruct (parseHunk_lines _ _ _ _ _ Hp) as (_ & _ & _ & _ & _ & _ & Hc).
  clear Hp. induction Hc as [|l c ls cs (_ & _ & Hw) _ IH]; constructor; auto.
Qed.

(** X20. Word diffs change how a line is highlighted, never what it says:
    with [wordDiffEnabled] the canvas holds the same files, hunks and
    Changes as without, and the [<Text>] elements of every line carry the
    same characters. *)
Theorem word_diff_keeps_text diffInput e showLineNumbers lineNumberWidth :
  exists plain marked,
    canvas_files diffInput false e = Ok plain
    /\ canvas_files diffInput true e = Ok marked
    /\ files_same_text showLineNumbers lineNumberWidth plain marked.
Proof.
  destruct (parseGitDiff_lines diffInput e) as [fs [Hr _]].
  destruct (computeWordDiffs_spec fs) as [fs' [Hr' Hall]].
  exists fs, fs'. unfold canvas_files. rewrite Hr. cbn [bind].
  split; [reflexivity|]. split; [exact Hr'|].
  apply files_annotated_same_text; [|exact Hall].
  eapply parseGitDiff_no_word_diffs. exact Hr.
Qed.

Lemma change_of_line_displayed line c width :
  change_of_line line c -> shown (DiffLine c false width) = displayed_form line.
Proof.
  intros (Hc & Ht & Hw). unfold DiffLine, type_is. rewrite Hw, Ht, Hc.
  unfold kind_of_line, displayed_form, shown.
  destruct line as [|x rest]; [reflexivity|]. cbn [charAt0 slice1].
  destruct (x =? "+")%char eqn:E1.
  { apply Ascii.eqb_eq in E1. subst x. cbn. rewrite string_app_empty_r.
    reflexivity. }
  destruct (x =? "-")%char eqn:E2.
  { apply Ascii.eqb_eq in E2. subst x. cbn. rewrite string_app_empty_r.
    reflexivity. }
  destruct (x =? " ")%char eqn:E3.
  { apply Ascii.eqb_eq in E3. subst x. cbn. rewrite string_app_empty_r.
    reflexivity. }
  cbn. rewrite string_app_empty_r. reflexivity.
Qed.

(** X21. Parsing a hunk and displaying its Changes without line numbers
    gives the lines of the hunk back: each line that starts with [+], [-]
    or a space is shown as it stands in the diff, an empty line as one
    space, and a line that starts with anything else with a space in place
    of its first character; lines that start with a backslash are not
    shown. *)
Theorem displayed_lines_follow_diff lines j e h next lineNumberWidth :
  parseHunk lines j e = Ok (Some (h, next)) ->
  map (fun c => shown (DiffLine c false lineNumberWidth)) (changes h)
  = map displayed_form (change_lines (slice lines (j + 1) next)).
Proof.
  intros Hp.
  destruct (parseHunk_lines _ _ _ _ _ Hp) as (_ & _ & _ & _ & _ & _ & Hc).
  induction Hc as [|l c ls cs H _ IH]; [reflexivity|].
  cbn [map]. rewrite IH, (change_of_line_displayed l c _ H). reflexivity.
Qed.

Lemma displayed_lines_follow_diff_witness :
  exists h,
    parseHunk ["@@ -1,2 +1,2 @@"; " keep"; "-old"; "\ No newline"; "+new"; "";
               "oops"] 0 true = Ok (Some (h, 7))
    /\ map (fun c => shown (DiffLine c false 3)) (changes h)
       = [" keep"; "-old"; "+new"; " "; " ops"].
Proof.
  eexists. split; [vm_compute; reflexivity|].
  apply (displayed_lines_follow_diff
           ["@@ -1,2 +1,2 @@"; " keep"; "-old"; "\ No newline"; "+new"; "";
            "oops"] 0 true _ 7 3).
  vm_compute. reflexivity.
Defined.

(** ** Sequences of keys *)

(** X22. As long as the diff has a file and the viewport a row, the cursor
    never leaves the list or the viewport: after any sequence of keys from
    the first render, the handler has not failed and the cursor stands on a
    virtual line inside the viewport. *)
Theorem keys_keep_cursor_visible files termHeight keys :
  files <> [] -> (1 <= viewportHeight termHeight)%Z ->
  exists s, press_keys files termHeight keys initial_state = Ok s
            /\ canvas_ok (lines_of files s) (viewportHeight termHeight) s.
Proof.
  intros Hfiles Hvh.
  assert (H0 : canvas_ok (lines_of files initial_state)
                 (viewportHeight termHeight) initial_state).
  { unfold canvas_ok, lines_of, initial_state. cbn.
    rewrite virtualLines_blocks.
    destruct files as [|f files]; [congruence|].
    rewrite indexed_from_cons. cbn [flat_map file_block fst app length]. lia. }
  clear Hfiles. revert H0. generalize initial_state as s.
  induction keys as [|[input key] keys IH]; intros s Hok; cbn [press_keys].
  - exists s. auto.
  - destruct (useInput_canvas_ok files termHeight input key s Hvh Hok)
      as [s' [effects [Hr Hok']]].
    rewrite Hr. cbn [bind]. apply IH. exact Hok'.
Qed.

Lemma keys_keep_cursor_visible_witness :
  exists s,
    press_keys sample_files 8
      [("j", letter_key); ("", enter_key); ("n", letter_key);
       ("]", letter_key); ("k", letter_key)] initial_state = Ok s
    /\ canvas_ok (lines_of sample_files s) (viewportHeight 8) s.
Proof.
  apply keys_keep_cursor_visible.
  - discriminate.
  - vm_compute. discriminate.
Defined.

(** ** Jumping there and back *)

Lemma ahead_opposite direction a k :
  ahead (opposite direction) a k <-> ahead direction k a.
Proof. destruct direction; cbn [ahead opposite]; tauto. Qed.

(** From a wanted line, a jump that moves is undone by the jump in the
    opposite direction. *)
Lemma find_line_back lines wanted fromLine direction vLine :
  at_index lines fromLine = Some vLine -> wanted vLine = true ->
  exists r, find_line lines wanted fromLine direction = Ok r
            /\ (r <> fromLine ->
                find_line lines wanted r (opposite direction) = Ok fromLine).
Proof.
  intros Hat Hw. pose proof (at_index_Some _ _ _ Hat) as [Hrange _].
  destruct (find_line_spec lines wanted fromLine direction)
    as [r (Hr & Hn & Hin)]; [lia|].
  exists r. split; [exact Hr|]. intros Hne.
  destruct Hn as [[E _]|(Ha & _ & Hnb)]; [congruence|].
  destruct Hin as [E|Hin]; [congruence|].
  destruct (find_line_spec lines wanted r (opposite direction))
    as [r2 (Hr2 & Hn2 & _)]; [lia|].
  rewrite Hr2. f_equal.
  destruct Hn2 as [[_ Hnone]|(Ha2 & [v2 [Hv2 Hw2]] & Hnb2)].
  - exfalso. specialize (Hnone fromLine vLine).
    rewrite ahead_opposite in Hnone.
    rewrite (Hnone Ha Hat) in Hw. discriminate.
  - rewrite ahead_opposite in Ha2.
    assert (Hcases : r2 = fromLine \/ ahead direction fromLine r2
                     \/ ahead direction r2 fromLine)
      by (destruct direction; cbn [ahead] in *; lia).
    destruct Hcases as [E|[C|C]]; [exact E|exfalso|exfalso].
    + rewrite (Hnb r2 v2 C Ha2 Hv2) in Hw2. discriminate.
    + assert (K : wanted vLine = false).
      { apply (Hnb2 fromLine vLine); [|rewrite ahead_opposite; exact C|exact Hat].
        rewrite ahead_opposite. exact Ha. }
      congruence.
Qed.

(** X23. Jumping back undoes a jump: from a hunk header, when
    [findNextHunk] moves to another line, [findNextHunk] from there in the
    opposite direction returns to the first; so it is with [findNextFile]
    from a file header. *)
Theorem jump_there_and_back lines direction :
  (forall atHunk fi hi,
      at_index lines atHunk = Some (HunkHeaderLine fi hi) ->
      exists r, findNextHunk lines atHunk direction = Ok r
                /\ (r <> atHunk ->
                    findNextHunk lines r (opposite direction) = Ok atHunk))
  /\ (forall atFile fi,
        at_index lines atFile = Some (FileHeaderLine fi) ->
        exists r, findNextFile lines atFile direction = Ok r
                  /\ (r <> atFile ->
                      findNextFile lines r (opposite direction) = Ok atFile)).
Proof.
  unfold findNextHunk, findNextFile.
  split; intros; eapply find_line_back; eauto.
Qed.

Lemma jump_there_and_back_witness :
  (findNextHunk (virtualLines sample_files [] []) 1 Forward = Ok 4%Z
   /\ findNextHunk (virtualLines sample_files [] []) 4 Backward = Ok 1%Z)
  /\ (findNextFile (virtualLines sample_files [] []) 0 Forward = Ok 6%Z
      /\ findNextFile (virtualLines sample_files [] []) 6 Backward = Ok 0%Z).
Proof.
  split.
  - destruct (proj1 (jump_there_and_back (virtualLines sample_files [] [])
                       Forward) 1%Z 0 0) as (r & Hr & Hback);
      [vm_compute; reflexivity|].
    assert (E : r = 4%Z) by (vm_compute in Hr; congruence).
    subst r. split; [exact Hr|]. apply Hback. discriminate.
  - destruct (proj2 (jump_there_and_back (virtualLines sample_files [] [])
                       Forward) 0%Z 0) as (r & Hr & Hback);
      [vm_compute; reflexivity|].
    assert (E : r = 6%Z) by (vm_compute in Hr; congruence).
    subst r. split; [exact Hr|]. apply Hback. discriminate.
Defined.

(** ** Parsing one text after another *)

(** *** Two loops in step *)

Lemma while_fuel_mono {St R} (step : St -> result (iter St R)) fuel s r :
  while step fuel s = Ok r ->
  forall fuel', fuel <= fuel' -> while step fuel' s = Ok r.
Proof.
  revert s. induction fuel as [|fuel IH]; intros s H fuel' Hle;
    [discriminate H|].
  destruct fuel' as [|fuel']; [lia|].
  rewrite while_S in *.
  destruct (step s) as [[s'|r']|err]; [|exact H|exact H].
  apply IH; [exact H|lia].
Qed.

Section Simulation.

Context {S1 S2 R1 : Type} {R2 : Type}.
Variable step1 : S1 -> result (iter S1 R1).
Variable step2 : S2 -> result (iter S2 R2).
Variable Rel : S1 -> S2 -> Prop.
Variable Fin : R1 -> S2 -> Prop.

(** Every iteration of the first loop is matched by an iteration of the
    second or by none, and the first loop ends where [Fin] holds. *)
Hypothesis Hstep : forall s1 s2, Rel s1 s2 ->
  match step1 s1 with
  | Ok (Next s1') =>
      Rel s1' s2 \/ exists s2', step2 s2 = Ok (Next s2') /\ Rel s1' s2'
  | Ok (Done r1) => Fin r1 s2
  | Err _ => True
  end.

(** Then the second loop, run from a related state, reaches a state where
    [Fin] holds for the outcome of the first, within the fuel of the
    first. *)
Lemma while_follows fuel :
  forall s1 s2 r1,
    Rel s1 s2 -> while step1 fuel s1 = Ok r1 ->
    exists s2', Fin r1 s2'
                /\ forall f r, while step2 f s2' = Ok r ->
                               while step2 (fuel + f) s2 = Ok r.
Proof.
  induction fuel as [|fuel IH]; intros s1 s2 r1 HR H; [discriminate H|].
  rewrite while_S in H. pose proof (Hstep s1 s2 HR) as Hs.
  destruct (step1 s1) as [[s1'|r1']|err]; [| |discriminate H].
  - destruct Hs as [HR'|[s2' [E2 HR']]].
    + destruct (IH _ _ _ HR' H) as [s2' [HF Hrun]].
      exists s2'. split; [exact HF|].
      intros f r Hf. apply (while_fuel_mono _ (fuel + f)); [auto|lia].
    + destruct (IH _ _ _ HR' H) as [s2'' [HF Hrun]].
      exists s2''. split; [exact HF|].
      intros f r Hf. cbn [Nat.add]. rewrite while_S, E2. auto.
  - injection H as <-. exists s2. split; [exact Hs|].
    intros f r Hf. apply (while_fuel_mono _ f); [exact Hf|lia].
Qed.

End Simulation.

(** Two loops that also end in step give related outcomes, the second
    within the fuel of the first. *)
Lemma while_sim {S1 S2 R1 R2} (step1 : S1 -> result (iter S1 R1))
    (step2 : S2 -> result (iter S2 R2)) (Rel : S1 -> S2 -> Prop)
    (Q : R1 -> R2 -> Prop) :
  (forall s1 s2, Rel s1 s2 ->
     match step1 s1 with
     | Ok (Next s1') =>
         Rel s1' s2 \/ exists s2', step2 s2 = Ok (Next s2') /\ Rel s1' s2'
     | Ok (Done r1) => exists r2, step2 s2 = Ok (Done r2) /\ Q r1 r2
     | Err _ => True
     end) ->
  forall fuel s1 s2 r1,
    Rel s1 s2 -> while step1 fuel s1 = Ok r1 ->
    exists r2, while step2 fuel s2 = Ok r2 /\ Q r1 r2.
Proof.
  intros Hstep fuel.
  induction fuel as [|fuel IH]; intros s1 s2 r1 HR H; [discriminate H|].
  rewrite while_S in H. pose proof (Hstep s1 s2 HR) as Hs.
  destruct (step1 s1) as [[s1'|r1']|err]; [| |discriminate H].
  - destruct Hs as [HR'|[s2' [E2 HR']]].
    + destruct (IH _ _ _ HR' H) as [r2 [Hr2 HQ]].
      exists r2. split; [|exact HQ].
      apply (while_fuel_mono _ fuel); [exact Hr2|lia].
    + destruct (IH _ _ _ HR' H) as [r2 [Hr2 HQ]].
      exists r2. split; [|exact HQ]. rewrite while_S, E2. exact Hr2.
  - injection H as <-. destruct Hs as [r2 [E2 HQ]].
    exists r2. split; [|exact HQ]. rewrite while_S, E2. reflexivity.
Qed.

(** *** The loops of the parser on a window *)

Lemma window_line ls1 ls2 d hi i :
  same_window ls1 ls2 d hi -> i < hi ->
  exists line, nth_error ls1 i = Some line /\ nth_error ls2 (i + d) = Some line
               /\ get ls1 i = Ok line /\ get ls2 (i + d) = Ok line
               /\ (i <? length ls1)%nat = true
               /\ (i + d <? length ls2)%nat = true.
Proof.
  intros (_ & Hhi & Hsame & _) Hi.
  assert (Hlt : i < length ls1) by lia.
  destruct (get_lt ls1 i Hlt) as [line [Hg Hn]].
  exists line. specialize (Hsame i Hi). rewrite Hn in Hsame.
  assert (Hlt2 : i + d < length ls2) by (apply nth_error_Some; congruence).
  unfold get. rewrite Hsame, Hn.
  repeat split; auto; apply Nat.ltb_lt; assumption.
Qed.

(** Past the window the second text has nothing for the loops of a file. *)
Lemma window_end_2 ls1 ls2 d hi :
  same_window ls1 ls2 d hi ->
  (hi + d <? length ls2)%nat = false
  \/ exists line, (hi + d <? length ls2)%nat = true
                  /\ get ls2 (hi + d) = Ok line
                  /\ startsWith line "diff --git" = true.
Proof.
  intros (_ & _ & _ & _ & Hstop & _). unfold file_stopped in Hstop.
  destruct (nth_error ls2 (hi + d)) as [line|] eqn:E.
  - right. exists line. unfold get. rewrite E.
    split; [|auto]. apply Nat.ltb_lt. apply nth_error_Some. congruence.
  - left. apply Nat.ltb_ge. apply nth_error_None. exact E.
Qed.

(** Past the window the first text has nothing at all, or an empty last
    line. *)
Lemma window_end_1 ls1 ls2 d hi :
  same_window ls1 ls2 d hi ->
  ((hi <? length ls1)%nat = false /\ length ls1 = hi)
  \/ ((hi <? length ls1)%nat = true /\ get ls1 hi = Ok ""
      /\ length ls1 = hi + 1).
Proof.
  intros (_ & Hhi & _ & _ & _ & [Hnone|[Hsome Hlen]]).
  - left. apply nth_error_None in Hnone. split; [apply Nat.ltb_ge|]; lia.
  - right. unfold get. rewrite Hsome. split; [apply Nat.ltb_lt; lia|auto].
Qed.

Lemma parseHunk_step_window ls1 ls2 d hi s1 s2 :
  same_window ls1 ls2 d hi -> hunk_rel d hi s1 s2 ->
  match parseHunk_step ls1 s1 with
  | Ok (Next s1') =>
      hunk_rel d hi s1' s2
      \/ exists s2', parseHunk_step ls2 s2 = Ok (Next s2') /\ hunk_rel d hi s1' s2'
  | Ok (Done r1) =>
      exists r2, parseHunk_step ls2 s2 = Ok (Done r2) /\ hunk_rel d hi r1 r2
  | Err _ => True
  end.
Proof.
  intros Hw Hrel. pose proof Hrel as (Hi & Hi2 & Ho & Hn & Hc).
  unfold parseHunk_step. rewrite Hi2.
  destruct (Nat.lt_ge_cases (h_i s1) hi) as [Hlt|Hge].
  - destruct (window_line _ _ _ _ _ Hw Hlt)
      as [line (_ & _ & G1 & G2 & B1 & B2)].
    rewrite B1, B2, G1, G2. cbn [negb bind].
    destruct Hw as (_ & _ & _ & Hlast & _).
    rewrite <- (Hlast _ Hlt).
    destruct (startsWith line "@@" || startsWith line "diff --git").
    { exists s2. split; [reflexivity|exact Hrel]. }
    destruct ((line =? "") && (h_i s1 =? length ls1 - 1)%nat).
    { exists s2. split; [reflexivity|exact Hrel]. }
    right. eexists. split; [reflexivity|].
    unfold hunk_rel. rewrite !parseHunk_line_index.
    unfold parseHunk_line. rewrite Ho, Hn, Hc.
    split; [lia|]. split; [lia|].
    destruct (charAt0 line) as [c|];
      repeat match goal with
             | |- context [if ?b then _ else _] => destruct b
             end; cbn; auto.
  - assert (E : h_i s1 = hi) by lia. rewrite E.
    assert (Done2 : exists r2,
               (if negb (hi + d <? length ls2)%nat then Ok (Done s2)
                else line <- get ls2 (hi + d) ;;
                     (if startsWith line "@@" || startsWith line "diff --git"
                      then Ok (Done s2)
                      else if (line =? "") && (hi + d =? length ls2 - 1)%nat
                           then Ok (Done s2)
                           else Ok (Next (parseHunk_line line s2))))
               = Ok (Done r2) /\ hunk_rel d hi s1 r2).
    { exists s2. split; [|exact Hrel].
      destruct (window_end_2 _ _ _ _ Hw) as [B|[line (B & G & Hd)]];
        rewrite B; cbn [negb]; [reflexivity|].
      rewrite G. cbn [bind]. rewrite Hd, orb_true_r. reflexivity. }
    destruct (window_end_1 _ _ _ _ Hw) as [[B _]|(B & G & Hlen)];
      rewrite B; cbn [negb]; [exact Done2|].
    rewrite G. cbn [bind startsWith String.prefix orb String.eqb andb].
    replace (hi =? length ls1 - 1)%nat with true
      by (symmetry; apply Nat.eqb_eq; lia).
    exact Done2.
Qed.

(** [parseHunk] returns in the second text what it returns in the first,
    [d] lines further down. *)
Lemma parseHunk_window ls1 ls2 d hi e j r1 :
  same_window ls1 ls2 d hi -> j < hi ->
  parseHunk ls1 j e = Ok r1 ->
  exists r2, parseHunk ls2 (j + d) e = Ok r2 /\ hunk_result_rel d hi r1 r2.
Proof.
  intros Hw Hj Hp. unfold parseHunk in *.
  destruct (window_line _ _ _ _ _ Hw Hj) as [line (_ & _ & G1 & G2 & _)].
  rewrite G1 in Hp. rewrite G2. cbn [bind] in *.
  destruct (match_hunk_header line) as [m|].
  - match type of Hp with
    | context [while ?st ?fuel ?s0] =>
        destruct (while st fuel s0) as [s1|err] eqn:Hw1; [|discriminate Hp]
    end.
    cbn [bind] in Hp. injection Hp as <-.
    match type of Hw1 with
    | while _ ?fuel ?s0 = _ =>
        destruct (while_sim (parseHunk_step ls1) (parseHunk_step ls2)
                    (hunk_rel d hi) (hunk_rel d hi)
                    (fun a b => parseHunk_step_window ls1 ls2 d hi a b Hw)
                    fuel s0
                    {| h_i := j + d + 1; currentOldLine := currentOldLine s0;
                       currentNewLine := currentNewLine s0; h_changes := [] |}
                    s1) as [s2 [Hw2 HQ]]; [|exact Hw1|]
    end.
    { unfold hunk_rel. cbn [h_i currentOldLine currentNewLine h_changes].
      repeat split; try reflexivity; lia. }
    cbn [currentOldLine currentNewLine] in Hw2.
    rewrite (while_fuel_mono _ _ _ _ Hw2)
      by (destruct Hw as (Hlen & _); lia).
    cbn [bind]. eexists. split; [reflexivity|].
    destruct HQ as (Q1 & Q2 & Q3 & Q4 & Q5).
    cbn [hunk_result_rel]. rewrite Q5. auto.
  - injection Hp as <-. exists None. split; [reflexivity|exact I].
Qed.

Lemma index_rel_next ls1 d hi i :
  i < hi -> index_rel ls1 d hi (i + 1) (i + d + 1).
Proof. intros H. left. lia. Qed.

Lemma metadata_step_window ls1 ls2 d hi i1 i2 st :
  same_window ls1 ls2 d hi -> index_rel ls1 d hi i1 i2 ->
  match metadata_step ls1 (i1, st) with
  | Ok (Next (i1', st1)) =>
      (index_rel ls1 d hi i1' i2 /\ st1 = st)
      \/ exists i2', metadata_step ls2 (i2, st) = Ok (Next (i2', st1))
                     /\ index_rel ls1 d hi i1' i2'
  | Ok (Done (i1', st1)) =>
      exists i2', metadata_step ls2 (i2, st) = Ok (Done (i2', st1))
                  /\ index_rel ls1 d hi i1' i2'
  | Err _ => True
  end.
Proof.
  intros Hw Hrel.
  assert (Hend2 : metadata_step ls2 (hi + d, st) = Ok (Done (hi + d, st))).
  { destruct Hw as (_ & _ & _ & _ & Hstop & _). unfold file_stopped in Hstop.
    destruct (nth_error ls2 (hi + d)) as [line|] eqn:E.
    - rewrite (metadata_step_line _ _ st _ E), Hstop. reflexivity.
    - apply metadata_step_end. exact E. }
  destruct Hrel as [[Hi ->]|(-> & Hlen & ->)].
  - destruct (Nat.lt_ge_cases i1 hi) as [Hlt|Hge].
    + destruct (window_line _ _ _ _ _ Hw Hlt) as [line (N1 & N2 & _)].
      rewrite (metadata_step_line _ _ st _ N1), (metadata_step_line _ _ st _ N2).
      destruct (startsWith line "diff --git");
        [exists (i1 + d); split; [reflexivity|left; lia]|].
      destruct (startsWith line "@@");
        [exists (i1 + d); split; [reflexivity|left; lia]|].
      destruct (startsWith line "Binary files");
        [exists (i1 + d + 1); split; [reflexivity|left; lia]|].
      right. exists (i1 + d + 1). split; [reflexivity|left; lia].
    + assert (i1 = hi) by lia. subst i1.
      destruct (window_end_1 _ _ _ _ Hw) as [[_ Hlen]|(_ & G & Hlen)].
      * rewrite metadata_step_end by (apply nth_error_None; lia).
        exists (hi + d). split; [exact Hend2|left; lia].
      * assert (N : nth_error ls1 hi = Some "")
          by (unfold get in G; destruct (nth_error ls1 hi); congruence).
        rewrite (metadata_step_line _ _ st _ N).
        cbn [startsWith String.prefix status_marker].
        left. split; [right; lia|reflexivity].
  - rewrite metadata_step_end by (apply nth_error_None; lia).
    exists (hi + d). split; [exact Hend2|right; lia].
Qed.

Lemma hunks_step_window ls1 ls2 d hi e i1 i2 hs :
  same_window ls1 ls2 d hi -> index_rel ls1 d hi i1 i2 ->
  match hunks_step ls1 e (i1, hs) with
  | Ok (Next (i1', hs1)) =>
      (index_rel ls1 d hi i1' i2 /\ hs1 = hs)
      \/ exists i2', hunks_step ls2 e (i2, hs) = Ok (Next (i2', hs1))
                     /\ index_rel ls1 d hi i1' i2'
  | Ok (Done (i1', hs1)) =>
      exists i2', hunks_step ls2 e (i2, hs) = Ok (Done (i2', hs1))
                  /\ index_rel ls1 d hi i1' i2'
  | Err _ => True
  end.
Proof.
  intros Hw Hrel.
  assert (Hend2 : hunks_step ls2 e (hi + d, hs) = Ok (Done (hi + d, hs))).
  { unfold hunks_step.
    destruct (window_end_2 _ _ _ _ Hw) as [B|[line (B & G & Hd)]];
      rewrite B; cbn [negb]; [reflexivity|].
    rewrite G. cbn [bind]. rewrite Hd. reflexivity. }
  destruct Hrel as [[Hi ->]|(-> & Hlen & ->)].
  - destruct (Nat.lt_ge_cases i1 hi) as [Hlt|Hge].
    + destruct (window_line _ _ _ _ _ Hw Hlt)
        as [line (_ & _ & G1 & G2 & B1 & B2)].
      unfold hunks_step. rewrite B1, B2, G1, G2. cbn [negb bind].
      destruct (startsWith line "diff --git");
        [exists (i1 + d); split; [reflexivity|left; lia]|].
      destruct (startsWith line "@@");
        [|right; exists (i1 + d + 1); split; [reflexivity|left; lia]].
      destruct (parseHunk ls1 i1 e) as [r1|err] eqn:Hp; [|exact I].
      destruct (parseHunk_window _ _ _ _ e _ _ Hw Hlt Hp) as [r2 [Hp2 HQ]].
      rewrite Hp2. cbn [bind].
      destruct r1 as [[h1 n1]|], r2 as [[h2 n2]|]; cbn in HQ; try contradiction.
      * destruct HQ as (-> & Hn1 & ->).
        right. exists (n1 + d). split; [reflexivity|left; lia].
      * right. exists (i1 + d + 1). split; [reflexivity|left; lia].
    + assert (i1 = hi) by lia. subst i1.
      destruct (window_end_1 _ _ _ _ Hw) as [[B Hlen]|(B & G & Hlen)].
      * unfold hunks_step at 1. rewrite B. cbn [negb].
        exists (hi + d). split; [exact Hend2|left; lia].
      * unfold hunks_step at 1. rewrite B, G.
        cbn [negb bind startsWith String.prefix].
        left. split; [right; lia|reflexivity].
  - unfold hunks_step at 1.
    replace (hi + 1 <? length ls1)%nat with false
      by (symmetry; apply Nat.ltb_ge; lia).
    cbn [negb]. exists (hi + d). split; [exact Hend2|right; lia].
Qed.

(** [parseFile] returns in the second text the file it returns in the
    first. *)
Lemma parseFile_window ls1 ls2 d hi e i r1 :
  same_window ls1 ls2 d hi -> i < hi ->
  parseFile ls1 i e = Ok r1 ->
  exists r2, parseFile ls2 (i + d) e = Ok r2 /\ file_result_rel ls1 d hi r1 r2.
Proof.
  intros Hw Hi Hp. unfold parseFile in *.
  pose proof Hw as (Hlen & _).
  destruct (window_line _ _ _ _ _ Hw Hi) as [line (_ & _ & G1 & G2 & _)].
  rewrite G1 in Hp. rewrite G2. cbn [bind] in *.
  destruct (match_git_line line) as [[o n]|];
    [|injection Hp as <-; exists None; split; [reflexivity|exact I]].
  destruct (while (metadata_step ls1) (S (length ls1)) (i + 1, modified))
    as [[i1 st]|err] eqn:Hm; [|discriminate Hp].
  cbn [bind] in Hp.
  destruct (while (hunks_step ls1 e) (S (length ls1)) (i1, []))
    as [[j1 hs]|err] eqn:Hh; [|discriminate Hp].
  cbn [bind] in Hp. injection Hp as <-.
  destruct (while_sim (metadata_step ls1) (metadata_step ls2)
              (fun s1 s2 => index_rel ls1 d hi (fst s1) (fst s2)
                            /\ snd s2 = snd s1)
              (fun s1 s2 => index_rel ls1 d hi (fst s1) (fst s2)
                            /\ snd s2 = snd s1))
    with (fuel := S (length ls1)) (s1 := (i + 1, modified))
         (s2 := (i + d + 1, modified)) (r1 := (i1, st))
    as [[i2 st2] [Hm2 [Hrel Hst]]].
  { intros [a sa] [b sb] [Hab Hs]. cbn [fst snd] in *. subst sb.
    pose proof (metadata_step_window ls1 ls2 d hi a b sa Hw Hab) as H.
    destruct (metadata_step ls1 (a, sa)) as [[[a' sa']|[a' sa']]|]; [| |exact I].
    - destruct H as [[H1 H2]|[b' [H1 H2]]].
      + left. cbn [fst snd]. auto.
      + right. exists (b', sa'). cbn [fst snd]. auto.
    - destruct H as [b' [H1 H2]]. exists (b', sa'). cbn [fst snd]. auto. }
  { cbn [fst snd]. split; [left; lia|reflexivity]. }
  { exact Hm. }
  cbn [fst snd] in Hrel, Hst. subst st2.
  rewrite (while_fuel_mono _ _ _ _ Hm2) by lia. cbn [bind].
  destruct (while_sim (hunks_step ls1 e) (hunks_step ls2 e)
              (fun s1 s2 => index_rel ls1 d hi (fst s1) (fst s2)
                            /\ snd s2 = snd s1)
              (fun s1 s2 => index_rel ls1 d hi (fst s1) (fst s2)
                            /\ snd s2 = snd s1))
    with (fuel := S (length ls1)) (s1 := (i1, @nil DiffHunk))
         (s2 := (i2, @nil DiffHunk)) (r1 := (j1, hs))
    as [[j2 hs2] [Hh2 [Hrel2 Hhs]]].
  { intros [a sa] [b sb] [Hab Hs]. cbn [fst snd] in *. subst sb.
    pose proof (hunks_step_window ls1 ls2 d hi e a b sa Hw Hab) as H.
    destruct (hunks_step ls1 e (a, sa)) as [[[a' sa']|[a' sa']]|]; [| |exact I].
    - destruct H as [[H1 H2]|[b' [H1 H2]]].
      + left. cbn [fst snd]. auto.
      + right. exists (b', sa'). cbn [fst snd]. auto.
    - destruct H as [b' [H1 H2]]. exists (b', sa'). cbn [fst snd]. auto. }
  { cbn [fst snd]. auto. }
  { exact Hh. }
  cbn [fst snd] in Hrel2, Hhs. subst hs2.
  rewrite (while_fuel_mono _ _ _ _ Hh2) by lia. cbn [bind].
  eexists. split; [reflexivity|]. cbn [file_result_rel]. auto.
Qed.

(** The loop over the files, run on the second text from the lines that
    stand for the first, comes to the end of the window with the files of
    the first text added. *)
Lemma parseGitDiff_window ls1 ls2 d hi e files0 files1 :
  same_window ls1 ls2 d hi ->
  while (parseGitDiff_step ls1 e) (S (length ls1)) (0, []) = Ok files1 ->
  forall f r,
    while (parseGitDiff_step ls2 e) f (hi + d, files0 ++ files1) = Ok r ->
    while (parseGitDiff_step ls2 e) (S (length ls1) + f) (d, files0) = Ok r.
Proof.
  intros Hw H1.
  destruct (while_follows (parseGitDiff_step ls1 e) (parseGitDiff_step ls2 e)
              (fun s1 s2 => index_rel ls1 d hi (fst s1) (fst s2)
                            /\ snd s2 = files0 ++ snd s1)
              (fun r1 s2 => s2 = (hi + d, files0 ++ r1)))
    with (fuel := S (length ls1)) (s1 := (0, @nil DiffFile))
         (s2 := (d, files0)) (r1 := files1)
    as [s2' [-> Hrun]]; [| |exact H1|exact Hrun].
  - intros [i1 fs1] [i2 fs2] [Hrel Hfs]. cbn [fst snd] in *. subst fs2.
    destruct Hrel as [[Hi ->]|(-> & Hlen & ->)].
    + destruct (Nat.lt_ge_cases i1 hi) as [Hlt|Hge].
      * destruct (window_line _ _ _ _ _ Hw Hlt)
          as [line (_ & _ & G1 & G2 & B1 & B2)].
        unfold parseGitDiff_step. rewrite B1, B2, G1, G2. cbn [negb bind].
        destruct (startsWith line "diff --git");
          [|right; eexists; split; [reflexivity|];
            cbn [fst snd]; split; [left; lia|reflexivity]].
        destruct (parseFile ls1 i1 e) as [r1|err] eqn:Hp; [|exact I].
        destruct (parseFile_window _ _ _ _ e _ _ Hw Hlt Hp) as [r2 [Hp2 HQ]].
        rewrite Hp2. cbn [bind].
        destruct r1 as [[f1 n1]|], r2 as [[f2 n2]|]; cbn in HQ;
          try contradiction.
        -- destruct HQ as [-> Hn]. right. eexists. split; [reflexivity|].
           cbn [fst snd]. split; [exact Hn|]. rewrite app_assoc. reflexivity.
        -- right. eexists. split; [reflexivity|].
           cbn [fst snd]. split; [left; lia|reflexivity].
      * assert (i1 = hi) by lia. subst i1. unfold parseGitDiff_step.
        destruct (window_end_1 _ _ _ _ Hw) as [[B Hlen]|(B & G & Hlen)];
          rewrite B; cbn [negb]; [reflexivity|].
        rewrite G. cbn [bind startsWith String.prefix].
        left. cbn [fst snd]. split; [right; lia|reflexivity].
    + unfold parseGitDiff_step.
      replace (hi + 1 <? length ls1)%nat with false
        by (symmetry; apply Nat.ltb_ge; lia).
      reflexivity.
  - cbn [fst snd]. split; [left; lia|rewrite app_nil_r; reflexivity].
Qed.

(** *** The lines of two texts put together *)

Lemma split_lines_app x y :
  split_lines (x ++ String LF y) = split_lines x ++ split_lines y.
Proof.
  induction x as [|c x IH]; [reflexivity|].
  cbn [String.append split_lines]. rewrite IH.
  destruct (c =? LF)%char; [reflexivity|].
  pose proof (split_lines_nonempty x) as Hne.
  destruct (split_lines x) as [|l ls]; [congruence|reflexivity].
Qed.

(** A text and its first line start alike, up to the first line feed. *)
Lemma first_line_starts p s l ls :
  all_dot p = true -> String.prefix p s = true -> split_lines s = l :: ls ->
  String.prefix p l = true.
Proof.
  revert s l ls. induction p as [|a p IH]; intros s l ls Hdot Hp Hs.
  - destruct l; reflexivity.
  - destruct s as [|b s]; [discriminate Hp|].
    cbn [String.prefix] in Hp.
    destruct (Ascii.ascii_dec a b) as [<-|]; [|discriminate Hp].
    cbn [all_dot] in Hdot. apply andb_true_iff in Hdot.
    destruct Hdot as [Ha Hdot]. unfold is_dot in Ha.
    apply andb_true_iff in Ha. destruct Ha as [Ha _].
    cbn [split_lines] in Hs. destruct (a =? LF)%char; [discriminate Ha|].
    pose proof (split_lines_nonempty s) as Hne.
    destruct (split_lines s) as [|l' ls'] eqn:E; [congruence|].
    injection Hs as <- <-. cbn [String.prefix].
    destruct (Ascii.ascii_dec a a); [|congruence].
    apply (IH s l' ls' Hdot Hp E).
Qed.

Lemma window_before (A B : list string) b :
  startsWith b "diff --git" = true ->
  same_window (A ++ [""]) (A ++ b :: B) 0 (length A).
Proof.
  intros Hb. unfold same_window. rewrite !length_app. cbn [length].
  split; [lia|]. split; [lia|]. split; [|split; [|split]].
  - intros i Hi. rewrite Nat.add_0_r, !nth_error_app1 by exact Hi. reflexivity.
  - intros i Hi.
    replace (i =? length A + 1 - 1)%nat with false
      by (symmetry; apply Nat.eqb_neq; lia).
    symmetry. apply Nat.eqb_neq. lia.
  - unfold file_stopped.
    rewrite Nat.add_0_r, nth_error_app2, Nat.sub_diag by lia. exact Hb.
  - right. rewrite nth_error_app2, Nat.sub_diag by lia. split; reflexivity.
Qed.

Lemma window_after (A B : list string) :
  same_window B (A ++ B) (length A) (length B).
Proof.
  unfold same_window. rewrite !length_app.
  split; [lia|]. split; [lia|]. split; [|split; [|split]].
  - intros i Hi. rewrite nth_error_app2 by lia. f_equal. lia.
  - intros i Hi.
    destruct (Nat.eq_dec i (length B - 1)) as [E|E].
    + rewrite (proj2 (Nat.eqb_eq _ _) E). symmetry. apply Nat.eqb_eq. lia.
    + rewrite (proj2 (Nat.eqb_neq _ _) E). symmetry. apply Nat.eqb_neq. lia.
  - unfold file_stopped.
    rewrite (proj2 (nth_error_None (A ++ B) (length B + length A)));
      [exact I|rewrite length_app; lia].
  - left. apply nth_error_None. lia.
Qed.

(** X24. Texts are parsed one after the other: for a text that ends with
    a line feed and a text that starts with [diff --git], the files of the
    two put together are the files of the first followed by the files of the
    second.  No hunk, status or path of a file depends on the files around
    it. *)
Theorem parse_concatenation d1 d2 e :
  startsWith d2 "diff --git" = true ->
  exists files1 files2,
    parseGitDiff (d1 ++ String LF "") e = Ok files1
    /\ parseGitDiff d2 e = Ok files2
    /\ parseGitDiff ((d1 ++ String LF "") ++ d2) e = Ok (files1 ++ files2).
Proof.
  intros Hd2.
  destruct (parseGitDiff_lines (d1 ++ String LF "") e) as [files1 [H1 _]].
  destruct (parseGitDiff_lines d2 e) as [files2 [H2 _]].
  destruct (parseGitDiff_lines ((d1 ++ String LF "") ++ d2) e) as [r [H _]].
  exists files1, files2. split; [exact H1|]. split; [exact H2|].
  rewrite H. f_equal.
  unfold parseGitDiff in H1, H2, H. cbn zeta in H1, H2, H.
  rewrite string_app_assoc in H. cbn [String.append] in H.
  rewrite split_lines_app in H1, H. cbn [split_lines] in H1.
  destruct (split_lines d2) as [|b B] eqn:E2;
    [exfalso; apply (split_lines_nonempty d2); exact E2|].
  assert (Hb : startsWith b "diff --git" = true).
  { unfold startsWith in *.
    apply (first_line_starts "diff --git" d2 b B eq_refl Hd2 E2). }
  set (A := split_lines d1) in *.
  pose proof (parseGitDiff_window _ _ _ _ e [] files1
                (window_before A B b Hb) H1) as Hrun1.
  pose proof (parseGitDiff_window _ _ _ _ e files1 files2
                (window_after A (b :: B)) H2) as Hrun2.
  assert (Hend : while (parseGitDiff_step (A ++ b :: B) e) 1
                   (length (b :: B) + length A, files1 ++ files2)
                 = Ok (files1 ++ files2)).
  { rewrite while_S. unfold parseGitDiff_step.
    replace (length (b :: B) + length A <? length (A ++ b :: B))%nat with false
      by (symmetry; apply Nat.ltb_ge; rewrite length_app; lia).
    reflexivity. }
  apply Hrun2 in Hend. rewrite Nat.add_0_r in Hrun1. cbn [app] in Hrun1.
  apply Hrun1 in Hend.
  rewrite (while_fuel_mono _ _ _ _ H) in Hend; [congruence|].
  rewrite !length_app. cbn [length]. lia.
Qed.

Lemma parse_concatenation_witness :
  exists files1 files2,
    parseGitDiff ("diff --git a/x b/x
@@ -1 +1 @@
-a
+b" ++ String LF "") true = Ok files1
    /\ parseGitDiff "diff --git a/y b/y
new file mode 100644
@@ -0,0 +1 @@
+c" true = Ok files2
    /\ parseGitDiff (("diff --git a/x b/x
@@ -1 +1 @@
-a
+b" ++ String LF "") ++ "diff --git a/y b/y
new file mode 100644
@@ -0,0 +1 @@
+c") true = Ok (files1 ++ files2).
Proof. apply parse_concatenation. reflexivity. Defined.

(** ** Lines without a common token *)

Lemma subseq_In s l x : subseq s l -> In x s -> In x l.
Proof.
  induction 1 as [l|y s l H IH|y s l H IH]; intros Hin.
  - destruct Hin.
  - destruct Hin as [->|Hin]; [left; reflexivity|right; auto].
  - right. auto.
Qed.

Lemma no_normal_tokens r kind other :
  kind <> normal -> other <> normal -> other <> kind ->
  normal_values r = [] -> Forall (fun w => wtype w <> other) r ->
  r = word_tokens kind (map value r).
Proof.
  intros Hk Ho Hne Hn Hall. unfold normal_values in Hn.
  induction Hall as [|[t v] r Hw _ IH]; [reflexivity|].
  cbn [filter wtype] in Hn. cbn [wtype] in Hw.
  cbn [map value word_tokens].
  destruct t, kind, other; try congruence; cbn in Hn; try discriminate Hn;
    f_equal; apply IH; exact Hn.
Qed.

(** X25. When the two lines of a pair share no token, all is marked: the
    word diff of the delete side is the tokens of the old line, all of kind
    delete, and that of the add side the tokens of the new line, all of kind
    add.  So it is when one of the lines is empty. *)
Theorem disjoint_lines_all_changed oldLine newLine :
  (forall t, In t (tokenize oldLine) -> ~ In t (tokenize newLine)) ->
  computeLineDiff oldLine newLine delete
  = Ok (word_tokens delete (tokenize oldLine))
  /\ computeLineDiff oldLine newLine add
     = Ok (word_tokens add (tokenize newLine)).
Proof.
  intros Hdisj.
  destruct (computeLCS_common (tokenize oldLine) (tokenize newLine))
    as [lcs (Hl & Hso & Hsn)].
  assert (Hnil : lcs = []).
  { destruct lcs as [|x lcs]; [reflexivity|]. exfalso.
    apply (Hdisj x); eapply subseq_In; eauto; left; reflexivity. }
  subst lcs. split.
  - destruct (computeLineDiff_normals oldLine newLine delete)
      as [r [l (Hr & Hl' & [Hd _] & Hn)]].
    assert (l = []) by congruence. subst l.
    destruct (Hd eq_refl) as [Hv Hall].
    rewrite Hr, <- Hv. f_equal.
    apply (no_normal_tokens r delete add); try discriminate; assumption.
  - destruct (computeLineDiff_normals oldLine newLine add)
      as [r [l (Hr & Hl' & [_ Ha] & Hn)]].
    assert (l = []) by congruence. subst l.
    destruct (Ha eq_refl) as [Hv Hall].
    rewrite Hr, <- Hv. f_equal.
    apply (no_normal_tokens r add delete); try discriminate; assumption.
Qed.

Lemma disjoint_lines_all_changed_witness :
  computeLineDiff "foo" "bar baz" delete
  = Ok (word_tokens delete (tokenize "foo"))
  /\ computeLineDiff "foo" "bar baz" add
     = Ok (word_tokens add (tokenize "bar baz")).
Proof.
  apply disjoint_lines_all_changed. intros t H1 H2.
  vm_compute in H1, H2.
  destruct H1 as [<-|[]]. destruct H2 as [H|[H|[H|[]]]]; discriminate H.
Defined.

(** ** The row of the cursor *)

Lemma nth_error_indexed_from {A} (l : list A) k i :
  nth_error (indexed_from k l) i
  = match nth_error l i with
    | Some x => Some (k + i, x)
    | None => None
    end.
Proof.
  revert k i. induction l as [|x l IH]; intros k [|i]; try reflexivity.
  - rewrite indexed_from_cons. cbn [nth_error]. rewrite Nat.add_0_r. reflexivity.
  - rewrite indexed_from_cons. cbn [nth_error]. rewrite IH.
    destruct (nth_error l i); [|reflexivity]. do 2 f_equal. lia.
Qed.

Lemma nth_error_visibleLines lines offset vh i :
  (0 <= offset)%Z -> (0 <= vh)%Z ->
  nth_error (visibleLines lines offset vh) i
  = if (Z.of_nat i <? vh)%Z then at_index lines (offset + Z.of_nat i) else None.
Proof.
  intros Ho Hvh0. unfold visibleLines, js_slice, at_index.
  destruct (Z.ltb_spec offset 0) as [H|_]; [lia|].
  destruct (Z.ltb_spec (offset + Z.of_nat i) 0) as [H|_]; [lia|].
  rewrite nth_error_firstn.
  destruct (Z.ltb_spec (Z.of_nat i) vh) as [Hi|Hi].
  - assert (Hvh : (offset + vh <? 0)%Z = false) by (apply Z.ltb_ge; lia).
    rewrite Hvh.
    destruct (Z.lt_ge_cases (offset + Z.of_nat i) (Z.of_nat (length lines)))
      as [Hin|Hout].
    + replace (i <? _)%nat with true by (symmetry; apply Nat.ltb_lt; lia).
      rewrite nth_error_skipn_add. f_equal. lia.
    + rewrite (proj2 (nth_error_None lines (Z.to_nat (offset + Z.of_nat i))))
        by lia.
      destruct (i <? _)%nat; [|reflexivity].
      apply nth_error_None. rewrite length_skipn. lia.
  - replace (i <? _)%nat with false; [reflexivity|].
    symmetry. apply Nat.ltb_ge.
    destruct (Z.ltb_spec (offset + vh) 0); lia.
Qed.

(** X26. A cursor inside the viewport is a row on the screen, as long as
    the scroll offset is not negative: when it is not, and the cursor stands
    on a virtual line inside the viewport, the rows of the canvas hold that
    line, selected, [cursorLine - scrollOffset] rows down; every row shows
    the virtual line at its place from the scroll offset, and no other row
    is selected.  (With a negative scroll offset [slice] counts from the end
    of the list, and the rows are others.) *)
Theorem cursor_row_is_shown files termHeight showLineNumbers lineNumberWidth s :
  (0 <= scrollOffset s)%Z ->
  cursor_visible (lines_of files s) (viewportHeight termHeight) s ->
  exists rows vLine,
    content_rows files termHeight showLineNumbers lineNumberWidth s = Some rows
    /\ at_index (lines_of files s) (cursorLine s) = Some vLine
    /\ nth_error rows (Z.to_nat (cursorLine s - scrollOffset s))
       = Some (renderLine files (collapsedFiles s) (collapsedHunks s)
                 showLineNumbers lineNumberWidth vLine true)
    /\ forall i row,
         nth_error rows i = Some row ->
         exists v,
           at_index (lines_of files s) (scrollOffset s + Z.of_nat i) = Some v
           /\ row = renderLine files (collapsedFiles s) (collapsedHunks s)
                      showLineNumbers lineNumberWidth v
                      (Z.of_nat i =? cursorLine s - scrollOffset s)%Z.
Proof.
  intros Ho (Hc & Hv).
  destruct (at_index_in_range (lines_of files s) (cursorLine s) Hc) as [vLine Hat].
  unfold content_rows. cbn zeta. fold (lines_of files s).
  assert (Hfiles : (length files =? 0)%nat = false).
  { apply Nat.eqb_neq. intros E. destruct files; [|discriminate E].
    unfold lines_of in Hc. cbn in Hc. lia. }
  rewrite Hfiles.
  set (f := fun p : nat * VirtualLine =>
              renderLine files (collapsedFiles s) (collapsedHunks s)
                showLineNumbers lineNumberWidth (snd p)
                (scrollOffset s + Z.of_nat (fst p) =? cursorLine s)%Z).
  assert (Hrow : forall i,
            nth_error
              (map f (indexed_from 0
                        (visibleLines (lines_of files s) (scrollOffset s)
                           (viewportHeight termHeight)))) i
            = if (Z.of_nat i <? viewportHeight termHeight)%Z
              then match at_index (lines_of files s)
                           (scrollOffset s + Z.of_nat i) with
                   | Some v =>
                       Some (renderLine files (collapsedFiles s)
                               (collapsedHunks s) showLineNumbers
                               lineNumberWidth v
                               (Z.of_nat i =? cursorLine s - scrollOffset s)%Z)
                   | None => None
                   end
              else None).
  { intros i. rewrite nth_error_map, nth_error_indexed_from.
    rewrite nth_error_visibleLines by lia.
    destruct (Z.of_nat i <? viewportHeight termHeight)%Z; [|reflexivity].
    destruct (at_index (lines_of files s) (scrollOffset s + Z.of_nat i));
      [|reflexivity].
    cbn [option_map]. unfold f. cbn [fst snd Nat.add]. do 2 f_equal.
    destruct (Z.eqb_spec (scrollOffset s + Z.of_nat i) (cursorLine s));
      destruct (Z.eqb_spec (Z.of_nat i) (cursorLine s - scrollOffset s));
      try reflexivity; lia. }
  eexists. exists vLine. split; [reflexivity|]. split; [exact Hat|].
  unfold indexed_from in Hrow. split.
  - rewrite Hrow.
    replace (Z.of_nat (Z.to_nat (cursorLine s - scrollOffset s)))
      with (cursorLine s - scrollOffset s)%Z by lia.
    destruct (Z.ltb_spec (cursorLine s - scrollOffset s)
                (viewportHeight termHeight)) as [_|H]; [|lia].
    replace (scrollOffset s + (cursorLine s - scrollOffset s))%Z
      with (cursorLine s) by lia.
    rewrite Hat, Z.eqb_refl. reflexivity.
  - intros i row Hi. rewrite Hrow in Hi.
    destruct (Z.of_nat i <? viewportHeight termHeight)%Z; [|discriminate Hi].
    destruct (at_index (lines_of files s) (scrollOffset s + Z.of_nat i)) as [v|];
      [|discriminate Hi].
    injection Hi as <-. exists v. auto.
Qed.

Lemma cursor_row_is_shown_witness :
  exists rows vLine,
    content_rows sample_files 8 true 3
      {| scrollOffset := 1; cursorLine := 2; collapsedFiles := [];
         collapsedHunks := [] |} = Some rows
    /\ at_index (lines_of sample_files
                   {| scrollOffset := 1; cursorLine := 2; collapsedFiles := [];
                      collapsedHunks := [] |}) 2 = Some vLine
    /\ nth_error rows (Z.to_nat (2 - 1))
       = Some (renderLine sample_files [] [] true 3 vLine true)
    /\ forall i row,
         nth_error rows i = Some row ->
         exists v,
           at_index (lines_of sample_files
                       {| scrollOffset := 1; cursorLine := 2;
                          collapsedFiles := []; collapsedHunks := [] |})
             (1 + Z.of_nat i) = Some v
           /\ row = renderLine sample_files [] [] true 3 v
                      (Z.of_nat i =? 2 - 1)%Z.
Proof.
  apply (cursor_row_is_shown sample_files 8 true 3
           {| scrollOffset := 1; cursorLine := 2; collapsedFiles := [];
              collapsedHunks := [] |}).
  - vm_compute. discriminate.
  - vm_compute. repeat split; discriminate.
Defined.

(** ** The handler never fails *)

(** The loop of [findNextHunk] and [findNextFile] ends within its fuel
    from any line, on the list or off it. *)
Lemma find_line_total lines wanted fromLine direction :
  exists r, find_line lines wanted fromLine direction = Ok r.
Proof.
  unfold find_line.
  destruct (while_rule (find_step lines wanted direction)
              (fun _ => True) (fun _ => True)
              (fun line =>
                 if ((0 <=? line)%Z && (line <? Z.of_nat (length lines))%Z)
                 then match direction with
                      | Forward => Z.to_nat (Z.of_nat (length lines) - line)
                      | Backward => Z.to_nat (line + 1)
                      end
                 else 0))
    with (fuel := S (length lines)) (s := (fromLine + delta direction)%Z)
    as [found [Hw _]].
  - intros line _. unfold find_step.
    destruct ((0 <=? line)%Z && (line <? Z.of_nat (length lines))%Z) eqn:Hin;
      cbn [negb]; [|exact I].
    apply andb_true_iff in Hin. destruct Hin as [H0 H1].
    apply Z.leb_le in H0. apply Z.ltb_lt in H1.
    assert (Hless :
              (if ((0 <=? line + delta direction)%Z
                   && (line + delta direction <? Z.of_nat (length lines))%Z)
               then match direction with
                    | Forward =>
                        Z.to_nat (Z.of_nat (length lines)
                                  - (line + delta direction))
                    | Backward => Z.to_nat (line + delta direction + 1)
                    end
               else 0)
              < match direction with
                | Forward => Z.to_nat (Z.of_nat (length lines) - line)
                | Backward => Z.to_nat (line + 1)
                end).
    { destruct ((0 <=? line + delta direction)%Z
                && (line + delta direction <? Z.of_nat (length lines))%Z);
        destruct direction; cbn [delta]; lia. }
    destruct (at_index lines line) as [v|]; [destruct (wanted v)|];
      auto.
  - exact I.
  - destruct ((0 <=? fromLine + delta direction)%Z
              && (fromLine + delta direction <? Z.of_nat (length lines))%Z)
      eqn:Hin; [|lia].
    apply andb_true_iff in Hin. destruct Hin as [H0 H1].
    apply Z.leb_le in H0. apply Z.ltb_lt in H1.
    destruct direction; cbn [delta] in *; lia.
  - rewrite Hw. cbn [bind]. destruct found; eexists; reflexivity.
Qed.

(** X27. The key handler never fails: from every state, also one whose
    cursor is off the list (as it is after [j] on a diff without files) or
    outside the viewport, and for every terminal height, every key gives a
    next state; the loops of [findNextHunk] and [findNextFile] never run
    on. *)
Theorem key_handler_total files termHeight input key s :
  exists s' effects, useInput files termHeight input key s = Ok (s', effects).
Proof.
  unfold useInput. cbn zeta.
  assert (Hfind : forall wanted direction,
            exists s' effects,
              (newLine <- find_line
                            (virtualLines files (collapsedFiles s)
                               (collapsedHunks s))
                            wanted (cursorLine s) direction ;;
               Ok (move_to s newLine
                     (ensureCursorVisible (viewportHeight termHeight) newLine
                        (scrollOffset s)),
                   @nil Effect)) = Ok (s', effects)).
  { intros wanted direction.
    destruct (find_line_total
                (virtualLines files (collapsedFiles s) (collapsedHunks s))
                wanted (cursorLine s) direction) as [r Hr].
    rewrite Hr. cbn [bind]. eexists. eexists. reflexivity. }
  destruct (escape key || (input =? "q")); [eexists; eexists; reflexivity|].
  destruct (upArrow key || (input =? "k")); [eexists; eexists; reflexivity|].
  destruct (downArrow key || (input =? "j")); [eexists; eexists; reflexivity|].
  destruct (pageUp key); [eexists; eexists; reflexivity|].
  destruct (pageDown key); [eexists; eexists; reflexivity|].
  destruct (input =? "n"); [apply Hfind|].
  destruct (input =? "p"); [apply Hfind|].
  destruct (input =? "]"); [apply Hfind|].
  destruct (input =? "["); [apply Hfind|].
  destruct (key_return key); [|eexists; eexists; reflexivity].
  destruct (at_index (virtualLines files (collapsedFiles s) (collapsedHunks s))
              (cursorLine s)) as [[fi|fi hi|fi hi ci]|];
    eexists; eexists; reflexivity.
Qed.
